(* ===== verification/_CoqProject ===== *)
-Q . S2P
Prelude.v
Js.v
Host.v
Types.v
ReacordPackage.v
ReacordCore.v
RefWorld.v
Pool.v
Dispatch.v
Lifecycle.v
Ascent.v
Allocation.v
Variants.v
Machine.v
Holding.v
Sessions.v
Config.v
Refinement.v
Adapter.v
Ownership.v
Teardown.v
Progress.v
Arrays.v
Reentrant.v
Wellformed.v
Nested.v
Overflow.v
Fuel.v
Agreement.v
Delivery.v
