(* ===== verification/Prelude.v ===== *)
(** * Reacord instance manager: a verification development

    ** The program

    The repository is the core of Reacord, a library that renders a React
    tree into a Discord message and keeps it in sync.  The sources under
    [src/] are two variants of one abstract class, [Reacord]:

    - [src/packages/reacord/library/core/reacord.tsx] (the package), and
    - [src/library/core/reacord.ts] (the older core, which also has the two
      factory methods [createChannelRendererInstance] and
      [createCommandReplyRendererInstance]).

    The class owns one piece of mutable state, the array [renderers] of the
    live renderers, and a read-only [config] with the optional number
    [maxInstances].  Its methods are
    - [createInstance]: evicts the oldest renderer when the pool is over
      capacity, pushes the new renderer, opens a reconciler container for
      it, renders the initial content if there is one, and returns the
      instance object [{render, deactivate, destroy}] (three closures over
      the renderer and its container);
    - [deactivate]: filters the renderer out of the pool, then calls
      [renderer.deactivate()];
    - [handleComponentInteraction]: offers an interaction to the renderers
      in pool order and stops at the first that answers [true];
    - the getter [maxInstances]: [config.maxInstances ?? 50].
    Everything else the class touches is external: the [Renderer] objects
    (their [handleComponentInteraction], [deactivate], [destroy]), the
    react-reconciler ([createContainer], [updateContainer]), the two
    renderer constructors and the [InstanceProvider] element.

    ** The model

    The model is a shallow embedding.  JavaScript's effects are a state
    and exception monad [Eff S A := S -> Outcome A * S]: an exception is
    the outcome [Throw e], and the state a throwing call leaves behind is
    kept, as in JavaScript.  Object identity ([!==]) is equality of
    references, which are natural numbers.

    The files, in dependency order:

    - [Prelude] (this file): [exn] (with [OutOfFuel], the mark of a
      bounded run that was cut off), [Outcome], the monad [Eff] with its
      notations (scope [eff_scope]), its laws up to pointwise equality
      ([≡], with [Proper] instances), the specification predicates
      [ensures] and [preserves] with their rules, the tactics [eff_run]
      and [eff_cases], and the hint database [eff].
    - [Js]: the JavaScript values the class computes with: [number]
      (finite rationals, NaN, the infinities), the comparison
      [array.length > n] ([gt], characterised by the integer [limit]), the
      nullish coalescing [??], and the array operations the class uses
      ([push] is [l ++ [x]], [l[0]] is [l !! 0], [filter (it !== x)] is
      [without x]) with the list lemmas every component shares.
    - [Host]: what the class consumes and does not define, as the type
      class [Host]: the renderer contract, the reconciler, the renderer
      constructors and the provider element, each an operation on the
      state [World] of the outside; the log entries [Call]; and the laws
      the specification puts on them, the class [HostContract].  All of it
      is modelled from the specification.
    - [Types]: the types both source files declare ([ReacordConfig],
      [ReacordInstance], the fields of [Reacord]), the state of the whole
      system [State := {this; world; calls}], the external calls as the
      class writes them (each logs its [Call], then runs on [world]), and
      the frame and log predicates [frames_this], [issued], [logs].
    - [ReacordPackage]: module [Package], the class of [reacord.tsx], one
      definition per method; the object literal of [createInstance] is
      [instanceOf].
    - [ReacordCore]: module [Core], the class of [reacord.ts], likewise,
      with its two factory methods.
    - [RefWorld]: a concrete [Host] that computes ([ref_host]), with
      configurable claims and failures; it satisfies [HostContract] and
      carries the witnesses and the scenarios of the specification.
    - [Pool]: [createInstance] split into the registration ([register]:
      eviction test and push) and what follows it ([Package_attach],
      [Core_attach]); the pool, the outcome and the calls of a
      registration on every branch; the invariants [within_capacity] and
      [pool_NoDup] and their preservation by each operation.
    - [Dispatch]: [handleComponentInteraction] against a reference
      definition of its run ([offered], [dispatch_outcome],
      [dispatch_world]).
    - [Lifecycle]: the instance closures [render], [deactivate], [destroy]
      and the results of [createInstance], with their error paths; the
      creation of an instance followed by its removal.
    - [Ascent]: what only grows in the outside world.  An order on
      worlds that every operation of the host goes up in (the class
      [Ascending]) is gone up in by every method of the class and of an
      instance, in both variants ([ascends], with the tactic [ascent]
      that goes through a method as it is written).
    - [Allocation]: renderers as allocated objects: under [HostContract]
      every operation keeps the renderers that exist ([grows], an
      instance of [Ascent]), the pool holds existing renderers, each once
      ([pool_allocated]), across every operation of the older core, and
      across whatever makes a new renderer and registers it ([fresh],
      [made_pool_allocated]).
    - [Variants]: the two source variants compared.
    - [Machine]: the class as a state machine.  The interface [Facade]
      (the creating calls and the dispatch of a variant) has the instances
      [Package_facade] and [Core_facade]; a [client] is the state with the
      instance objects handed out; [step] is the labelled transition
      relation, [exec] its executable form, [run] its sequences.  An
      invariant is carried along every run by rule induction
      ([run_sound]) once the variant is shown to keep it (the class
      [FacadeInvariant], with an instance per variant and invariant).
    - [Holding]: what the instances a program holds are over.  Given what
      an instance uses and what exists of that kind in a world, a variant
      that makes what its instances use and keeps what exists (class
      [Holding]) hands out instances over things that differ pairwise,
      along every run ([holders], [run_holders]); used for renderers in
      [Ownership] and for sessions in [Sessions].
    - [Sessions]: the sessions of the tree-diffing bridge.  A session is
      the container [createContainer] returns; the contract of the bridge
      (class [BridgeContract], from §4.2 of the specification) says it
      is new and bound to the renderer, for good.  The log projections
      [updates] (the content handed to a session) and [renders] (the
      content a program renders through an instance), what a variant
      owes to them (class [Rendering]), and the sessions of the reference
      world ([ref_bridge]).
    - [Config]: the configuration object is shared with the caller, who
      may assign [config.maxInstances] between two calls
      ([write_maxInstances]); [shared_step] adds that assignment to the
      transitions of [Machine], and the invariant [bounded] follows the
      largest capacity the limit ever gave.
    - [Refinement]: the session pool as the specification describes it
      (module [SessionPool], modelled from the specification: positional
      eviction, [register], [remove]), the abstraction of an object to
      it, and the proof that the class implements it, as a simulation
      with labels.  Every call has an event of the session pool, fixed
      by the call and by what the host answers ([registration]: the
      registration of the renderer, or the eviction that throws;
      [explains]: the removal of the renderer the instance is over; no
      event for a render or a dispatch); a run carries the events of its
      calls ([traced]), and the session pool that takes them ends in the
      abstraction of the object ([traced_refines]).  What a facade owes
      to that proof is the class [Refines]; the simulation is proved
      once, against it.
    - [Adapter]: the abstract entry points [send], [reply] and
      [ephemeralReply] (classes [Adapter.t] and [CoreAdapter.t], from the
      declarations) and the adapters the specification describes, which
      make a renderer and delegate ([delegating], over the class
      [Factories] with the laws [Encapsulated] and [Allocating];
      [core_delegating] over the factory methods of the older core).  An
      adapter is a [Facade]; the invariants and the refinement of the
      class are proved of its adapters, and a facade that only renames
      the calls of another has the same runs ([run_map]).
    - [Ownership]: the renderer an instance is over ([owns]) and the
      invariant that the instances a program holds are over different
      renderers, for the variants that make their renderers (instances
      of [Holding] for the older core and the delegating adapters).
    - [Teardown]: the pool holds the renderers that were not torn down,
      and a renderer that left it does not come back: the renderers a
      log tears down ([torn]) and the order [stays_out] on states, which
      every call of the older core goes up in, hence every run.
    - [Progress]: the progress of the eviction: what a registration does
      to the pool and the log ([registration]), and the potential
      ([behind]) that every registration of a new renderer decreases.
    - [Arrays]: [this.renderers] as a reference into a heap of array
      objects ([HState]): [push] extends the array in place
      ([array_push]), [filter] allocates a new array and the assignment
      rebinds the field ([assign_filter]); the package's methods over it
      (module [Shared]) and their simulation by the list model
      ([simulates], through [view]).
    - [Reentrant]: handlers that call back into the class while it
      dispatches (class [Reentrant], module [Reentry]): the [for ... of]
      loop over the array object it started with, with fuel.
    - [Wellformed]: the well-formedness of the heap ([heap_wf]) and the
      order [extends] (arrays only grow at their end), kept by every
      method over the shared arrays, every call back of a handler and
      the dispatch ([safe]); an invariant of the list model as a
      property of the heap ([observed]).
    - [Nested]: calls back from any external call, to any depth.  The
      methods over the heap with the external call as a parameter
      ([runner], module [Nested]): those of the package, and what the
      older core writes differently ([Nested.Core_createInstance], its
      two factory methods, whose [new] is an external call that may call
      back as well, and [Nested.Core_render]); the environment's calls
      back (class [Environment], [entrant]: a method of the class, a
      method of an instance, a dispatch, or a call of the older core,
      [older]); [Nested.calling], an external call followed by its calls
      back, and [Nested.enter_at], a call into the class by recursion on
      the depth of nesting left; [nested_step], one call of a program
      with whatever it leads to.  [createInstance] of either class is the
      registration followed by the rest ([registering], [hattach],
      [Core_hattach]); what the methods keep when their external calls
      do (section [traversal]) and the induction on the depth (section
      [depth]).
    - [Overflow]: the eviction whose [deactivate()] registers a
      renderer, step by step.
    - [Fuel]: every call returns.  The order [below] of runs in depth and
      fuel; the hosts that return ([Clean]), the calls an entrant can make
      ([issues]), and the proof that a call into the class ends within
      the bounds ([finishes], by induction on the depth, over the
      invariant that every array of the heap has at most [B] elements).
    - [Agreement]: the heap models against the earlier ones.  With the
      external calls made directly ([direct]) the methods of the older
      core over the heap are simulated by those of [Core] over the list;
      with the environment [handlers_only] the runs of [Nested] are those
      of [Reentrant] ([nested_runs_of_reentrant]).
    - [Delivery]: what a dispatch offers when handlers call back: the
      log of the calls to handlers ([heard]) against the array the loop
      iterates.

    ** What the theorems show

    Each claim's theorem carries its id (C1, C2, ...) in its doc comment;
    a theorem with hypotheses has a witness, its application to a run of
    the reference world.

    - Reachable states ([Machine]): for every sequence of calls, every
      host and whichever calls throw, the configuration is unchanged and
      the pool holds at most [max 0 (floor maxInstances + 1)] renderers,
      in both variants; for an integer limit [N >= 0] that is [N + 1], and
      [N + 1] is reached: registering [N + 1] renderers on a new object
      leaves them all in the pool, on every host.  In the older core,
      under the allocation contract, no renderer is in the pool twice,
      and an eviction is exactly "oldest out, new one in".
    - Assignments of the limit ([Config]): when the caller assigns
      [config.maxInstances] between calls, the pool holds at most the
      largest capacity the limit ever gave; the limit in force is not
      enforced on a pool that is already longer, which stays as long as
      it is at every [createInstance].
    - [createInstance] ([Pool], [Lifecycle]): the object after the call on
      every branch; first-in first-out eviction through [deactivate]; the
      calls made and their order; the initial render; and the error
      paths: a throwing eviction cancels the creation, a failure after the
      push leaves the renderer registered with no handle, a negative limit
      makes every creation a [TypeError], NaN and [Infinity] switch
      eviction off, a renderer registered twice is evicted at every
      position.
    - Dispatch ([Dispatch], [Lifecycle]): first match wins; an unclaimed
      interaction visits every renderer once and changes nothing; a
      throwing handler ends the dispatch; a deactivated renderer is never
      offered an interaction.
    - Instance methods ([Lifecycle]): the exact run of [render],
      [deactivate] and [destroy]; removal is idempotent on the pool but
      the renderer's method is called again at every call, and [render]
      still reaches the reconciler after [deactivate] or [destroy].
    - Ownership ([Ownership]): where the class makes the renderers (the
      older core, the delegating adapters), under the allocation
      contract, no two instances a program holds are over the same
      renderer.
    - Sessions ([Sessions]): when the bridge honours its contract, along
      every run of either variant the instances a program holds are over
      sessions that differ pairwise, each bound to the renderer of its
      instance; and the content handed to the session of an instance is
      the content of the [render] calls on that instance, in order, and
      nothing else: no other instance, creating call, dispatch or
      teardown reaches it.
    - Teardown ([Teardown]): in the older core, under the allocation
      contract, a renderer on which [deactivate] or [destroy] was called
      is out of the pool, and a renderer that is out of the pool is never
      in it again and is never offered an interaction again, along every
      run: the pool is the sequence of the renderers still active.
    - Variants ([Variants]): both [createInstance] leave the same object
      and tear down the same renderers; they agree entirely on a host
      that ignores the provider.
    - Shared arrays and handlers that call back ([Arrays],
      [Reentrant]): the list model is what a program observes of the heap
      model; without calls back the loop over the array object is the
      dispatcher of the list model; with calls back it ends when there is
      a limit and may not end when there is none; when declining handlers
      make no call back the live array and a snapshot of it cannot be
      told apart.  In general ([Delivery]) a dispatch offers the
      interaction to a prefix of the array it started with as that array
      is when the dispatch ends: the pool at the start followed by the
      renderers pushed onto it meanwhile, each position once; so a
      renderer deactivated during a dispatch is still offered the
      interaction.
    - Calls back from any external call ([Nested], [Overflow], [Fuel],
      [Agreement]): in every heap a program of either class reaches,
      whatever is called back, from whichever external call and to any
      depth, the field [renderers] is bound to an array that exists and
      every array is what it was with renderers pushed at its end.  The
      capacity of the pool holds there too when [renderer.deactivate()]
      makes no call back, and fails when it does: [createInstance] tests
      the capacity before the eviction and pushes after it, so a
      [deactivate()] that registers a renderer leaves the pool one above
      its capacity ([eviction_that_registers]).  Every call returns
      ([nested_call_returns]): when the host returns, [deactivate()]
      makes no call back, the calls back go down in a rank and there is a
      limit, a call into the class ends, with every array within the
      bound it started under, and the depth and the fuel that were enough
      give the same run when they are raised.  The factory methods, the
      [render], the teardown and the dispatch of the older core over the
      heap do what they do over the list
      ([older_core_heap_refines_list]).
    - Adapters ([Adapter]): an adapter that hands its renderers to
      [createInstance], whatever else it does, keeps the configuration
      and the capacity along every run, and the instances it hands out
      are those of [createInstance]; when its factories construct their
      renderers, on a host that honours the allocation contract, no
      renderer is in the pool twice and the events of its calls take the
      specification's session pool to the abstraction of the object; the
      same holds of the adapters of the older core, whose runs are runs of
      the factory methods.
    - Progress ([Progress]): "the oldest instances will be disabled": with
      an integer limit [N >= 0], every renderer in the pool is out of it,
      and [deactivate] was called on it, after [2 * N + 1] registrations
      of new renderers, whatever the host does; the bound is reached when
      an eviction throws.
    - Round trip ([Lifecycle]): under the limit, [destroy] or [deactivate]
      right after [createInstance] gives the object back exactly when the
      renderer was not in the pool already.
    - Refinement ([Refinement]): [createInstance] implements [register]
      and the instance's [deactivate] and [destroy] implement [remove];
      under the allocation contract every run of the older core has a
      sequence of events, one for each call and fixed by it, and the
      session pool that takes those events from the abstraction of the
      new object ends in the abstraction of the object the run ends in;
      so does every run of the package when its adapter registers each
      renderer once; the pool of the package is always a subsequence of
      the registrations, in their order.

    ** Bounds and fuel

    The list model uses no fuel: its only loop, the [for ... of] of
    [handleComponentInteraction], is structural recursion over the pool.
    The loop of [Reentrant] iterates an array that handlers may extend
    while it runs, so it takes fuel and answers [None] when it runs out:
    fuel above the length of the pool is enough when no handler calls back
    or when declining handlers do not ([heap_refines_list],
    [live_loop_is_snapshot_loop]); fuel above the length of the pool and
    the limit plus one is enough whatever the handlers call
    ([dispatch_ends_within_limit]); no fuel is enough for some handlers
    when there is no limit ([dispatch_may_not_end]).
    [Nested] bounds a run twice: by the depth of nesting of the calls
    external code makes back, and by the fuel of each [for ... of] loop.
    A run that exceeds either ends with [OutOfFuel], which propagates as
    an exception does, in the state it had reached: a run that is cut off
    is a prefix of the run of the program, so what holds of every state a
    bounded run reaches (the well-formedness of the heap, the capacity)
    holds of every state the program passes through.  A run that is not
    cut off does not depend on the bounds ([enter_at_below]), and the
    bounds that are enough are these ([nested_call_returns]): a depth
    above the rank of the call, where every call back has a rank below
    that of the call it comes from; and fuel above [B], where every
    array of the heap has at most [B] elements and the limit plus one is
    at most [B]: the registration keeps every array within [B] (it
    evicts before it pushes, and an eviction that makes no call back
    leaves room), so no loop iterates an array longer than [B].  Without
    a limit, or with a handler that dispatches again at every call,
    there are no such bounds ([dispatch_may_not_end]).
    The progress of the eviction counts registrations: [2 * N + 1] of them
    for a limit [N], one for each place in front of the renderer, one more
    for each eviction that may throw, and one for the renderer itself.
    Array lengths are natural numbers (JavaScript bounds them by 2^32 - 1;
    a pool of that size is out of reach and the bound is not modelled).
    [number] has all rationals as finite values, a superset of the doubles:
    the only operation on it is its comparison with an array length, which
    is exact on doubles.

    ** Not modelled

    - A caller that assigns the configuration while a call of the class
      is running (from a handler, say): in [Config] the assignments are
      between the calls of a program, and the heap models ([Arrays],
      [Nested]) keep the configuration fixed.
    - External code that catches the exception of a call it makes back,
      or that calls back before its own work: in [Nested] an external
      call does its work on the outside, then makes its calls back in
      order, and an exception of one of them ends the external call.  In
      the list model the external operations act on [world] only.
    - A program that calls methods of both classes on one object: the
      entrants of [Nested] hold the calls of both, and the theorems hold
      of every mixture, hence of each class; an object is of one class.
    - Promises: the reconciler's work is modelled as completing inside
      [updateContainer]; nothing of the class awaits.
    - Adapters other than those that make a renderer and hand it to
      [createInstance] (or call a factory method of the older core): the
      abstract methods have no body under [src/], and an adapter is code
      of the library's user.
    - The concrete renderers, the reconciler's diffing, the Discord client
      and the React components: they are behind the [Host] interface.
      The sessions of the specification are the containers the
      reconciler returns; of what the reconciler does with one, only
      that it stays bound to its renderer is stated ([BridgeContract]):
      the difference it computes between two contents and the operations
      it forwards to the renderer are the engine's own, and the
      specification leaves them open.
    - The sessions of an adapter of the package ([Adapter]): the
      invariants of [Sessions] are shown of the class called directly
      and of the older core. *)

From stdpp Require Import base tactics option list.

(** ** Exceptions and outcomes *)

(** The exceptions a call of the class can end with: the [TypeError] the
    language raises when a method is called on [undefined], and whatever
    the external code throws, identified by a code.  [OutOfFuel] is not an
    exception of the program: it marks a run of a bounded model that was
    cut off (the nested calls of [Nested]), and it propagates as an
    exception does, so that the state of a run that was cut off is a state
    the program passes through. *)
Inductive exn : Type :=
| TypeError
| HostError (code : nat)
| OutOfFuel.

#[export] Instance exn_eq_dec : EqDecision exn.
Proof. solve_decision. Defined.

(** How a call ends: normally with a value, or with an exception. *)
Inductive Outcome (A : Type) : Type :=
| Normal (a : A)
| Throw (e : exn).
Arguments Normal {A} a.
Arguments Throw {A} e.

#[export] Instance Outcome_eq_dec `{EqDecision A} : EqDecision (Outcome A).
Proof. solve_decision. Defined.

Definition is_Normal {A} (o : Outcome A) : bool :=
  match o with Normal _ => true | Throw _ => false end.

Definition is_Throw {A} (o : Outcome A) : bool :=
  match o with Normal _ => false | Throw _ => true end.

(** ** The state and exception monad *)

(** A computation over a state [S]: the state survives an exception. *)
Definition Eff (S A : Type) : Type := S → Outcome A * S.

Definition ret {S A} (a : A) : Eff S A := λ s, (Normal a, s).

Definition throw {S A} (e : exn) : Eff S A := λ s, (Throw e, s).

Definition bind {S A B} (c : Eff S A) (k : A → Eff S B) : Eff S B :=
  λ s, match c s with
       | (Normal a, s') => k a s'
       | (Throw e, s') => (Throw e, s')
       end.

Definition get {S} : Eff S S := λ s, (Normal s, s).

Definition gets {S A} (f : S → A) : Eff S A := λ s, (Normal (f s), s).

Definition put {S} (s : S) : Eff S unit := λ _, (Normal tt, s).

Definition modify {S} (f : S → S) : Eff S unit := λ s, (Normal tt, f s).

(** Run a computation over a part [T] of the state [S]. *)
Definition zoom {S T A} (proj : S → T) (upd : T → S → S) (c : Eff T A) :
    Eff S A :=
  λ s, let '(o, t) := c (proj s) in (o, upd t s).

(** The two components of a run. *)
Definition result {S A} (c : Eff S A) (s : S) : Outcome A := (c s).1.
Definition final {S A} (c : Eff S A) (s : S) : S := (c s).2.

Declare Scope eff_scope.
Delimit Scope eff_scope with eff.
Bind Scope eff_scope with Eff.

Notation "'let*' x ':=' c 'in' k" := (bind c (λ x, k))
  (at level 10, x binder, c at level 100, k at level 200) : eff_scope.
Notation "c ;; k" := (bind c (λ _, k))
  (at level 100, k at level 200, right associativity) : eff_scope.

Open Scope eff_scope.

(** ** Equality of computations *)

(** Computations are functions: they are compared pointwise. *)
#[export] Instance eff_equiv {S A} : Equiv (Eff S A) :=
  λ c1 c2, ∀ s, c1 s = c2 s.

#[export] Instance eff_equivalence {S A} : Equivalence (≡@{Eff S A}).
Proof.
  split.
  - by intros c s.
  - by intros c1 c2 H s.
  - intros c1 c2 c3 H1 H2 s. by rewrite H1.
Qed.

#[export] Instance bind_proper {S A B} :
  Proper ((≡) ==> pointwise_relation A (≡) ==> (≡)) (@bind S A B).
Proof.
  intros c1 c2 Hc k1 k2 Hk s. unfold bind. rewrite Hc.
  destruct (c2 s) as [[a|e] s']; [apply Hk|done].
Qed.

#[export] Instance result_proper {S A} :
  Proper ((≡) ==> (=) ==> (=)) (@result S A).
Proof. intros c1 c2 Hc s ? <-. unfold result. by rewrite Hc. Qed.

#[export] Instance final_proper {S A} :
  Proper ((≡) ==> (=) ==> (=)) (@final S A).
Proof. intros c1 c2 Hc s ? <-. unfold final. by rewrite Hc. Qed.

(** ** Running a computation *)

Section run.
Context {S A B : Type}.
Implicit Types (c : Eff S A) (k : A → Eff S B) (s : S).

Lemma run_eq c s : c s = (result c s, final c s).
Proof. unfold result, final. by destruct (c s). Qed.

Lemma bind_Normal c k s a s' :
  c s = (Normal a, s') → bind c k s = k a s'.
Proof. unfold bind. by intros ->. Qed.

Lemma bind_Throw c k s e s' :
  c s = (Throw e, s') → bind c k s = (Throw e, s').
Proof. unfold bind. by intros ->. Qed.

Lemma result_bind c k s :
  result (bind c k) s =
    match result c s with
    | Normal a => result (k a) (final c s)
    | Throw e => Throw e
    end.
Proof. unfold result, final, bind. by destruct (c s) as [[a|e] s']. Qed.

Lemma final_bind c k s :
  final (bind c k) s =
    match result c s with
    | Normal a => final (k a) (final c s)
    | Throw e => final c s
    end.
Proof. unfold result, final, bind. by destruct (c s) as [[a|e] s']. Qed.

Lemma final_bind_get (k : S → Eff S B) s : final (bind get k) s = final (k s) s.
Proof. done. Qed.

Lemma result_bind_get (k : S → Eff S B) s : result (bind get k) s = result (k s) s.
Proof. done. Qed.

Lemma bind_inv_Normal c k s b s2 :
  bind c k s = (Normal b, s2) →
  ∃ a s1, c s = (Normal a, s1) ∧ k a s1 = (Normal b, s2).
Proof.
  unfold bind. destruct (c s) as [[a|e] s1]; [eauto|done].
Qed.

Lemma bind_inv_Throw c k s e s2 :
  bind c k s = (Throw e, s2) →
  c s = (Throw e, s2) ∨ ∃ a s1, c s = (Normal a, s1) ∧ k a s1 = (Throw e, s2).
Proof.
  unfold bind. destruct (c s) as [[a|e'] s1]; [eauto|].
  intros [= -> ->]. by left.
Qed.
(** What returned normally: each step did. *)
Lemma then_Normal c k s b :
  result (bind c k) s = Normal b →
  ∃ a, result c s = Normal a ∧ result (k a) (final c s) = Normal b.
Proof. rewrite result_bind. destruct (result c s) as [a|]; [eauto|done]. Qed.

Lemma then_ret_Normal c (b b' : B) s :
  result (bind c (λ _, ret b)) s = Normal b' → b' = b.
Proof. rewrite result_bind. destruct (result c s); [by intros [= <-]|done]. Qed.
End run.

(** ** The monad laws *)

Section laws.
Context {S : Type}.

Lemma bind_ret_l {A B} (a : A) (k : A → Eff S B) : bind (ret a) k ≡ k a.
Proof. done. Qed.

Lemma bind_ret_r {A} (c : Eff S A) : bind c ret ≡ c.
Proof. intros s. unfold bind, ret. by destruct (c s) as [[a|e] s']. Qed.

Lemma bind_assoc {A B C} (c : Eff S A) (k : A → Eff S B) (h : B → Eff S C) :
  bind (bind c k) h ≡ bind c (λ a, bind (k a) h).
Proof. intros s. unfold bind. by destruct (c s) as [[a|e] s']. Qed.

Lemma bind_throw {A B} (e : exn) (k : A → Eff S B) : bind (throw e) k ≡ throw e.
Proof. done. Qed.

Lemma result_ret {A} (a : A) (s : S) : result (ret a) s = Normal a.
Proof. done. Qed.

Lemma final_ret {A} (a : A) (s : S) : final (ret a) s = s.
Proof. done. Qed.

Lemma result_throw {A} e (s : S) : result (throw (A:=A) e) s = Throw e.
Proof. done. Qed.

Lemma final_throw {A} e (s : S) : final (throw (A:=A) e) s = s.
Proof. done. Qed.

Lemma result_modify (f : S → S) s : result (modify f) s = Normal tt.
Proof. done. Qed.

Lemma final_modify (f : S → S) s : final (modify f) s = f s.
Proof. done. Qed.

Lemma result_gets {A} (f : S → A) s : result (gets f) s = Normal (f s).
Proof. done. Qed.

Lemma final_gets {A} (f : S → A) s : final (gets f) s = s.
Proof. done. Qed.

Lemma result_get (s : S) : result get s = Normal s.
Proof. done. Qed.

Lemma final_get (s : S) : final get s = s.
Proof. done. Qed.

Lemma bind_gets {A B} (f : S → A) (k : A → Eff S B) s :
  bind (gets f) k s = k (f s) s.
Proof. done. Qed.

Lemma bind_modify {B} (f : S → S) (k : unit → Eff S B) s :
  bind (modify f) k s = k tt (f s).
Proof. done. Qed.
End laws.

(** ** Specifications of computations *)

(** [ensures P c Q]: from a state of [P], the run of [c] (which always
    ends: computations are total functions) ends in an outcome and a state
    related by [Q]. *)
Definition ensures {S A} (P : S → Prop) (c : Eff S A)
    (Q : Outcome A → S → Prop) : Prop :=
  ∀ s, P s → Q (result c s) (final c s).

(** [preserves I c]: [c] keeps the invariant [I], however it ends. *)
Definition preserves {S A} (I : S → Prop) (c : Eff S A) : Prop :=
  ∀ s, I s → I (final c s).

Section rules.
Context {S : Type}.
Implicit Types (P I : S → Prop).

Lemma ensures_ret {A} P (a : A) : ensures P (ret a) (λ o s, o = Normal a ∧ P s).
Proof. by intros s HP. Qed.

Lemma ensures_consequence {A} P P' (c : Eff S A) (Q Q' : Outcome A → S → Prop) :
  ensures P c Q → (∀ s, P' s → P s) → (∀ o s, Q o s → Q' o s) →
  ensures P' c Q'.
Proof. intros Hc HP HQ s Hs. apply HQ, Hc, HP, Hs. Qed.

Lemma ensures_bind {A B} P (c : Eff S A) (k : A → Eff S B)
    (R : Outcome A → S → Prop) (Q : Outcome B → S → Prop) :
  ensures P c R →
  (∀ a, ensures (R (Normal a)) (k a) Q) →
  (∀ e s, R (Throw e) s → Q (Throw e) s) →
  ensures P (bind c k) Q.
Proof.
  intros Hc Hk He s HP. specialize (Hc s HP). revert Hc.
  unfold result, final, bind. destruct (c s) as [[a|e] s']; simpl.
  - apply Hk.
  - apply He.
Qed.

Lemma preserves_ensures {A} I (c : Eff S A) :
  preserves I c ↔ ensures I c (λ _, I).
Proof. done. Qed.

Lemma preserves_ret {A} I (a : A) : preserves I (ret a).
Proof. by intros s. Qed.

Lemma preserves_throw {A} I e : preserves I (throw (A:=A) e).
Proof. by intros s. Qed.

Lemma preserves_get I : preserves I (get (S := S)).
Proof. by intros s. Qed.

Lemma preserves_gets {A} I (f : S → A) : preserves I (gets f).
Proof. by intros s. Qed.

Lemma preserves_modify I (f : S → S) :
  (∀ s, I s → I (f s)) → preserves I (modify f).
Proof. intros Hf s. apply Hf. Qed.

Lemma preserves_bind {A B} I (c : Eff S A) (k : A → Eff S B) :
  preserves I c → (∀ a, preserves I (k a)) → preserves I (bind c k).
Proof.
  intros Hc Hk s HI. specialize (Hc s HI). revert Hc.
  unfold final, bind. destruct (c s) as [[a|e] s']; simpl; [apply Hk|done].
Qed.

Lemma preserves_zoom {T A} I (proj : S → T) (upd : T → S → S) (c : Eff T A) :
  (∀ s t, I s → I (upd t s)) → preserves I (zoom proj upd c).
Proof.
  intros Hupd s HI. unfold final, zoom.
  destruct (c (proj s)) as [o t]. by apply Hupd.
Qed.

Lemma preserves_proper {A} I (c1 c2 : Eff S A) :
  c1 ≡ c2 → preserves I c1 → preserves I c2.
Proof. intros Hc H s HI. rewrite <-Hc. by apply H. Qed.
End rules.

(** ** Automation *)

Create HintDb eff discriminated.
Create Rewrite HintDb eff.

#[export] Hint Rewrite @result_bind @final_bind @result_ret @final_ret
  @result_throw @final_throw @result_modify @final_modify @result_gets
  @final_gets @result_get @final_get : eff.

#[export] Hint Resolve preserves_ret preserves_throw preserves_gets
  preserves_bind preserves_modify preserves_zoom : eff.

(** Unfold the monad's operations and compute. *)
Ltac eff_run :=
  unfold result, final, bind, ret, throw, get, gets, put, modify, zoom in *;
  simpl in *.

(** Split a goal on the outcome of the external call it is stuck on. *)
Ltac eff_cases :=
  repeat match goal with
  | |- context [match ?c ?s with _ => _ end] =>
      let o := fresh "o" in let s' := fresh "s" in let E := fresh "E" in
      destruct (c s) as [[o|o] s'] eqn:E; simpl in *
  | |- context [let '(_, _) := ?c ?s in _] =>
      let o := fresh "o" in let s' := fresh "s" in let E := fresh "E" in
      destruct (c s) as [[o|o] s'] eqn:E; simpl in *
  end.

(** ** Generic facts on options and lists *)

Lemma head_app_singleton {A} (l : list A) (x : A) :
  head (l ++ [x]) = match head l with Some y => Some y | None => Some x end.
Proof. by destruct l. Qed.

Lemma length_snoc {A} (l : list A) (x : A) : length (l ++ [x]) = S (length l).
Proof. rewrite length_app. simpl. lia. Qed.

Lemma NoDup_snoc {A} (l : list A) (x : A) : NoDup (l ++ [x]) ↔ (x ∉ l) ∧ NoDup l.
Proof.
  rewrite NoDup_app. split.
  - intros (Hl & Hx & _). split; [|done]. intros Hin. apply (Hx x Hin). by left.
  - intros [Hx Hl]. split_and!; [done| |apply NoDup_singleton].
    intros y Hy ->%list_elem_of_singleton. done.
Qed.
