(* ===== verification/Js.v ===== *)
(** * JavaScript values and array operations used by the class

    The class computes with three kinds of JavaScript values: the number
    [maxInstances], the possibly [undefined] element [renderers[0]], and
    the array [renderers] itself.  This file models the first as [number],
    the second as [option] ([None] is [undefined]) and the third as a list
    with stdpp's operations: [l ++ [x]] is [push], [l !! 0] is [l[0]] and
    [filter (λ it, it ≠ x) l] is [l.filter((it) => it !== x)].  The lemmas
    about removal by identity are shared by all the components. *)

From stdpp Require Import base tactics option list.
From Stdlib Require Import QArith Qround.
From S2P Require Import Prelude.

Close Scope Q_scope.

(** ** Numbers *)

(** A JavaScript number.  The finite values are rationals, a superset of
    the finite doubles; the class only compares a number with an array
    length. *)
Inductive number : Type :=
| Finite (q : Q)
| NaN
| Infinity
| NegInfinity.

(** The number an integer literal or an array length denotes. *)
Definition of_Z (z : Z) : number := Finite (inject_Z z).
Definition of_nat (n : nat) : number := of_Z (Z.of_nat n).

(** [a > b], as JavaScript evaluates it on numbers: false as soon as one
    side is NaN. *)
Definition gt (a b : number) : bool :=
  match a, b with
  | NaN, _ | _, NaN => false
  | Finite p, Finite q => if Qlt_le_dec q p then true else false
  | Finite _, Infinity => false
  | Finite _, NegInfinity => true
  | Infinity, Infinity => false
  | Infinity, _ => true
  | NegInfinity, _ => false
  end.

(** [o ?? d]: [d] when [o] is undefined. *)
Definition nullish {A} (o : option A) (d : A) : A :=
  match o with Some a => a | None => d end.

(** The bound a number puts on an array length, as an integer: the
    lengths [n] with [n > m] are those above [limit m], and no length is
    when [limit m] is [None]. *)
Definition limit (m : number) : option Z :=
  match m with
  | Finite q => Some (Qfloor q)
  | NaN | Infinity => None
  | NegInfinity => Some (-1)%Z
  end.

Section number.
Implicit Types (n : nat) (m : number) (q : Q) (z : Z).

Lemma gt_Finite_floor n q :
  gt (of_nat n) (Finite q) = bool_decide (Qfloor q < Z.of_nat n)%Z.
Proof.
  unfold gt, of_nat, of_Z. destruct (Qlt_le_dec _ _) as [Hlt|Hle].
  - symmetry. apply bool_decide_eq_true_2.
    destruct (Z_lt_le_dec (Qfloor q) (Z.of_nat n)) as [|Hge]; [done|].
    exfalso. apply (Qlt_not_le _ _ Hlt).
    apply Qle_trans with (inject_Z (Qfloor q)); [|apply Qfloor_le].
    by rewrite <-Zle_Qle.
  - symmetry. apply bool_decide_eq_false_2. intros Hlt.
    apply (Qlt_not_le _ _ (Qlt_floor q)).
    apply Qle_trans with (inject_Z (Z.of_nat n)); [|done].
    rewrite <-Zle_Qle. lia.
Qed.

Lemma gt_of_Z n z : gt (of_nat n) (of_Z z) = bool_decide (z < Z.of_nat n)%Z.
Proof. unfold of_Z. by rewrite gt_Finite_floor, Qfloor_Z. Qed.

(** [limit] characterises the comparison with a length. *)
Lemma gt_limit n m :
  gt (of_nat n) m =
    match limit m with
    | Some z => bool_decide (z < Z.of_nat n)%Z
    | None => false
    end.
Proof.
  destruct m as [q| | |]; simpl; [apply gt_Finite_floor|done|done|].
  symmetry. apply bool_decide_eq_true_2. lia.
Qed.

Lemma gt_true_limit n m :
  gt (of_nat n) m = true ↔ ∃ z, limit m = Some z ∧ (z < Z.of_nat n)%Z.
Proof.
  rewrite gt_limit. destruct (limit m) as [z|].
  - rewrite bool_decide_eq_true. split; [eauto|by intros (? & [= <-] & ?)].
  - split; [done|by intros (? & ? & ?)].
Qed.

Lemma gt_false_limit n m z :
  limit m = Some z → gt (of_nat n) m = false ↔ (Z.of_nat n ≤ z)%Z.
Proof. intros Hz. rewrite gt_limit, Hz, bool_decide_eq_false. lia. Qed.

Lemma gt_NaN n : gt (of_nat n) NaN = false.
Proof. done. Qed.

Lemma gt_Infinity n : gt (of_nat n) Infinity = false.
Proof. done. Qed.

Lemma gt_NegInfinity n : gt (of_nat n) NegInfinity = true.
Proof. done. Qed.

Lemma limit_of_Z z : limit (of_Z z) = Some z.
Proof. unfold of_Z, limit. by rewrite Qfloor_Z. Qed.
End number.

(** ** Removal by identity *)

(** [without x l] is [l.filter((it) => it !== x)]: a new array with every
    occurrence of [x] left out and the order of the others kept. *)
Definition without `{EqDecision A} (x : A) (l : list A) : list A :=
  filter (λ it, it ≠ x) l.

(** The same with a possibly undefined [x]: no element of an array of
    objects is [undefined]. *)
Definition without_opt `{EqDecision A} (x : option A) (l : list A) : list A :=
  filter (λ it, Some it ≠ x) l.

Section without.
Context `{EqDecision A}.
Implicit Types (x y : A) (l k : list A).

Lemma without_opt_Some x l : without_opt (Some x) l = without x l.
Proof. apply list_filter_iff. naive_solver. Qed.

Lemma without_opt_None l : without_opt None l = l.
Proof.
  unfold without_opt. induction l as [|y l IH]; [done|].
  rewrite filter_cons_True by done. by rewrite IH.
Qed.

Lemma without_nil x : without x [] = [].
Proof. done. Qed.

Lemma without_cons_eq x l : without x (x :: l) = without x l.
Proof. unfold without. by rewrite filter_cons_False by naive_solver. Qed.

Lemma without_cons_ne x y l : y ≠ x → without x (y :: l) = y :: without x l.
Proof. intros. unfold without. by rewrite filter_cons_True. Qed.

Lemma without_app x l k : without x (l ++ k) = without x l ++ without x k.
Proof. apply filter_app. Qed.

Lemma elem_of_without x y l : y ∈ without x l ↔ y ≠ x ∧ y ∈ l.
Proof. unfold without. by rewrite list_elem_of_filter. Qed.

Lemma not_elem_of_without x l : x ∉ without x l.
Proof. rewrite elem_of_without. by intros [? _]. Qed.

Lemma without_not_elem_of x l : x ∉ l → without x l = l.
Proof.
  induction l as [|y l IH]; [done|]. rewrite not_elem_of_cons. intros [? ?].
  rewrite without_cons_ne by done. by rewrite IH.
Qed.

Lemma without_eq_iff x l : without x l = l ↔ x ∉ l.
Proof.
  split; [|apply without_not_elem_of]. intros Heq Hin.
  pose proof (not_elem_of_without x l) as Hx. by rewrite Heq in Hx.
Qed.

Lemma without_idemp x l : without x (without x l) = without x l.
Proof. apply without_not_elem_of, not_elem_of_without. Qed.

Lemma without_comm x y l : without x (without y l) = without y (without x l).
Proof.
  unfold without. rewrite !list_filter_filter. apply list_filter_iff.
  intros z. tauto.
Qed.

Lemma without_sublist x l : without x l `sublist_of` l.
Proof. apply sublist_filter. Qed.

Lemma without_NoDup x l : NoDup l → NoDup (without x l).
Proof. apply NoDup_filter. Qed.

Lemma length_without x l : length (without x l) ≤ length l.
Proof. apply length_filter. Qed.

Lemma length_without_lt x l : x ∈ l → length (without x l) < length l.
Proof. intros. apply length_filter_lt with x; naive_solver. Qed.

(** The oldest element of a pool without duplicates leaves alone. *)
Lemma without_head_NoDup x l : NoDup (x :: l) → without x (x :: l) = l.
Proof.
  rewrite NoDup_cons. intros [? _].
  by rewrite without_cons_eq, without_not_elem_of.
Qed.

Lemma length_without_NoDup x l :
  NoDup l → x ∈ l → S (length (without x l)) = length l.
Proof.
  induction l as [|y l IH]; [by intros _ ?%elem_of_nil|].
  rewrite NoDup_cons. intros [Hy Hl] Hx. destruct (decide (y = x)) as [->|Hne].
  - by rewrite without_cons_eq, without_not_elem_of.
  - rewrite without_cons_ne by done. simpl. f_equal. apply IH; [done|].
    apply elem_of_cons in Hx as [->|]; done.
Qed.

(** Removing the first element makes the array shorter. *)
Lemma length_without_head x l : length (without x (x :: l)) ≤ length l.
Proof. rewrite without_cons_eq. apply length_without. Qed.

Lemma without_snoc_ne x y l : y ≠ x → without x (l ++ [y]) = without x l ++ [y].
Proof. intros. by rewrite without_app, without_cons_ne. Qed.

Lemma lookup_0_elem_of l x : l !! 0 = Some x → x ∈ l.
Proof. intros. by eapply list_elem_of_lookup_2. Qed.
End without.

#[export] Hint Rewrite @without_opt_Some @without_opt_None @without_idemp
  @without_cons_eq : eff.
#[export] Hint Resolve not_elem_of_without without_NoDup length_without
  without_sublist : eff.
