(* ===== verification/Host.v ===== *)
(** * What the class consumes: renderers, the reconciler, constructors

    None of this code is under [src/]: [Renderer] is imported from
    [../internal/renderer], the reconciler from [../internal/reconciler.js],
    the two renderer classes and [InstanceProvider] from their own modules.
    The class only calls them, so they are an interface here, the type
    class [Host], modelled from the specification (§4.1, §4.2, §6): each
    operation is a computation over the state of the outside world, and may
    throw.  The contract the specification puts on renderers and on
    allocation is the class [HostContract]; theorems that need it take it
    as a hypothesis and [RefWorld] provides an instance. *)

From stdpp Require Import base tactics option list.
From S2P Require Import Prelude Js.

(** A renderer and a reconciler container are objects: the class compares
    renderers by identity only ([it !== renderer]), so they are modelled by
    their references. *)
Definition Renderer : Type := nat.
Definition Container : Type := nat.

(** The value of the [InstanceProvider] context: the instance object, which
    is determined by the renderer and the container its closures capture. *)
Definition InstanceHandle : Type := Renderer * Container.

Class Host : Type := {
  (** the state of everything outside the class: the renderers' own
      fields, the reconciler's fibers, the Discord client *)
  World : Type;
  (** opaque payloads the class passes through *)
  ComponentInteraction : Type;
  ReactNode : Type;
  Channel : Type;
  CommandInteraction : Type;
  (** the renderer contract (§4.1) *)
  host_handleComponentInteraction :
    Renderer → ComponentInteraction → Eff World bool;
  host_deactivate : Renderer → Eff World unit;
  host_destroy : Renderer → Eff World unit;
  (** the tree-diffing bridge (§4.2): [createContainer(renderer, 0, false,
      {})], whose last three arguments are constants, and
      [updateContainer(content, container)] *)
  host_createContainer : Renderer → Eff World Container;
  host_updateContainer : ReactNode → Container → Eff World unit;
  (** [new ChannelMessageRenderer(channel)] and
      [new CommandReplyRenderer(commandInteraction)] *)
  host_new_ChannelMessageRenderer : Channel → Eff World Renderer;
  host_new_CommandReplyRenderer : CommandInteraction → Eff World Renderer;
  (** [<InstanceProvider value={instance}>{content}</InstanceProvider>] *)
  InstanceProvider : InstanceHandle → ReactNode → ReactNode;
  (** the renderers that exist in a world, for the allocation contract *)
  allocated : World → Renderer → Prop;
}.

(** An external call, as the log records it. *)
Inductive Call `{Host} : Type :=
| HandleComponentInteraction (r : Renderer) (i : ComponentInteraction)
| Deactivate (r : Renderer)
| Destroy (r : Renderer)
| CreateContainer (r : Renderer)
| UpdateContainer (content : ReactNode) (c : Container)
| NewChannelMessageRenderer (ch : Channel)
| NewCommandReplyRenderer (ci : CommandInteraction).

(** The renderer a call is made on. *)
Definition call_target `{Host} (c : Call) : option Renderer :=
  match c with
  | HandleComponentInteraction r _ | Deactivate r | Destroy r
  | CreateContainer r => Some r
  | UpdateContainer _ _ | NewChannelMessageRenderer _
  | NewCommandReplyRenderer _ => None
  end.

(** The calls that end a renderer's life in the pool or for good. *)
Definition is_teardown `{Host} (c : Call) : bool :=
  match c with Deactivate _ | Destroy _ => true | _ => false end.

Definition is_Deactivate `{Host} (r : Renderer) (c : Call) : bool :=
  match c with Deactivate r' => bool_decide (r' = r) | _ => false end.

Definition is_Destroy `{Host} (r : Renderer) (c : Call) : bool :=
  match c with Destroy r' => bool_decide (r' = r) | _ => false end.

Definition is_Handle `{Host} (c : Call) : bool :=
  match c with HandleComponentInteraction _ _ => true | _ => false end.

(** The renderers a log offers an interaction to, in order. *)
Definition handled `{Host} (cs : list Call) : list Renderer :=
  omap (λ c, match c with
             | HandleComponentInteraction r _ => Some r
             | _ => None
             end) cs.

(** Every operation of the host keeps the renderers that exist, and a
    constructor returns a renderer that did not exist before (object
    allocation); an interaction a renderer declines leaves the world as it
    was (§4.1: "returning false must have no observable effect"). *)
Class HostContract `{Host} : Prop := {
  handle_false_pure r i w w' :
    host_handleComponentInteraction r i w = (Normal false, w') → w' = w;
  handle_allocated r i w x :
    allocated w x → allocated (final (host_handleComponentInteraction r i) w) x;
  deactivate_allocated r w x :
    allocated w x → allocated (final (host_deactivate r) w) x;
  destroy_allocated r w x :
    allocated w x → allocated (final (host_destroy r) w) x;
  createContainer_allocated r w x :
    allocated w x → allocated (final (host_createContainer r) w) x;
  updateContainer_allocated n c w x :
    allocated w x → allocated (final (host_updateContainer n c) w) x;
  new_channel_allocated ch w x :
    allocated w x → allocated (final (host_new_ChannelMessageRenderer ch) w) x;
  new_command_allocated ci w x :
    allocated w x → allocated (final (host_new_CommandReplyRenderer ci) w) x;
  new_channel_fresh ch w r w' :
    host_new_ChannelMessageRenderer ch w = (Normal r, w') →
    ¬ allocated w r ∧ allocated w' r;
  new_command_fresh ci w r w' :
    host_new_CommandReplyRenderer ci w = (Normal r, w') →
    ¬ allocated w r ∧ allocated w' r;
}.
