(* ===== verification/Types.v ===== *)
(** * The data of the class: configuration, instance, object state

    The types both source variants declare or share: [ReacordConfig]
    (reacord.tsx, lines 12-18), [ReacordInstance] (reacord.ts, lines
    20-24), the fields of the class [Reacord], and the state of the whole
    system with the plumbing every method uses: the assignment to
    [this.renderers] and the external call, which is logged and then run on
    the world. *)

From stdpp Require Import base tactics option list.
From S2P Require Import Prelude Js Host.

(** [type ReacordConfig = { maxInstances?: number }] *)
Module ReacordConfig.
Record t : Type := { maxInstances : option number }.
End ReacordConfig.

(** The fields of the class: [private renderers: Renderer[]] and
    [private readonly config: ReacordConfig]. *)
Record Reacord : Type := {
  config : ReacordConfig.t;
  renderers : list Renderer;
}.

Section state.
Context `{Host}.

(** The state a method runs in: the object [this], the world outside, and
    the log of the external calls made so far, oldest first. *)
Record State : Type := {
  this : Reacord;
  world : World;
  calls : list Call;
}.

(** [this.renderers], the pool. *)
Definition pool (s : State) : list Renderer := renderers (this s).

(** [this.renderers = f(this.renderers)] *)
Definition set_renderers (f : list Renderer → list Renderer) (s : State) : State :=
  {| this := {| config := config (this s); renderers := f (pool s) |};
     world := world s;
     calls := calls s |}.

Definition set_world (w : World) (s : State) : State :=
  {| this := this s; world := w; calls := calls s |}.

Definition log (c : Call) (s : State) : State :=
  {| this := this s; world := world s; calls := calls s ++ [c] |}.

(** An external call: logged, then run on the world.  A call that throws
    is in the log too. *)
Definition external {A} (c : Call) (op : Eff World A) : Eff State A :=
  modify (log c) ;; zoom world set_world op.

(** The external calls of the class, as it writes them. *)
Definition renderer_handleComponentInteraction (renderer : Renderer)
    (interaction : ComponentInteraction) : Eff State bool :=
  external (HandleComponentInteraction renderer interaction)
    (host_handleComponentInteraction renderer interaction).

Definition renderer_deactivate (renderer : Renderer) : Eff State unit :=
  external (Deactivate renderer) (host_deactivate renderer).

Definition renderer_destroy (renderer : Renderer) : Eff State unit :=
  external (Destroy renderer) (host_destroy renderer).

Definition reconciler_createContainer (renderer : Renderer) : Eff State Container :=
  external (CreateContainer renderer) (host_createContainer renderer).

Definition reconciler_updateContainer (content : ReactNode)
    (container : Container) : Eff State unit :=
  external (UpdateContainer content container)
    (host_updateContainer content container).

Definition new_ChannelMessageRenderer (channel : Channel) : Eff State Renderer :=
  external (NewChannelMessageRenderer channel)
    (host_new_ChannelMessageRenderer channel).

Definition new_CommandReplyRenderer (commandInteraction : CommandInteraction) :
    Eff State Renderer :=
  external (NewCommandReplyRenderer commandInteraction)
    (host_new_CommandReplyRenderer commandInteraction).

(** The state of a program that has made no call yet. *)
Definition initial (r : Reacord) (w : World) : State :=
  {| this := r; world := w; calls := [] |}.

End state.

(** [type ReacordInstance = { render, deactivate, destroy }]: three
    closures. *)
Module ReacordInstance.
Record t `{Host} : Type := {
  render : ReactNode → Eff State unit;
  deactivate : Eff State unit;
  destroy : Eff State unit;
}.
End ReacordInstance.

(** [type ComponentInteractionListener = (interaction) => void] *)
Definition ComponentInteractionListener `{Host} : Type :=
  ComponentInteraction → Eff State unit.

(** ** Running external calls *)

Section external.
Context `{Host}.
Implicit Types (s : State) (c : Call) (r : Reacord).

Lemma external_run {A} c (op : Eff World A) s :
  external c op s =
    (result op (world s),
     set_world (final op (world s)) (log c s)).
Proof.
  unfold external, result, final. eff_run. by destruct (op (world s)).
Qed.

Lemma external_this {A} c (op : Eff World A) s :
  this (final (external c op) s) = this s.
Proof. unfold final. by rewrite external_run. Qed.

Lemma external_pool {A} c (op : Eff World A) s :
  pool (final (external c op) s) = pool s.
Proof. unfold pool. by rewrite external_this. Qed.

Lemma external_calls {A} c (op : Eff World A) s :
  calls (final (external c op) s) = calls s ++ [c].
Proof. unfold final. by rewrite external_run. Qed.

Lemma external_world {A} c (op : Eff World A) s :
  world (final (external c op) s) = final op (world s).
Proof. unfold final. by rewrite external_run. Qed.

Lemma external_result {A} c (op : Eff World A) s :
  result (external c op) s = result op (world s).
Proof. unfold result. by rewrite external_run. Qed.

(** ** Computations that leave the object alone *)

(** [frames_this c]: [c] does not assign to a field of [this]. *)
Definition frames_this {A} (c : Eff State A) : Prop :=
  ∀ s, this (final c s) = this s.

Lemma frames_this_external {A} c (op : Eff World A) : frames_this (external c op).
Proof. intros s. apply external_this. Qed.

Lemma frames_this_ret {A} (a : A) : frames_this (ret a).
Proof. done. Qed.

Lemma frames_this_throw {A} e : frames_this (throw (A:=A) e).
Proof. done. Qed.

Lemma frames_this_gets {A} (f : State → A) : frames_this (gets f).
Proof. done. Qed.

Lemma frames_this_bind {A B} (c : Eff State A) (k : A → Eff State B) :
  frames_this c → (∀ a, frames_this (k a)) → frames_this (bind c k).
Proof.
  intros Hc Hk s. rewrite final_bind.
  destruct (result c s); [by rewrite Hk|done].
Qed.

Lemma frames_this_pool {A} (c : Eff State A) s :
  frames_this c → pool (final c s) = pool s.
Proof. intros Hc. unfold pool. by rewrite Hc. Qed.

(** ** The calls a computation makes *)

(** [issued c s]: the external calls [c] makes when run from [s], in
    order. *)
Definition issued {A} (c : Eff State A) (s : State) : list Call :=
  drop (length (calls s)) (calls (final c s)).

(** [logs c]: [c] only appends to the log. *)
Definition logs {A} (c : Eff State A) : Prop :=
  ∀ s, calls (final c s) = calls s ++ issued c s.

Lemma issued_eq {A} (c : Eff State A) s l :
  calls (final c s) = calls s ++ l → issued c s = l.
Proof. unfold issued. intros ->. by rewrite drop_app_length. Qed.

Lemma logs_intro {A} (c : Eff State A) :
  (∀ s, ∃ l, calls (final c s) = calls s ++ l) → logs c.
Proof. intros Hc s. destruct (Hc s) as [l Hl]. by rewrite (issued_eq c s l). Qed.

Lemma issued_external {A} c (op : Eff World A) s : issued (external c op) s = [c].
Proof. apply issued_eq, external_calls. Qed.

Lemma logs_external {A} c (op : Eff World A) : logs (external c op).
Proof. apply logs_intro. intros s. eexists. apply external_calls. Qed.

Lemma issued_ret {A} (a : A) s : issued (ret a) s = [].
Proof. apply issued_eq. by rewrite app_nil_r. Qed.

Lemma logs_ret {A} (a : A) : logs (ret a).
Proof. apply logs_intro. intros s. exists []. by rewrite app_nil_r. Qed.

Lemma issued_throw {A} e s : issued (throw (A:=A) e) s = [].
Proof. apply issued_eq. by rewrite app_nil_r. Qed.

Lemma logs_throw {A} e : logs (throw (A:=A) e).
Proof. apply logs_intro. intros s. exists []. by rewrite app_nil_r. Qed.

Lemma issued_gets {A} (f : State → A) s : issued (gets f) s = [].
Proof. apply issued_eq. by rewrite app_nil_r. Qed.

Lemma logs_gets {A} (f : State → A) : logs (gets f).
Proof. apply logs_intro. intros s. exists []. by rewrite app_nil_r. Qed.

Lemma issued_set_renderers f s : issued (modify (set_renderers f)) s = [].
Proof. apply issued_eq. by rewrite app_nil_r. Qed.

Lemma logs_set_renderers f : logs (modify (set_renderers f)).
Proof. apply logs_intro. intros s. exists []. by rewrite app_nil_r. Qed.

Lemma issued_bind {A B} (c : Eff State A) (k : A → Eff State B) s :
  logs c → (∀ a, logs (k a)) →
  issued (bind c k) s =
    issued c s ++ match result c s with
                  | Normal a => issued (k a) (final c s)
                  | Throw _ => []
                  end.
Proof.
  intros Hc Hk. apply issued_eq. rewrite final_bind.
  destruct (result c s) as [a|e].
  - by rewrite Hk, Hc, <-app_assoc.
  - by rewrite app_nil_r.
Qed.

Lemma logs_bind {A B} (c : Eff State A) (k : A → Eff State B) :
  logs c → (∀ a, logs (k a)) → logs (bind c k).
Proof.
  intros Hc Hk s. rewrite (issued_bind c k s Hc Hk), final_bind.
  destruct (result c s) as [a|e].
  - by rewrite Hk, Hc, <-app_assoc.
  - rewrite app_nil_r. apply Hc.
Qed.

Lemma logs_proper {A} (c1 c2 : Eff State A) : c1 ≡ c2 → logs c1 → logs c2.
Proof. intros Hc H1 s. unfold issued. rewrite <-Hc. apply H1. Qed.

Lemma issued_proper {A} (c1 c2 : Eff State A) s :
  c1 ≡ c2 → issued c1 s = issued c2 s.
Proof. intros Hc. unfold issued. by rewrite Hc. Qed.

(** An external call keeps every property of the object [this]. *)
Lemma preserves_external {A} (I : Reacord → Prop) c (op : Eff World A) :
  preserves (λ s, I (this s)) (external c op).
Proof. intros s HI. by rewrite external_this. Qed.

Lemma pool_set_renderers f s : pool (set_renderers f s) = f (pool s).
Proof. done. Qed.

Lemma config_set_renderers f s :
  config (this (set_renderers f s)) = config (this s).
Proof. done. Qed.

Lemma world_set_renderers f s : world (set_renderers f s) = world s.
Proof. done. Qed.

Lemma calls_set_renderers f s : calls (set_renderers f s) = calls s.
Proof. done. Qed.

Lemma set_renderers_set_renderers f g s :
  set_renderers f (set_renderers g s) = set_renderers (f ∘ g) s.
Proof. done. Qed.

Lemma set_renderers_ext f g s :
  f (pool s) = g (pool s) → set_renderers f s = set_renderers g s.
Proof. unfold set_renderers. by intros ->. Qed.

Lemma set_renderers_id f s :
  f (pool s) = pool s → set_renderers f s = s.
Proof.
  unfold set_renderers, pool. intros ->. by destruct s as [[] ? ?].
Qed.
End external.

(** Unfold the external calls of the class down to [external]. *)
Ltac eff_ext :=
  unfold renderer_handleComponentInteraction, renderer_deactivate,
    renderer_destroy, reconciler_createContainer, reconciler_updateContainer,
    new_ChannelMessageRenderer, new_CommandReplyRenderer in *.

#[export] Hint Resolve frames_this_external frames_this_ret frames_this_throw
  frames_this_gets frames_this_bind : eff.
#[export] Hint Extern 1 (frames_this (renderer_handleComponentInteraction _ _)) =>
  apply frames_this_external : eff.
#[export] Hint Extern 1 (frames_this (renderer_deactivate _)) =>
  apply frames_this_external : eff.
#[export] Hint Extern 1 (frames_this (renderer_destroy _)) =>
  apply frames_this_external : eff.
#[export] Hint Extern 1 (frames_this (reconciler_createContainer _)) =>
  apply frames_this_external : eff.
#[export] Hint Extern 1 (frames_this (reconciler_updateContainer _ _)) =>
  apply frames_this_external : eff.
#[export] Hint Extern 1 (frames_this (new_ChannelMessageRenderer _)) =>
  apply frames_this_external : eff.
#[export] Hint Extern 1 (frames_this (new_CommandReplyRenderer _)) =>
  apply frames_this_external : eff.

#[export] Hint Resolve logs_external logs_ret logs_throw logs_gets
  logs_set_renderers logs_bind : eff.
#[export] Hint Extern 1 (logs (renderer_handleComponentInteraction _ _)) =>
  apply logs_external : eff.
#[export] Hint Extern 1 (logs (renderer_deactivate _)) =>
  apply logs_external : eff.
#[export] Hint Extern 1 (logs (renderer_destroy _)) =>
  apply logs_external : eff.
#[export] Hint Extern 1 (logs (reconciler_createContainer _)) =>
  apply logs_external : eff.
#[export] Hint Extern 1 (logs (reconciler_updateContainer _ _)) =>
  apply logs_external : eff.
#[export] Hint Extern 1 (logs (new_ChannelMessageRenderer _)) =>
  apply logs_external : eff.
#[export] Hint Extern 1 (logs (new_CommandReplyRenderer _)) =>
  apply logs_external : eff.

#[export] Hint Rewrite @external_pool @external_calls @external_world
  @external_this @external_result @pool_set_renderers @config_set_renderers
  @world_set_renderers @calls_set_renderers : eff.
