(* ===== verification/ReacordPackage.v ===== *)
(** * The class [Reacord] of the package

    [src/packages/reacord/library/core/reacord.tsx], method by method, in
    the module [Package].  The object literal that [createInstance] builds
    is [instanceOf]; the [for ... of] loop of [handleComponentInteraction]
    is [handleComponentInteraction_loop].  The abstract methods [send],
    [reply] and [ephemeralReply] have no body and are left to the adapters. *)

From stdpp Require Import base tactics option list.
From S2P Require Import Prelude Js Host Types.

Module Package.
Section Package.
Context `{Host}.

(** [private renderers: Renderer[] = []] and
    [constructor(private readonly config: ReacordConfig = {})] *)
Definition new (config : option ReacordConfig.t) : Reacord :=
  {| config := nullish config {| ReacordConfig.maxInstances := None |};
     renderers := [] |}.

(** The loop of [handleComponentInteraction] over the array it iterates:
    [if (renderer.handleComponentInteraction(interaction)) return]. *)
Fixpoint handleComponentInteraction_loop (interaction : ComponentInteraction)
    (renderers : list Renderer) : Eff State unit :=
  match renderers with
  | [] => ret tt
  | renderer :: rest =>
      let* claimed := renderer_handleComponentInteraction renderer interaction in
      if claimed then ret tt
      else handleComponentInteraction_loop interaction rest
  end.

(** [protected handleComponentInteraction(interaction)] *)
Definition handleComponentInteraction (interaction : ComponentInteraction) :
    Eff State unit :=
  let* renderers := gets pool in
  handleComponentInteraction_loop interaction renderers.

(** [private get maxInstances()]: [this.config.maxInstances ?? 50] *)
Definition maxInstances (this : Reacord) : number :=
  nullish (ReacordConfig.maxInstances (config this)) (of_Z 50).

(** [private deactivate(renderer)].  The caller [createInstance] passes
    [this.renderers[0]!], which is [undefined] on an empty pool: the
    parameter is an option, and calling a method on [undefined] throws. *)
Definition deactivate (renderer : option Renderer) : Eff State unit :=
  modify (set_renderers (without_opt renderer)) ;;
  match renderer with
  | Some renderer => renderer_deactivate renderer
  | None => throw TypeError
  end.

(** The object literal [instance]: its closures capture [renderer] and
    [container]; [render] wraps the content in the provider of the instance
    itself. *)
Definition instanceOf (renderer : Renderer) (container : Container) :
    ReacordInstance.t :=
  {| ReacordInstance.render := λ content,
       reconciler_updateContainer
         (InstanceProvider (renderer, container) content) container;
     ReacordInstance.deactivate := deactivate (Some renderer);
     ReacordInstance.destroy :=
       modify (set_renderers (without renderer)) ;;
       renderer_destroy renderer |}.

(** [protected createInstance(renderer, initialContent?)] *)
Definition createInstance (renderer : Renderer)
    (initialContent : option ReactNode) : Eff State ReacordInstance.t :=
  let* s := get in
  (if gt (of_nat (length (pool s))) (maxInstances (this s))
   then deactivate (pool s !! 0)
   else ret tt) ;;
  modify (set_renderers (λ renderers, renderers ++ [renderer])) ;;
  let* container := reconciler_createContainer renderer in
  let instance := instanceOf renderer container in
  match initialContent with
  | Some content => ReacordInstance.render instance content
  | None => ret tt
  end ;;
  ret instance.

End Package.
End Package.
