(* ===== verification/ReacordCore.v ===== *)
(** * The class [Reacord] of the older core

    [src/library/core/reacord.ts], method by method, in the module [Core].
    It differs from the package's class in three places: [createInstance]
    is private and reached through the two factory methods, which construct
    the renderer themselves; the content is handed to the reconciler as it
    is, with no provider around it; and the initial content is rendered by
    a direct call of [updateContainer], before the instance object exists.
    The abstract methods [send] and [reply] have no body. *)

From stdpp Require Import base tactics option list.
From S2P Require Import Prelude Js Host Types.

Module Core.
Section Core.
Context `{Host}.

(** [private renderers: Renderer[] = []] and
    [constructor(private readonly config: ReacordConfig = {})] *)
Definition new (config : option ReacordConfig.t) : Reacord :=
  {| config := nullish config {| ReacordConfig.maxInstances := None |};
     renderers := [] |}.

(** The loop of [handleComponentInteraction] over the array it iterates. *)
Fixpoint handleComponentInteraction_loop (interaction : ComponentInteraction)
    (renderers : list Renderer) : Eff State unit :=
  match renderers with
  | [] => ret tt
  | renderer :: rest =>
      let* claimed := renderer_handleComponentInteraction renderer interaction in
      if claimed then ret tt
      else handleComponentInteraction_loop interaction rest
  end.

(** [protected handleComponentInteraction(interaction)] *)
Definition handleComponentInteraction (interaction : ComponentInteraction) :
    Eff State unit :=
  let* renderers := gets pool in
  handleComponentInteraction_loop interaction renderers.

(** [private get maxInstances()]: [this.config.maxInstances ?? 50] *)
Definition maxInstances (this : Reacord) : number :=
  nullish (ReacordConfig.maxInstances (config this)) (of_Z 50).

(** [private deactivate(renderer)]; its argument is [undefined] when
    [createInstance] passes [this.renderers[0]!] of an empty pool. *)
Definition deactivate (renderer : option Renderer) : Eff State unit :=
  modify (set_renderers (without_opt renderer)) ;;
  match renderer with
  | Some renderer => renderer_deactivate renderer
  | None => throw TypeError
  end.

(** The object literal [createInstance] returns: its closures capture
    [renderer] and [container]. *)
Definition instanceOf (renderer : Renderer) (container : Container) :
    ReacordInstance.t :=
  {| ReacordInstance.render := λ content,
       reconciler_updateContainer content container;
     ReacordInstance.deactivate := deactivate (Some renderer);
     ReacordInstance.destroy :=
       modify (set_renderers (without renderer)) ;;
       renderer_destroy renderer |}.

(** [private createInstance(renderer, initialContent?)] *)
Definition createInstance (renderer : Renderer)
    (initialContent : option ReactNode) : Eff State ReacordInstance.t :=
  let* s := get in
  (if gt (of_nat (length (pool s))) (maxInstances (this s))
   then deactivate (pool s !! 0)
   else ret tt) ;;
  modify (set_renderers (λ renderers, renderers ++ [renderer])) ;;
  let* container := reconciler_createContainer renderer in
  match initialContent with
  | Some content => reconciler_updateContainer content container
  | None => ret tt
  end ;;
  ret (instanceOf renderer container).

(** [protected createChannelRendererInstance(channel, initialContent?)] *)
Definition createChannelRendererInstance (channel : Channel)
    (initialContent : option ReactNode) : Eff State ReacordInstance.t :=
  let* renderer := new_ChannelMessageRenderer channel in
  createInstance renderer initialContent.

(** [protected createCommandReplyRendererInstance(commandInteraction,
    initialContent?)] *)
Definition createCommandReplyRendererInstance
    (commandInteraction : CommandInteraction)
    (initialContent : option ReactNode) : Eff State ReacordInstance.t :=
  let* renderer := new_CommandReplyRenderer commandInteraction in
  createInstance renderer initialContent.

End Core.
End Core.
