(* ===== verification/RefWorld.v ===== *)
(** * A reference world: a host that can be run

    A concrete instance of [Host], modelled from the specification's
    renderer and reconciler contracts (§4.1, §4.2), small enough to compute
    with.  Renderers and containers are allocated from one counter; a
    renderer claims the interactions listed for it; a fault list says which
    external calls throw.  The world records what was deactivated,
    destroyed and rendered.  It satisfies [HostContract], and the
    witnesses and scenarios of the other files run on it. *)

From stdpp Require Import base tactics option list.
From S2P Require Import Prelude Js Host Types.

(** Content: an opaque node, or a node inside the provider of an instance. *)
Inductive node : Type :=
| Text (n : nat)
| Provided (value : InstanceHandle) (children : node).

#[export] Instance node_eq_dec : EqDecision node.
Proof. solve_decision. Defined.

(** The external calls that can be made to fail. *)
Inductive fault : Type :=
| FailHandle (r : Renderer)
| FailDeactivate (r : Renderer)
| FailDestroy (r : Renderer)
| FailCreateContainer (r : Renderer)
| FailUpdateContainer (c : Container)
| FailNew.

#[export] Instance fault_eq_dec : EqDecision fault.
Proof. solve_decision. Defined.

Record refworld : Type := {
  next_ref : nat;
  claims : list (Renderer * nat);
  faults : list fault;
  deactivated : list Renderer;
  destroyed : list Renderer;
  containers : list (Container * Renderer);
  rendered : list (Container * node);
  consumed : list (Renderer * nat);
}.

(** The exception a failing external call throws. *)
Definition host_failure : exn := HostError 1.

(** Run [op] unless the fault [f] is set. *)
Definition unless_fault {A} (f : fault) (op : Eff refworld A) : Eff refworld A :=
  λ w, if bool_decide (f ∈ faults w) then (Throw host_failure, w) else op w.

Definition ref_handle (r : Renderer) (i : nat) : Eff refworld bool :=
  unless_fault (FailHandle r) (λ w,
    if bool_decide ((r, i) ∈ claims w)
    then (Normal true,
          {| next_ref := next_ref w; claims := claims w; faults := faults w;
             deactivated := deactivated w; destroyed := destroyed w;
             containers := containers w; rendered := rendered w;
             consumed := consumed w ++ [(r, i)] |})
    else (Normal false, w)).

Definition ref_deactivate (r : Renderer) : Eff refworld unit :=
  unless_fault (FailDeactivate r) (λ w,
    (Normal tt,
     {| next_ref := next_ref w; claims := claims w; faults := faults w;
        deactivated := deactivated w ++ [r]; destroyed := destroyed w;
        containers := containers w; rendered := rendered w;
        consumed := consumed w |})).

Definition ref_destroy (r : Renderer) : Eff refworld unit :=
  unless_fault (FailDestroy r) (λ w,
    (Normal tt,
     {| next_ref := next_ref w; claims := claims w; faults := faults w;
        deactivated := deactivated w; destroyed := destroyed w ++ [r];
        containers := containers w; rendered := rendered w;
        consumed := consumed w |})).

Definition ref_createContainer (r : Renderer) : Eff refworld Container :=
  unless_fault (FailCreateContainer r) (λ w,
    (Normal (next_ref w),
     {| next_ref := S (next_ref w); claims := claims w; faults := faults w;
        deactivated := deactivated w; destroyed := destroyed w;
        containers := containers w ++ [(next_ref w, r)];
        rendered := rendered w; consumed := consumed w |})).

Definition ref_updateContainer (content : node) (c : Container) :
    Eff refworld unit :=
  unless_fault (FailUpdateContainer c) (λ w,
    (Normal tt,
     {| next_ref := next_ref w; claims := claims w; faults := faults w;
        deactivated := deactivated w; destroyed := destroyed w;
        containers := containers w; rendered := rendered w ++ [(c, content)];
        consumed := consumed w |})).

Definition ref_new : Eff refworld Renderer :=
  unless_fault FailNew (λ w,
    (Normal (next_ref w),
     {| next_ref := S (next_ref w); claims := claims w; faults := faults w;
        deactivated := deactivated w; destroyed := destroyed w;
        containers := containers w; rendered := rendered w;
        consumed := consumed w |})).

#[export] Instance ref_host : Host := {|
  World := refworld;
  ComponentInteraction := nat;
  ReactNode := node;
  Channel := nat;
  CommandInteraction := nat;
  host_handleComponentInteraction := ref_handle;
  host_deactivate := ref_deactivate;
  host_destroy := ref_destroy;
  host_createContainer := ref_createContainer;
  host_updateContainer := ref_updateContainer;
  host_new_ChannelMessageRenderer := λ _, ref_new;
  host_new_CommandReplyRenderer := λ _, ref_new;
  InstanceProvider := Provided;
  allocated := λ w r, r < next_ref w;
|}.

(** A world with [n] references taken, the given claims and faults, and
    nothing done yet. *)
Definition fresh_world (n : nat) (cl : list (Renderer * nat)) (fs : list fault) :
    refworld :=
  {| next_ref := n; claims := cl; faults := fs; deactivated := [];
     destroyed := []; containers := []; rendered := []; consumed := [] |}.

(** A state over the reference world: a pool, a limit, a world. *)
Definition ref_state (maxInstances : option number) (pool : list Renderer)
    (w : refworld) : State :=
  initial {| config := {| ReacordConfig.maxInstances := maxInstances |};
             renderers := pool |} w.

Section contract.
Implicit Types (w : refworld) (r x : Renderer).

Lemma unless_fault_final {A} f (op : Eff refworld A) w (P : refworld → Prop) :
  P w → P (final op w) → P (final (unless_fault f op) w).
Proof. unfold final, unless_fault. by case_bool_decide. Qed.

Lemma next_ref_mono_handle r i w :
  next_ref w ≤ next_ref (final (ref_handle r i) w).
Proof.
  apply (unless_fault_final _ _ _ (λ w', next_ref w ≤ next_ref w')); [done|].
  unfold final. by case_bool_decide.
Qed.

Lemma ref_new_fresh w r w' :
  ref_new w = (Normal r, w') → ¬ r < next_ref w ∧ r < next_ref w'.
Proof.
  unfold ref_new, unless_fault. case_bool_decide; [done|].
  intros [= <- <-]. simpl. lia.
Qed.

#[export] Instance ref_contract : HostContract.
Proof.
  split; simpl.
  - intros r i w w'. unfold ref_handle, unless_fault.
    repeat case_bool_decide; congruence.
  - intros r i w x Hx. pose proof (next_ref_mono_handle r i w). lia.
  - intros r w x Hx.
    by apply (unless_fault_final _ _ _ (λ w', x < next_ref w')).
  - intros r w x Hx.
    by apply (unless_fault_final _ _ _ (λ w', x < next_ref w')).
  - intros r w x Hx.
    apply (unless_fault_final _ _ _ (λ w', x < next_ref w')); simpl; lia.
  - intros n c w x Hx.
    by apply (unless_fault_final _ _ _ (λ w', x < next_ref w')).
  - intros _ w x Hx.
    apply (unless_fault_final _ _ _ (λ w', x < next_ref w')); simpl; lia.
  - intros _ w x Hx.
    apply (unless_fault_final _ _ _ (λ w', x < next_ref w')); simpl; lia.
  - intros _. apply ref_new_fresh.
  - intros _. apply ref_new_fresh.
Qed.
End contract.
