(* ===== verification/Pool.v ===== *)
(** * The session pool: registration, eviction, removal

    The specification's session pool (§4.4) is the array [this.renderers]
    with two operations, which the class inlines: [register] is the first
    two statements of [createInstance] (the eviction test and the [push]),
    and [remove] is the [filter] assignment of [deactivate] and of
    [instance.destroy].  This file states them, shows that the methods of
    both source variants are built from them, and proves the pool's
    properties: the exact pool after every branch of a registration, the
    [limit + 1] bound as an invariant of every operation, first-in
    first-out eviction, idempotent removal and the absence of duplicates. *)

From stdpp Require Import base tactics option list.
From S2P Require Import Prelude Js Host Types ReacordPackage ReacordCore.
From S2P Require Import RefWorld.

(** ** The pool after a registration, as a function on lists *)

(** The pool once the eviction test has run: the oldest element, if the
    pool is over the limit [m], is filtered out. *)
Definition evicted (m : number) (l : list Renderer) : list Renderer :=
  if gt (of_nat (length l)) m then without_opt (l !! 0) l else l.

(** The pool once [renderer] is registered. *)
Definition registered (m : number) (renderer : Renderer) (l : list Renderer) :
    list Renderer :=
  evicted m l ++ [renderer].

Section lists.
Implicit Types (m : number) (r old x : Renderer) (l rest : list Renderer) (z : Z).

Lemma evicted_under m l : gt (of_nat (length l)) m = false → evicted m l = l.
Proof. unfold evicted. by intros ->. Qed.

Lemma evicted_over m old rest :
  gt (of_nat (length (old :: rest))) m = true →
  evicted m (old :: rest) = without old rest.
Proof.
  unfold evicted. intros ->. simpl lookup.
  by rewrite without_opt_Some, without_cons_eq.
Qed.

Lemma evicted_nil m : evicted m [] = [].
Proof. unfold evicted. by destruct (gt _ _). Qed.

Lemma evicted_sublist m l : evicted m l `sublist_of` l.
Proof.
  unfold evicted. destruct (gt _ _); [|done].
  destruct (l !! 0); [rewrite without_opt_Some|rewrite without_opt_None];
    [apply without_sublist|done].
Qed.

Lemma evicted_NoDup m l : NoDup l → NoDup (evicted m l).
Proof. intros Hl. eapply sublist_NoDup; [done|apply evicted_sublist]. Qed.

Lemma elem_of_evicted m x l : x ∈ evicted m l → x ∈ l.
Proof. intros Hx. eapply elem_of_sublist; [done|apply evicted_sublist]. Qed.

(** Over the limit, a pool without duplicates loses its oldest element and
    nothing else. *)
Lemma evicted_over_NoDup m old rest :
  NoDup (old :: rest) → gt (of_nat (length (old :: rest))) m = true →
  evicted m (old :: rest) = rest.
Proof.
  intros [Hold _]%NoDup_cons Hgt.
  by rewrite evicted_over, without_not_elem_of.
Qed.

(** In a pool without duplicates the eviction by identity is the eviction
    of the entry at index 0. *)
Lemma evicted_tail m (l : list Renderer) :
  NoDup l → evicted m l = if gt (of_nat (length l)) m then tail l else l.
Proof.
  intros Hnd. destruct (gt (of_nat (length l)) m) eqn:Hgt; [|by apply evicted_under].
  destruct l as [|old rest]; [apply evicted_nil|by apply evicted_over_NoDup].
Qed.

(** The eviction test leaves room for one more element under the limit. *)
Lemma length_evicted m l z :
  limit m = Some z → (Z.of_nat (length l) ≤ Z.max 0 (z + 1))%Z →
  l = [] ∨ (Z.of_nat (length (evicted m l)) ≤ z)%Z.
Proof.
  intros Hz Hl. destruct l as [|old rest]; [by left|right].
  destruct (gt (of_nat (length (old :: rest))) m) eqn:Hgt.
  - rewrite evicted_over by done. pose proof (length_without old rest).
    simpl in Hl. lia.
  - rewrite evicted_under by done. by apply (gt_false_limit _ m).
Qed.

Lemma length_registered m r l z :
  limit m = Some z → (Z.of_nat (length l) ≤ Z.max 0 (z + 1))%Z → l ≠ [] ∨ (0 ≤ z)%Z →
  (Z.of_nat (length (registered m r l)) ≤ Z.max 0 (z + 1))%Z.
Proof.
  intros Hz Hl Hne. unfold registered. rewrite length_snoc.
  destruct (length_evicted m l z Hz Hl) as [->|]; [|lia].
  rewrite evicted_nil. simpl. destruct Hne; [done|lia].
Qed.

Lemma registered_NoDup m r l : NoDup l → r ∉ l → NoDup (registered m r l).
Proof.
  intros Hl Hr. apply NoDup_snoc. split; [|by apply evicted_NoDup].
  intros Hin. by apply Hr, (elem_of_evicted m).
Qed.

Lemma last_registered m r l : last (registered m r l) = Some r.
Proof. apply last_snoc. Qed.
End lists.

(** ** The operations of the pool *)

Section pool.
Context `{Host}.
Implicit Types (s : State) (r old x : Renderer) (l rest : list Renderer).

(** [this.renderers.length > this.maxInstances] *)
Definition over_capacity (s : State) : bool :=
  gt (of_nat (length (pool s))) (Package.maxInstances (this s)).

(** The registration of a renderer: the eviction test of [createInstance]
    and its [push]. *)
Definition register (renderer : Renderer) : Eff State unit :=
  let* s := get in
  (if over_capacity s then Package.deactivate (pool s !! 0) else ret tt) ;;
  modify (set_renderers (λ renderers, renderers ++ [renderer])).

(** The removal of a renderer:
    [this.renderers = this.renderers.filter((it) => it !== renderer)]. *)
Definition remove (renderer : Renderer) : Eff State unit :=
  modify (set_renderers (without renderer)).

(** What [createInstance] does once the renderer is registered. *)
Definition Package_attach (renderer : Renderer) (initialContent : option ReactNode) :
    Eff State ReacordInstance.t :=
  let* container := reconciler_createContainer renderer in
  match initialContent with
  | Some content =>
      ReacordInstance.render (Package.instanceOf renderer container) content
  | None => ret tt
  end ;;
  ret (Package.instanceOf renderer container).

Definition Core_attach (renderer : Renderer) (initialContent : option ReactNode) :
    Eff State ReacordInstance.t :=
  let* container := reconciler_createContainer renderer in
  match initialContent with
  | Some content => reconciler_updateContainer content container
  | None => ret tt
  end ;;
  ret (Core.instanceOf renderer container).

(** The methods are built from the operations of the pool. *)
Lemma Package_createInstance_register r ic :
  Package.createInstance r ic ≡ (register r ;; Package_attach r ic).
Proof.
  intros s. unfold Package.createInstance, register, Package_attach, over_capacity, bind, get.
  by destruct (if gt _ _ then _ else _) as [[[]|e] s'].
Qed.

Lemma Core_createInstance_register r ic :
  Core.createInstance r ic ≡ (register r ;; Core_attach r ic).
Proof.
  intros s. unfold Core.createInstance, register, Core_attach, over_capacity, bind, get.
  by destruct (if gt _ _ then _ else _) as [[[]|e] s'].
Qed.

Lemma deactivate_remove r :
  Package.deactivate (Some r) ≡ (remove r ;; renderer_deactivate r).
Proof.
  intros s. unfold Package.deactivate, remove, bind, modify.
  by rewrite (set_renderers_ext _ (without r)) by apply without_opt_Some.
Qed.

Lemma deactivate_undefined s : Package.deactivate None s = (Throw TypeError, s).
Proof.
  unfold Package.deactivate, bind, modify, throw.
  by rewrite set_renderers_id by apply without_opt_None.
Qed.

Lemma destroy_remove r c :
  ReacordInstance.destroy (Package.instanceOf r c) ≡ (remove r ;; renderer_destroy r).
Proof. done. Qed.

End pool.

(** ** How a registration ends *)

Section registration.
Context `{Host}.
Implicit Types (s : State) (r old x : Renderer) (l rest : list Renderer).

(** The outcome of the eviction test: normal when there is nothing to
    evict or the oldest renderer deactivates, the renderer's exception when
    its [deactivate] throws, and a TypeError when the pool is over an
    (impossible) limit while empty, since [this.renderers[0]] is then
    [undefined]. *)
Definition eviction_outcome (s : State) : Outcome unit :=
  if over_capacity s then
    match pool s !! 0 with
    | Some old => result (host_deactivate old) (world s)
    | None => Throw TypeError
    end
  else Normal tt.

(** The state after the eviction test. *)
Definition after_eviction (s : State) : State :=
  if over_capacity s then
    match pool s !! 0 with
    | Some old => final (renderer_deactivate old) (set_renderers (without old) s)
    | None => s
    end
  else s.

Lemma register_run r s :
  register r s =
    match eviction_outcome s with
    | Normal _ =>
        (Normal tt, set_renderers (λ renderers, renderers ++ [r]) (after_eviction s))
    | Throw e => (Throw e, after_eviction s)
    end.
Proof.
  unfold register, eviction_outcome, after_eviction, bind, get.
  destruct (over_capacity s); [|done].
  destruct (pool s !! 0) as [old|]; [|by rewrite deactivate_undefined].
  rewrite (deactivate_remove old s). unfold remove, bind, modify.
  rewrite (run_eq (renderer_deactivate old)). eff_ext.
  rewrite external_result. simpl. by destruct (result _ _) as [[]|].
Qed.

Lemma after_eviction_pool s :
  pool (after_eviction s) = evicted (Package.maxInstances (this s)) (pool s).
Proof.
  unfold after_eviction, evicted, over_capacity. destruct (gt _ _); [|done].
  destruct (pool s !! 0) as [old|]; [|by rewrite without_opt_None].
  eff_ext. by rewrite external_pool, without_opt_Some.
Qed.

Lemma after_eviction_config s :
  config (this (after_eviction s)) = config (this s).
Proof.
  unfold after_eviction. destruct (over_capacity s); [|done].
  destruct (pool s !! 0) as [old|]; [|done]. eff_ext. by rewrite external_this.
Qed.

Lemma after_eviction_calls s :
  calls (after_eviction s) =
    calls s ++ (if over_capacity s then
                  match pool s !! 0 with Some old => [Deactivate old] | None => [] end
                else []).
Proof.
  unfold after_eviction. destruct (over_capacity s); [|by rewrite app_nil_r].
  destruct (pool s !! 0) as [old|]; [|by rewrite app_nil_r].
  eff_ext. by rewrite external_calls.
Qed.

Lemma register_result r s : result (register r) s = eviction_outcome s.
Proof.
  unfold result. rewrite register_run. by destruct (eviction_outcome s) as [[]|].
Qed.

Lemma register_pool r s :
  pool (final (register r) s) =
    match eviction_outcome s with
    | Normal _ => registered (Package.maxInstances (this s)) r (pool s)
    | Throw _ => evicted (Package.maxInstances (this s)) (pool s)
    end.
Proof.
  unfold final, registered. rewrite register_run.
  destruct (eviction_outcome s); simpl; by rewrite <-after_eviction_pool.
Qed.

Lemma register_config r s :
  config (this (final (register r) s)) = config (this s).
Proof.
  unfold final. rewrite register_run.
  destruct (eviction_outcome s); simpl; apply after_eviction_config.
Qed.

(** An empty pool over its limit: the limit is negative. *)
Lemma eviction_outcome_Normal_nil s z :
  eviction_outcome s = Normal tt → pool s = [] →
  limit (Package.maxInstances (this s)) = Some z → (0 ≤ z)%Z.
Proof.
  unfold eviction_outcome, over_capacity. intros Ho Hnil Hz. rewrite Hnil in Ho.
  destruct (gt _ _) eqn:Hgt; [done|].
  by apply (gt_false_limit 0 _ z) in Hgt.
Qed.

End registration.

(** ** The pool after [createInstance] *)

Section createInstance.
Context `{Host}.
Implicit Types (s : State) (r old x : Renderer) (ic : option ReactNode).

Lemma frames_this_Package_render r c content :
  frames_this (ReacordInstance.render (Package.instanceOf r c) content).
Proof. simpl. auto with eff. Qed.

Lemma frames_this_Package_attach r ic : frames_this (Package_attach r ic).
Proof.
  unfold Package_attach. destruct ic; auto 6 using frames_this_Package_render with eff.
Qed.

Lemma frames_this_Core_attach r ic : frames_this (Core_attach r ic).
Proof. unfold Core_attach. destruct ic; auto 6 with eff. Qed.

(** What follows the registration does not touch the pool, so the pool
    after a [createInstance] is the pool after its registration. *)
Lemma register_then_this {A} r (k : Eff State A) s :
  frames_this k → this (final (register r ;; k) s) = this (final (register r) s).
Proof.
  intros Hk. rewrite final_bind. by destruct (result (register r) s); [rewrite Hk|].
Qed.

Lemma register_then_result_Throw {A} r (k : Eff State A) s e :
  eviction_outcome s = Throw e → result (register r ;; k) s = Throw e.
Proof. intros He. by rewrite result_bind, register_result, He. Qed.

Lemma Package_createInstance_this r ic s :
  this (final (Package.createInstance r ic) s) = this (final (register r) s).
Proof.
  rewrite Package_createInstance_register.
  apply register_then_this, frames_this_Package_attach.
Qed.

Lemma Core_createInstance_this r ic s :
  this (final (Core.createInstance r ic) s) = this (final (register r) s).
Proof.
  rewrite Core_createInstance_register.
  apply register_then_this, frames_this_Core_attach.
Qed.

(** The pool after [createInstance], on every branch. *)
Lemma Package_createInstance_pool r ic s :
  pool (final (Package.createInstance r ic) s) =
    match eviction_outcome s with
    | Normal _ => registered (Package.maxInstances (this s)) r (pool s)
    | Throw _ => evicted (Package.maxInstances (this s)) (pool s)
    end.
Proof.
  unfold pool at 1. rewrite Package_createInstance_this. apply register_pool.
Qed.

Lemma Core_createInstance_pool r ic s :
  pool (final (Core.createInstance r ic) s) =
    match eviction_outcome s with
    | Normal _ => registered (Package.maxInstances (this s)) r (pool s)
    | Throw _ => evicted (Package.maxInstances (this s)) (pool s)
    end.
Proof.
  unfold pool at 1. rewrite Core_createInstance_this. apply register_pool.
Qed.

Lemma Package_createInstance_config r ic s :
  config (this (final (Package.createInstance r ic) s)) = config (this s).
Proof. rewrite Package_createInstance_this. apply register_config. Qed.

Lemma Core_createInstance_config r ic s :
  config (this (final (Core.createInstance r ic) s)) = config (this s).
Proof. rewrite Core_createInstance_this. apply register_config. Qed.

(** C2: The object after [createInstance(renderer, initialContent)], on
    every branch and in both variants: the configuration is unchanged; when
    the eviction test ends normally the pool is the old pool with its
    oldest renderer filtered out if it was over the limit, and the new
    renderer pushed at the end; when the eviction throws (the evicted
    renderer's [deactivate] throws, or the pool is empty and over a
    negative limit) the new renderer is not in the pool, and the evicted
    one is already out of it.  Whatever the reconciler does afterwards, the
    pool is not touched again. *)
Theorem createInstance_pool r ic s :
  let pool' :=
    match eviction_outcome s with
    | Normal _ => registered (Package.maxInstances (this s)) r (pool s)
    | Throw _ => evicted (Package.maxInstances (this s)) (pool s)
    end in
  this (final (Package.createInstance r ic) s) =
    {| config := config (this s); renderers := pool' |} ∧
  this (final (Core.createInstance r ic) s) =
    {| config := config (this s); renderers := pool' |}.
Proof.
  simpl. split.
  - rewrite <-(Package_createInstance_pool r ic s),
      <-(Package_createInstance_config r ic s).
    unfold pool. by destruct (this _).
  - rewrite <-(Core_createInstance_pool r ic s), <-(Core_createInstance_config r ic s).
    unfold pool. by destruct (this _).
Qed.

End createInstance.

(** ** Invariants of the pool *)

(** The capacity invariant of an object: its pool has at most
    [limit + 1] renderers (none at all under a negative limit), where
    [limit] is the integer bound its [maxInstances] stands for.  A NaN or
    infinite [maxInstances] bounds nothing. *)
Definition within_capacity (o : Reacord) : Prop :=
  match limit (Package.maxInstances o) with
  | Some z => (Z.of_nat (length (renderers o)) ≤ Z.max 0 (z + 1))%Z
  | None => True
  end.

#[export] Instance within_capacity_dec o : Decision (within_capacity o).
Proof. unfold within_capacity. destruct (limit _); apply _. Defined.

(** No renderer is in the pool twice. *)
Definition pool_NoDup (o : Reacord) : Prop := NoDup (renderers o).

#[export] Instance pool_NoDup_dec o : Decision (pool_NoDup o).
Proof. unfold pool_NoDup. apply _. Defined.

Section invariants.
Context `{Host}.
Implicit Types (s : State) (o : Reacord) (r old x : Renderer) (ic : option ReactNode).

Lemma maxInstances_config o o' :
  config o = config o' → Package.maxInstances o = Package.maxInstances o'.
Proof. unfold Package.maxInstances. by intros ->. Qed.

(** A computation that leaves the object alone keeps its invariants. *)
Lemma frames_this_preserves {A} (I : Reacord → Prop) (c : Eff State A) :
  frames_this c → preserves (λ s, I (this s)) c.
Proof. intros Hc s HI. by rewrite Hc. Qed.

(** An assignment that does not make the pool longer keeps its capacity. *)
Lemma within_capacity_shrink o o' :
  config o' = config o → length (renderers o') ≤ length (renderers o) →
  within_capacity o → within_capacity o'.
Proof.
  unfold within_capacity. intros Hc Hl. rewrite (maxInstances_config o' o Hc).
  destruct (limit _); [lia|done].
Qed.

Lemma remove_within_capacity r :
  preserves (λ s, within_capacity (this s)) (remove r).
Proof.
  intros s. apply within_capacity_shrink; [done|]. apply length_without.
Qed.

Lemma remove_NoDup r : preserves (λ s, pool_NoDup (this s)) (remove r).
Proof. intros s. apply without_NoDup. Qed.

Lemma register_within_capacity r :
  preserves (λ s, within_capacity (this s)) (register r).
Proof.
  intros s. unfold within_capacity.
  rewrite (maxInstances_config (this (final (register r) s)) (this s))
    by apply register_config.
  fold (pool (final (register r) s)) (pool s). rewrite register_pool.
  destruct (limit _) as [z|] eqn:Hz; [|done]. intros Hl.
  destruct (eviction_outcome s) as [[]|e] eqn:Ho.
  - apply length_registered; [done..|]. destruct (pool s) eqn:Hp; [right|by left].
    by apply (eviction_outcome_Normal_nil s).
  - pose proof (sublist_length _ _ (evicted_sublist (Package.maxInstances (this s)) (pool s))).
    lia.
Qed.

Lemma register_NoDup r s :
  pool_NoDup (this s) → r ∉ pool s → pool_NoDup (this (final (register r) s)).
Proof.
  unfold pool_NoDup. fold (pool s) (pool (final (register r) s)).
  rewrite register_pool. intros Hl Hr.
  destruct (eviction_outcome s); [by apply registered_NoDup|by apply evicted_NoDup].
Qed.

Lemma Package_createInstance_within_capacity r ic :
  preserves (λ s, within_capacity (this s)) (Package.createInstance r ic).
Proof.
  intros s Hs. rewrite Package_createInstance_this. by apply register_within_capacity.
Qed.

Lemma Core_createInstance_within_capacity r ic :
  preserves (λ s, within_capacity (this s)) (Core.createInstance r ic).
Proof.
  intros s Hs. rewrite Core_createInstance_this. by apply register_within_capacity.
Qed.

Lemma deactivate_preserves (I : Reacord → Prop) r :
  preserves (λ s, I (this s)) (remove r) →
  preserves (λ s, I (this s)) (Package.deactivate (Some r)).
Proof.
  intros Hr. eapply preserves_proper; [symmetry; apply deactivate_remove|].
  apply preserves_bind; [done|]. intros _. apply frames_this_preserves. auto with eff.
Qed.

Lemma destroy_preserves (I : Reacord → Prop) r c :
  preserves (λ s, I (this s)) (remove r) →
  preserves (λ s, I (this s)) (ReacordInstance.destroy (Package.instanceOf r c)).
Proof.
  intros Hr. apply preserves_bind; [done|]. intros _.
  apply frames_this_preserves. auto with eff.
Qed.

End invariants.

(** ** The external calls of a registration and of [createInstance] *)

Section calls.
Context `{Host}.
Implicit Types (s : State) (r old x : Renderer) (ic : option ReactNode) (w : World).

(** The calls of the eviction test: one [deactivate], on the oldest
    renderer, when the pool is over the limit and not empty. *)
Definition eviction_calls (s : State) : list Call :=
  if over_capacity s then
    match pool s !! 0 with Some old => [Deactivate old] | None => [] end
  else [].

(** The calls of the package's [createInstance] after the registration,
    from the world [w]: the container is created, and the initial content,
    if any, is rendered into it. *)
Definition Package_attach_calls r ic w : list Call :=
  CreateContainer r ::
    match result (host_createContainer r) w, ic with
    | Normal c, Some content => [UpdateContainer (InstanceProvider (r, c) content) c]
    | _, _ => []
    end.

Definition Core_attach_calls r ic w : list Call :=
  CreateContainer r ::
    match result (host_createContainer r) w, ic with
    | Normal c, Some content => [UpdateContainer content c]
    | _, _ => []
    end.

Lemma register_calls r s : calls (final (register r) s) = calls s ++ eviction_calls s.
Proof.
  unfold final, eviction_calls. rewrite register_run.
  destruct (eviction_outcome s); simpl; apply after_eviction_calls.
Qed.

Lemma logs_register r : logs (register r).
Proof. apply logs_intro. intros s. eexists. apply register_calls. Qed.

Lemma issued_register r s : issued (register r) s = eviction_calls s.
Proof. apply issued_eq, register_calls. Qed.

Lemma register_world r s : world (final (register r) s) = world (after_eviction s).
Proof. unfold final. rewrite register_run. by destruct (eviction_outcome s). Qed.

Lemma logs_Package_attach r ic : logs (Package_attach r ic).
Proof. unfold Package_attach. destruct ic; simpl; auto 6 with eff. Qed.

Lemma logs_Core_attach r ic : logs (Core_attach r ic).
Proof. unfold Core_attach. destruct ic; auto 6 with eff. Qed.

Lemma issued_Package_attach r ic s :
  issued (Package_attach r ic) s = Package_attach_calls r ic (world s).
Proof.
  unfold Package_attach, Package_attach_calls. eff_ext.
  rewrite issued_bind by (destruct ic; simpl; auto 6 with eff).
  rewrite issued_external, external_result. simpl. f_equal.
  destruct (result _ _) as [c|]; [|done].
  rewrite issued_bind by (destruct ic; simpl; auto with eff).
  destruct ic as [content|]; simpl; eff_ext.
  - rewrite issued_external, external_result. simpl.
    destruct (result _ _); by rewrite ?issued_ret.
  - by rewrite !issued_ret.
Qed.

Lemma issued_Core_attach r ic s :
  issued (Core_attach r ic) s = Core_attach_calls r ic (world s).
Proof.
  unfold Core_attach, Core_attach_calls. eff_ext.
  rewrite issued_bind by (destruct ic; auto 6 with eff).
  rewrite issued_external, external_result. simpl. f_equal.
  destruct (result _ _) as [c|]; [|done].
  rewrite issued_bind by (destruct ic; auto with eff).
  destruct ic as [content|]; simpl.
  - rewrite issued_external, external_result. simpl.
    destruct (result _ _); by rewrite ?issued_ret.
  - by rewrite !issued_ret.
Qed.

(** The calls of [createInstance], on every branch. *)
Lemma register_then_issued {A} r (k : Eff State A) s :
  logs k →
  issued (register r ;; k) s =
    eviction_calls s ++ match eviction_outcome s with
                        | Normal _ => issued k (final (register r) s)
                        | Throw _ => []
                        end.
Proof.
  intros Hk. rewrite issued_bind by auto using logs_register.
  by rewrite issued_register, register_result.
Qed.

Lemma Package_createInstance_issued r ic s :
  issued (Package.createInstance r ic) s =
    eviction_calls s ++ match eviction_outcome s with
                        | Normal _ => Package_attach_calls r ic (world (after_eviction s))
                        | Throw _ => []
                        end.
Proof.
  rewrite (issued_proper _ _ s (Package_createInstance_register r ic)).
  rewrite register_then_issued by apply logs_Package_attach.
  by rewrite issued_Package_attach, register_world.
Qed.

Lemma Core_createInstance_issued r ic s :
  issued (Core.createInstance r ic) s =
    eviction_calls s ++ match eviction_outcome s with
                        | Normal _ => Core_attach_calls r ic (world (after_eviction s))
                        | Throw _ => []
                        end.
Proof.
  rewrite (issued_proper _ _ s (Core_createInstance_register r ic)).
  rewrite register_then_issued by apply logs_Core_attach.
  by rewrite issued_Core_attach, register_world.
Qed.

Lemma logs_Package_createInstance r ic : logs (Package.createInstance r ic).
Proof.
  eapply logs_proper; [symmetry; apply Package_createInstance_register|].
  auto using logs_register, logs_Package_attach with eff.
Qed.

Lemma logs_Core_createInstance r ic : logs (Core.createInstance r ic).
Proof.
  eapply logs_proper; [symmetry; apply Core_createInstance_register|].
  auto using logs_register, logs_Core_attach with eff.
Qed.

End calls.

(** ** The properties of a registration *)

Section properties.
Context `{Host}.
Implicit Types (s : State) (r old x : Renderer) (ic : option ReactNode) (w : World).

Lemma Package_attach_calls_no_teardown r ic w :
  Forall (λ c, is_teardown c = false) (Package_attach_calls r ic w).
Proof.
  unfold Package_attach_calls. destruct (result _ _), ic; repeat constructor.
Qed.

Lemma Core_attach_calls_no_teardown r ic w :
  Forall (λ c, is_teardown c = false) (Core_attach_calls r ic w).
Proof.
  unfold Core_attach_calls. destruct (result _ _), ic; repeat constructor.
Qed.

Lemma over_capacity_limit s :
  over_capacity s = true ↔
  ∃ z, limit (Package.maxInstances (this s)) = Some z ∧ (z < Z.of_nat (length (pool s)))%Z.
Proof. apply gt_true_limit. Qed.

Lemma eviction_outcome_oldest s old :
  over_capacity s = true → pool s !! 0 = Some old →
  eviction_outcome s = result (host_deactivate old) (world s).
Proof. unfold eviction_outcome. by intros -> ->. Qed.

Lemma eviction_outcome_under s : over_capacity s = false → eviction_outcome s = Normal tt.
Proof. unfold eviction_outcome. by intros ->. Qed.

Lemma eviction_outcome_undefined s :
  over_capacity s = true → pool s = [] → eviction_outcome s = Throw TypeError.
Proof. unfold eviction_outcome. by intros -> ->. Qed.

(** C3: Eviction is first-in first-out and goes through [deactivate]: when
    the pool has no duplicates and is over the limit, [createInstance]
    removes exactly the oldest renderer (index 0), whatever was rendered
    since, appends the new one, calls [deactivate()] on the evicted
    renderer first, and deactivates or destroys nothing else. *)
Theorem createInstance_evicts_oldest r ic s old rest :
  pool s = old :: rest → NoDup (pool s) → over_capacity s = true →
  result (host_deactivate old) (world s) = Normal tt →
  pool (final (Package.createInstance r ic) s) = rest ++ [r] ∧
  ∃ cs, issued (Package.createInstance r ic) s = Deactivate old :: cs ∧
        Forall (λ c, is_teardown c = false) cs.
Proof.
  intros Hp Hnd Hover Hok.
  assert (eviction_outcome s = Normal tt) as Ho.
  { rewrite (eviction_outcome_oldest s old), Hok; [done..|]. by rewrite Hp. }
  split.
  - rewrite Package_createInstance_pool, Ho. unfold registered, over_capacity in *.
    rewrite Hp in *. by rewrite evicted_over_NoDup.
  - eexists. rewrite Package_createInstance_issued, Ho. unfold eviction_calls.
    rewrite Hover, Hp. split; [done|apply Package_attach_calls_no_teardown].
Qed.

(** C29: limits that are not a non-negative integer.  A negative (or
    minus infinite) [maxInstances] makes the first [createInstance] throw:
    the empty pool is over its limit, [this.renderers[0]] is [undefined],
    the filter removes nothing and [undefined.deactivate()] is a
    TypeError; the renderer is not registered and the state is left as it
    was.  A [maxInstances] that is NaN or [Infinity] switches eviction
    off: [length > maxInstances] is false for every length, so
    [createInstance] only appends, and calls no [deactivate]. *)
Theorem createInstance_degenerate_limits r ic s :
  (∀ z, pool s = [] → limit (Package.maxInstances (this s)) = Some z → (z < 0)%Z →
        Package.createInstance r ic s = (Throw TypeError, s)) ∧
  (limit (Package.maxInstances (this s)) = None →
   pool (final (Package.createInstance r ic) s) = pool s ++ [r] ∧
   Forall (λ c, is_teardown c = false) (issued (Package.createInstance r ic) s)).
Proof.
  split.
  - intros z Hp Hz Hneg. rewrite (Package_createInstance_register r ic s).
    assert (over_capacity s = true) as Hover.
    { apply over_capacity_limit. exists z. rewrite Hp. simpl. split; [done|lia]. }
    unfold bind. rewrite register_run, eviction_outcome_undefined by done.
    unfold after_eviction. by rewrite Hover, Hp.
  - intros Hz. assert (over_capacity s = false) as Hover.
    { unfold over_capacity. by rewrite gt_limit, Hz. }
    rewrite Package_createInstance_pool, Package_createInstance_issued.
    unfold eviction_calls. rewrite eviction_outcome_under, Hover by done. split.
    + unfold registered. by rewrite evicted_under.
    + apply Package_attach_calls_no_teardown.
Qed.

End properties.

(** ** Witnesses on the reference world *)

Lemma createInstance_evicts_oldest_witness :
  pool (final (Package.createInstance 4 None)
          (ref_state (Some (of_Z 2)) [1; 2; 3] (fresh_world 100 [] []))) = [2; 3] ++ [4] ∧
  ∃ cs, issued (Package.createInstance 4 None)
          (ref_state (Some (of_Z 2)) [1; 2; 3] (fresh_world 100 [] [])) =
          Deactivate 1 :: cs ∧
        Forall (λ c, is_teardown c = false) cs.
Proof.
  apply (createInstance_evicts_oldest (H:=ref_host) 4 None _ 1 [2; 3]);
    [reflexivity|compute_done|reflexivity|reflexivity].
Defined.

Lemma createInstance_degenerate_limits_witness :
  Package.createInstance 1 None
    (ref_state (Some (of_Z (-1))) [] (fresh_world 100 [] [])) =
  (Throw TypeError, ref_state (Some (of_Z (-1))) [] (fresh_world 100 [] [])) ∧
  pool (final (Package.createInstance 3 None)
          (ref_state (Some Infinity) [1; 2] (fresh_world 100 [] []))) = [1; 2] ++ [3] ∧
  Forall (λ c, is_teardown c = false)
    (issued (Package.createInstance 3 None)
       (ref_state (Some Infinity) [1; 2] (fresh_world 100 [] []))).
Proof.
  split.
  - apply (createInstance_degenerate_limits (H:=ref_host) 1 None _) with (-1)%Z;
      [reflexivity|reflexivity|lia].
  - apply (createInstance_degenerate_limits (H:=ref_host) 3 None). reflexivity.
Defined.

(** ** One out, one in *)

Section fifo.
Context `{Host}.
Implicit Types (s : State) (r old : Renderer) (rest : list Renderer).

(** A registration over the limit, in a pool without duplicates, drops
    exactly the oldest renderer. *)
Lemma register_pool_fifo r s old rest :
  pool_NoDup (this s) → pool s = old :: rest → over_capacity s = true →
  eviction_outcome s = Normal tt →
  pool (final (register r) s) = rest ++ [r].
Proof.
  unfold pool_NoDup, over_capacity. fold (pool s). intros Hnd Hpool Hover Hev.
  rewrite register_pool, Hev. unfold registered. f_equal.
  rewrite Hpool in *. by apply evicted_over_NoDup.
Qed.

Lemma eviction_outcome_over s old rest :
  pool s = old :: rest → over_capacity s = true →
  eviction_outcome s = result (host_deactivate old) (world s).
Proof. unfold eviction_outcome. by intros -> ->. Qed.

Lemma Package_createInstance_pool_fifo r ic s old rest :
  pool_NoDup (this s) → pool s = old :: rest → over_capacity s = true →
  result (host_deactivate old) (world s) = Normal tt →
  pool (final (Package.createInstance r ic) s) = rest ++ [r].
Proof.
  intros Hnd Hpool Hover Hev. unfold pool at 1. rewrite Package_createInstance_this.
  apply register_pool_fifo with old; [done..|].
  by rewrite (eviction_outcome_over s old rest).
Qed.

Lemma Core_createInstance_pool_fifo r ic s old rest :
  pool_NoDup (this s) → pool s = old :: rest → over_capacity s = true →
  result (host_deactivate old) (world s) = Normal tt →
  pool (final (Core.createInstance r ic) s) = rest ++ [r].
Proof.
  intros Hnd Hpool Hover Hev. unfold pool at 1. rewrite Core_createInstance_this.
  apply register_pool_fifo with old; [done..|].
  by rewrite (eviction_outcome_over s old rest).
Qed.

Lemma Package_attach_calls_teardown r ic w :
  filter is_teardown (Package_attach_calls r ic w) = [].
Proof.
  unfold Package_attach_calls. by destruct (result (host_createContainer r) w), ic.
Qed.

End fifo.

(** ** Eviction in a pool with duplicates *)

(** C40: The eviction removes by identity, not by position: when the
    adapter has registered the same renderer more than once, the eviction
    of the oldest entry filters every occurrence of that renderer out of
    the pool, while [deactivate()] is called on it once; the pool may
    shrink by more than one. *)
Theorem createInstance_evicts_every_occurrence `{Host} (r : Renderer)
    (ic : option ReactNode) (s : State) (old : Renderer) (rest : list Renderer) :
  pool s = old :: rest → over_capacity s = true →
  result (host_deactivate old) (world s) = Normal tt →
  pool (final (Package.createInstance r ic) s) = without old rest ++ [r] ∧
  filter is_teardown (issued (Package.createInstance r ic) s) = [Deactivate old].
Proof.
  intros Hp Hover Hok.
  assert (eviction_outcome s = Normal tt) as Ho
    by by rewrite (eviction_outcome_over s old rest).
  split.
  - rewrite Package_createInstance_pool, Ho. unfold registered, over_capacity in *.
    rewrite Hp in *. by rewrite evicted_over.
  - rewrite Package_createInstance_issued, Ho. unfold eviction_calls.
    rewrite Hover, Hp. simpl. rewrite filter_cons_True by done. f_equal.
    apply Package_attach_calls_teardown.
Qed.

Lemma createInstance_evicts_every_occurrence_witness :
  pool (final (Package.createInstance 3 None)
          (ref_state (Some (of_Z 2)) [1; 2; 1] (fresh_world 100 [] []))) =
    without 1 [2; 1] ++ [3] ∧
  filter is_teardown
    (issued (Package.createInstance 3 None)
       (ref_state (Some (of_Z 2)) [1; 2; 1] (fresh_world 100 [] []))) = [Deactivate 1].
Proof.
  apply (createInstance_evicts_every_occurrence (H := ref_host) 3 None _ 1 [2; 1]);
    reflexivity.
Defined.
