(* ===== verification/Dispatch.v ===== *)
(** * The interaction dispatcher

    [handleComponentInteraction] offers an interaction to the renderers of
    the pool, oldest first, and returns at the first that answers [true].
    This file gives the loop a reference semantics on the world alone
    ([offered], [dispatch_outcome], [dispatch_world]), proves that the
    method computes it, and derives the dispatcher's properties: the calls
    are a prefix of the pool in pool order, the first claimant wins and
    nothing after it is invoked, an unclaimed interaction is dropped
    silently, an exception of a renderer ends the dispatch, and the pool is
    never touched. *)

From stdpp Require Import base tactics option list.
From S2P Require Import Prelude Js Host Types ReacordPackage ReacordCore.
From S2P Require Import RefWorld.

Section reference.
Context `{Host}.
Implicit Types (i : ComponentInteraction) (r x : Renderer) (rs : list Renderer)
  (w : World) (s : State).

(** The renderers the loop invokes over [rs] from the world [w]: each
    renderer as long as all before it answered [false]. *)
Fixpoint offered i rs w : list Renderer :=
  match rs with
  | [] => []
  | r :: rest =>
      r :: match result (host_handleComponentInteraction r i) w with
           | Normal false => offered i rest (final (host_handleComponentInteraction r i) w)
           | _ => []
           end
  end.

(** How the loop ends. *)
Fixpoint dispatch_outcome i rs w : Outcome unit :=
  match rs with
  | [] => Normal tt
  | r :: rest =>
      match result (host_handleComponentInteraction r i) w with
      | Normal true => Normal tt
      | Normal false =>
          dispatch_outcome i rest (final (host_handleComponentInteraction r i) w)
      | Throw e => Throw e
      end
  end.

(** The world the loop leaves. *)
Fixpoint dispatch_world i rs w : World :=
  match rs with
  | [] => w
  | r :: rest =>
      match result (host_handleComponentInteraction r i) w with
      | Normal false =>
          dispatch_world i rest (final (host_handleComponentInteraction r i) w)
      | _ => final (host_handleComponentInteraction r i) w
      end
  end.

(** The renderer that claims the interaction, if one does. *)
Fixpoint claimant i rs w : option Renderer :=
  match rs with
  | [] => None
  | r :: rest =>
      match result (host_handleComponentInteraction r i) w with
      | Normal true => Some r
      | Normal false => claimant i rest (final (host_handleComponentInteraction r i) w)
      | Throw _ => None
      end
  end.

(** The log entries of a dispatch. *)
Definition offers i (rs : list Renderer) : list Call :=
  (λ r, HandleComponentInteraction r i) <$> rs.

Lemma handled_offers i rs : handled (offers i rs) = rs.
Proof. induction rs as [|r rs IH]; [done|]. simpl. by rewrite IH. Qed.

Lemma offered_prefix i rs w : offered i rs w `prefix_of` rs.
Proof.
  revert w. induction rs as [|r rs IH]; intros w; [done|]. simpl.
  apply prefix_cons. destruct (result _ _) as [[]|]; [apply prefix_nil|apply IH|apply prefix_nil].
Qed.

(** The loop computes its reference semantics. *)
Lemma loop_run i rs s :
  Package.handleComponentInteraction_loop i rs s =
    (dispatch_outcome i rs (world s),
     {| this := this s;
        world := dispatch_world i rs (world s);
        calls := calls s ++ offers i (offered i rs (world s)) |}).
Proof.
  revert s. induction rs as [|r rs IH]; intros s; simpl.
  { unfold ret. rewrite app_nil_r. by destruct s. }
  unfold bind. eff_ext. rewrite external_run.
  destruct (result _ _) as [[]|e]; simpl; [done| |done].
  rewrite IH. simpl. by rewrite <-app_assoc.
Qed.

Lemma handleComponentInteraction_run i s :
  Package.handleComponentInteraction i s =
    (dispatch_outcome i (pool s) (world s),
     {| this := this s;
        world := dispatch_world i (pool s) (world s);
        calls := calls s ++ offers i (offered i (pool s) (world s)) |}).
Proof. unfold Package.handleComponentInteraction. rewrite bind_gets. apply loop_run. Qed.

Lemma frames_this_handleComponentInteraction i :
  frames_this (Package.handleComponentInteraction i).
Proof. intros s. unfold final. by rewrite handleComponentInteraction_run. Qed.

Lemma handleComponentInteraction_issued i s :
  issued (Package.handleComponentInteraction i) s = offers i (offered i (pool s) (world s)).
Proof. apply issued_eq. unfold final. by rewrite handleComponentInteraction_run. Qed.

Lemma logs_handleComponentInteraction i : logs (Package.handleComponentInteraction i).
Proof.
  apply logs_intro. intros s. eexists. unfold final.
  by rewrite handleComponentInteraction_run.
Qed.

End reference.

(** ** Dispatch under the renderer contract *)

Section contract.
Context `{HostContract}.
Implicit Types (i : ComponentInteraction) (r x : Renderer) (l rs : list Renderer)
  (w : World) (s : State).

(** [declines i w r]: from the world [w], the renderer [r] answers [false]
    to the interaction [i]. *)
Definition declines i w r : Prop :=
  result (host_handleComponentInteraction r i) w = Normal false.

#[export] Instance declines_dec i w r : Decision (declines i w r).
Proof. unfold declines. apply _. Defined.

(** The contract: a renderer that declines has changed nothing. *)
Lemma declines_world i w r :
  declines i w r → final (host_handleComponentInteraction r i) w = w.
Proof.
  unfold declines. intros Hr. apply (handle_false_pure r i w).
  by rewrite (run_eq (host_handleComponentInteraction r i)), Hr.
Qed.

Lemma offered_declined i l rs w :
  Forall (declines i w) l → offered i (l ++ rs) w = l ++ offered i rs w.
Proof.
  induction 1 as [|r l Hr Hl IH]; [done|]. simpl.
  by rewrite Hr, declines_world, IH.
Qed.

Lemma dispatch_outcome_declined i l rs w :
  Forall (declines i w) l → dispatch_outcome i (l ++ rs) w = dispatch_outcome i rs w.
Proof.
  induction 1 as [|r l Hr Hl IH]; [done|]. simpl. by rewrite Hr, declines_world.
Qed.

Lemma dispatch_world_declined i l rs w :
  Forall (declines i w) l → dispatch_world i (l ++ rs) w = dispatch_world i rs w.
Proof.
  induction 1 as [|r l Hr Hl IH]; [done|]. simpl. by rewrite Hr, declines_world.
Qed.

Lemma claimant_declined i l rs w :
  Forall (declines i w) l → claimant i (l ++ rs) w = claimant i rs w.
Proof.
  induction 1 as [|r l Hr Hl IH]; [done|]. simpl. by rewrite Hr, declines_world.
Qed.

(** The run of a dispatch whose first answer other than [false] comes
    from [r]. *)
Lemma handleComponentInteraction_split i s l r rest :
  pool s = l ++ r :: rest → Forall (declines i (world s)) l →
  Package.handleComponentInteraction i s =
    (dispatch_outcome i (r :: rest) (world s),
     {| this := this s;
        world := dispatch_world i (r :: rest) (world s);
        calls := calls s ++ offers i (l ++ offered i (r :: rest) (world s)) |}).
Proof.
  intros Hp Hl. rewrite handleComponentInteraction_run, Hp.
  by rewrite dispatch_outcome_declined, dispatch_world_declined, offered_declined.
Qed.

(** C4: First match wins.  When the renderers before [r] in the pool
    decline the interaction and [r] claims it, [handleComponentInteraction]
    invokes exactly those renderers and [r], in pool order, returns
    normally, and leaves the world as [r]'s handler left it: no renderer
    after [r] is invoked, whether or not it would have claimed the
    interaction too.  The pool is unchanged. *)
Theorem dispatch_first_match i s l r rest :
  pool s = l ++ r :: rest → Forall (declines i (world s)) l →
  result (host_handleComponentInteraction r i) (world s) = Normal true →
  Package.handleComponentInteraction i s =
    (Normal tt,
     {| this := this s;
        world := final (host_handleComponentInteraction r i) (world s);
        calls := calls s ++ offers i (l ++ [r]) |}).
Proof.
  intros Hp Hl Hr. rewrite (handleComponentInteraction_split i s l r rest) by done.
  simpl. by rewrite Hr.
Qed.

(** C24: An interaction no renderer claims is dropped silently: every
    renderer of the pool is asked once, in pool order, the call returns
    normally, and the state differs from the initial one by the log only. *)
Theorem dispatch_unclaimed i s :
  Forall (declines i (world s)) (pool s) →
  Package.handleComponentInteraction i s =
    (Normal tt,
     {| this := this s; world := world s; calls := calls s ++ offers i (pool s) |}).
Proof.
  intros Hl. rewrite handleComponentInteraction_run.
  rewrite <-(app_nil_r (pool s)) at 1 2 3.
  rewrite dispatch_outcome_declined, dispatch_world_declined, offered_declined by done.
  simpl. by rewrite app_nil_r.
Qed.

(** C25: An exception thrown by a renderer's handler ends the dispatch: it
    propagates to the caller of [handleComponentInteraction], and the
    renderers after the one that threw are not invoked. *)
Theorem dispatch_throws i s l r rest e :
  pool s = l ++ r :: rest → Forall (declines i (world s)) l →
  result (host_handleComponentInteraction r i) (world s) = Throw e →
  result (Package.handleComponentInteraction i) s = Throw e ∧
  issued (Package.handleComponentInteraction i) s = offers i (l ++ [r]) ∧
  pool (final (Package.handleComponentInteraction i) s) = pool s.
Proof.
  intros Hp Hl Hr. split_and!.
  - unfold result. rewrite (handleComponentInteraction_split i s l r rest) by done.
    simpl. by rewrite Hr.
  - rewrite handleComponentInteraction_issued, Hp, offered_declined by done.
    simpl. by rewrite Hr.
  - apply frames_this_pool, frames_this_handleComponentInteraction.
Qed.

End contract.

Section order.
Context `{Host}.
Implicit Types (i : ComponentInteraction) (s : State).

(** C26: Whatever the renderers answer, the calls of a dispatch are
    [handleComponentInteraction] calls with the dispatched interaction, on
    a prefix of the pool in pool order (each renderer at most once when the
    pool has no duplicates), and the object is not modified. *)
Theorem dispatch_calls_prefix i s :
  (∃ rs, issued (Package.handleComponentInteraction i) s = offers i rs ∧
         rs `prefix_of` pool s) ∧
  this (final (Package.handleComponentInteraction i) s) = this s.
Proof.
  split; [|apply frames_this_handleComponentInteraction].
  eexists. split; [apply handleComponentInteraction_issued|apply offered_prefix].
Qed.

End order.

(** ** Witnesses on the reference world *)

(** Renderers 2 and 3 would both claim interaction 7; renderer 1 does not. *)
Definition two_claimants : State :=
  ref_state None [1; 2; 3] (fresh_world 100 [(2, 7); (3, 7)] []).

Lemma dispatch_first_match_witness :
  Package.handleComponentInteraction 7 two_claimants =
    (Normal tt,
     {| this := this two_claimants;
        world := final (host_handleComponentInteraction 2 7) (world two_claimants);
        calls := calls two_claimants ++ offers 7 ([1] ++ [2]) |}).
Proof.
  apply (dispatch_first_match (H:=ref_host) 7 two_claimants [1] 2 [3]);
    [reflexivity|by repeat constructor|reflexivity].
Defined.

Lemma dispatch_unclaimed_witness :
  Package.handleComponentInteraction 8 two_claimants =
    (Normal tt,
     {| this := this two_claimants; world := world two_claimants;
        calls := calls two_claimants ++ offers 8 (pool two_claimants) |}).
Proof.
  apply (dispatch_unclaimed (H:=ref_host) 8 two_claimants). by repeat constructor.
Defined.

(** Renderer 2's handler throws. *)
Definition faulty_handler : State :=
  ref_state None [1; 2; 3] (fresh_world 100 [(3, 7)] [FailHandle 2]).

Lemma dispatch_throws_witness :
  result (Package.handleComponentInteraction 7) faulty_handler = Throw host_failure ∧
  issued (Package.handleComponentInteraction 7) faulty_handler = offers 7 ([1] ++ [2]) ∧
  pool (final (Package.handleComponentInteraction 7) faulty_handler) = pool faulty_handler.
Proof.
  apply (dispatch_throws (H:=ref_host) 7 faulty_handler [1] 2 [3]);
    [reflexivity|by repeat constructor|reflexivity].
Defined.
