(* ===== verification/Lifecycle.v ===== *)
(** * The instance: render, deactivate, destroy, and its creation

    The three closures of the instance object and the part of
    [createInstance] that builds it.  Each closure is given its exact run
    (result, object, world and log, exceptions included); the theorems
    then state the life cycle the specification describes (§4.3, §7, §8):
    [render] always goes to the instance's own container and leaves the
    pool alone, also when it fails; [deactivate] and [destroy] remove the
    renderer from the pool before they call it, so the removal survives an
    exception and repeating it is harmless, while the renderer's own
    method is called once per call; the initial content is rendered before
    [createInstance] returns; a renderer whose initial render fails stays
    registered; and creating an instance then removing it gives the object
    back exactly when the renderer was new to the pool. *)

From stdpp Require Import base tactics option list.
From S2P Require Import Prelude Js Host Types ReacordPackage ReacordCore.
From S2P Require Import RefWorld Pool Dispatch.

Section closures.
Context `{Host}.
Implicit Types (s : State) (r x : Renderer) (c : Container) (content : ReactNode).

(** The state after the removal of [r] and a call [call] that left the
    world [w]. *)
Definition removed_then (r : Renderer) (call : Call) (w : World) (s : State) : State :=
  {| this := {| config := config (this s); renderers := without r (pool s) |};
     world := w;
     calls := calls s ++ [call] |}.

Lemma destroy_run r c s :
  ReacordInstance.destroy (Package.instanceOf r c) s =
    (result (host_destroy r) (world s),
     removed_then r (Destroy r) (final (host_destroy r) (world s)) s).
Proof. simpl. unfold bind, modify. eff_ext. by rewrite external_run. Qed.

Lemma deactivate_run r s :
  Package.deactivate (Some r) s =
    (result (host_deactivate r) (world s),
     removed_then r (Deactivate r) (final (host_deactivate r) (world s)) s).
Proof.
  rewrite (deactivate_remove r s). unfold remove, bind, modify. eff_ext.
  by rewrite external_run.
Qed.

Lemma render_run r c content s :
  ReacordInstance.render (Package.instanceOf r c) content s =
    (result (host_updateContainer (InstanceProvider (r, c) content) c) (world s),
     {| this := this s;
        world := final (host_updateContainer (InstanceProvider (r, c) content) c) (world s);
        calls := calls s ++ [UpdateContainer (InstanceProvider (r, c) content) c] |}).
Proof. simpl. eff_ext. by rewrite external_run. Qed.

Lemma removed_then_removed_then r (k1 k2 : Call) (w1 w2 : World) s :
  removed_then r k2 w2 (removed_then r k1 w1 s) =
    {| this := this (removed_then r k1 w1 s);
       world := w2;
       calls := calls s ++ [k1; k2] |}.
Proof.
  unfold removed_then, pool. simpl. by rewrite without_idemp, <-app_assoc.
Qed.

(** C19: the three methods of an instance, on every branch.
    [destroy()] filters the renderer out of the pool first, then calls
    [renderer.destroy()], once, and returns its result, so an exception
    propagates with the renderer already out of the pool; [deactivate()]
    does the same with [renderer.deactivate()] and never calls [destroy];
    [render(content)] hands the content to the reconciler with the
    container of the instance (wrapped in the provider of the instance in
    the package, as it is in the older core) and does not modify the
    object, also when the reconciler throws.  The configuration and the
    other renderers, in their order, are kept. *)
Theorem instance_methods_run r c content s :
  ReacordInstance.destroy (Package.instanceOf r c) s =
    (result (host_destroy r) (world s),
     {| this := {| config := config (this s); renderers := without r (pool s) |};
        world := final (host_destroy r) (world s);
        calls := calls s ++ [Destroy r] |}) ∧
  ReacordInstance.deactivate (Package.instanceOf r c) s =
    (result (host_deactivate r) (world s),
     {| this := {| config := config (this s); renderers := without r (pool s) |};
        world := final (host_deactivate r) (world s);
        calls := calls s ++ [Deactivate r] |}) ∧
  ReacordInstance.render (Package.instanceOf r c) content s =
    (result (host_updateContainer (InstanceProvider (r, c) content) c) (world s),
     {| this := this s;
        world := final (host_updateContainer (InstanceProvider (r, c) content) c) (world s);
        calls := calls s ++ [UpdateContainer (InstanceProvider (r, c) content) c] |}) ∧
  ReacordInstance.render (Core.instanceOf r c) content s =
    (result (host_updateContainer content c) (world s),
     {| this := this s;
        world := final (host_updateContainer content c) (world s);
        calls := calls s ++ [UpdateContainer content c] |}).
Proof.
  split_and!; [apply destroy_run|apply deactivate_run|apply render_run|].
  simpl. eff_ext. by rewrite external_run.
Qed.

End closures.

(** ** Repeated and interleaved calls *)

Section repeated.
Context `{Host}.
Implicit Types (s : State) (r x : Renderer) (c : Container) (content : ReactNode)
  (i : ComponentInteraction).

Lemma logs_destroy r c : logs (ReacordInstance.destroy (Package.instanceOf r c)).
Proof. simpl. auto with eff. Qed.

Lemma logs_deactivate r : logs (Package.deactivate (Some r)).
Proof.
  eapply logs_proper; [symmetry; apply deactivate_remove|].
  unfold remove. auto with eff.
Qed.

Lemma logs_render r c content :
  logs (ReacordInstance.render (Package.instanceOf r c) content).
Proof. simpl. auto with eff. Qed.

Lemma destroy_pool r c s :
  pool (final (ReacordInstance.destroy (Package.instanceOf r c)) s) = without r (pool s).
Proof. unfold final. by rewrite destroy_run. Qed.

Lemma deactivate_pool r s :
  pool (final (Package.deactivate (Some r)) s) = without r (pool s).
Proof. unfold final. by rewrite deactivate_run. Qed.

Lemma destroy_result r c s :
  result (ReacordInstance.destroy (Package.instanceOf r c)) s =
    result (host_destroy r) (world s).
Proof. unfold result. by rewrite destroy_run. Qed.

Lemma destroy_issued r c s :
  issued (ReacordInstance.destroy (Package.instanceOf r c)) s = [Destroy r].
Proof. apply issued_eq. unfold final. by rewrite destroy_run. Qed.

Lemma deactivate_result r s :
  result (Package.deactivate (Some r)) s = result (host_deactivate r) (world s).
Proof. unfold result. by rewrite deactivate_run. Qed.

Lemma deactivate_issued r s : issued (Package.deactivate (Some r)) s = [Deactivate r].
Proof. apply issued_eq. unfold final. by rewrite deactivate_run. Qed.

Lemma render_issued r c content s :
  issued (ReacordInstance.render (Package.instanceOf r c) content) s =
    [UpdateContainer (InstanceProvider (r, c) content) c].
Proof. apply issued_eq. unfold final. by rewrite render_run. Qed.

(** C30: the methods of an instance are not guarded by its state.  A
    second [instance.destroy()] calls [renderer.destroy()] a second time
    (on the pool it changes nothing: the removal is idempotent and cannot
    throw); and [instance.render(content)] after [instance.destroy()] or
    after [instance.deactivate()] still hands the content to the
    reconciler, for the container of the renderer that was torn down. *)
Theorem teardown_is_not_guarded r c content s :
  result (host_destroy r) (world s) = Normal tt →
  result (host_deactivate r) (world s) = Normal tt →
  (issued (ReacordInstance.destroy (Package.instanceOf r c) ;;
           ReacordInstance.destroy (Package.instanceOf r c)) s = [Destroy r; Destroy r] ∧
   pool (final (ReacordInstance.destroy (Package.instanceOf r c) ;;
                ReacordInstance.destroy (Package.instanceOf r c)) s) =
     pool (final (ReacordInstance.destroy (Package.instanceOf r c)) s)) ∧
  issued (ReacordInstance.destroy (Package.instanceOf r c) ;;
          ReacordInstance.render (Package.instanceOf r c) content) s =
    [Destroy r; UpdateContainer (InstanceProvider (r, c) content) c] ∧
  issued (ReacordInstance.deactivate (Package.instanceOf r c) ;;
          ReacordInstance.render (Package.instanceOf r c) content) s =
    [Deactivate r; UpdateContainer (InstanceProvider (r, c) content) c].
Proof.
  intros Hdestroy Hdeactivate. split_and!.
  - rewrite issued_bind by auto using logs_destroy.
    by rewrite destroy_result, Hdestroy, !destroy_issued.
  - rewrite final_bind, destroy_result, Hdestroy.
    by rewrite !destroy_pool, without_idemp.
  - rewrite issued_bind by auto using logs_destroy, logs_render.
    by rewrite destroy_result, Hdestroy, destroy_issued, render_issued.
  - rewrite issued_bind; [|apply logs_deactivate|intros; apply logs_render].
    simpl ReacordInstance.deactivate.
    by rewrite deactivate_result, Hdeactivate, deactivate_issued, render_issued.
Qed.

(** C31: removal is total and final.  Deactivating or destroying an
    instance whose renderer is no longer in the pool (it was evicted,
    deactivated or destroyed before, or never registered) leaves the pool
    exactly as it is, and never fails on the pool's account: the result
    is the renderer's own.  And a deactivated instance is out of the
    dispatch: after [instance.deactivate()], whether or not the renderer's
    [deactivate] threw, the next [handleComponentInteraction] does not
    invoke the renderer; the deactivation calls [renderer.deactivate()]
    and nothing else, not [renderer.destroy()]. *)
Theorem removal_is_total_and_final r c i s :
  (r ∉ pool s →
   this (final (ReacordInstance.deactivate (Package.instanceOf r c)) s) = this s ∧
   this (final (ReacordInstance.destroy (Package.instanceOf r c)) s) = this s ∧
   result (ReacordInstance.deactivate (Package.instanceOf r c)) s =
     result (host_deactivate r) (world s) ∧
   result (ReacordInstance.destroy (Package.instanceOf r c)) s =
     result (host_destroy r) (world s)) ∧
  (r ∉ handled (issued (Package.handleComponentInteraction i)
                  (final (ReacordInstance.deactivate (Package.instanceOf r c)) s))) ∧
  issued (ReacordInstance.deactivate (Package.instanceOf r c)) s = [Deactivate r].
Proof.
  split_and!; [|rewrite handleComponentInteraction_issued, handled_offers|apply deactivate_issued].
  - intros Hr. unfold final, result. simpl ReacordInstance.deactivate.
    rewrite deactivate_run, destroy_run. unfold removed_then. simpl.
    rewrite without_not_elem_of by done. by destruct s as [[] ? ?].
  - intros Hin.
    apply elem_of_prefix with (l2 := pool (final (Package.deactivate (Some r)) s)) in Hin;
      [|apply offered_prefix].
    rewrite deactivate_pool in Hin. by apply not_elem_of_without in Hin.
Qed.

End repeated.

(** ** The creation of an instance *)

Section creation.
Context `{Host}.
Implicit Types (s : State) (r x : Renderer) (c : Container) (content : ReactNode)
  (ic : option ReactNode) (w : World).

(** The result of the package's [createInstance] after the registration,
    from the world [w]. *)
Definition Package_attach_result r ic w : Outcome ReacordInstance.t :=
  match result (host_createContainer r) w with
  | Throw e => Throw e
  | Normal c =>
      match ic with
      | None => Normal (Package.instanceOf r c)
      | Some content =>
          match result (host_updateContainer (InstanceProvider (r, c) content) c)
                  (final (host_createContainer r) w) with
          | Normal _ => Normal (Package.instanceOf r c)
          | Throw e => Throw e
          end
      end
  end.

Lemma Package_attach_result_eq r ic s :
  result (Package_attach r ic) s = Package_attach_result r ic (world s).
Proof.
  unfold Package_attach, Package_attach_result. eff_ext.
  rewrite result_bind, external_result. destruct (result _ _) as [c|e]; [|done].
  rewrite result_bind. destruct ic as [content|]; simpl; [|done]. eff_ext.
  rewrite external_result, external_world. by destruct (result _ _).
Qed.

Lemma Package_createInstance_result r ic s :
  result (Package.createInstance r ic) s =
    match eviction_outcome s with
    | Normal _ => Package_attach_result r ic (world (after_eviction s))
    | Throw e => Throw e
    end.
Proof.
  rewrite Package_createInstance_register, result_bind, register_result.
  destruct (eviction_outcome s); [|done].
  by rewrite Package_attach_result_eq, register_world.
Qed.

(** The instance a creating call returns is the object literal over its
    renderer. *)
Lemma Package_attach_Normal r ic s inst :
  result (Package_attach r ic) s = Normal inst → ∃ c, inst = Package.instanceOf r c.
Proof.
  unfold Package_attach. rewrite result_bind.
  destruct (result (reconciler_createContainer r) s) as [c|]; [|done].
  intros ->%then_ret_Normal. by exists c.
Qed.

Lemma Core_attach_Normal r ic s inst :
  result (Core_attach r ic) s = Normal inst → ∃ c, inst = Core.instanceOf r c.
Proof.
  unfold Core_attach. rewrite result_bind.
  destruct (result (reconciler_createContainer r) s) as [c|]; [|done].
  intros ->%then_ret_Normal. by exists c.
Qed.

Lemma Package_createInstance_Normal r ic s inst :
  result (Package.createInstance r ic) s = Normal inst →
  ∃ c, inst = Package.instanceOf r c.
Proof.
  rewrite Package_createInstance_register.
  intros (_ & _ & Hk)%then_Normal. by eapply Package_attach_Normal.
Qed.

Lemma Core_createInstance_Normal r ic s inst :
  result (Core.createInstance r ic) s = Normal inst →
  ∃ c, inst = Core.instanceOf r c.
Proof.
  rewrite Core_createInstance_register.
  intros (_ & _ & Hk)%then_Normal. by eapply Core_attach_Normal.
Qed.

(** C27: the initial render.  When the eviction test ends normally and
    the reconciler returns the container [c], [createInstance(renderer,
    content)] has called
    [updateContainer(<InstanceProvider value={instance}>{content}</...>, c)]
    right after [createContainer], before it returns; it returns the
    instance over [renderer] and [c] when that render returns, and throws
    the render's exception otherwise.  Without initial content it creates
    the container, renders nothing and returns the instance; [render] may
    then be called any number of times, or never. *)
Theorem createInstance_initial_render r content c s :
  eviction_outcome s = Normal tt →
  result (host_createContainer r) (world (after_eviction s)) = Normal c →
  (issued (Package.createInstance r (Some content)) s =
     eviction_calls s ++
       [CreateContainer r; UpdateContainer (InstanceProvider (r, c) content) c] ∧
   result (Package.createInstance r (Some content)) s =
     match result (host_updateContainer (InstanceProvider (r, c) content) c)
             (final (host_createContainer r) (world (after_eviction s))) with
     | Normal _ => Normal (Package.instanceOf r c)
     | Throw e => Throw e
     end) ∧
  (issued (Package.createInstance r None) s = eviction_calls s ++ [CreateContainer r] ∧
   result (Package.createInstance r None) s = Normal (Package.instanceOf r c)).
Proof.
  intros Ho Hc.
  rewrite !Package_createInstance_issued, !Package_createInstance_result, Ho.
  unfold Package_attach_calls, Package_attach_result. by rewrite Hc.
Qed.

(** C28: the error paths of [createInstance].  A failing eviction
    cancels the creation: when the [deactivate] of the evicted renderer
    throws, [createInstance] throws that exception without registering the
    new renderer or creating a container, and the evicted renderer is out
    of the pool all the same.  A failure after the registration leaves the
    renderer registered with no handle on it: when the eviction test ends
    normally and [createContainer] or the initial render throws,
    [createInstance] throws that exception, so the caller receives no
    instance, yet the renderer is already the last element of the pool;
    it stays there, takes part in dispatch and counts toward the limit
    until it is evicted. *)
Theorem createInstance_error_paths r ic s :
  (∀ old rest e,
     pool s = old :: rest → over_capacity s = true →
     result (host_deactivate old) (world s) = Throw e →
     result (Package.createInstance r ic) s = Throw e ∧
     pool (final (Package.createInstance r ic) s) = without old rest ∧
     issued (Package.createInstance r ic) s = [Deactivate old]) ∧
  (∀ e,
     eviction_outcome s = Normal tt →
     Package_attach_result r ic (world (after_eviction s)) = Throw e →
     result (Package.createInstance r ic) s = Throw e ∧
     last (pool (final (Package.createInstance r ic) s)) = Some r).
Proof.
  rewrite Package_createInstance_result, Package_createInstance_pool,
    Package_createInstance_issued. split.
  - intros old rest e Hp Hover Hold.
    assert (eviction_outcome s = Throw e) as ->.
    { rewrite (eviction_outcome_oldest s old), Hold; [done..|]. by rewrite Hp. }
    unfold eviction_calls, over_capacity in *. rewrite Hp in *.
    by rewrite Hover, evicted_over, app_nil_r.
  - intros e -> He. split; [done|apply last_registered].
Qed.

End creation.

(** ** Creating an instance and removing it again *)

Section roundtrip.
Context `{Host}.
Implicit Types (s : State) (r : Renderer) (c : Container) (ic : option ReactNode).

(** Under the limit the registration is the push. *)
Lemma register_under r s :
  over_capacity s = false →
  this (final (register r) s) =
    {| config := config (this s); renderers := pool s ++ [r] |}.
Proof.
  intros Hover. unfold final. rewrite register_run, eviction_outcome_under by done.
  unfold after_eviction. by rewrite Hover.
Qed.

(** The removal of the renderer pushed last gives the pool back exactly
    when the renderer was not in it. *)
Lemma pushed_then_removed r (o o' : Reacord) :
  o' = {| config := config o; renderers := renderers o ++ [r] |} →
  {| config := config o'; renderers := without r (renderers o') |} = o ↔
  r ∉ renderers o.
Proof.
  intros ->. simpl. rewrite without_app, without_cons_eq, without_nil, app_nil_r.
  rewrite <-without_eq_iff. destruct o as [cfg l]. simpl.
  split; [by intros [= ->]|by intros ->].
Qed.

Lemma destroy_this r c s :
  this (final (ReacordInstance.destroy (Package.instanceOf r c)) s) =
    {| config := config (this s); renderers := without r (pool s) |}.
Proof. unfold final. by rewrite destroy_run. Qed.

Lemma deactivate_this r s :
  this (final (Package.deactivate (Some r)) s) =
    {| config := config (this s); renderers := without r (pool s) |}.
Proof. unfold final. by rewrite deactivate_run. Qed.

(** Both methods that remove, after a registration under the limit. *)
Lemma registered_then_removed r c s s' :
  over_capacity s = false → this s' = this (final (register r) s) →
  (this (final (ReacordInstance.destroy (Package.instanceOf r c)) s') = this s ↔
   r ∉ pool s) ∧
  (this (final (ReacordInstance.deactivate (Package.instanceOf r c)) s') = this s ↔
   r ∉ pool s).
Proof.
  intros Hover Hs'. rewrite (destroy_this r c s'). simpl. rewrite (deactivate_this r s').
  unfold pool. split; apply pushed_then_removed; by rewrite Hs', register_under.
Qed.

(** C20: creating an instance and removing it again.  From a pool under
    the limit, when [createInstance(renderer, initialContent)] returns an
    instance, [instance.destroy()] right after it leaves the object exactly
    as it was before the creation, and so does [instance.deactivate()],
    whatever the renderer's methods do, if and only if the renderer was not
    in the pool already; when it was, its earlier registration is removed
    as well.  In both variants. *)
Theorem create_then_remove_roundtrip r ic s :
  over_capacity s = false →
  Forall (λ createInstance : Renderer → option ReactNode → Eff State ReacordInstance.t,
    ∀ inst, result (createInstance r ic) s = Normal inst →
      (this (final (ReacordInstance.destroy inst) (final (createInstance r ic) s)) =
         this s ↔ r ∉ pool s) ∧
      (this (final (ReacordInstance.deactivate inst) (final (createInstance r ic) s)) =
         this s ↔ r ∉ pool s))
    [Package.createInstance; Core.createInstance].
Proof.
  intros Hover. repeat apply Forall_cons_2; [..|apply Forall_nil_2]; intros inst.
  - intros [c ->]%Package_createInstance_Normal.
    apply registered_then_removed; [done|apply Package_createInstance_this].
  - intros [c ->]%Core_createInstance_Normal.
    apply (registered_then_removed r c); [done|apply Core_createInstance_this].
Qed.

End roundtrip.

(** ** Witnesses on the reference world *)

(** A pool of three renderers over the limit 2, in a world with the given
    faults whose next reference is 100. *)
Definition over_limit (fs : list fault) : State :=
  ref_state (Some (of_Z 2)) [1; 2; 3] (fresh_world 100 [] fs).

Lemma teardown_is_not_guarded_witness :
  (issued (ReacordInstance.destroy (Package.instanceOf 1 100) ;;
           ReacordInstance.destroy (Package.instanceOf 1 100)) (over_limit []) =
     [Destroy 1; Destroy 1] ∧
   pool (final (ReacordInstance.destroy (Package.instanceOf 1 100) ;;
                ReacordInstance.destroy (Package.instanceOf 1 100)) (over_limit [])) =
     pool (final (ReacordInstance.destroy (Package.instanceOf 1 100)) (over_limit []))) ∧
  issued (ReacordInstance.destroy (Package.instanceOf 1 100) ;;
          ReacordInstance.render (Package.instanceOf 1 100) (Text 7)) (over_limit []) =
    [Destroy 1; UpdateContainer (InstanceProvider (1, 100) (Text 7)) 100] ∧
  issued (ReacordInstance.deactivate (Package.instanceOf 1 100) ;;
          ReacordInstance.render (Package.instanceOf 1 100) (Text 7)) (over_limit []) =
    [Deactivate 1; UpdateContainer (InstanceProvider (1, 100) (Text 7)) 100].
Proof.
  apply (teardown_is_not_guarded (H:=ref_host) 1 100 (Text 7) (over_limit []));
    reflexivity.
Defined.

Lemma removal_is_total_and_final_witness :
  this (final (ReacordInstance.deactivate (Package.instanceOf 9 100)) (over_limit [])) =
    this (over_limit []) ∧
  this (final (ReacordInstance.destroy (Package.instanceOf 9 100)) (over_limit [])) =
    this (over_limit []) ∧
  result (ReacordInstance.deactivate (Package.instanceOf 9 100)) (over_limit []) =
    result (host_deactivate 9) (world (over_limit [])) ∧
  result (ReacordInstance.destroy (Package.instanceOf 9 100)) (over_limit []) =
    result (host_destroy 9) (world (over_limit [])).
Proof.
  apply (removal_is_total_and_final (H:=ref_host) 9 100 7 (over_limit [])). compute_done.
Defined.

Lemma createInstance_initial_render_witness :
  (issued (Package.createInstance 4 (Some (Text 7))) (over_limit []) =
     eviction_calls (over_limit []) ++
       [CreateContainer 4; UpdateContainer (InstanceProvider (4, 100) (Text 7)) 100] ∧
   result (Package.createInstance 4 (Some (Text 7))) (over_limit []) =
     match result (host_updateContainer (InstanceProvider (4, 100) (Text 7)) 100)
             (final (host_createContainer 4) (world (after_eviction (over_limit [])))) with
     | Normal _ => Normal (Package.instanceOf 4 100)
     | Throw e => Throw e
     end) ∧
  (issued (Package.createInstance 4 None) (over_limit []) =
     eviction_calls (over_limit []) ++ [CreateContainer 4] ∧
   result (Package.createInstance 4 None) (over_limit []) =
     Normal (Package.instanceOf 4 100)).
Proof.
  apply (createInstance_initial_render (H:=ref_host) 4 (Text 7) 100 (over_limit []));
    reflexivity.
Defined.

Lemma createInstance_error_paths_witness :
  (result (Package.createInstance 4 None) (over_limit [FailDeactivate 1]) =
     Throw host_failure ∧
   pool (final (Package.createInstance 4 None) (over_limit [FailDeactivate 1])) =
     without 1 [2; 3] ∧
   issued (Package.createInstance 4 None) (over_limit [FailDeactivate 1]) =
     [Deactivate 1]) ∧
  (result (Package.createInstance 4 (Some (Text 7)))
     (over_limit [FailUpdateContainer 100]) = Throw host_failure ∧
   last (pool (final (Package.createInstance 4 (Some (Text 7)))
                 (over_limit [FailUpdateContainer 100]))) = Some 4).
Proof.
  split.
  - apply (createInstance_error_paths (H:=ref_host) 4 None
             (over_limit [FailDeactivate 1])); reflexivity.
  - apply (createInstance_error_paths (H:=ref_host) 4 (Some (Text 7))
             (over_limit [FailUpdateContainer 100])); reflexivity.
Defined.

(** Two renderers under a limit of two. *)
Definition under_limit : State :=
  ref_state (Some (of_Z 2)) [1; 2] (fresh_world 100 [] []).

Lemma create_then_remove_roundtrip_witness :
  Forall (λ createInstance : Renderer → option ReactNode → Eff State ReacordInstance.t,
    ∀ inst,
      result (createInstance 3 (Some (Text 1))) under_limit = Normal inst →
      (this (final (ReacordInstance.destroy inst)
               (final (createInstance 3 (Some (Text 1))) under_limit)) =
         this under_limit ↔ 3 ∉ pool under_limit) ∧
      (this (final (ReacordInstance.deactivate inst)
               (final (createInstance 3 (Some (Text 1))) under_limit)) =
         this under_limit ↔ 3 ∉ pool under_limit))
    [Package.createInstance; Core.createInstance].
Proof.
  apply (create_then_remove_roundtrip (H := ref_host) 3 (Some (Text 1)) under_limit).
  reflexivity.
Defined.
