(* ===== verification/Ascent.v ===== *)
(** * What only grows in the outside world

    Several facts about the outside are kept by everything that happens
    there: a renderer that exists still exists, a session that is bound to
    a renderer stays bound to it.  Each is an order on worlds that every
    operation of the host goes up in (the class [Ascending]); this file
    shows, once for all such orders, that every method of the class, of
    both variants, and every method of an instance goes up in it
    ([ascends]), since the class reaches the outside through the
    operations of the host only. *)

From stdpp Require Import base tactics option list.
From S2P Require Import Prelude Js Host Types ReacordPackage ReacordCore.
From S2P Require Import Pool Dispatch.

(** The order a property of the world induces: what holds still holds. *)
Definition live_le `{Host} {K : Type} (live : World → K → Prop) : relation World :=
  λ w w', ∀ k, live w k → live w' k.

#[export] Instance live_le_preorder `{Host} {K : Type} (live : World → K → Prop) :
  PreOrder (live_le live).
Proof. split; [by intros w k|]. intros w1 w2 w3 H12 H23 k Hk. by apply H23, H12. Qed.

(** What an order asks of the host: each of its operations goes up,
    whether it returns or throws. *)
Class Ascending `{Host} (R : relation World) : Prop := {
  handle_ascends r i w : R w (final (host_handleComponentInteraction r i) w);
  deactivate_ascends r w : R w (final (host_deactivate r) w);
  destroy_ascends r w : R w (final (host_destroy r) w);
  createContainer_ascends r w : R w (final (host_createContainer r) w);
  updateContainer_ascends content c w : R w (final (host_updateContainer content c) w);
  new_channel_ascends channel w : R w (final (host_new_ChannelMessageRenderer channel) w);
  new_command_ascends ci w : R w (final (host_new_CommandReplyRenderer ci) w);
}.

Section ascent.
Context `{Host} (R : relation World) `{!PreOrder R}.
Implicit Types (s : State) (r : Renderer) (c : Container) (ic : option ReactNode).

(** [ascends m]: the world after [m] is above the world before it. *)
Definition ascends {A} (m : Eff State A) : Prop :=
  ∀ s, R (world s) (world (final m s)).

Lemma ascends_ret {A} (a : A) : ascends (ret a).
Proof. by intros s. Qed.

Lemma ascends_throw {A} e : ascends (throw (A := A) e).
Proof. by intros s. Qed.

Lemma ascends_get : ascends get.
Proof. by intros s. Qed.

Lemma ascends_gets {A} (f : State → A) : ascends (gets f).
Proof. by intros s. Qed.

Lemma ascends_set_renderers f : ascends (modify (set_renderers f)).
Proof. by intros s. Qed.

Lemma ascends_bind {A B} (m : Eff State A) (k : A → Eff State B) :
  ascends m → (∀ a, ascends (k a)) → ascends (let* a := m in k a).
Proof.
  intros Hm Hk s. rewrite final_bind.
  destruct (result m s); [|apply Hm]. etrans; [apply Hm|apply Hk].
Qed.

Lemma ascends_external {A} (call : Call) (op : Eff World A) :
  (∀ w, R w (final op w)) → ascends (external call op).
Proof. intros Hop s. rewrite external_world. apply Hop. Qed.

Lemma ascends_proper {A} (m m' : Eff State A) : m ≡ m' → ascends m → ascends m'.
Proof. intros Hm Hasc s. unfold final. rewrite <-Hm. apply Hasc. Qed.

Context `{!Ascending R}.

Lemma ascends_handle r i : ascends (renderer_handleComponentInteraction r i).
Proof. apply ascends_external, handle_ascends. Qed.

Lemma ascends_deactivate r : ascends (renderer_deactivate r).
Proof. apply ascends_external, deactivate_ascends. Qed.

Lemma ascends_destroy r : ascends (renderer_destroy r).
Proof. apply ascends_external, destroy_ascends. Qed.

Lemma ascends_createContainer r : ascends (reconciler_createContainer r).
Proof. apply ascends_external, createContainer_ascends. Qed.

Lemma ascends_updateContainer content c : ascends (reconciler_updateContainer content c).
Proof. apply ascends_external, updateContainer_ascends. Qed.

Lemma ascends_new_channel channel : ascends (new_ChannelMessageRenderer channel).
Proof. apply ascends_external, new_channel_ascends. Qed.

Lemma ascends_new_command ci : ascends (new_CommandReplyRenderer ci).
Proof. apply ascends_external, new_command_ascends. Qed.

End ascent.

(** The methods of the class are built from the operations above: the
    tactic goes through a method as it is written, and ends at the
    methods already shown to ascend (the hints of [ascent]). *)
Create HintDb ascent discriminated.

Ltac ascent :=
  repeat match goal with
    | |- ascends ?R (ret _) => apply (ascends_ret R)
    | |- ascends ?R (throw _) => apply (ascends_throw R)
    | |- ascends ?R get => apply (ascends_get R)
    | |- ascends ?R (gets _) => apply (ascends_gets R)
    | |- ascends ?R (modify (set_renderers _)) => apply (ascends_set_renderers R)
    | |- ascends ?R (renderer_handleComponentInteraction _ _) => apply (ascends_handle R)
    | |- ascends ?R (renderer_deactivate _) => apply (ascends_deactivate R)
    | |- ascends ?R (renderer_destroy _) => apply (ascends_destroy R)
    | |- ascends ?R (reconciler_createContainer _) => apply (ascends_createContainer R)
    | |- ascends ?R (reconciler_updateContainer _ _) => apply (ascends_updateContainer R)
    | |- ascends ?R (new_ChannelMessageRenderer _) => apply (ascends_new_channel R)
    | |- ascends ?R (new_CommandReplyRenderer _) => apply (ascends_new_command R)
    | |- ascends ?R (bind _ _) => apply (ascends_bind R); [|intros ?]
    | |- ascends _ (if ?b then _ else _) => destruct b
    | |- ascends _ (match ?x with _ => _ end) => destruct x
    | |- ascends _ _ => solve [auto 2 with ascent nocore]
    end.

Section methods.
Context `{Host} (R : relation World) `{!PreOrder R} `{!Ascending R}.
Implicit Types (s : State) (r : Renderer) (c : Container) (ic : option ReactNode).

Lemma ascends_Package_deactivate (o : option Renderer) : ascends R (Package.deactivate o).
Proof. unfold Package.deactivate. ascent. Qed.

Lemma ascends_remove_then {A} r (k : Eff State A) :
  ascends R k → ascends R (modify (set_renderers (without r)) ;; k).
Proof. intros Hk. ascent. Qed.

Lemma ascends_register r : ascends R (register r).
Proof. unfold register. ascent; apply ascends_Package_deactivate. Qed.

Lemma after_eviction_ascends s : R (world s) (world (after_eviction s)).
Proof.
  unfold after_eviction. destruct (over_capacity s); [|done].
  destruct (pool s !! 0) as [old|]; [|done].
  apply (ascends_deactivate R old (set_renderers (without old) s)).
Qed.

Lemma ascends_Package_attach r ic : ascends R (Package_attach r ic).
Proof. unfold Package_attach. simpl. ascent. Qed.

Lemma ascends_Core_attach r ic : ascends R (Core_attach r ic).
Proof. unfold Core_attach. ascent. Qed.

Lemma ascends_Package_createInstance r ic : ascends R (Package.createInstance r ic).
Proof.
  unfold Package.createInstance. simpl. ascent; apply ascends_Package_deactivate.
Qed.

Lemma ascends_Core_createInstance r ic : ascends R (Core.createInstance r ic).
Proof. unfold Core.createInstance. ascent; apply ascends_Package_deactivate. Qed.

Lemma ascends_createChannelRendererInstance channel ic :
  ascends R (Core.createChannelRendererInstance channel ic).
Proof. unfold Core.createChannelRendererInstance. ascent. apply ascends_Core_createInstance. Qed.

Lemma ascends_createCommandReplyRendererInstance ci ic :
  ascends R (Core.createCommandReplyRendererInstance ci ic).
Proof.
  unfold Core.createCommandReplyRendererInstance. ascent. apply ascends_Core_createInstance.
Qed.

Lemma ascends_loop i rs : ascends R (Package.handleComponentInteraction_loop i rs).
Proof. induction rs as [|r rs IH]; simpl; ascent. Qed.

Lemma ascends_handleComponentInteraction i :
  ascends R (Package.handleComponentInteraction i).
Proof. unfold Package.handleComponentInteraction. ascent. apply ascends_loop. Qed.

(** ** The methods of an instance *)

Definition ascends_instance (inst : ReacordInstance.t) : Prop :=
  (∀ content, ascends R (ReacordInstance.render inst content)) ∧
  ascends R (ReacordInstance.deactivate inst) ∧
  ascends R (ReacordInstance.destroy inst).

Lemma ascends_Package_instanceOf r c : ascends_instance (Package.instanceOf r c).
Proof.
  split_and!; simpl; [intros content; ascent|apply ascends_Package_deactivate|ascent].
Qed.

Lemma ascends_Core_instanceOf r c : ascends_instance (Core.instanceOf r c).
Proof.
  split_and!; simpl; [intros content; ascent|apply ascends_Package_deactivate|ascent].
Qed.

End methods.

#[export] Hint Extern 1 (ascends ?R (Package.deactivate _)) =>
  apply (ascends_Package_deactivate R) : ascent.
#[export] Hint Extern 1 (ascends ?R (register _)) =>
  apply (ascends_register R) : ascent.
#[export] Hint Extern 1 (ascends ?R (Package_attach _ _)) =>
  apply (ascends_Package_attach R) : ascent.
#[export] Hint Extern 1 (ascends ?R (Core_attach _ _)) =>
  apply (ascends_Core_attach R) : ascent.
#[export] Hint Extern 1 (ascends ?R (Package.createInstance _ _)) =>
  apply (ascends_Package_createInstance R) : ascent.
#[export] Hint Extern 1 (ascends ?R (Core.createInstance _ _)) =>
  apply (ascends_Core_createInstance R) : ascent.
#[export] Hint Extern 1 (ascends ?R (Core.createChannelRendererInstance _ _)) =>
  apply (ascends_createChannelRendererInstance R) : ascent.
#[export] Hint Extern 1 (ascends ?R (Core.createCommandReplyRendererInstance _ _)) =>
  apply (ascends_createCommandReplyRendererInstance R) : ascent.
#[export] Hint Extern 1 (ascends ?R (Package.handleComponentInteraction_loop _ _)) =>
  apply (ascends_loop R) : ascent.
#[export] Hint Extern 1 (ascends ?R (Package.handleComponentInteraction _)) =>
  apply (ascends_handleComponentInteraction R) : ascent.

(** The older core declares [deactivate] and the dispatcher again, with
    the same bodies. *)
#[export] Hint Extern 1 (ascends ?R (Core.deactivate _)) =>
  apply (ascends_Package_deactivate R) : ascent.
#[export] Hint Extern 1 (ascends ?R (Core.handleComponentInteraction_loop _ _)) =>
  apply (ascends_loop R) : ascent.
#[export] Hint Extern 1 (ascends ?R (Core.handleComponentInteraction _)) =>
  apply (ascends_handleComponentInteraction R) : ascent.
