(* ===== verification/Allocation.v ===== *)
(** * Renderers as allocated objects

    A renderer is an object: the older core constructs it itself, in its
    two factory methods, so no renderer enters its pool twice.  This file
    states that with the allocation contract of the host ([HostContract]):
    every operation keeps the renderers that exist ([grows], an instance
    of the ascent of [Ascent]), a constructor
    returns one that did not exist, and therefore the pool holds existing
    renderers without duplicates ([pool_allocated]) across registration,
    removal and every external call.  The same holds of whatever makes a
    new renderer and registers it ([fresh], [made_pool_allocated]), which
    is what the adapters of [Adapter] do. *)

From stdpp Require Import base tactics option list.
From S2P Require Import Prelude Js Host Types ReacordPackage ReacordCore.
From S2P Require Import Pool Dispatch Ascent.

(** [grows m]: the renderers that exist before [m] exist after it. *)
#[warning="-notation-for-abbreviation"]
Notation grows := (ascends (live_le allocated)).

Section allocation.
Context `{HostContract}.
Implicit Types (s : State) (r x old : Renderer) (c : Container)
  (ic : option ReactNode).

(** The allocation contract says that every operation of the host keeps
    the renderers that exist. *)
#[export] Instance allocated_ascending : Ascending (live_le allocated).
Proof.
  split; intros; intros x;
    [apply handle_allocated|apply deactivate_allocated|apply destroy_allocated
    |apply createContainer_allocated|apply updateContainer_allocated
    |apply new_channel_allocated|apply new_command_allocated].
Qed.

(** The pool holds renderers that exist, each once. *)
Definition pool_allocated (s : State) : Prop :=
  NoDup (pool s) ∧ Forall (allocated (world s)) (pool s).

(** A smaller pool in a larger world. *)
Lemma pool_allocated_mono s s' :
  pool s' `sublist_of` pool s →
  (∀ x, allocated (world s) x → allocated (world s') x) →
  pool_allocated s → pool_allocated s'.
Proof.
  intros Hsub Hw [Hnd Hall]. split; [by eapply sublist_NoDup|].
  apply Forall_forall. intros x Hx. apply Hw. rewrite Forall_forall in Hall.
  apply Hall. by eapply elem_of_sublist.
Qed.

Lemma grows_preserves {A} (m : Eff State A) :
  frames_this m → grows m → preserves pool_allocated m.
Proof.
  intros Hf Hg s. apply pool_allocated_mono; [by rewrite frames_this_pool|apply Hg].
Qed.

Lemma remove_pool_allocated r : preserves pool_allocated (remove r).
Proof. intros s. apply pool_allocated_mono; [apply without_sublist|done]. Qed.

(** A renderer can be pushed when it exists and is not in the pool. *)
Definition registrable r s : Prop :=
  pool_allocated (set_renderers (λ renderers, renderers ++ [r]) s).

Lemma registrable_intro r s :
  pool_allocated s → r ∉ pool s → allocated (world s) r → registrable r s.
Proof.
  intros [Hnd Hall] Hr Hx. split; simpl; [by apply NoDup_snoc|].
  apply Forall_app. split; [done|by apply Forall_singleton].
Qed.

Lemma registrable_mono r s s' :
  pool s' `sublist_of` pool s →
  (∀ x, allocated (world s) x → allocated (world s') x) →
  registrable r s → registrable r s'.
Proof.
  intros Hsub Hw. apply pool_allocated_mono; [|done]. by apply sublist_app.
Qed.

Lemma registrable_not_elem_of r s : registrable r s → r ∉ pool s.
Proof. intros [Hnd _]. simpl in Hnd. by apply NoDup_snoc in Hnd as [? _]. Qed.

Lemma registrable_pool_allocated r s : registrable r s → pool_allocated s.
Proof. apply pool_allocated_mono; [apply sublist_inserts_r; done|done]. Qed.

(** ** Registration *)

Lemma after_eviction_sublist s : pool (after_eviction s) `sublist_of` pool s.
Proof. rewrite after_eviction_pool. apply evicted_sublist. Qed.

Lemma register_final r s :
  final (register r) s =
    match eviction_outcome s with
    | Normal _ => set_renderers (λ renderers, renderers ++ [r]) (after_eviction s)
    | Throw _ => after_eviction s
    end.
Proof. unfold final. rewrite register_run. by destruct (eviction_outcome s). Qed.

Lemma register_pool_allocated r s :
  registrable r s → pool_allocated (final (register r) s).
Proof.
  intros Hr. rewrite register_final.
  assert (registrable r (after_eviction s)) as Hr'
    by (revert Hr; apply registrable_mono;
        [apply after_eviction_sublist|apply (after_eviction_ascends (live_le allocated))]).
  destruct (eviction_outcome s); [done|by eapply registrable_pool_allocated].
Qed.

(** Whatever follows the registration without touching the object. *)
Lemma register_then_pool_allocated {A} r (k : Eff State A) s :
  frames_this k → grows k → registrable r s →
  pool_allocated (final (register r ;; k) s).
Proof.
  intros Hf Hg Hr. rewrite final_bind.
  destruct (result (register r) s);
    [apply grows_preserves; [done..|]|]; by apply register_pool_allocated.
Qed.

Lemma Package_createInstance_pool_allocated r ic s :
  registrable r s → pool_allocated (final (Package.createInstance r ic) s).
Proof.
  rewrite Package_createInstance_register.
  apply register_then_pool_allocated;
    [apply frames_this_Package_attach|ascent].
Qed.

Lemma Core_createInstance_pool_allocated r ic s :
  registrable r s → pool_allocated (final (Core.createInstance r ic) s).
Proof.
  rewrite Core_createInstance_register.
  apply register_then_pool_allocated;
    [apply frames_this_Core_attach|ascent].
Qed.

(** ** The factory methods: the renderer is new *)

(** [fresh m]: a renderer [m] returns did not exist before, and exists
    after. *)
Definition fresh (m : Eff State Renderer) : Prop :=
  ∀ s r, result m s = Normal r →
         ¬ allocated (world s) r ∧ allocated (world (final m s)) r.

(** What makes a renderer leaves the pool as it is, and its renderer can be
    pushed. *)
Lemma made_registrable (m : Eff State Renderer) s r :
  frames_this m → grows m → fresh m →
  pool_allocated s → result m s = Normal r → registrable r (final m s).
Proof.
  intros Hf Hg Hfresh Hs Hres. destruct (Hfresh s r Hres) as [Hnew Hr].
  apply registrable_intro; [by apply grows_preserves| |done].
  rewrite frames_this_pool by done. intros Hin. destruct Hs as [_ Hall].
  rewrite Forall_forall in Hall. by apply Hnew, Hall.
Qed.

(** Then [createInstance]: the pool still has no duplicates. *)
Lemma made_pool_allocated (m : Eff State Renderer)
    (k : Renderer → Eff State ReacordInstance.t) :
  frames_this m → grows m → fresh m →
  (∀ r s, registrable r s → pool_allocated (final (k r) s)) →
  preserves pool_allocated (let* r := m in k r).
Proof.
  intros Hf Hg Hfresh Hk s Hs. rewrite final_bind.
  destruct (result m s) as [r|] eqn:Hres;
    [by apply Hk, made_registrable|by apply grows_preserves].
Qed.

Lemma fresh_external (call : Call) (op : Eff World Renderer) :
  (∀ w r w', op w = (Normal r, w') → ¬ allocated w r ∧ allocated w' r) →
  fresh (external call op).
Proof.
  intros Hfresh s r. rewrite external_result, external_world. intros Hres.
  apply Hfresh. unfold result, final in *. destruct (op (world s)). simpl in *. by subst.
Qed.

Lemma fresh_new_channel channel : fresh (new_ChannelMessageRenderer channel).
Proof. apply fresh_external, new_channel_fresh. Qed.

Lemma fresh_new_command ci : fresh (new_CommandReplyRenderer ci).
Proof. apply fresh_external, new_command_fresh. Qed.

Lemma createChannelRendererInstance_pool_allocated channel ic :
  preserves pool_allocated (Core.createChannelRendererInstance channel ic).
Proof.
  apply made_pool_allocated;
    [auto with eff|ascent|apply fresh_new_channel|].
  intros r s. apply Core_createInstance_pool_allocated.
Qed.

Lemma createCommandReplyRendererInstance_pool_allocated ci ic :
  preserves pool_allocated (Core.createCommandReplyRendererInstance ci ic).
Proof.
  apply made_pool_allocated;
    [auto with eff|ascent|apply fresh_new_command|].
  intros r s. apply Core_createInstance_pool_allocated.
Qed.

(** A factory call over the limit drops exactly the oldest renderer, and
    the renderer it adds is new to the pool. *)
Lemma constructed_fifo (call : Call) (op : Eff World Renderer) s r old rest ic :
  registrable r (final (external call op) s) →
  pool s = old :: rest → over_capacity s = true →
  result (host_deactivate old) (final op (world s)) = Normal tt →
  pool (final (Core.createInstance r ic) (final (external call op) s)) = rest ++ [r] ∧
  r ∉ old :: rest.
Proof.
  intros Hr Hpool Hover Hev. split.
  - apply Core_createInstance_pool_fifo with old.
    + by destruct (registrable_pool_allocated _ _ Hr).
    + by rewrite external_pool.
    + unfold over_capacity in *. by rewrite external_pool, external_this.
    + by rewrite external_world.
  - apply registrable_not_elem_of in Hr. by rewrite external_pool, Hpool in Hr.
Qed.

(** ** Removal and dispatch *)

Lemma deactivate_pool_allocated r :
  preserves pool_allocated (Package.deactivate (Some r)).
Proof.
  eapply preserves_proper; [symmetry; apply deactivate_remove|].
  apply preserves_bind; [apply remove_pool_allocated|intros _].
  apply grows_preserves; [auto with eff|ascent].
Qed.

Lemma destroy_pool_allocated r c :
  preserves pool_allocated (ReacordInstance.destroy (Package.instanceOf r c)).
Proof.
  apply preserves_bind; [apply remove_pool_allocated|intros _].
  apply grows_preserves; [auto with eff|ascent].
Qed.

Lemma handleComponentInteraction_pool_allocated i :
  preserves pool_allocated (Package.handleComponentInteraction i).
Proof.
  apply grows_preserves; [apply frames_this_handleComponentInteraction|ascent].
Qed.

End allocation.
