(* ===== verification/Variants.v ===== *)
(** * The two variants of the class

    [src/library/core/reacord.ts] and
    [src/packages/reacord/library/core/reacord.tsx] declare the same class
    twice.  This file relates the two models: the methods that are written
    the same are equal, the pool evolves the same under [createInstance],
    and the only difference a program can observe is the provider the
    package puts around the content it hands to the reconciler.  Instance
    objects are compared method by method ([≡] on [ReacordInstance.t]). *)

From stdpp Require Import base tactics option list.
From S2P Require Import Prelude Js Host Types ReacordPackage ReacordCore.
From S2P Require Import RefWorld Pool Dispatch Lifecycle.

(** Two instance objects are the same to a program when their methods run
    the same. *)
#[export] Instance instance_equiv `{Host} : Equiv ReacordInstance.t := λ a b,
  (∀ content, ReacordInstance.render a content ≡ ReacordInstance.render b content) ∧
  ReacordInstance.deactivate a ≡ ReacordInstance.deactivate b ∧
  ReacordInstance.destroy a ≡ ReacordInstance.destroy b.

(** The outcomes of two creating calls agree. *)
Definition same_outcome `{Host} (a b : Outcome ReacordInstance.t) : Prop :=
  match a, b with
  | Normal x, Normal y => x ≡ y
  | Throw e, Throw e' => e = e'
  | _, _ => False
  end.

(** The package's instance seen from the older core: its [render] wraps
    the content before it reaches the reconciler. *)
Definition provided `{Host} (r : Renderer) (c : Container) (inst : ReacordInstance.t) :
    ReacordInstance.t :=
  {| ReacordInstance.render := λ content,
       ReacordInstance.render inst (InstanceProvider (r, c) content);
     ReacordInstance.deactivate := ReacordInstance.deactivate inst;
     ReacordInstance.destroy := ReacordInstance.destroy inst |}.

Section variants.
Context `{Host}.
Implicit Types (r : Renderer) (c : Container) (s : State) (ic : option ReactNode).

#[export] Instance instance_equivalence : Equivalence (≡@{ReacordInstance.t}).
Proof.
  split.
  - by intros a.
  - intros a b (Hr & Hd & Hx). split_and!; [intros content|..]; by symmetry.
  - intros a b c' (Hr & Hd & Hx) (Hr' & Hd' & Hx').
    split_and!; [intros content|..]; etrans; eauto.
Qed.

#[export] Instance same_outcome_equivalence : Equivalence same_outcome.
Proof.
  split.
  - by intros [a|e].
  - intros [a|e] [b|e']; simpl; by try symmetry.
  - intros [a|e] [b|e'] [c'|e'']; simpl; try done; [apply transitivity|congruence].
Qed.

(** The methods both files write the same. *)
Lemma Core_new cfg : Core.new cfg = Package.new cfg.
Proof. done. Qed.

Lemma Core_maxInstances o : Core.maxInstances o = Package.maxInstances o.
Proof. done. Qed.

Lemma Core_deactivate renderer : Core.deactivate renderer = Package.deactivate renderer.
Proof. done. Qed.

Lemma Core_handleComponentInteraction i :
  Core.handleComponentInteraction i = Package.handleComponentInteraction i.
Proof. done. Qed.

(** The instance objects: the same closures, but for the provider. *)
Lemma Package_instanceOf_provided r c :
  Package.instanceOf r c = provided r c (Core.instanceOf r c).
Proof. done. Qed.

Lemma Core_instanceOf_deactivate r c :
  ReacordInstance.deactivate (Core.instanceOf r c) =
    ReacordInstance.deactivate (Package.instanceOf r c).
Proof. done. Qed.

Lemma Core_instanceOf_destroy r c :
  ReacordInstance.destroy (Core.instanceOf r c) =
    ReacordInstance.destroy (Package.instanceOf r c).
Proof. done. Qed.

(** What follows the registration, in the package, is what follows it in
    the older core on the content the provider wraps. *)
Lemma Package_attach_Core_attach r ic s :
  final (Package_attach r ic) s =
    final (let* c := reconciler_createContainer r in
           match ic with
           | Some content =>
               reconciler_updateContainer (InstanceProvider (r, c) content) c
           | None => ret tt
           end) s.
Proof.
  unfold Package_attach. rewrite !final_bind.
  destruct (result (reconciler_createContainer r) s) as [c|e]; [|done].
  rewrite !final_bind. by destruct ic, (result _ _).
Qed.

(** The registration is shared: the object after [createInstance] is the
    same in both variants, whatever the host does with the content. *)
Lemma Core_createInstance_this_Package r ic s :
  this (final (Core.createInstance r ic) s) =
    this (final (Package.createInstance r ic) s).
Proof. by rewrite Core_createInstance_this, Package_createInstance_this. Qed.

(** So are the calls that tear a renderer down. *)
Lemma teardown_attach_calls r ic w :
  filter is_teardown (Package_attach_calls r ic w) = [] ∧
  filter is_teardown (Core_attach_calls r ic w) = [].
Proof.
  unfold Package_attach_calls, Core_attach_calls.
  by destruct (result (host_createContainer r) w), ic.
Qed.

Lemma teardown_createInstance r ic s :
  filter is_teardown (issued (Core.createInstance r ic) s) =
    filter is_teardown (issued (Package.createInstance r ic) s).
Proof.
  rewrite Core_createInstance_issued, Package_createInstance_issued, !filter_app.
  f_equal. destruct (eviction_outcome s); [|done].
  by destruct (teardown_attach_calls r ic (world (after_eviction s))) as [-> ->].
Qed.

(** Without initial content the two methods run the same. *)
Lemma createInstance_None_final r s :
  final (Core.createInstance r None) s = final (Package.createInstance r None) s.
Proof.
  rewrite Core_createInstance_register, Package_createInstance_register, !final_bind.
  destruct (result (register r) s); [|done].
  unfold Core_attach, Package_attach. rewrite !final_bind.
  by destruct (result (reconciler_createContainer r) _).
Qed.

(** Two computations agree from a state: the same state after them, and
    outcomes a program cannot tell apart. *)
Definition agree (m1 m2 : Eff State ReacordInstance.t) s : Prop :=
  final m1 s = final m2 s ∧ same_outcome (result m1 s) (result m2 s).

Lemma agree_bind {A} (m : Eff State A) (k1 k2 : A → Eff State ReacordInstance.t) s :
  (∀ a, result m s = Normal a → agree (k1 a) (k2 a) (final m s)) →
  agree (let* a := m in k1 a) (let* a := m in k2 a) s.
Proof.
  intros Hk. unfold agree. rewrite !final_bind, !result_bind.
  destruct (result m s) as [a|e]; [by apply Hk|done].
Qed.

Lemma agree_proper (m1 m1' m2 m2' : Eff State ReacordInstance.t) s :
  m1 ≡ m1' → m2 ≡ m2' → agree m1' m2' s → agree m1 m2 s.
Proof. intros H1 H2. unfold agree. by rewrite H1, H2. Qed.

(** ** A host that ignores the provider *)

Section without_provider.
Hypothesis provider_transparent : ∀ h content, InstanceProvider h content = content.

Lemma instanceOf_without_provider r c : Package.instanceOf r c ≡ Core.instanceOf r c.
Proof.
  split_and!; [|done..]. intros content s. simpl. by rewrite provider_transparent.
Qed.

Lemma attach_without_provider r ic s : agree (Package_attach r ic) (Core_attach r ic) s.
Proof.
  apply agree_bind. intros c _. unfold agree. rewrite !final_bind, !result_bind.
  destruct ic as [content|]; simpl; rewrite ?provider_transparent;
    [destruct (result _ _); [|done]|]; (split; [done|apply instanceOf_without_provider]).
Qed.

Lemma createInstance_without_provider r ic s :
  agree (Package.createInstance r ic) (Core.createInstance r ic) s.
Proof.
  eapply agree_proper;
    [apply Package_createInstance_register|apply Core_createInstance_register|].
  apply agree_bind. intros _ _. apply attach_without_provider.
Qed.
End without_provider.

End variants.

(** A host that hands the content through: the reference world with a
    provider that adds nothing. *)
Definition plain_host : Host := {|
  World := refworld;
  ComponentInteraction := nat;
  ReactNode := node;
  Channel := nat;
  CommandInteraction := nat;
  host_handleComponentInteraction := ref_handle;
  host_deactivate := ref_deactivate;
  host_destroy := ref_destroy;
  host_createContainer := ref_createContainer;
  host_updateContainer := ref_updateContainer;
  host_new_ChannelMessageRenderer := λ _, ref_new;
  host_new_CommandReplyRenderer := λ _, ref_new;
  InstanceProvider := λ _ content, content;
  allocated := λ w r, r < next_ref w;
|}.

(** C34: the two variants of [createInstance] compared.  They register
    the renderer the same way: from any state, with any content and any
    host, the object [this] (configuration and pool) after the older
    core's method is the object after the package's, and both make the
    same calls of [deactivate] and [destroy] on renderers, in the same
    order.  And the provider is the only difference between them: on a
    host for which [InstanceProvider] hands its content through unchanged,
    the two leave the same state (object, world and call log) and either
    throw the same exception or return instances whose [render],
    [deactivate] and [destroy] run the same. *)
Theorem variants_compared `{Host} (r : Renderer) (ic : option ReactNode) (s : State) :
  (this (final (Core.createInstance r ic) s) =
     this (final (Package.createInstance r ic) s) ∧
   filter is_teardown (issued (Core.createInstance r ic) s) =
     filter is_teardown (issued (Package.createInstance r ic) s)) ∧
  ((∀ h content, InstanceProvider h content = content) →
   agree (Package.createInstance r ic) (Core.createInstance r ic) s).
Proof.
  split_and!; [apply Core_createInstance_this_Package|apply teardown_createInstance|].
  intros Hid. by apply createInstance_without_provider.
Qed.

Lemma variants_compared_witness :
  agree (H := plain_host)
    (Package.createInstance (H := plain_host) 4 (Some (Text 7)))
    (Core.createInstance (H := plain_host) 4 (Some (Text 7)))
    (initial (H := plain_host)
       {| config := {| ReacordConfig.maxInstances := Some (of_Z 2) |};
          renderers := [1; 2; 3] |}
       (fresh_world 100 [] [])).
Proof. apply (variants_compared (H := plain_host)). done. Defined.
