(* ===== verification/Machine.v ===== *)
(** * The class as a state machine

    What a program can do with a [Reacord] object: create instances,
    dispatch interactions, and call the three methods of the instances it
    was given.  The two source variants expose the same machine through
    different creating calls, so the machine is stated over an interface,
    the class [Facade], with one instance per variant.  A client is the
    state of the system with the instance objects handed out so far; [step]
    is the labelled transition relation, [exec] its executable form and
    [run] its sequences.  An invariant is carried along every run by rule
    induction once the facade is shown to keep it ([FacadeInvariant]); the
    capacity bound, and for the older core the absence of duplicates, are
    obtained that way for every reachable state. *)

From stdpp Require Import base tactics option list.
From S2P Require Import Prelude Js Host Types ReacordPackage ReacordCore.
From S2P Require Import RefWorld Pool Dispatch Lifecycle Ascent Allocation.
From S2P Require Import Variants.

(** ** The interface of a variant *)

Class Facade `{Host} : Type := {
  (** the arguments of a creating call *)
  creation : Type;
  create : creation → Eff State ReacordInstance.t;
  dispatch : ComponentInteraction → Eff State unit;
}.

(** The package: [createInstance(renderer, initialContent)], called by the
    adapter with a renderer of its own making. *)
#[export] Instance Package_facade `{Host} : Facade := {|
  creation := Renderer * option ReactNode;
  create := λ a, Package.createInstance a.1 a.2;
  dispatch := Package.handleComponentInteraction;
|}.

(** The older core: its two factory methods. *)
Inductive Core_creation `{Host} : Type :=
| ChannelRenderer (channel : Channel) (initialContent : option ReactNode)
| CommandReplyRenderer (commandInteraction : CommandInteraction)
    (initialContent : option ReactNode).

#[export] Instance Core_facade `{Host} : Facade := {|
  creation := Core_creation;
  create := λ a,
    match a with
    | ChannelRenderer channel ic => Core.createChannelRendererInstance channel ic
    | CommandReplyRenderer ci ic => Core.createCommandReplyRendererInstance ci ic
    end;
  dispatch := Core.handleComponentInteraction;
|}.

(** ** Clients, actions, steps *)

Section machine.
Context `{Host} {facade : Facade}.

(** The system and the instance objects the program holds, oldest first. *)
Record client : Type := {
  state : State;
  instances : list ReacordInstance.t;
}.

Inductive action : Type :=
| ActCreate (a : creation)
| ActInteraction (interaction : ComponentInteraction)
| ActRender (n : nat) (content : ReactNode)
| ActDeactivate (n : nat)
| ActDestroy (n : nat).

(** The client after a computation that hands out no instance. *)
Definition after {A} (c : Eff State A) (cl : client) : client :=
  {| state := final c (state cl); instances := instances cl |}.

(** The client after a creating call: it holds the new instance when the
    call returned one. *)
Definition after_create (a : creation) (cl : client) : client :=
  {| state := final (create a) (state cl);
     instances := instances cl ++
       match result (create a) (state cl) with
       | Normal inst => [inst]
       | Throw _ => []
       end |}.

(** One call.  A method of an instance can be called on an instance the
    client holds, at any time and any number of times. *)
Inductive step : client → action → client → Prop :=
| step_create cl a : step cl (ActCreate a) (after_create a cl)
| step_interaction cl i : step cl (ActInteraction i) (after (dispatch i) cl)
| step_render cl n inst content :
    instances cl !! n = Some inst →
    step cl (ActRender n content) (after (ReacordInstance.render inst content) cl)
| step_deactivate cl n inst :
    instances cl !! n = Some inst →
    step cl (ActDeactivate n) (after (ReacordInstance.deactivate inst) cl)
| step_destroy cl n inst :
    instances cl !! n = Some inst →
    step cl (ActDestroy n) (after (ReacordInstance.destroy inst) cl).

(** A sequence of calls. *)
Inductive run (cl0 : client) : list action → client → Prop :=
| run_nil : run cl0 [] cl0
| run_snoc acts cl a cl' :
    run cl0 acts cl → step cl a cl' → run cl0 (acts ++ [a]) cl'.

(** The executable form of [step]: [None] when the action names an
    instance the client does not hold. *)
Definition exec (a : action) (cl : client) : option client :=
  match a with
  | ActCreate a => Some (after_create a cl)
  | ActInteraction i => Some (after (dispatch i) cl)
  | ActRender n content =>
      match instances cl !! n with
      | Some inst => Some (after (ReacordInstance.render inst content) cl)
      | None => None
      end
  | ActDeactivate n =>
      match instances cl !! n with
      | Some inst => Some (after (ReacordInstance.deactivate inst) cl)
      | None => None
      end
  | ActDestroy n =>
      match instances cl !! n with
      | Some inst => Some (after (ReacordInstance.destroy inst) cl)
      | None => None
      end
  end.

Fixpoint execs (acts : list action) (cl : client) : option client :=
  match acts with
  | [] => Some cl
  | a :: acts =>
      match exec a cl with
      | Some cl' => execs acts cl'
      | None => None
      end
  end.

(** A new object in a world, with no instance handed out. *)
Definition start (cfg : option ReacordConfig.t) (w : World) : client :=
  {| state := initial (Package.new cfg) w; instances := [] |}.

Lemma exec_step a cl cl' : exec a cl = Some cl' ↔ step cl a cl'.
Proof.
  split.
  - destruct a; simpl; try (intros [= <-]; constructor);
      destruct (instances cl !! n) eqn:Hn; intros [= <-]; by constructor.
  - destruct 1 as [| |? ? ? ? Hn|? ? ? Hn|? ? ? Hn]; simpl; by rewrite ?Hn.
Qed.

Lemma execs_app acts1 acts2 cl :
  execs (acts1 ++ acts2) cl =
    match execs acts1 cl with Some cl' => execs acts2 cl' | None => None end.
Proof.
  revert cl. induction acts1 as [|a acts1 IH]; intros cl; [done|]. simpl.
  destruct (exec a cl); [apply IH|done].
Qed.

Lemma execs_run acts cl0 cl : execs acts cl0 = Some cl ↔ run cl0 acts cl.
Proof.
  split.
  - revert cl. induction acts as [|a acts IH] using rev_ind; intros cl.
    { intros [= <-]. constructor. }
    rewrite execs_app. destruct (execs acts cl0) as [cl1|] eqn:H1; [|done].
    simpl. destruct (exec a cl1) as [cl2|] eqn:H2; [|done]. intros [= <-].
    econstructor; [by apply IH|by apply exec_step].
  - induction 1 as [|acts cl1 a cl2 _ IH Hstep]; [done|].
    rewrite execs_app, IH. simpl. apply exec_step in Hstep. by rewrite Hstep.
Qed.

End machine.

(** ** Invariants along a run *)

(** An instance object keeps an invariant when each of its methods does. *)
Definition keeps `{Host} (I : State → Prop) (inst : ReacordInstance.t) : Prop :=
  (∀ content, preserves I (ReacordInstance.render inst content)) ∧
  preserves I (ReacordInstance.deactivate inst) ∧
  preserves I (ReacordInstance.destroy inst).

(** What a variant owes to an invariant: its calls keep it, and so do the
    instances it hands out. *)
Class FacadeInvariant `{Host} {facade : Facade} (I : State → Prop) : Prop := {
  create_preserves a : preserves I (create a);
  create_keeps a s inst :
    I s → result (create a) s = Normal inst → keeps I inst;
  dispatch_preserves i : preserves I (dispatch i);
}.

Section invariant.
Context `{Host} {facade : Facade} (I : State → Prop) `{!FacadeInvariant I}.

(** A client is sound when the invariant holds of its state and every
    instance it holds keeps the invariant. *)
Definition sound (cl : client) : Prop :=
  I (state cl) ∧ Forall (keeps I) (instances cl).

Lemma after_sound {A} (c : Eff State A) cl :
  preserves I c → sound cl → sound (after c cl).
Proof. intros Hc [HI Hall]. split; [by apply Hc|done]. Qed.

Lemma held_keeps cl n inst :
  sound cl → instances cl !! n = Some inst → keeps I inst.
Proof. intros [_ Hall] Hn. by eapply Forall_lookup_1. Qed.

Lemma after_create_sound a cl : sound cl → sound (after_create a cl).
Proof.
  intros [HI Hall]. split; [by apply create_preserves|]. simpl.
  apply Forall_app. split; [done|].
  destruct (result (create a) (state cl)) as [inst|] eqn:Hres; [|done].
  apply Forall_singleton. by eapply create_keeps.
Qed.

Lemma step_sound cl a cl' : sound cl → step cl a cl' → sound cl'.
Proof.
  intros Hcl. destruct 1 as [cl a|cl i|cl n inst content Hn|cl n inst Hn|cl n inst Hn].
  - by apply after_create_sound.
  - apply after_sound; [apply dispatch_preserves|done].
  - apply after_sound; [|done]. by apply (held_keeps cl n inst).
  - apply after_sound; [|done]. by apply (held_keeps cl n inst).
  - apply after_sound; [|done]. by apply (held_keeps cl n inst).
Qed.

(** Rule induction on the run: soundness is carried from its first client
    to its last. *)
Lemma run_sound cl0 acts cl : sound cl0 → run cl0 acts cl → sound cl.
Proof. intros Hsound. induction 1; [done|]. by eapply step_sound. Qed.

Lemma start_sound cfg w : I (state (start cfg w)) → sound (start cfg w).
Proof. intros HI. split; [done|apply Forall_nil_2]. Qed.

Lemma run_start_invariant cfg w acts cl :
  I (state (start cfg w)) → run (start cfg w) acts cl → I (state cl).
Proof.
  intros HI Hrun. by destruct (run_sound (start cfg w) acts cl (start_sound cfg w HI) Hrun).
Qed.

End invariant.

(** ** The instances a client holds *)

Section held.
Context `{Host} {facade : Facade} (K : ReacordInstance.t → Prop).
Hypothesis create_held : ∀ a s inst, result (create a) s = Normal inst → K inst.

Lemma step_held cl a cl' :
  Forall K (instances cl) → step cl a cl' → Forall K (instances cl').
Proof.
  intros Hall. destruct 1 as [cl a| | | |]; [|done..]. simpl.
  apply Forall_app. split; [done|].
  destruct (result (create a) (state cl)) eqn:Hres; [|done].
  apply Forall_singleton. by eapply create_held.
Qed.

(** Every instance a client holds came out of a creating call. *)
Lemma run_held cl0 acts cl :
  Forall K (instances cl0) → run cl0 acts cl → Forall K (instances cl).
Proof. intros Hall. induction 1; [done|]. by eapply step_held. Qed.

End held.

(** ** The instances a creating call returns *)

Section shapes.
Context `{Host}.
Implicit Types (r : Renderer) (c : Container) (s : State) (ic : option ReactNode).

Lemma Core_create_Normal (a : creation (Facade := Core_facade)) s inst :
  result (create a) s = Normal inst → ∃ r c, inst = Core.instanceOf r c.
Proof.
  destruct a as [channel ic|ci ic]; simpl;
    intros (r & _ & Hk)%then_Normal; exists r; by eapply Core_createInstance_Normal.
Qed.

(** The methods of an instance keep what the removal of its renderer
    keeps. *)
Lemma keeps_Package_instanceOf (J : Reacord → Prop) r c :
  preserves (λ s, J (this s)) (remove r) →
  keeps (λ s, J (this s)) (Package.instanceOf r c).
Proof.
  intros Hr. split_and!.
  - intros content. apply frames_this_preserves, frames_this_Package_render.
  - by apply deactivate_preserves.
  - by apply destroy_preserves.
Qed.

Lemma keeps_Core_instanceOf (J : Reacord → Prop) r c :
  preserves (λ s, J (this s)) (remove r) →
  keeps (λ s, J (this s)) (Core.instanceOf r c).
Proof.
  intros Hr. split_and!.
  - intros content. apply frames_this_preserves. simpl. auto with eff.
  - by apply deactivate_preserves.
  - by apply (destroy_preserves J r c).
Qed.

End shapes.

(** ** The capacity of the pool, on every reachable state *)

(** The object keeps the configuration it was constructed with, and its
    pool is within the capacity that configuration gives. *)
Definition configured (cfg : ReacordConfig.t) (o : Reacord) : Prop :=
  config o = cfg ∧ within_capacity o.

Section capacity.
Context `{Host}.
Implicit Types (r : Renderer) (s : State) (ic : option ReactNode)
  (cfg : ReacordConfig.t).

Lemma remove_configured cfg r : preserves (λ s, configured cfg (this s)) (remove r).
Proof.
  intros s [Hc Hw]. split; [done|]. by apply (remove_within_capacity r s).
Qed.

Lemma register_configured cfg r s :
  configured cfg (this s) → configured cfg (this (final (register r) s)).
Proof.
  intros [Hc Hw]. split; [by rewrite register_config|].
  by apply register_within_capacity.
Qed.

Lemma Package_createInstance_configured cfg r ic :
  preserves (λ s, configured cfg (this s)) (Package.createInstance r ic).
Proof.
  intros s Hs. rewrite Package_createInstance_this. by apply register_configured.
Qed.

Lemma Core_createInstance_configured cfg r ic :
  preserves (λ s, configured cfg (this s)) (Core.createInstance r ic).
Proof.
  intros s Hs. rewrite Core_createInstance_this. by apply register_configured.
Qed.

#[export] Instance Package_configured cfg :
  FacadeInvariant (facade := Package_facade) (λ s, configured cfg (this s)).
Proof.
  split.
  - intros [r ic]. apply Package_createInstance_configured.
  - intros [r ic] s inst _ (c & ->)%Package_createInstance_Normal.
    apply (keeps_Package_instanceOf (configured cfg)), remove_configured.
  - intros i. apply (frames_this_preserves (configured cfg)),
      frames_this_handleComponentInteraction.
Qed.

#[export] Instance Core_configured cfg :
  FacadeInvariant (facade := Core_facade) (λ s, configured cfg (this s)).
Proof.
  split.
  - intros [channel ic|ci ic]; (apply preserves_bind;
      [apply (frames_this_preserves (configured cfg)); auto with eff
      |intros r; apply Core_createInstance_configured]).
  - intros a s inst _ (r & c & ->)%Core_create_Normal.
    apply (keeps_Core_instanceOf (configured cfg)), remove_configured.
  - intros i. apply (frames_this_preserves (configured cfg)),
      frames_this_handleComponentInteraction.
Qed.

(** The configuration of a new object: the argument of the constructor,
    or [{}]. *)
Definition config_of (cfg : option ReacordConfig.t) : ReacordConfig.t :=
  config (Package.new cfg).

Lemma new_configured (cfg : option ReacordConfig.t) :
  configured (config_of cfg) (Package.new cfg).
Proof.
  split; [done|]. unfold within_capacity. simpl. destruct (limit _); [lia|done].
Qed.

(** What the capacity says of the length of the pool. *)
Lemma configured_length cfg o (N : Z) :
  configured cfg o → limit (nullish (ReacordConfig.maxInstances cfg) (of_Z 50)) = Some N →
  (0 ≤ N)%Z → (Z.of_nat (length (renderers o)) ≤ N + 1)%Z.
Proof.
  intros [<- Hw] HN ?. unfold within_capacity, Package.maxInstances in Hw.
  rewrite HN in Hw. lia.
Qed.

End capacity.

(** ** No renderer twice in the pool of the older core *)

Section fresh.
Context `{HostContract}.

Lemma keeps_pool_allocated r c : keeps pool_allocated (Core.instanceOf r c).
Proof.
  split_and!.
  - intros content. apply grows_preserves; [simpl; auto with eff|simpl; ascent].
  - apply deactivate_pool_allocated.
  - apply (destroy_pool_allocated r c).
Qed.

#[export] Instance Core_allocated :
  FacadeInvariant (facade := Core_facade) pool_allocated.
Proof.
  split.
  - intros [channel ic|ci ic];
      [apply createChannelRendererInstance_pool_allocated
      |apply createCommandReplyRendererInstance_pool_allocated].
  - intros a s inst _ (r & c & ->)%Core_create_Normal. apply keeps_pool_allocated.
  - intros i. apply handleComponentInteraction_pool_allocated.
Qed.

Lemma start_pool_allocated cfg w : pool_allocated (state (start cfg w)).
Proof. split; [apply NoDup_nil_2|apply Forall_nil_2]. Qed.

End fresh.

(** ** Scenarios on the reference world *)

(** The adapter's call [createInstance(renderer, initialContent)]. *)
Definition CreateInstance `{Host} (renderer : Renderer)
    (initialContent : option ReactNode) : action (facade := Package_facade) :=
  ActCreate (facade := Package_facade)
    ((renderer, initialContent) : Renderer * option ReactNode).

(** A limit of two. *)
Definition two : option ReacordConfig.t :=
  Some {| ReacordConfig.maxInstances := Some (of_Z 2) |}.

(** The package: the adapter registers renderers 1, 2 and 3. *)
Definition register_three : list (action (H := ref_host) (facade := Package_facade)) :=
  [CreateInstance 1 None; CreateInstance 2 None; CreateInstance 3 None].

Definition three_registered : client (H := ref_host) :=
  default (start two (fresh_world 100 [] []))
    (execs (facade := Package_facade)
       register_three
       (start two (fresh_world 100 [] []))).

(** The older core: three replies, each with a renderer of its own. *)
Definition reply_three : list (action (H := ref_host) (facade := Core_facade)) :=
  [ActCreate (CommandReplyRenderer 0 None);
   ActCreate (CommandReplyRenderer 0 (Some (Text 1)));
   ActCreate (ChannelRenderer 0 None)].

Definition three_replies : client (H := ref_host) :=
  default (start two (fresh_world 100 [] []))
    (execs (facade := Core_facade)
       reply_three
       (start two (fresh_world 100 [] []))).

Lemma run_three_registered :
  run (facade := Package_facade) (start two (fresh_world 100 [] []))
    register_three three_registered.
Proof. by apply execs_run. Qed.

Lemma run_three_replies :
  run (facade := Core_facade) (start two (fresh_world 100 [] []))
    reply_three three_replies.
Proof. by apply execs_run. Qed.

(** The program that registers the renderers [news] in turn, without
    content. *)
Definition registering `{Host} (news : list Renderer) :
    list (action (facade := Package_facade)) :=
  (λ r, CreateInstance r None) <$> news.

(** Under the limit every registration is a push, whatever the host
    does. *)
Lemma run_registering `{Host} (cfg : option ReacordConfig.t) (N : Z) (w : World) :
  nullish (ReacordConfig.maxInstances (config_of cfg)) (of_Z 50) = of_Z N →
  ∀ news, (Z.of_nat (length news) ≤ N + 1)%Z →
    ∃ cl, run (facade := Package_facade) (start cfg w) (registering news) cl ∧
          this (state cl) = {| config := config_of cfg; renderers := news |}.
Proof.
  intros HN. induction news as [|r news IH] using rev_ind; intros Hlen.
  { exists (start cfg w). split; [apply run_nil|done]. }
  rewrite length_snoc in Hlen. destruct IH as (cl & Hrun & Hcl); [lia|].
  exists (after_create (facade := Package_facade) (r, None) cl). split.
  - unfold registering. rewrite fmap_app. eapply run_snoc; [done|apply step_create].
  - simpl. rewrite Package_createInstance_this, register_under.
    + unfold pool. by rewrite Hcl.
    + unfold over_capacity, Package.maxInstances, pool. rewrite Hcl. cbn [config renderers].
      rewrite HN, gt_of_Z. apply bool_decide_eq_false. lia.
Qed.

(** ** What holds of every reachable state *)

(** C1: whatever a program does with the class (any sequence of creating
    calls, [handleComponentInteraction] and calls of [render],
    [deactivate] and [destroy] on the instances it was given, in any
    order, whatever the host does and whichever calls throw), the object
    keeps the configuration it was constructed with and its pool stays
    within capacity: with a limit of floor [z] the pool never holds more
    than [max 0 (z + 1)] renderers.  This holds of the package, whose
    creating call is [createInstance], and of the older core, whose
    creating calls are the two factory methods. *)
Theorem run_within_capacity `{Host} (cfg : option ReacordConfig.t) (w : World) :
  (∀ acts cl, run (facade := Package_facade) (start cfg w) acts cl →
              configured (config_of cfg) (this (state cl))) ∧
  (∀ acts cl, run (facade := Core_facade) (start cfg w) acts cl →
              configured (config_of cfg) (this (state cl))).
Proof.
  split; intros acts cl;
    apply (run_start_invariant (λ s, configured (config_of cfg) (this s))),
      new_configured.
Qed.

Lemma run_within_capacity_witness :
  configured (config_of two) (this (state three_registered)) ∧
  configured (config_of two) (this (state three_replies)).
Proof.
  destruct (run_within_capacity (H := ref_host) two (fresh_world 100 [] []))
    as [Hpackage Hcore].
  split; [apply (Hpackage register_three)|apply (Hcore reply_three)];
    (apply execs_run; reflexivity).
Defined.

(** C13: the capacity is [N + 1], exactly.  With a non-negative integer
    limit [N] ([maxInstances: N], or 50 when the configuration does not
    give one), the pool of a reachable state of the package's class holds
    at most [N + 1] renderers; and [N] is not a bound: for any renderers
    [news], [N + 1] of them or fewer, the program that registers them in
    turn on a new object runs, whatever the host does and whichever of its
    calls throw, and leaves exactly [news] in the pool: the eviction test
    runs before the push, and nothing runs after it. *)
Theorem run_pool_bound `{Host} (cfg : option ReacordConfig.t) (N : Z) (w : World) :
  nullish (ReacordConfig.maxInstances (config_of cfg)) (of_Z 50) = of_Z N →
  (0 ≤ N)%Z →
  (∀ acts cl, run (facade := Package_facade) (start cfg w) acts cl →
              (Z.of_nat (length (pool (state cl))) ≤ N + 1)%Z) ∧
  (∀ news, (Z.of_nat (length news) ≤ N + 1)%Z →
           ∃ cl, run (facade := Package_facade) (start cfg w) (registering news) cl ∧
                 pool (state cl) = news).
Proof.
  intros HN ?. split.
  - intros acts cl Hrun.
    apply (configured_length (config_of cfg)); [|by rewrite HN, limit_of_Z|done].
    revert Hrun. apply (run_start_invariant (λ s, configured (config_of cfg) (this s))),
      new_configured.
  - intros news Hlen. destruct (run_registering cfg N w HN news Hlen) as (cl & Hrun & Hcl).
    exists cl. split; [done|]. unfold pool. by rewrite Hcl.
Qed.

Lemma run_pool_bound_witness :
  (∀ acts cl, run (facade := Package_facade) (start two (fresh_world 100 [] [])) acts cl →
              (Z.of_nat (length (pool (state cl))) ≤ 2 + 1)%Z) ∧
  (∀ news, (Z.of_nat (length news) ≤ 2 + 1)%Z →
           ∃ cl, run (facade := Package_facade) (start two (fresh_world 100 [] []))
                   (registering news) cl ∧
                 pool (state cl) = news).
Proof.
  apply (run_pool_bound (H := ref_host) two 2 (fresh_world 100 [] [])); [reflexivity|lia].
Defined.

(** C6: in the older core no renderer is in the pool twice: on a host
    that honours the allocation contract (a constructor returns a renderer
    that did not exist, and no operation makes a renderer cease to exist),
    every reachable state has a pool without duplicates whose renderers all
    exist. *)
Theorem Core_run_pool_allocated `{HostContract} (cfg : option ReacordConfig.t)
    (w : World) (acts : list (action (facade := Core_facade))) (cl : client) :
  run (facade := Core_facade) (start cfg w) acts cl →
  pool_allocated (state cl).
Proof. apply (run_start_invariant pool_allocated), start_pool_allocated. Qed.

Lemma Core_run_pool_allocated_witness : pool_allocated (state three_replies).
Proof.
  apply (Core_run_pool_allocated (H := ref_host) two (fresh_world 100 [] [])
           reply_three).
  apply execs_run. reflexivity.
Defined.

(** C12: first in, first out, exactly: in a reachable state of the older
    core whose pool is over the limit, a factory call whose constructor
    returns [r] and whose eviction call returns leaves the pool without its
    oldest renderer and with [r] at the end, nothing else changed; and [r]
    was not in the pool.  This holds on a host that honours the allocation
    contract, whether or not the rest of the call throws. *)
Theorem Core_run_fifo `{HostContract} (cfg : option ReacordConfig.t) (w : World)
    (acts : list (action (facade := Core_facade))) (cl : client)
    (ci : CommandInteraction) (ic : option ReactNode) (r old : Renderer)
    (rest : list Renderer) :
  run (facade := Core_facade) (start cfg w) acts cl →
  pool (state cl) = old :: rest →
  over_capacity (state cl) = true →
  result (new_CommandReplyRenderer ci) (state cl) = Normal r →
  result (host_deactivate old)
    (final (host_new_CommandReplyRenderer ci) (world (state cl))) = Normal tt →
  pool (final (Core.createCommandReplyRendererInstance ci ic) (state cl)) = rest ++ [r] ∧
  r ∉ old :: rest.
Proof.
  intros Hrun Hpool Hover Hnew Hev.
  assert (pool_allocated (state cl)) as Hcl
    by (revert Hrun; apply (run_start_invariant pool_allocated), start_pool_allocated).
  unfold Core.createCommandReplyRendererInstance. rewrite final_bind, Hnew.
  revert Hnew. eff_ext. intros Hnew. apply constructed_fifo with (old := old); [|done..].
  apply (made_registrable (new_CommandReplyRenderer ci));
    [auto with eff|ascent|apply fresh_new_command|done..].
Qed.

Lemma Core_run_fifo_witness :
  pool (final (Core.createCommandReplyRendererInstance (H := ref_host) 0 None)
          (state three_replies)) = [102; 104] ++ [106] ∧
  106 ∉ [100; 102; 104].
Proof.
  apply (Core_run_fifo (H := ref_host) two (fresh_world 100 [] []) reply_three
           three_replies 0 None 106 100 [102; 104]).
  - apply execs_run. reflexivity.
  - reflexivity.
  - reflexivity.
  - reflexivity.
  - reflexivity.
Defined.
