(* ===== verification/Holding.v ===== *)
(** * What the instances a program holds are over

    An instance is over things of the outside that it alone should use:
    its renderer, its session.  This file carries one argument for all of
    them.  Given what an instance uses ([uses]) and what exists of that
    kind in a world ([live]), a variant of the class owes ([Holding]) that
    nothing it does makes a thing disappear and that a creating call
    returns an instance over a thing that did not exist before the call.
    Then the instances a program holds are over things that exist and
    differ pairwise ([holders]), along every run ([run_holders]). *)

From stdpp Require Import base tactics option list.
From S2P Require Import Prelude Js Host Types ReacordPackage ReacordCore.
From S2P Require Import RefWorld Pool Dispatch Lifecycle Ascent Machine.

Section holding.
Context `{Host} {K : Type}.
Context (uses : ReacordInstance.t → K → Prop) (live : World → K → Prop).

(** [makes m]: an instance [m] returns is over a thing that did not
    exist before [m], and exists after it. *)
Definition makes (m : Eff State ReacordInstance.t) : Prop :=
  ∀ s inst, result m s = Normal inst →
            ∃ k, uses inst k ∧ ¬ live (world s) k ∧ live (world (final m s)) k.

Lemma makes_proper (m m' : Eff State ReacordInstance.t) : m ≡ m' → makes m → makes m'.
Proof. intros Hm Hmakes s inst. unfold result, final. rewrite <-Hm. apply Hmakes. Qed.

(** What is made after a computation that keeps what exists is made by
    the whole. *)
Lemma makes_after {A} (m : Eff State A) (f : A → Eff State ReacordInstance.t) :
  ascends (live_le live) m → (∀ a, makes (f a)) → makes (let* a := m in f a).
Proof.
  intros Hm Hf s inst (a & Ha & Hres)%then_Normal. rewrite final_bind, Ha.
  destruct (Hf a _ inst Hres) as (k & Hk & Hnew & Hnow). exists k.
  split_and!; [done| |done]. intros Hlive. by apply Hnew, Hm.
Qed.

(** What a variant owes: its calls and the methods of its instances keep
    what exists, and a creating call that returns an instance made what
    that instance is over. *)
Class Holding {facade : Facade} : Prop := {
  create_ascends a : ascends (live_le live) (create a);
  create_makes a : makes (create a);
  dispatch_ascends i : ascends (live_le live) (dispatch i);
  held_ascends inst k : uses inst k → ascends_instance (live_le live) inst;
}.

Context {facade : Facade} `{!Holding}.
Implicit Types (cl : client) (ks : list K).

(** The instances the client holds are over [ks], in order; these differ
    pairwise and exist. *)
Definition holders ks cl : Prop :=
  Forall2 uses (instances cl) ks ∧ NoDup ks ∧ Forall (live (world (state cl))) ks.

(** A call that hands out no instance and keeps what exists. *)
Lemma after_holders {A} (m : Eff State A) ks cl :
  ascends (live_le live) m → holders ks cl → holders ks (after m cl).
Proof.
  intros Hm (Huses & Hnd & Hall). split_and!; [done..|].
  eapply Forall_impl; [done|]. intros k. apply Hm.
Qed.

Lemma after_create_holders a ks cl :
  holders ks cl → ∃ ks', holders ks' (after_create a cl) ∧ ks `prefix_of` ks'.
Proof.
  intros (Huses & Hnd & Hall).
  assert (Forall (live (world (final (create a) (state cl)))) ks) as Hall'
    by (eapply Forall_impl; [done|]; intros k; apply create_ascends).
  unfold holders, after_create. simpl.
  destruct (result (create a) (state cl)) as [inst|e] eqn:Hres.
  - destruct (create_makes a _ inst Hres) as (k & Hk & Hnew & Hnow).
    exists (ks ++ [k]). split; [|by apply prefix_app_r]. split_and!.
    + apply Forall2_app; [done|by apply Forall2_cons].
    + apply NoDup_snoc. split; [|done]. intros Hin. apply Hnew.
      rewrite Forall_forall in Hall. by apply Hall.
    + apply Forall_app. split; [done|by apply Forall_singleton].
  - exists ks. by rewrite app_nil_r.
Qed.

Lemma held_ascends_at ks cl n inst :
  holders ks cl → instances cl !! n = Some inst → ascends_instance (live_le live) inst.
Proof.
  intros (Huses & _ & _) Hn.
  destruct (Forall2_lookup_l _ _ _ _ _ Huses Hn) as (k & _ & Hk). by eapply held_ascends.
Qed.

Lemma step_holders ks cl a cl' :
  holders ks cl → step cl a cl' → ∃ ks', holders ks' cl' ∧ ks `prefix_of` ks'.
Proof.
  intros Hks Hstep.
  destruct Hstep as [cl a|cl i|cl n inst content Hn|cl n inst Hn|cl n inst Hn];
    [by apply after_create_holders|exists ks; split; [apply after_holders|]; [|done..]..].
  - apply dispatch_ascends.
  - by apply (held_ascends_at ks cl n inst).
  - by apply (held_ascends_at ks cl n inst).
  - by apply (held_ascends_at ks cl n inst).
Qed.

Lemma run_holders_from ks cl acts cl' :
  holders ks cl → run cl acts cl' → ∃ ks', holders ks' cl' ∧ ks `prefix_of` ks'.
Proof.
  intros Hks. induction 1 as [|acts cl1 a cl2 _ (ks1 & Hks1 & Hpre) Hstep];
    [by exists ks|].
  destruct (step_holders ks1 cl1 a cl2 Hks1 Hstep) as (ks2 & Hks2 & Hpre2).
  exists ks2. split; [done|by etrans].
Qed.

Lemma start_holders cfg w : holders [] (start cfg w).
Proof. split_and!; [apply Forall2_nil_2|apply NoDup_nil_2|apply Forall_nil_2]. Qed.

Lemma run_holders cfg w acts cl : run (start cfg w) acts cl → ∃ ks, holders ks cl.
Proof.
  intros Hrun.
  destruct (run_holders_from [] (start cfg w) acts cl (start_holders cfg w) Hrun)
    as (ks & Hks & _).
  by exists ks.
Qed.

End holding.
