(* ===== verification/Sessions.v ===== *)
(** * Sessions: one per instance, bound to its renderer

    The specification's data model (§3) has a session per instance: the
    binding of the tree-diffing engine to a renderer, "created once per
    Instance, never rebound to a different Renderer", and an instance
    whose "render calls [...] always apply to the same Session".  In the
    sources a session is the container [reconciler.createContainer]
    returns, captured by the closures of the instance.

    What the class needs of the bridge for that is the class
    [BridgeContract], modelled from §4.2: [createContainer] returns a
    session that did not exist, bound to the renderer it is given, and
    nothing the host does unbinds a session.  Under it, along every run of
    either variant, the instances a program holds are over sessions that
    differ pairwise, each bound to the renderer of its instance
    ([Holding], for [bound]); and the content the class hands to the
    session of an instance is the content of the [render] calls of that
    instance, in their order, and nothing else (class [Rendering]). *)

From stdpp Require Import base tactics option list.
From S2P Require Import Prelude Js Host Types ReacordPackage ReacordCore.
From S2P Require Import RefWorld Pool Dispatch Lifecycle Ascent Machine Holding.

(** ** The contract of the bridge *)

(** The sessions of a world: the renderer each is bound to. *)
Class Bridge `{Host} : Type := {
  session : World → Container → option Renderer;
}.

(** The session of the handle [(renderer, container)] is bound to its
    renderer. *)
Definition bound `{Bridge} (w : World) (h : InstanceHandle) : Prop :=
  session w h.2 = Some h.1.

Class BridgeContract `{Bridge} : Prop := {
  (** no operation of the host unbinds or rebinds a session *)
  bound_ascending :: Ascending (live_le bound);
  (** [bind(renderer) -> session]: a new session, bound to the renderer *)
  createContainer_binds r w c w' :
    host_createContainer r w = (Normal c, w') →
    session w c = None ∧ session w' c = Some r;
}.

(** The instance over a handle, in each variant. *)
Definition Package_over `{Host} (inst : ReacordInstance.t) (h : InstanceHandle) : Prop :=
  inst = Package.instanceOf h.1 h.2.

Definition Core_over `{Host} (inst : ReacordInstance.t) (h : InstanceHandle) : Prop :=
  inst = Core.instanceOf h.1 h.2.

(** The content a log hands to the session [c], in order. *)
Definition updates `{Host} (c : Container) (l : list Call) : list ReactNode :=
  omap (λ call, match call with
                | UpdateContainer content c' =>
                    if decide (c' = c) then Some content else None
                | _ => None
                end) l.

(** The content a program renders through the instance at index [n]. *)
Definition renders `{Host} {facade : Facade} (n : nat) (acts : list action) :
    list ReactNode :=
  omap (λ a, match a with
             | ActRender n' content => if decide (n' = n) then Some content else None
             | _ => None
             end) acts.

Section bound.
Context `{BridgeContract}.
Implicit Types (s : State) (r : Renderer) (c : Container) (h : InstanceHandle)
  (ic : option ReactNode) (w : World).

(** Sessions that are bound differ when their handles do. *)
Lemma bound_NoDup w (hs : list InstanceHandle) :
  NoDup hs → Forall (bound w) hs → NoDup hs.*2.
Proof.
  intros Hnd Hall. apply NoDup_fmap_2_strong; [|done].
  intros [r c] [r' c'] Hh Hh' Hc. simpl in Hc. subst c'.
  rewrite Forall_forall in Hall. pose proof (Hall _ Hh) as Hr.
  pose proof (Hall _ Hh') as Hr'. unfold bound in *. simpl in *. congruence.
Qed.

(** [createContainer_binds], of the result and the world of a run. *)
Lemma createContainer_result r w c :
  result (host_createContainer r) w = Normal c →
  session w c = None ∧ session (final (host_createContainer r) w) c = Some r.
Proof.
  intros Hc. apply createContainer_binds. unfold result, final in *.
  by destruct (host_createContainer r w); simplify_eq/=.
Qed.

(** A new session is none of those that are bound. *)
Lemma bound_new r w c h :
  result (host_createContainer r) w = Normal c → bound w h → h.2 ≠ c.
Proof.
  intros [Hnew _]%createContainer_result Hh Heq. unfold bound in Hh. congruence.
Qed.

(** What follows [createContainer] without unbinding anything, and
    returns an instance over the renderer and the new session, makes that
    session. *)
Lemma makes_container (uses : ReacordInstance.t → InstanceHandle → Prop) r
    (k : Container → Eff State ReacordInstance.t) :
  (∀ c, ascends (live_le bound) (k c)) →
  (∀ c s inst, result (k c) s = Normal inst → uses inst (r, c)) →
  makes uses bound (let* c := reconciler_createContainer r in k c).
Proof.
  intros Hk Huses s inst (c & Hc & Hres)%then_Normal. rewrite final_bind, Hc.
  exists (r, c). split; [by eapply Huses|]. revert Hc. eff_ext.
  rewrite external_result. intros [Hnew Hnow]%createContainer_result.
  split; [unfold bound; simpl; congruence|]. apply (Hk c). by rewrite external_world.
Qed.

Lemma Package_attach_makes r ic : makes Package_over bound (Package_attach r ic).
Proof.
  apply makes_container; [intros c; simpl; ascent|].
  by intros c s inst ->%then_ret_Normal.
Qed.

Lemma Core_attach_makes r ic : makes Core_over bound (Core_attach r ic).
Proof.
  apply makes_container; [intros c; ascent|]. by intros c s inst ->%then_ret_Normal.
Qed.

Lemma Package_createInstance_makes r ic :
  makes Package_over bound (Package.createInstance r ic).
Proof.
  eapply makes_proper; [symmetry; apply Package_createInstance_register|].
  apply makes_after; [ascent|intros _; apply Package_attach_makes].
Qed.

Lemma Core_createInstance_makes r ic : makes Core_over bound (Core.createInstance r ic).
Proof.
  eapply makes_proper; [symmetry; apply Core_createInstance_register|].
  apply makes_after; [ascent|intros _; apply Core_attach_makes].
Qed.

(** ** What each variant owes *)

#[export] Instance Package_sessions : Holding Package_over bound (facade := Package_facade).
Proof.
  split.
  - intros [r ic]. simpl. ascent.
  - intros [r ic]. apply Package_createInstance_makes.
  - intros i. simpl. ascent.
  - intros inst [r c] ->. apply ascends_Package_instanceOf; apply _.
Qed.

#[export] Instance Core_sessions : Holding Core_over bound (facade := Core_facade).
Proof.
  split.
  - intros [channel ic|ci ic]; simpl; ascent.
  - intros [channel ic|ci ic]; (apply makes_after; [ascent|intros r]);
      apply Core_createInstance_makes.
  - intros i. simpl. ascent.
  - intros inst [r c] ->. apply ascends_Core_instanceOf; apply _.
Qed.

End bound.

(** ** The content a session is handed *)

Section updates.
Context `{Host}.
Implicit Types (c : Container) (l : list Call).

Lemma updates_app c l1 l2 : updates c (l1 ++ l2) = updates c l1 ++ updates c l2.
Proof. apply omap_app. Qed.

Lemma updates_offers c i rs : updates c (offers i rs) = [].
Proof. by induction rs. Qed.

Lemma updates_eviction_calls c s : updates c (eviction_calls s) = [].
Proof.
  unfold eviction_calls. destruct (over_capacity s); [|done]. by destruct (pool s !! 0).
Qed.

Lemma updates_elsewhere c c' content :
  c' ≠ c → updates c [UpdateContainer content c'] = [].
Proof. intros Hc. unfold updates. simpl. by rewrite decide_False. Qed.

(** [quiet m]: [m] appends to the log, and no content for a session. *)
Definition quiet {A} (m : Eff State A) : Prop :=
  ∀ s, ∃ l, calls (final m s) = calls s ++ l ∧ ∀ c, updates c l = [].

Lemma quiet_handleComponentInteraction i : quiet (Package.handleComponentInteraction i).
Proof.
  intros s. eexists. split; [apply logs_handleComponentInteraction|].
  intros c. rewrite handleComponentInteraction_issued. apply updates_offers.
Qed.

Lemma quiet_deactivate r : quiet (Package.deactivate (Some r)).
Proof.
  intros s. exists [Deactivate r]. split; [|done].
  by rewrite logs_deactivate, deactivate_issued.
Qed.

Lemma quiet_destroy r c : quiet (ReacordInstance.destroy (Package.instanceOf r c)).
Proof.
  intros s. exists [Destroy r]. split; [|done]. by rewrite logs_destroy, destroy_issued.
Qed.

End updates.

Section created.
Context `{BridgeContract}.
Implicit Types (s : State) (r : Renderer) (c : Container) (h : InstanceHandle)
  (ic : option ReactNode).

(** A creating call hands content to the session it makes only. *)
Lemma updates_new_session r w c h content :
  result (host_createContainer r) w = Normal c → bound w h →
  updates h.2 [UpdateContainer content c] = [].
Proof.
  intros Hc Hh. apply updates_elsewhere. intros ->. by apply (bound_new r w (h.2) h).
Qed.

Lemma Package_attach_calls_updates r ic w h :
  bound w h → updates h.2 (Package_attach_calls r ic w) = [].
Proof.
  intros Hh. unfold Package_attach_calls.
  destruct (result (host_createContainer r) w) as [c|] eqn:Hc; [|done].
  destruct ic; [|done]. by apply (updates_new_session r w).
Qed.

Lemma Core_attach_calls_updates r ic w h :
  bound w h → updates h.2 (Core_attach_calls r ic w) = [].
Proof.
  intros Hh. unfold Core_attach_calls.
  destruct (result (host_createContainer r) w) as [c|] eqn:Hc; [|done].
  destruct ic; [|done]. by apply (updates_new_session r w).
Qed.

Lemma Package_createInstance_updates r ic s h :
  bound (world s) h → updates h.2 (issued (Package.createInstance r ic) s) = [].
Proof.
  intros Hh. rewrite Package_createInstance_issued, updates_app, updates_eviction_calls.
  destruct (eviction_outcome s); [|done]. apply Package_attach_calls_updates.
  by apply (after_eviction_ascends (live_le bound)).
Qed.

Lemma Core_createInstance_updates r ic s h :
  bound (world s) h → updates h.2 (issued (Core.createInstance r ic) s) = [].
Proof.
  intros Hh. rewrite Core_createInstance_issued, updates_app, updates_eviction_calls.
  destruct (eviction_outcome s); [|done]. apply Core_attach_calls_updates.
  by apply (after_eviction_ascends (live_le bound)).
Qed.

End created.

(** ** Along a run *)

Section rendering.
Context `{BridgeContract} {facade : Facade}.
Context (over : ReacordInstance.t → InstanceHandle → Prop).
Context (wrap : InstanceHandle → ReactNode → ReactNode).

(** What a variant owes: it holds its sessions; a creating call hands no
    content to a session that exists; the dispatch and the teardown of an
    instance hand content to none; and [render] hands the content, as the
    variant wraps it, to the session of the instance. *)
Class Rendering : Prop := {
  rendering_holding :: Holding over bound;
  create_logs a : logs (create a);
  create_updates a s h : bound (world s) h → updates h.2 (issued (create a) s) = [];
  dispatch_quiet i : quiet (dispatch i);
  render_calls inst h content s :
    over inst h →
    calls (final (ReacordInstance.render inst content) s) =
      calls s ++ [UpdateContainer (wrap h content) h.2];
  deactivate_quiet inst h : over inst h → quiet (ReacordInstance.deactivate inst);
  destroy_quiet inst h : over inst h → quiet (ReacordInstance.destroy inst);
}.

Context `{!Rendering}.
Implicit Types (cl : client) (hs : list InstanceHandle) (h : InstanceHandle).

(** A call that hands content to no session. *)
Lemma after_quiet {A} (m : Eff State A) cl c :
  quiet m → ∃ l, calls (state (after m cl)) = calls (state cl) ++ l ∧ updates c l = [].
Proof. intros Hm. destruct (Hm (state cl)) as (l & Hl & Hq). by exists l. Qed.

(** The instance at [n'] is over [h'], whose session is the one of [h]
    only if [n'] is [n]. *)
Lemma held_session hs cl n n' h inst :
  holders over bound hs cl → hs !! n = Some h → instances cl !! n' = Some inst →
  ∃ h', over inst h' ∧ hs !! n' = Some h' ∧ (h'.2 = h.2 → n' = n).
Proof.
  intros (Hover & Hnd & Hall) Hn Hn'.
  destruct (Forall2_lookup_l _ _ _ _ _ Hover Hn') as (h' & Hh' & Hinst).
  exists h'. split_and!; [done..|]. intros Hc. unfold InstanceHandle in *.
  apply (NoDup_lookup (hs.*2) n' n (h.2)); [by apply (bound_NoDup (world (state cl)))|..];
    rewrite list_lookup_fmap; [by rewrite Hh', <-Hc|by rewrite Hn].
Qed.

Lemma step_updates hs cl a cl' n h :
  holders over bound hs cl → step cl a cl' → hs !! n = Some h →
  ∃ l, calls (state cl') = calls (state cl) ++ l ∧
       updates h.2 l = wrap h <$> renders n [a].
Proof.
  intros Hhs Hstep Hn. pose proof Hhs as (Hover & Hnd & Hall).
  assert (bound (world (state cl)) h) as Hh by (by eapply Forall_lookup_1).
  destruct Hstep as [cl a|cl i|cl n' inst content Hn'|cl n' inst Hn'|cl n' inst Hn'].
  - exists (issued (create a) (state cl)). split; [apply create_logs|by apply create_updates].
  - apply after_quiet, dispatch_quiet.
  - destruct (held_session hs cl n n' h inst Hhs Hn Hn') as (h' & Hinst & Hh' & Hsame).
    eexists. split; [by apply render_calls|]. unfold updates, renders. simpl.
    destruct (decide (n' = n)) as [->|Hne]; [|by rewrite decide_False by auto].
    assert (h' = h) as -> by congruence. by rewrite decide_True.
  - destruct (held_session hs cl n n' h inst Hhs Hn Hn') as (h' & Hinst & _).
    by apply after_quiet, (deactivate_quiet inst h').
  - destruct (held_session hs cl n n' h inst Hhs Hn Hn') as (h' & Hinst & _).
    by apply after_quiet, (destroy_quiet inst h').
Qed.

Lemma run_updates hs cl acts cl' n h :
  holders over bound hs cl → run cl acts cl' → hs !! n = Some h →
  bound (world (state cl')) h ∧
  ∃ l, calls (state cl') = calls (state cl) ++ l ∧
       updates h.2 l = wrap h <$> renders n acts.
Proof.
  intros Hhs Hrun Hn.
  induction Hrun as [|acts cl1 a cl2 Hrun [_ (l1 & Hl1 & Hu1)] Hstep].
  { split; [|exists []; by rewrite app_nil_r]. destruct Hhs as (_ & _ & Hall).
    by eapply Forall_lookup_1. }
  destruct (run_holders_from over bound hs cl acts cl1 Hhs Hrun) as (hs1 & Hhs1 & Hpre).
  pose proof (prefix_lookup_Some _ _ _ _ Hn Hpre) as Hn1.
  destruct (step_holders over bound hs1 cl1 a cl2 Hhs1 Hstep) as (hs2 & (_ & _ & Hall2) & Hpre2).
  destruct (step_updates hs1 cl1 a cl2 n h Hhs1 Hstep Hn1) as (l2 & Hl2 & Hu2).
  split.
  - eapply Forall_lookup_1; [done|by eapply prefix_lookup_Some].
  - exists (l1 ++ l2). split; [by rewrite Hl2, Hl1, app_assoc|].
    unfold renders in *. by rewrite updates_app, omap_app, fmap_app, Hu1, Hu2.
Qed.

(** From a new object. *)
Lemma run_session cfg w acts cl n inst :
  run (start cfg w) acts cl → instances cl !! n = Some inst →
  ∃ h, over inst h ∧ bound (world (state cl)) h ∧
    ∀ acts' cl', run cl acts' cl' →
      bound (world (state cl')) h ∧
      ∃ l, calls (state cl') = calls (state cl) ++ l ∧
           updates h.2 l = wrap h <$> renders n acts'.
Proof.
  intros Hrun Hn. destruct (run_holders over bound cfg w acts cl Hrun) as [hs Hhs].
  pose proof Hhs as (Hover & _ & Hall).
  destruct (Forall2_lookup_l _ _ _ _ _ Hover Hn) as (h & Hh & Hinst).
  exists h. split_and!; [done|by eapply Forall_lookup_1|].
  intros acts' cl' Hrun'. by apply (run_updates hs cl acts' cl' n h).
Qed.

End rendering.

(** ** What each variant owes to the sessions *)

Section variants.
Context `{BridgeContract}.
Implicit Types (s : State) (r : Renderer) (c : Container) (h : InstanceHandle).

#[export] Instance Package_rendering :
  Rendering Package_over InstanceProvider (facade := Package_facade).
Proof.
  split.
  - apply _.
  - intros [r ic]. apply logs_Package_createInstance.
  - intros [r ic] s h. apply Package_createInstance_updates.
  - apply quiet_handleComponentInteraction.
  - intros inst [r c] content s ->. by rewrite logs_render, render_issued.
  - intros inst [r c] ->. apply quiet_deactivate.
  - intros inst [r c] ->. apply quiet_destroy.
Qed.

(** A factory method of the older core: the constructor hands no content
    to a session, and unbinds none. *)
Lemma made_updates (call : Call) (op : Eff World Renderer) ic s h :
  updates h.2 [call] = [] → (∀ w, live_le bound w (final op w)) →
  bound (world s) h →
  updates h.2 (issued (let* r := external call op in Core.createInstance r ic) s) = [].
Proof.
  intros Hcall Hop Hh.
  rewrite issued_bind; [|apply logs_external|intros; apply logs_Core_createInstance].
  rewrite issued_external, updates_app, Hcall. destruct (result _ s) as [r|]; [|done].
  apply Core_createInstance_updates. rewrite external_world. by apply Hop.
Qed.

#[export] Instance Core_rendering :
  Rendering Core_over (λ _ content, content) (facade := Core_facade).
Proof.
  split.
  - apply _.
  - intros [channel ic|ci ic]; simpl;
      (apply logs_bind; [auto with eff|intros r; apply logs_Core_createInstance]).
  - intros [channel ic|ci ic] s h; apply made_updates;
      [done|apply new_channel_ascends|done|apply new_command_ascends].
  - apply quiet_handleComponentInteraction.
  - intros inst [r c] content s ->. apply external_calls.
  - intros inst [r c] ->. apply quiet_deactivate.
  - intros inst [r c] ->. apply (quiet_destroy r c).
Qed.

End variants.

(** ** The sessions of the reference world *)

(** The container [c] exists and the reconciler made it for the renderer
    it last recorded for it. *)
Definition ref_session (w : refworld) (c : Container) : option Renderer :=
  if decide (c < next_ref w)
  then snd <$> last (filter (λ p, p.1 = c) (containers w))
  else None.

#[export] Instance ref_bridge : Bridge := {| session := ref_session |}.

Section ref_bridge.
Implicit Types (w : refworld) (r : Renderer) (c : Container) (h : InstanceHandle).

Lemma ref_session_same w w' c r :
  next_ref w ≤ next_ref w' → containers w' = containers w →
  ref_session w c = Some r → ref_session w' c = Some r.
Proof.
  unfold ref_session. intros Hle ->. case_decide; [|done]. by rewrite decide_True by lia.
Qed.

Lemma ref_createContainer_binds r w c w' :
  ref_createContainer r w = (Normal c, w') →
  ref_session w c = None ∧ ref_session w' c = Some r.
Proof.
  unfold ref_createContainer, unless_fault. case_bool_decide; [done|].
  intros [= <- <-]. unfold ref_session. simpl.
  rewrite decide_False, decide_True by lia. split; [done|].
  by rewrite filter_app, filter_cons_True, filter_nil, last_snoc.
Qed.

Lemma ref_createContainer_keeps r w h :
  bound w h → bound (final (ref_createContainer r) w) h.
Proof.
  apply (unless_fault_final _ _ _ (λ w', bound (H := ref_host) w h → bound (H := ref_host) w' h)); [done|].
  unfold bound, final. simpl. unfold ref_session. simpl. case_decide; [|done].
  rewrite decide_True, filter_app, filter_cons_False, filter_nil, app_nil_r by (simpl; lia).
  done.
Qed.

(** An operation that makes no container. *)
Lemma ref_bound_same {A} f (op : Eff refworld A) w h :
  next_ref w ≤ next_ref (final op w) → containers (final op w) = containers w →
  bound w h → bound (final (unless_fault f op) w) h.
Proof.
  intros Hle Hc. apply (unless_fault_final _ _ _ (λ w', bound (H := ref_host) w h → bound (H := ref_host) w' h)); [done|].
  by apply ref_session_same.
Qed.

#[export] Instance ref_bridge_contract : BridgeContract.
Proof.
  split; [split; simpl|apply ref_createContainer_binds].
  - intros r i w h. apply ref_bound_same; unfold final; by case_bool_decide.
  - intros r w h. by apply ref_bound_same.
  - intros r w h. by apply ref_bound_same.
  - intros r w h. apply ref_createContainer_keeps.
  - intros content c w h. by apply ref_bound_same.
  - intros _ w h. apply ref_bound_same; simpl; [lia|done].
  - intros _ w h. apply ref_bound_same; simpl; [lia|done].
Qed.

End ref_bridge.

(** The package after three registrations: the program renders through
    its instances, dispatches, registers a fourth renderer with content,
    deactivates the first instance and renders through it again. *)
Definition retouch : list (action (H := ref_host) (facade := Package_facade)) :=
  [ActRender (facade := Package_facade) 0 (Text 5);
   ActRender (facade := Package_facade) 1 (Text 6);
   ActInteraction (facade := Package_facade) 7;
   CreateInstance 4 (Some (Text 9));
   ActDeactivate (facade := Package_facade) 0;
   ActRender (facade := Package_facade) 0 (Text 8)].

Definition retouched : client (H := ref_host) :=
  default three_registered (execs (facade := Package_facade) retouch three_registered).

(** C16: one session per instance.  On a host whose bridge honours its
    contract ([createContainer] returns a new session bound to the
    renderer it is given, and nothing unbinds a session), along every run
    of the package and of the older core, whatever the program calls and
    whichever calls throw, each instance the program holds is the object
    literal over a renderer and a session, the session is bound to that
    renderer, and the sessions of the instances differ pairwise: no two
    instances share a session. *)
Theorem one_session_per_instance `{BridgeContract} (cfg : option ReacordConfig.t)
    (w : World) :
  (∀ acts cl, run (facade := Package_facade) (start cfg w) acts cl →
     ∃ hs, Forall2 Package_over (instances cl) hs ∧ NoDup hs.*2 ∧
           Forall (bound (world (state cl))) hs) ∧
  (∀ acts cl, run (facade := Core_facade) (start cfg w) acts cl →
     ∃ hs, Forall2 Core_over (instances cl) hs ∧ NoDup hs.*2 ∧
           Forall (bound (world (state cl))) hs).
Proof.
  split; intros acts cl Hrun;
    [destruct (run_holders Package_over bound cfg w acts cl Hrun) as (hs & Hover & Hnd & Hall)
    |destruct (run_holders Core_over bound cfg w acts cl Hrun) as (hs & Hover & Hnd & Hall)];
    exists hs; split_and!; [done|by eapply bound_NoDup|done..|by eapply bound_NoDup|done].
Qed.

Lemma one_session_per_instance_witness :
  ∃ hs, Forall2 Package_over (instances retouched) hs ∧ NoDup hs.*2 ∧
        Forall (bound (world (state retouched))) hs.
Proof.
  destruct (one_session_per_instance (H := ref_host) two (fresh_world 100 [] []))
    as [Hpackage _].
  apply (Hpackage (register_three ++ retouch)). by apply execs_run.
Defined.

(** C17: the renders of an instance reach its session, and nothing else
    does.  On a host whose bridge honours its contract, an instance a
    program holds in a reachable state is over a renderer and a session
    bound to it such that, whatever the program calls afterwards and
    whichever calls throw, the session stays bound to that renderer and
    the content the class hands to it ([updateContainer] on that
    container) is exactly the content of the [render] calls on that
    instance, in their order: wrapped in the provider of the instance in
    the package, as it is in the older core.  No render of another
    instance, no creating call (whose initial render goes to the session
    it makes), no dispatch and no teardown hands it content; and [render]
    hands it content after a teardown as before. *)
Theorem renders_reach_own_session `{BridgeContract} (cfg : option ReacordConfig.t)
    (w : World) (n : nat) (inst : ReacordInstance.t) :
  (∀ acts cl, run (facade := Package_facade) (start cfg w) acts cl →
     instances cl !! n = Some inst →
     ∃ h, Package_over inst h ∧ bound (world (state cl)) h ∧
       ∀ acts' cl', run (facade := Package_facade) cl acts' cl' →
         bound (world (state cl')) h ∧
         ∃ l, calls (state cl') = calls (state cl) ++ l ∧
              updates h.2 l = InstanceProvider h <$> renders n acts') ∧
  (∀ acts cl, run (facade := Core_facade) (start cfg w) acts cl →
     instances cl !! n = Some inst →
     ∃ h, Core_over inst h ∧ bound (world (state cl)) h ∧
       ∀ acts' cl', run (facade := Core_facade) cl acts' cl' →
         bound (world (state cl')) h ∧
         ∃ l, calls (state cl') = calls (state cl) ++ l ∧
              updates h.2 l = renders n acts').
Proof.
  split; intros acts cl Hrun Hn.
  - exact (run_session Package_over InstanceProvider cfg w acts cl n inst Hrun Hn).
  - destruct (run_session Core_over (λ _ content, content) cfg w acts cl n inst Hrun Hn)
      as (h & Hover & Hh & Hruns).
    exists h. split_and!; [done..|]. intros acts' cl' Hrun'.
    destruct (Hruns acts' cl' Hrun') as (Hh' & l & Hl & Hu).
    split; [done|]. exists l. by rewrite Hu, list_fmap_id.
Qed.

Lemma renders_reach_own_session_witness :
  ∃ h, Package_over (Package.instanceOf 1 100) h ∧ bound (world (state three_registered)) h ∧
    ∃ l, calls (state retouched) = calls (state three_registered) ++ l ∧
         updates h.2 l = InstanceProvider h <$> [Text 5; Text 8].
Proof.
  destruct (renders_reach_own_session (H := ref_host) two (fresh_world 100 [] []) 0
              (Package.instanceOf 1 100)) as [Hpackage _].
  destruct (Hpackage register_three three_registered run_three_registered eq_refl)
    as (h & Hover & Hh & Hruns).
  destruct (Hruns retouch retouched) as (_ & l & Hl & Hu); [by apply execs_run|].
  exists h. split_and!; [done..|]. by exists l.
Defined.
