(* ===== verification/Config.v ===== *)
(** * The configuration object is shared with the caller

    The constructor keeps the object it is given
    ([private readonly config: ReacordConfig]): [readonly] fixes the
    field, not the object, which the caller still holds, and the getter
    [maxInstances] reads [this.config.maxInstances ?? 50] from it at every
    [createInstance].  A caller that assigns [config.maxInstances] after
    the construction therefore changes the limit of the pool.

    This file adds that assignment to the calls of a program
    ([shared_step]) and shows what is left of the capacity of the pool:
    the pool is bounded by the largest capacity the configuration ever
    had, not by the one in force, since [createInstance] evicts one
    renderer for the one it adds and so never makes an over-full pool
    shorter. *)

From stdpp Require Import base tactics option list.
From S2P Require Import Prelude Js Host Types ReacordPackage ReacordCore.
From S2P Require Import RefWorld Pool Dispatch Lifecycle Machine.

(** ** The assignment of the caller *)

Section write.
Context `{Host}.

(** [config.maxInstances = m], on the object [this.config] refers to. *)
Definition write_maxInstances (m : option number) : Eff State unit :=
  modify (λ s,
    {| this := {| config := {| ReacordConfig.maxInstances := m |};
                  renderers := pool s |};
       world := world s;
       calls := calls s |}).

Context {facade : Facade}.

(** What a program does: a call of the class or of an instance, or an
    assignment of the limit. *)
Inductive shared_action : Type :=
| Calls (a : action)
| Writes (m : option number).

Inductive shared_step : client → shared_action → client → Prop :=
| shared_calls cl a cl' : step cl a cl' → shared_step cl (Calls a) cl'
| shared_writes cl m : shared_step cl (Writes m) (after (write_maxInstances m) cl).

Inductive shared_run (cl0 : client) : list shared_action → client → Prop :=
| shared_run_nil : shared_run cl0 [] cl0
| shared_run_snoc acts cl a cl' :
    shared_run cl0 acts cl → shared_step cl a cl' → shared_run cl0 (acts ++ [a]) cl'.

(** The executable form. *)
Definition shared_exec (a : shared_action) (cl : client) : option client :=
  match a with
  | Calls a => exec a cl
  | Writes m => Some (after (write_maxInstances m) cl)
  end.

Definition shared_execs (acts : list shared_action) (cl : client) : option client :=
  foldl (λ cl a, cl ≫= shared_exec a) (Some cl) acts.

Lemma shared_exec_step a cl cl' : shared_exec a cl = Some cl' → shared_step cl a cl'.
Proof.
  destruct a as [a|m]; simpl; [intros ?%exec_step; by constructor|].
  intros [= <-]. constructor.
Qed.

Lemma shared_execs_run acts cl0 cl :
  shared_execs acts cl0 = Some cl → shared_run cl0 acts cl.
Proof.
  unfold shared_execs. revert cl.
  induction acts as [|a acts IH] using rev_ind; intros cl; [intros [= <-]; constructor|].
  rewrite foldl_snoc. destruct (foldl _ _ acts) as [cl1|]; [|done]. simpl.
  intros Ha%shared_exec_step. econstructor; [by apply IH|done].
Qed.

End write.

(** ** The capacity a limit gives *)

(** The length the pool can reach under [maxInstances = m]: the limit
    plus one, nothing under a negative limit; no bound for NaN and the
    infinities. *)
Definition capacity_of (m : option number) : option Z :=
  (λ z, Z.max 0 (z + 1)) <$> limit (nullish m (of_Z 50)).

(** The limit [m] gives a capacity of at most [B]. *)
Definition fits (B : Z) (m : option number) : Prop :=
  match capacity_of m with
  | Some c => (c ≤ B)%Z
  | None => False
  end.

#[export] Instance fits_dec B m : Decision (fits B m).
Proof. unfold fits. destruct (capacity_of m); apply _. Defined.

(** The object has a limit that fits [B] and a pool of at most [B]
    renderers. *)
Definition bounded (B : Z) (o : Reacord) : Prop :=
  fits B (ReacordConfig.maxInstances (config o)) ∧
  (Z.of_nat (length (renderers o)) ≤ B)%Z.

(** The assignments of a program fit [B]. *)
Definition fitting `{Host} {facade : Facade} (B : Z) (a : shared_action) : Prop :=
  match a with
  | Calls _ => True
  | Writes m => fits B m
  end.

#[export] Instance fitting_dec `{Host} {facade : Facade} B a : Decision (fitting B a).
Proof. destruct a; apply _. Defined.

Section bounded.
Context `{Host}.
Implicit Types (s : State) (r : Renderer) (ic : option ReactNode) (B z : Z)
  (l : list Renderer).

Lemma fits_limit B o :
  fits B (ReacordConfig.maxInstances (config o)) →
  ∃ z, limit (Package.maxInstances o) = Some z ∧ (Z.max 0 (z + 1) ≤ B)%Z.
Proof.
  unfold fits, capacity_of, Package.maxInstances.
  destruct (limit _) as [z|]; [|done]. by exists z.
Qed.

Lemma length_registered_within B m r l z :
  limit m = Some z → (Z.max 0 (z + 1) ≤ B)%Z → (Z.of_nat (length l) ≤ B)%Z →
  l ≠ [] ∨ (0 ≤ z)%Z →
  (Z.of_nat (length (registered m r l)) ≤ B)%Z.
Proof.
  intros Hz HB Hl Hne. unfold registered. rewrite length_snoc.
  destruct (gt (of_nat (length l)) m) eqn:Hgt.
  - destruct l as [|old rest]; [rewrite evicted_nil; simpl; destruct Hne; [done|lia]|].
    rewrite evicted_over by done. pose proof (length_without old rest).
    simpl in Hl. lia.
  - rewrite evicted_under by done. apply (gt_false_limit _ m z Hz) in Hgt. lia.
Qed.

Lemma register_bounded B r : preserves (λ s, bounded B (this s)) (register r).
Proof.
  intros s [Hfits Hl]. split; [by rewrite register_config|].
  destruct (fits_limit B (this s) Hfits) as (z & Hz & HB).
  fold (pool (final (register r) s)). rewrite register_pool.
  destruct (eviction_outcome s) as [[]|e] eqn:Ho.
  - apply (length_registered_within B _ r _ z); [done..|].
    destruct (pool s) eqn:Hp; [right|by left]. by apply (eviction_outcome_Normal_nil s).
  - pose proof (sublist_length _ _
      (evicted_sublist (Package.maxInstances (this s)) (pool s))) as Hsub.
    fold (pool s) in Hl. lia.
Qed.

Lemma remove_bounded B r : preserves (λ s, bounded B (this s)) (remove r).
Proof.
  intros s [Hfits Hl]. split; [done|]. simpl.
  pose proof (length_without r (pool s)). fold (pool s) in Hl. lia.
Qed.

Lemma new_bounded B (cfg : option ReacordConfig.t) :
  fits B (ReacordConfig.maxInstances (config_of cfg)) → bounded B (Package.new cfg).
Proof.
  intros Hfits. split; [done|]. simpl.
  destruct (fits_limit B (Package.new cfg) Hfits) as (z & _ & HB). lia.
Qed.

(** [createInstance] evicts one renderer for the one it adds: it never
    makes an over-full pool shorter. *)
Lemma register_over_length r s :
  pool_NoDup (this s) → over_capacity s = true → eviction_outcome s = Normal tt →
  length (pool (final (register r) s)) = length (pool s).
Proof.
  intros Hnd Hover Hev. destruct (pool s) as [|old rest] eqn:Hp.
  { unfold eviction_outcome in Hev. by rewrite Hover, Hp in Hev. }
  rewrite (register_pool_fifo r s old rest) by done. by rewrite length_snoc.
Qed.

End bounded.

(** ** Invariants of the object, in both variants *)

(** A property of the object that the registration and the removal of a
    renderer keep is an invariant of both variants of the class. *)
Section object_invariant.
Context `{Host} (J : Reacord → Prop).
Hypothesis register_keeps : ∀ r, preserves (λ s, J (this s)) (register r).
Hypothesis remove_keeps : ∀ r, preserves (λ s, J (this s)) (remove r).

Lemma Package_object_invariant :
  FacadeInvariant (facade := Package_facade) (λ s, J (this s)).
Proof.
  split.
  - intros [r ic] s Hs. simpl. rewrite Package_createInstance_this.
    by apply register_keeps.
  - intros [r ic] s inst _ (c & ->)%Package_createInstance_Normal.
    apply (keeps_Package_instanceOf J), remove_keeps.
  - intros i. apply (frames_this_preserves J), frames_this_handleComponentInteraction.
Qed.

Lemma Core_object_invariant :
  FacadeInvariant (facade := Core_facade) (λ s, J (this s)).
Proof.
  split.
  - intros [channel ic|ci ic]; (apply preserves_bind;
      [apply (frames_this_preserves J); auto with eff|]);
      intros r s Hs; rewrite Core_createInstance_this; by apply register_keeps.
  - intros a s inst _ (r & c & ->)%Core_create_Normal.
    apply (keeps_Core_instanceOf J), remove_keeps.
  - intros i. apply (frames_this_preserves J), frames_this_handleComponentInteraction.
Qed.

End object_invariant.

#[export] Instance Package_bounded `{Host} B :
  FacadeInvariant (facade := Package_facade) (λ s, bounded B (this s)).
Proof.
  apply (Package_object_invariant (bounded B));
    [apply register_bounded|apply remove_bounded].
Qed.

#[export] Instance Core_bounded `{Host} B :
  FacadeInvariant (facade := Core_facade) (λ s, bounded B (this s)).
Proof.
  apply (Core_object_invariant (bounded B)); [apply register_bounded|apply remove_bounded].
Qed.

(** ** Along a run with assignments *)

Section shared.
Context `{Host} {facade : Facade} (B : Z).
Context `{!FacadeInvariant (λ s, bounded B (this s))}.

Lemma shared_step_sound cl a cl' :
  fitting B a → sound (λ s, bounded B (this s)) cl → shared_step cl a cl' →
  sound (λ s, bounded B (this s)) cl'.
Proof.
  intros Ha Hcl. destruct 1 as [cl a cl' Hstep|cl m]; [by eapply step_sound|].
  destruct Hcl as [[_ Hl] Hall]. by split; [split|].
Qed.

Lemma shared_run_sound cl0 acts cl :
  Forall (fitting B) acts → sound (λ s, bounded B (this s)) cl0 →
  shared_run cl0 acts cl → sound (λ s, bounded B (this s)) cl.
Proof.
  intros Hacts Hcl0. induction 1 as [|acts cl a cl' _ IH Hstep]; [done|].
  rewrite Forall_app, Forall_singleton in Hacts. destruct Hacts as [Hacts Ha].
  apply (shared_step_sound cl a cl'); [done|by apply IH|done].
Qed.

Lemma shared_run_length cfg w acts cl :
  fits B (ReacordConfig.maxInstances (config_of cfg)) → Forall (fitting B) acts →
  shared_run (start cfg w) acts cl →
  (Z.of_nat (length (pool (state cl))) ≤ B)%Z.
Proof.
  intros Hfits Hacts Hrun.
  destruct (shared_run_sound (start cfg w) acts cl Hacts) as [[_ Hl] _]; [|done..].
  apply start_sound. by apply new_bounded.
Qed.

End shared.

(** ** A limit lowered under a full pool *)

(** The package under a limit of 2 with three renderers registered; the
    caller sets the limit to 0; the adapter registers a fourth. *)
Definition lowering : list (shared_action (H := ref_host) (facade := Package_facade)) :=
  (Calls <$> register_three) ++ [Writes (Some (of_Z 0)); Calls (CreateInstance 4 None)].

Definition lowered : client (H := ref_host) :=
  default three_registered
    (shared_execs (facade := Package_facade) lowering (start two (fresh_world 100 [] []))).

(** Under the limit 0 the pool keeps its three renderers: two more than
    the limit in force allows, at every later registration. *)
Example lowered_limit_not_enforced :
  config (this (state lowered)) = {| ReacordConfig.maxInstances := Some (of_Z 0) |} ∧
  pool (state lowered) = [2; 3; 4] ∧
  ¬ within_capacity (this (state lowered)) ∧
  pool (final (Package.createInstance 5 None) (state lowered)) = [3; 4; 5].
Proof. split_and!; [done..|compute_done|done]. Qed.

(** C18: the capacity of the pool when the caller assigns the limit.
    The class keeps the configuration object it was constructed with and
    reads [maxInstances] from it at every [createInstance].  Along every
    run of calls of the class and of its instances interleaved with
    assignments to [config.maxInstances], when the limit the object is
    constructed with and every limit assigned give a capacity of at most
    [B], the pool never holds more than [B] renderers, in the package and
    in the older core.  The bound is the largest capacity, not the one in
    force: from a pool without duplicates that is over the limit in
    force, a [createInstance] whose eviction returns leaves the pool as
    long as it was. *)
Theorem capacity_under_assignment `{Host} (B : Z) (cfg : option ReacordConfig.t)
    (w : World) :
  fits B (ReacordConfig.maxInstances (config_of cfg)) →
  (∀ acts cl, Forall (fitting B) acts →
     shared_run (facade := Package_facade) (start cfg w) acts cl →
     (Z.of_nat (length (pool (state cl))) ≤ B)%Z) ∧
  (∀ acts cl, Forall (fitting B) acts →
     shared_run (facade := Core_facade) (start cfg w) acts cl →
     (Z.of_nat (length (pool (state cl))) ≤ B)%Z) ∧
  (∀ r ic s, pool_NoDup (this s) → over_capacity s = true →
     eviction_outcome s = Normal tt →
     length (pool (final (Package.createInstance r ic) s)) = length (pool s) ∧
     length (pool (final (Core.createInstance r ic) s)) = length (pool s)).
Proof.
  intros Hfits. split_and!.
  - intros acts cl. by apply (shared_run_length B cfg w acts cl).
  - intros acts cl. by apply (shared_run_length B cfg w acts cl).
  - intros r ic s Hnd Hover Hev. unfold pool at 1 3.
    rewrite Package_createInstance_this, Core_createInstance_this.
    split; by apply register_over_length.
Qed.

Lemma capacity_under_assignment_witness :
  (Z.of_nat (length (pool (state lowered))) ≤ 3)%Z ∧
  length (pool (final (Package.createInstance 5 None) (state lowered))) =
    length (pool (state lowered)).
Proof.
  destruct (capacity_under_assignment (H := ref_host) 3 two (fresh_world 100 [] []))
    as (Hpackage & _ & Hover); [compute_done|]. split.
  - apply (Hpackage lowering); [compute_done|].
    by apply shared_execs_run.
  - apply Hover; [compute_done|done..].
Defined.
