(* ===== verification/Refinement.v ===== *)
(** * The session pool of the specification, and its refinement

    The specification describes the pool on its own (§4.4): an ordered
    list of active sessions with a capacity, [register] that drops the
    single oldest entry when the list is over capacity and appends,
    [remove] by identity.  That description is the module [SessionPool],
    modelled from the specification.  The class stores no such object: it
    inlines the operations in [createInstance] and in the closures of the
    instance.  This file proves that the class nevertheless implements the
    session pool.  Each call of a program has an event of the session
    pool, fixed by the call and by what the host answers ([explains]): a
    creating call is [register] of the renderer it was given or made (the
    eviction alone, when the [deactivate()] of the evicted renderer threw;
    nothing, when the constructor of the renderer threw), [deactivate()]
    and [destroy()] of an instance are [remove] of its renderer, a
    dispatch and a render are no change.  Along every run, the session
    pool that takes those events in turn ends in the abstraction of the
    object ([traced], [traced_refines]).  The simulation is proved once,
    for any facade that shows what the class [Refines] asks; the older
    core and the package are its instances. *)

From stdpp Require Import base tactics option list.
From S2P Require Import Prelude Js Host Types ReacordPackage ReacordCore.
From S2P Require Import RefWorld Pool Dispatch Lifecycle Allocation.
From S2P Require Import Variants Machine.

Module SessionPool.

Record t : Type := {
  maxInstances : number;
  active : list Renderer;
}.

(** "if the current length strictly exceeds [maxInstances]" *)
Definition over (p : t) : bool :=
  gt (of_nat (length (active p))) (maxInstances p).

(** "the single oldest entry (index 0) is deactivated and removed" *)
Definition evict (p : t) : t :=
  {| maxInstances := maxInstances p;
     active := if over p then tail (active p) else active p |}.

(** [register(renderer)]: the eviction test, then the append. *)
Definition register (r : Renderer) (p : t) : t :=
  {| maxInstances := maxInstances p; active := active (evict p) ++ [r] |}.

(** [remove(renderer)]: by identity, a no-op if not present. *)
Definition remove (r : Renderer) (p : t) : t :=
  {| maxInstances := maxInstances p; active := without r (active p) |}.

(** What a call of the facade does to the pool. *)
Inductive event : Type :=
| Register (r : Renderer)
| FailedEviction
| Remove (r : Renderer)
| Tau.

Inductive step : t → event → t → Prop :=
| step_register p r : step p (Register r) (register r p)
| step_failed_eviction p : over p = true → step p FailedEviction (evict p)
| step_remove p r : step p (Remove r) (remove r p)
| step_tau p : step p Tau p.

Inductive steps (p0 : t) : list event → t → Prop :=
| steps_nil : steps p0 [] p0
| steps_snoc evs p ev p' : steps p0 evs p → step p ev p' → steps p0 (evs ++ [ev]) p'.

(** The executable form. *)
Definition apply (ev : event) (p : t) : t :=
  match ev with
  | Register r => register r p
  | FailedEviction => evict p
  | Remove r => remove r p
  | Tau => p
  end.

End SessionPool.

(** The session pool an object stands for. *)
Definition abstraction `{Host} (o : Reacord) : SessionPool.t :=
  {| SessionPool.maxInstances := Package.maxInstances o;
     SessionPool.active := renderers o |}.

Section refinement.
Context `{Host}.
Implicit Types (s : State) (r : Renderer) (c : Container) (o : Reacord)
  (ic : option ReactNode).

Lemma abstraction_evicted s :
  NoDup (pool s) →
  abstraction {| config := config (this s);
                 renderers := evicted (Package.maxInstances (this s)) (pool s) |} =
    SessionPool.evict (abstraction (this s)).
Proof.
  intros Hnd. unfold abstraction, SessionPool.evict, SessionPool.over. simpl.
  f_equal. by apply evicted_tail.
Qed.

Lemma this_eta o : {| config := config o; renderers := renderers o |} = o.
Proof. by destruct o. Qed.

(** The event of a registration: [register], or the eviction alone when
    the [deactivate()] of the evicted renderer threw. *)
Definition registration (r : Renderer) (s : State) : SessionPool.event :=
  match eviction_outcome s with
  | Normal _ => SessionPool.Register r
  | Throw _ => SessionPool.FailedEviction
  end.

Lemma register_refines r s :
  NoDup (pool s) →
  SessionPool.step (abstraction (this s)) (registration r s)
    (abstraction (this (final (register r) s))).
Proof.
  intros Hnd.
  assert (this (final (register r) s) =
          {| config := config (this s); renderers := pool (final (register r) s) |})
    as -> by (by rewrite <-(register_config r s), this_eta).
  rewrite register_pool. unfold registration.
  destruct (eviction_outcome s) as [[]|e] eqn:Ho.
  - unfold registered. rewrite evicted_tail by done. apply SessionPool.step_register.
  - rewrite abstraction_evicted by done.
    apply SessionPool.step_failed_eviction. unfold eviction_outcome in Ho.
    by destruct (over_capacity s) eqn:Hover.
Qed.

Lemma register_refines_register r s :
  NoDup (pool s) → eviction_outcome s = Normal tt →
  abstraction (this (final (register r) s)) =
    SessionPool.register r (abstraction (this s)).
Proof.
  intros Hnd Ho.
  assert (this (final (register r) s) =
          {| config := config (this s); renderers := pool (final (register r) s) |})
    as -> by (by rewrite <-(register_config r s), this_eta).
  rewrite register_pool, Ho. unfold registered. by rewrite evicted_tail.
Qed.

Lemma frames_this_refines {A} (m : Eff State A) s :
  frames_this m →
  SessionPool.step (abstraction (this s)) SessionPool.Tau
    (abstraction (this (final m s))).
Proof. intros ->. apply SessionPool.step_tau. Qed.

Lemma step_remove_eq r (p p' : SessionPool.t) :
  p' = SessionPool.remove r p → SessionPool.step p (SessionPool.Remove r) p'.
Proof. intros ->. apply SessionPool.step_remove. Qed.

Lemma deactivate_refines r s :
  abstraction (this (final (Package.deactivate (Some r)) s)) =
    SessionPool.remove r (abstraction (this s)).
Proof. unfold final. by rewrite deactivate_run. Qed.

Lemma destroy_refines r c s :
  abstraction (this (final (ReacordInstance.destroy (Package.instanceOf r c)) s)) =
    SessionPool.remove r (abstraction (this s)).
Proof. unfold final. by rewrite destroy_run. Qed.

(** The event of a call that makes a renderer and registers it: no
    change of the pool when making it threw. *)
Definition made_registration (m : Eff State Renderer) (s : State) : SessionPool.event :=
  match result m s with
  | Normal r => registration r (final m s)
  | Throw _ => SessionPool.Tau
  end.

(** Making a renderer without touching the object, then registering it. *)
Lemma made_refines (m : Eff State Renderer)
    (k : Renderer → Eff State ReacordInstance.t) s :
  frames_this m →
  (∀ r s', this (final (k r) s') = this (final (register r) s')) →
  NoDup (pool s) →
  SessionPool.step (abstraction (this s)) (made_registration m s)
    (abstraction (this (final (let* r := m in k r) s))).
Proof.
  intros Hm Hk Hnd. rewrite final_bind. unfold made_registration.
  destruct (result m s) as [r|e].
  - rewrite Hk, <-(Hm s). apply register_refines. by rewrite frames_this_pool.
  - by apply frames_this_refines.
Qed.

End refinement.

(** ** One call, one transition: what a variant must show *)

(** The methods of an instance over the renderer [r]: [render] leaves the
    object alone, [deactivate()] and [destroy()] are [remove(r)]. *)
Definition instance_refines `{Host} (inst : ReacordInstance.t) (r : Renderer) : Prop :=
  ∀ s : State,
    (∀ content, this (final (ReacordInstance.render inst content) s) = this s) ∧
    abstraction (this (final (ReacordInstance.deactivate inst) s)) =
      SessionPool.remove r (abstraction (this s)) ∧
    abstraction (this (final (ReacordInstance.destroy inst) s)) =
      SessionPool.remove r (abstraction (this s)).

(** What a facade owes to the refinement: from a pool without duplicates
    a creating call is the transition [event_of] names, the instances it
    hands out are over a renderer ([K]) and their methods are the
    transitions of that renderer, and the dispatch leaves the object
    alone. *)
Class Refines `{Host} {facade : Facade} (K : ReacordInstance.t → Renderer → Prop)
    (event_of : creation → State → SessionPool.event) : Prop := {
  create_refines a s :
    NoDup (pool s) →
    SessionPool.step (abstraction (this s)) (event_of a s)
      (abstraction (this (final (create a) s)));
  create_held a s inst : result (create a) s = Normal inst → ∃ r, K inst r;
  held_refines inst r : K inst r → instance_refines inst r;
  dispatch_frames_this i : frames_this (dispatch i);
}.

Section simulation.
Context `{Host} {facade : Facade} (K : ReacordInstance.t → Renderer → Prop)
  (event_of : creation → State → SessionPool.event).
Implicit Types (cl : client) (ev : SessionPool.event).

(** The event of a call: what the call is, in the words of the session
    pool, from the client that makes it. *)
Inductive explains cl : action → SessionPool.event → Prop :=
| explains_create a : explains cl (ActCreate a) (event_of a (state cl))
| explains_interaction i : explains cl (ActInteraction i) SessionPool.Tau
| explains_render n content : explains cl (ActRender n content) SessionPool.Tau
| explains_deactivate n inst r :
    instances cl !! n = Some inst → K inst r →
    explains cl (ActDeactivate n) (SessionPool.Remove r)
| explains_destroy n inst r :
    instances cl !! n = Some inst → K inst r →
    explains cl (ActDestroy n) (SessionPool.Remove r).

(** A run with the events of its calls. *)
Inductive traced (cl0 : client) : list action → list SessionPool.event → client → Prop :=
| traced_nil : traced cl0 [] [] cl0
| traced_snoc acts evs cl a ev cl' :
    traced cl0 acts evs cl → step cl a cl' → explains cl a ev →
    traced cl0 (acts ++ [a]) (evs ++ [ev]) cl'.

Lemma traced_run cl0 acts evs cl : traced cl0 acts evs cl → run cl0 acts cl.
Proof. induction 1; [constructor|by econstructor]. Qed.

Lemma traced_length cl0 acts evs cl : traced cl0 acts evs cl → length evs = length acts.
Proof. induction 1 as [|? ? ? ? ? ? _ IH]; [done|]. by rewrite !length_app, IH. Qed.

Context `{!Refines K event_of}.

Lemma held cfg w acts cl :
  run (start cfg w) acts cl → Forall (λ inst, ∃ r, K inst r) (instances cl).
Proof.
  apply (run_held (λ inst, ∃ r, K inst r)); [apply create_held|apply Forall_nil_2].
Qed.

(** Every call has an event. *)
Lemma step_explained cl a cl' :
  Forall (λ inst, ∃ r, K inst r) (instances cl) → step cl a cl' → ∃ ev, explains cl a ev.
Proof.
  intros Hall.
  destruct 1 as [cl a|cl i|cl n inst content Hn|cl n inst Hn|cl n inst Hn];
    [eexists; constructor..| |];
    destruct (Forall_lookup_1 _ _ _ _ Hall Hn) as [r Hr];
    exists (SessionPool.Remove r); by econstructor.
Qed.

Lemma run_traced cfg w acts cl :
  run (start cfg w) acts cl → ∃ evs, traced (start cfg w) acts evs cl.
Proof.
  induction 1 as [|acts cl a cl' Hrun [evs Hevs] Hstep]; [exists []; constructor|].
  destruct (step_explained cl a cl') as [ev Hev]; [by eapply held|done|].
  exists (evs ++ [ev]). by econstructor.
Qed.

(** One call of the class is the transition of the session pool that its
    event names. *)
Lemma step_refines cl a ev cl' :
  NoDup (pool (state cl)) → Forall (λ inst, ∃ r, K inst r) (instances cl) →
  step cl a cl' → explains cl a ev →
  SessionPool.step (abstraction (this (state cl))) ev (abstraction (this (state cl'))).
Proof.
  intros Hnd Hall.
  destruct 1 as [cl a|cl i|cl n inst content Hn|cl n inst Hn|cl n inst Hn];
    inversion 1 as [| | |? inst' r Hn' Hr|? inst' r Hn' Hr]; simplify_eq; simpl.
  - by apply create_refines.
  - apply frames_this_refines, dispatch_frames_this.
  - destruct (Forall_lookup_1 _ _ _ _ Hall Hn) as [r Hr].
    destruct (held_refines inst r Hr (state cl)) as (-> & _ & _).
    apply SessionPool.step_tau.
  - apply step_remove_eq, (held_refines inst r Hr).
  - apply step_remove_eq, (held_refines inst r Hr).
Qed.

(** A run is the run of the session pool over the events of its calls,
    when no renderer is in the pool twice along it: [ok] is what is known
    of the calls, kept by their prefixes. *)
Lemma traced_refines (ok : list action → Prop) cfg w :
  (∀ acts a, ok (acts ++ [a]) → ok acts) →
  (∀ acts cl, ok acts → run (start cfg w) acts cl → NoDup (pool (state cl))) →
  ∀ acts evs cl, ok acts → traced (start cfg w) acts evs cl →
  SessionPool.steps (abstraction (Package.new cfg)) evs (abstraction (this (state cl))).
Proof.
  intros Hprefix Hnd acts evs cl Hok Htr.
  induction Htr as [|acts evs cl a ev cl' Htr IH Hstep Hev]; [constructor|].
  econstructor; [by eapply IH, Hprefix|].
  apply (step_refines cl a ev cl'); [|by eapply held, traced_run|done..].
  by eapply Hnd, traced_run; [eapply Hprefix|].
Qed.

End simulation.

(** ** The older core implements the session pool *)

Section core.
Context `{HostContract}.
Implicit Types (s : State) (r : Renderer) (c : Container) (cl : client).

(** An instance of the older core over the renderer [r]. *)
Definition Core_instance_over (inst : ReacordInstance.t) (r : Renderer) : Prop :=
  ∃ c, inst = Core.instanceOf r c.

(** The constructor a factory method calls. *)
Definition Core_constructor (a : Core_creation) : Eff State Renderer :=
  match a with
  | ChannelRenderer channel _ => new_ChannelMessageRenderer channel
  | CommandReplyRenderer commandInteraction _ =>
      new_CommandReplyRenderer commandInteraction
  end.

(** The event of a factory call: the registration of the renderer the
    constructor returned, in the world it left. *)
Definition Core_registration (a : Core_creation) (s : State) : SessionPool.event :=
  made_registration (Core_constructor a) s.

Lemma Core_create_refines (a : creation (Facade := Core_facade)) s :
  NoDup (pool s) →
  SessionPool.step (abstraction (this s)) (Core_registration a s)
    (abstraction (this (final (create a) s))).
Proof.
  destruct a; (apply made_refines; [simpl; auto with eff|]); intros r s';
    apply Core_createInstance_this.
Qed.

Lemma Core_instance_refines inst r : Core_instance_over inst r → instance_refines inst r.
Proof.
  intros [c ->] s. split_and!.
  - intros content. apply frames_this_external.
  - apply deactivate_refines.
  - apply (destroy_refines r c).
Qed.

#[export] Instance Core_refines :
  Refines (facade := Core_facade) Core_instance_over Core_registration.
Proof.
  split.
  - apply Core_create_refines.
  - intros a s inst (r & c & ->)%Core_create_Normal. by exists r, c.
  - apply Core_instance_refines.
  - apply frames_this_handleComponentInteraction.
Qed.

Lemma Core_traced_refines cfg w acts evs cl :
  traced (facade := Core_facade) Core_instance_over Core_registration
    (start cfg w) acts evs cl →
  SessionPool.steps (abstraction (Package.new cfg)) evs (abstraction (this (state cl))).
Proof.
  apply (traced_refines (facade := Core_facade) Core_instance_over Core_registration
           (λ _, True)); [done| |done].
  intros acts' cl' _ Hrun.
  by destruct (run_start_invariant pool_allocated cfg w acts' cl'
                 (start_pool_allocated cfg w) Hrun).
Qed.

End core.

(** ** The refinement theorems *)

(** C7: the older core implements the session pool of the
    specification, call by call.  On a host that honours the allocation
    contract, every run from a new object has a sequence of events, one
    for each call in order: for a factory call, [register] of the renderer
    its constructor returned (the eviction alone when the [deactivate()]
    of the evicted renderer threw, no change when the constructor threw);
    for [deactivate()] and [destroy()] of an instance, [remove] of the
    renderer the instance is over; for a dispatch and a render, no
    change.  And the session pool of the specification, started with the
    configured limit and no session and taking these events in turn
    (eviction of the entry at index 0, removal by identity), ends in the
    list [renderers] of the object with its limit [maxInstances]. *)
Theorem Core_refines_SessionPool `{HostContract} (cfg : option ReacordConfig.t)
    (w : World) (acts : list (action (facade := Core_facade))) (cl : client) :
  run (facade := Core_facade) (start cfg w) acts cl →
  (∃ evs, traced (facade := Core_facade) Core_instance_over Core_registration
            (start cfg w) acts evs cl) ∧
  (∀ evs, traced (facade := Core_facade) Core_instance_over Core_registration
            (start cfg w) acts evs cl →
          SessionPool.steps (abstraction (Core.new cfg)) evs
            (abstraction (this (state cl)))).
Proof.
  intros Hrun. split; [by apply (run_traced (facade := Core_facade) Core_instance_over Core_registration)|].
  intros evs. apply Core_traced_refines.
Qed.

Lemma Core_refines_SessionPool_witness :
  (∃ evs, traced (facade := Core_facade) Core_instance_over Core_registration
            (start two (fresh_world 100 [] [])) reply_three evs three_replies) ∧
  (∀ evs, traced (facade := Core_facade) Core_instance_over Core_registration
            (start two (fresh_world 100 [] [])) reply_three evs three_replies →
          SessionPool.steps (abstraction (H := ref_host) (Core.new two)) evs
            (abstraction (this (state three_replies)))).
Proof.
  apply (Core_refines_SessionPool (H := ref_host) two (fresh_world 100 [] [])
           reply_three three_replies).
  apply execs_run. reflexivity.
Defined.

(** C32: the operations the class inlines implement those of the
    session pool.  From a pool without duplicates, when the eviction test
    ends normally, the object after [createInstance(renderer,
    initialContent)] stands for the session pool after
    [register(renderer)], whatever the reconciler does afterwards; and from
    any state, whatever the renderer's own method does, the object after
    [instance.deactivate()] or [instance.destroy()] stands for the session
    pool after [remove(renderer)].  Both hold in both variants. *)
Theorem operations_refine_SessionPool `{Host} (r : Renderer) (c : Container)
    (ic : option ReactNode) (s : State) :
  NoDup (pool s) → eviction_outcome s = Normal tt →
  Forall (λ createInstance,
    abstraction (this (final (createInstance r ic) s)) =
      SessionPool.register r (abstraction (this s)))
    [Package.createInstance; Core.createInstance] ∧
  Forall (λ inst,
    abstraction (this (final (ReacordInstance.deactivate inst) s)) =
      SessionPool.remove r (abstraction (this s)) ∧
    abstraction (this (final (ReacordInstance.destroy inst) s)) =
      SessionPool.remove r (abstraction (this s)))
    [Package.instanceOf r c; Core.instanceOf r c].
Proof.
  intros Hnd Ho. split.
  - repeat apply Forall_cons_2; [..|apply Forall_nil_2];
      rewrite ?Package_createInstance_this, ?Core_createInstance_this;
      by apply register_refines_register.
  - repeat apply Forall_cons_2; [..|apply Forall_nil_2];
      (split; [apply deactivate_refines|apply (destroy_refines r c)]).
Qed.

Lemma operations_refine_SessionPool_witness :
  Forall (λ createInstance,
    abstraction (this (final (createInstance 4 None)
                         (ref_state (Some (of_Z 2)) [1; 2; 3] (fresh_world 100 [] [])))) =
      SessionPool.register 4
        (abstraction (this (ref_state (Some (of_Z 2)) [1; 2; 3] (fresh_world 100 [] [])))))
    [Package.createInstance; Core.createInstance] ∧
  Forall (λ inst,
    abstraction (this (final (ReacordInstance.deactivate inst)
                         (ref_state (Some (of_Z 2)) [1; 2; 3] (fresh_world 100 [] [])))) =
      SessionPool.remove 4
        (abstraction (this (ref_state (Some (of_Z 2)) [1; 2; 3] (fresh_world 100 [] [])))) ∧
    abstraction (this (final (ReacordInstance.destroy inst)
                         (ref_state (Some (of_Z 2)) [1; 2; 3] (fresh_world 100 [] [])))) =
      SessionPool.remove 4
        (abstraction (this (ref_state (Some (of_Z 2)) [1; 2; 3] (fresh_world 100 [] [])))))
    [Package.instanceOf 4 9; Core.instanceOf 4 9].
Proof.
  apply (operations_refine_SessionPool (H := ref_host) 4 9 None);
    [compute_done|reflexivity].
Defined.

(** ** The package: registration order, and the session pool *)

Section package.
Context `{Host}.
Implicit Types (s : State) (r : Renderer) (c : Container) (cl : client).

(** The instances of the package. *)
Definition Package_instance (inst : ReacordInstance.t) : Prop :=
  ∃ r c, inst = Package.instanceOf r c.

(** An instance of the package over the renderer [r]. *)
Definition Package_instance_over (inst : ReacordInstance.t) (r : Renderer) : Prop :=
  ∃ c, inst = Package.instanceOf r c.

(** The event of [createInstance(renderer, initialContent)]. *)
Definition Package_registration (a : Renderer * option ReactNode) (s : State) :
    SessionPool.event :=
  registration a.1 s.

(** The renderer a call asks to register. *)
Definition registrant (a : action (facade := Package_facade)) : list Renderer :=
  match a with
  | ActCreate a => [a.1]
  | _ => []
  end.

(** The renderers a sequence of calls asked to register, in order. *)
Definition registrants (acts : list (action (facade := Package_facade))) :
    list Renderer :=
  acts ≫= registrant.

Lemma Package_held cfg w acts cl :
  run (facade := Package_facade) (start cfg w) acts cl →
  Forall Package_instance (instances cl).
Proof.
  apply (run_held Package_instance); [|apply Forall_nil_2].
  intros [r ic] s inst Hres.
  destruct (Package_createInstance_Normal r ic s inst Hres) as [c ->]. by exists r, c.
Qed.

Lemma Package_instance_pool inst s :
  Package_instance inst →
  (∀ content, pool (final (ReacordInstance.render inst content) s) = pool s) ∧
  (∃ r, pool (final (ReacordInstance.deactivate inst) s) = without r (pool s)) ∧
  (∃ r, pool (final (ReacordInstance.destroy inst) s) = without r (pool s)).
Proof.
  intros (r & c & ->). split_and!.
  - intros content. apply frames_this_pool, frames_this_Package_render.
  - exists r. apply deactivate_pool.
  - exists r. apply destroy_pool.
Qed.

(** A call adds at most its registrant, at the end, and keeps the order of
    the others. *)
Lemma Package_step_order cl a cl' :
  Forall Package_instance (instances cl) →
  step (facade := Package_facade) cl a cl' →
  pool (state cl') `sublist_of` pool (state cl) ++ registrant a.
Proof.
  intros Hall.
  destruct 1 as [cl [r ic]|cl i|cl n inst content Hn|cl n inst Hn|cl n inst Hn];
    simpl; rewrite ?app_nil_r.
  - rewrite Package_createInstance_pool. destruct (eviction_outcome _).
    + apply sublist_app; [apply evicted_sublist|done].
    + apply sublist_inserts_r, evicted_sublist.
  - by rewrite (frames_this_pool _ _ (frames_this_handleComponentInteraction i)).
  - destruct (Package_instance_pool inst (state cl)) as (-> & _ & _); [|done].
    by eapply Forall_lookup_1.
  - destruct (Package_instance_pool inst (state cl)) as (_ & [r ->] & _);
      [by eapply Forall_lookup_1|apply without_sublist].
  - destruct (Package_instance_pool inst (state cl)) as (_ & _ & [r ->]);
      [by eapply Forall_lookup_1|apply without_sublist].
Qed.

Lemma Package_run_order cfg w acts cl :
  run (facade := Package_facade) (start cfg w) acts cl →
  pool (state cl) `sublist_of` registrants acts.
Proof.
  induction 1 as [|acts cl a cl' Hrun IH Hstep]; [done|].
  unfold registrants. rewrite bind_app. simpl. rewrite app_nil_r.
  etrans; [apply (Package_step_order cl a cl'); [by eapply Package_held|done]|].
  by apply sublist_app.
Qed.

Lemma Package_instance_refines inst r :
  Package_instance_over inst r → instance_refines inst r.
Proof.
  intros [c ->] s. split_and!.
  - intros content. apply frames_this_Package_render.
  - apply deactivate_refines.
  - apply (destroy_refines r c).
Qed.

#[export] Instance Package_refines :
  Refines (facade := Package_facade) Package_instance_over Package_registration.
Proof.
  split.
  - intros [r ic] s. simpl. rewrite Package_createInstance_this. apply register_refines.
  - intros [r ic] s inst Hres. exists r.
    apply (Package_createInstance_Normal r ic s inst Hres).
  - apply Package_instance_refines.
  - apply frames_this_handleComponentInteraction.
Qed.

Lemma registrants_prefix acts a : NoDup (registrants (acts ++ [a])) → NoDup (registrants acts).
Proof. unfold registrants. rewrite bind_app. by intros (? & _ & _)%NoDup_app. Qed.

Lemma Package_traced_refines cfg w acts evs cl :
  NoDup (registrants acts) →
  traced (facade := Package_facade) Package_instance_over Package_registration
    (start cfg w) acts evs cl →
  SessionPool.steps (abstraction (Package.new cfg)) evs (abstraction (this (state cl))).
Proof.
  apply (traced_refines (facade := Package_facade) Package_instance_over
           Package_registration (λ acts, NoDup (registrants acts))); [apply registrants_prefix|].
  intros acts' cl' Hnd Hrun. eapply sublist_NoDup; [done|by eapply Package_run_order].
Qed.

End package.

(** C33: the package against the session pool of the specification.
    Along every run of the package's class the pool is in registration
    order: it is a subsequence of the renderers the calls of
    [createInstance] asked to register, in the order of those calls; no
    call reorders the pool or brings a renderer back.  Every run has a
    sequence of events, one for each call in order: for
    [createInstance(renderer, ...)], [register(renderer)] (the eviction
    alone when the [deactivate()] of the evicted renderer threw); for
    [deactivate()] and [destroy()] of an instance, [remove] of its
    renderer; for a dispatch and a render, no change.  And when the
    adapter registers each renderer once (the calls of [createInstance]
    pass different renderers), the session pool of the specification
    taking these events in turn from the empty pool ends in the list
    [renderers] of the object with its limit. *)
Theorem Package_refines_SessionPool `{Host} (cfg : option ReacordConfig.t)
    (w : World) (acts : list (action (facade := Package_facade))) (cl : client) :
  run (facade := Package_facade) (start cfg w) acts cl →
  pool (state cl) `sublist_of` registrants acts ∧
  (∃ evs, traced (facade := Package_facade) Package_instance_over Package_registration
            (start cfg w) acts evs cl) ∧
  (NoDup (registrants acts) →
   ∀ evs, traced (facade := Package_facade) Package_instance_over Package_registration
            (start cfg w) acts evs cl →
          SessionPool.steps (abstraction (Package.new cfg)) evs
            (abstraction (this (state cl)))).
Proof.
  intros Hrun. split_and!; [by apply (Package_run_order cfg w)| |].
  - by apply (run_traced (facade := Package_facade) Package_instance_over
                 Package_registration).
  - intros Hnodup evs. by apply Package_traced_refines.
Qed.

Lemma Package_refines_SessionPool_witness :
  pool (state three_registered) `sublist_of` registrants register_three ∧
  (∃ evs, traced (facade := Package_facade) Package_instance_over Package_registration
            (start two (fresh_world 100 [] [])) register_three evs three_registered) ∧
  (∀ evs, traced (facade := Package_facade) Package_instance_over Package_registration
            (start two (fresh_world 100 [] [])) register_three evs three_registered →
          SessionPool.steps (abstraction (H := ref_host) (Package.new two)) evs
            (abstraction (this (state three_registered)))).
Proof.
  destruct (Package_refines_SessionPool (H := ref_host) two (fresh_world 100 [] [])
              register_three three_registered) as (Horder & Hevs & Hsteps).
  - apply execs_run. reflexivity.
  - split_and!; [exact Horder|exact Hevs|]. apply Hsteps. compute_done.
Defined.
