(* ===== verification/Adapter.v ===== *)
(** * Adapters: the entry points of the class

    The class is abstract.  Its entry points, [send], [reply] and
    [ephemeralReply] in the package and [send] and [reply] in the older
    core, are declared without a body; a concrete adapter extends the class
    and implements them with what the class gives it: the protected
    [createInstance] (the older core: the two protected factory methods)
    and [handleComponentInteraction].  It cannot reach [renderers],
    [config], [maxInstances] or [deactivate], which are private.

    The declarations are the classes [Adapter.t] and [CoreAdapter.t].  The
    adapters the specification describes construct a renderer for the
    destination and delegate to the pool (§4.5): they are [delegating],
    over renderer factories that may do anything to the world but cannot
    assign a field of the object ([Encapsulated]), and [core_delegating],
    over the factory methods of the older core.  An adapter is a [Facade],
    so the machine of [Machine] runs the programs written against it; this
    file proves that the invariants and the refinement of the class are
    those of its adapters. *)

From stdpp Require Import base tactics option list.
From S2P Require Import Prelude Js Host Types ReacordPackage ReacordCore.
From S2P Require Import RefWorld Pool Dispatch Lifecycle Ascent Allocation.
From S2P Require Import Variants Machine Refinement.

(** ** The abstract methods *)

(** [abstract send(...args: unknown[]): ReacordInstance], and the same for
    [reply] and [ephemeralReply]. *)
Module Adapter.
Class t `{Host} : Type := {
  unknown : Type;
  send : list unknown → Eff State ReacordInstance.t;
  reply : list unknown → Eff State ReacordInstance.t;
  ephemeralReply : list unknown → Eff State ReacordInstance.t;
}.
End Adapter.

(** [abstract send(channel: unknown, initialContent?: ReactNode)] and
    [abstract reply(commandInteraction: unknown, initialContent?:
    ReactNode)] of the older core. *)
Module CoreAdapter.
Class t `{Host} : Type := {
  unknown : Type;
  send : unknown → option ReactNode → Eff State ReacordInstance.t;
  reply : unknown → option ReactNode → Eff State ReacordInstance.t;
}.
End CoreAdapter.

(** ** Adapters as facades *)

(** The entry point a program calls. *)
Inductive entry : Type := Send | Reply | EphemeralReply.

#[export] Instance entry_eq_dec : EqDecision entry.
Proof. solve_decision. Defined.

Definition entry_point `{Host} (adapter : Adapter.t) (e : entry) :
    list Adapter.unknown → Eff State ReacordInstance.t :=
  match e with
  | Send => Adapter.send
  | Reply => Adapter.reply
  | EphemeralReply => Adapter.ephemeralReply
  end.

(** What a program can call on an adapter of the package: its entry
    points, and the dispatch the adapter wires to its event source. *)
Definition Adapter_facade `{Host} (adapter : Adapter.t) : Facade := {|
  creation := entry * list Adapter.unknown;
  create := λ a, entry_point adapter a.1 a.2;
  dispatch := Package.handleComponentInteraction;
|}.

Inductive core_entry : Type := CoreSend | CoreReply.

Definition core_entry_point `{Host} (adapter : CoreAdapter.t) (e : core_entry) :
    CoreAdapter.unknown → option ReactNode → Eff State ReacordInstance.t :=
  match e with
  | CoreSend => CoreAdapter.send
  | CoreReply => CoreAdapter.reply
  end.

Definition CoreAdapter_facade `{Host} (adapter : CoreAdapter.t) : Facade := {|
  creation := core_entry * CoreAdapter.unknown * option ReactNode;
  create := λ a, core_entry_point adapter a.1.1 a.1.2 a.2;
  dispatch := Core.handleComponentInteraction;
|}.

(** ** Adapters that delegate *)

(** The renderer factories of an adapter of the package, one per entry
    point, and the place of the initial content among the arguments. *)
Class Factories `{Host} : Type := {
  argument : Type;
  createRenderer : entry → list argument → Eff State Renderer;
  initialContent : list argument → option ReactNode;
}.

(** [return this.createInstance(this.createRenderer(...), initialContent)] *)
Definition delegate `{Factories} (e : entry) (args : list argument) :
    Eff State ReacordInstance.t :=
  let* renderer := createRenderer e args in
  Package.createInstance renderer (initialContent args).

Definition delegating `{Factories} : Adapter.t := {|
  Adapter.unknown := argument;
  Adapter.send := delegate Send;
  Adapter.reply := delegate Reply;
  Adapter.ephemeralReply := delegate EphemeralReply;
|}.

(** The fields of the object are private: a factory does not assign
    them. *)
Class Encapsulated `{Host} {factories : Factories} : Prop :=
  createRenderer_frames_this e args : frames_this (createRenderer e args).

(** A factory constructs its renderer: the renderer is new, and no
    renderer ceases to exist. *)
Class Allocating `{HostContract} {factories : Factories} : Prop := {
  createRenderer_grows e args : grows (createRenderer e args);
  createRenderer_fresh e args : fresh (createRenderer e args);
}.

(** The arguments of the older core's entry points, as the factory methods
    take them. *)
Class Casts `{Host} : Type := {
  destination : Type;
  asChannel : destination → Channel;
  asCommandInteraction : destination → CommandInteraction;
}.

(** [send(channel, initialContent)] calls
    [createChannelRendererInstance], [reply(commandInteraction,
    initialContent)] calls [createCommandReplyRendererInstance]. *)
Definition core_delegating `{Casts} : CoreAdapter.t := {|
  CoreAdapter.unknown := destination;
  CoreAdapter.send := λ channel initialContent,
    Core.createChannelRendererInstance (asChannel channel) initialContent;
  CoreAdapter.reply := λ commandInteraction initialContent,
    Core.createCommandReplyRendererInstance
      (asCommandInteraction commandInteraction) initialContent;
|}.

(** The creating call of the older core behind an entry point. *)
Definition core_creation `{Casts}
    (a : creation (Facade := CoreAdapter_facade core_delegating)) :
    creation (Facade := Core_facade) :=
  match a.1.1 with
  | CoreSend => ChannelRenderer (asChannel a.1.2) a.2
  | CoreReply => CommandReplyRenderer (asCommandInteraction a.1.2) a.2
  end.

(** ** One facade behind another *)

Section morphism.
Context `{Host} (f g : Facade) (translate : creation (Facade := f) → creation (Facade := g)).
Hypothesis create_translate : ∀ a, create (Facade := f) a = create (Facade := g) (translate a).
Hypothesis dispatch_translate : ∀ i, dispatch (Facade := f) i = dispatch (Facade := g) i.

Definition map_action (a : action (facade := f)) : action (facade := g) :=
  match a with
  | ActCreate a => ActCreate (facade := g) (translate a)
  | ActInteraction i => ActInteraction (facade := g) i
  | ActRender n content => ActRender (facade := g) n content
  | ActDeactivate n => ActDeactivate (facade := g) n
  | ActDestroy n => ActDestroy (facade := g) n
  end.

Lemma exec_map a cl : exec (facade := f) a cl = exec (facade := g) (map_action a) cl.
Proof.
  destruct a; simpl; [|by rewrite dispatch_translate|done..].
  unfold after_create. by rewrite create_translate.
Qed.

Lemma execs_map acts cl :
  execs (facade := f) acts cl = execs (facade := g) (map_action <$> acts) cl.
Proof.
  revert cl. induction acts as [|a acts IH]; intros cl; [done|]. simpl.
  rewrite <-exec_map. destruct (exec a cl); [apply IH|done].
Qed.

(** A run of [f] is the run of [g] that makes the same calls. *)
Lemma run_map cl0 acts cl :
  run (facade := f) cl0 acts cl ↔ run (facade := g) cl0 (map_action <$> acts) cl.
Proof. by rewrite <-!execs_run, execs_map. Qed.

End morphism.

(** ** The adapters of the package keep the invariants of the class *)

Section delegating.
Context `{Factories} `{!Encapsulated}.
Implicit Types (s : State) (r : Renderer) (e : entry) (args : list argument).

Lemma delegate_Normal e args s inst :
  result (delegate e args) s = Normal inst → Package_instance inst.
Proof.
  intros (r & _ & [c ->]%Package_createInstance_Normal)%then_Normal. by exists r, c.
Qed.

Lemma create_delegate (a : creation (Facade := Adapter_facade delegating)) :
  create a = delegate a.1 a.2.
Proof. by destruct a as [[] args]. Qed.

Lemma delegate_preserves (J : Reacord → Prop) e args :
  (∀ r ic, preserves (λ s, J (this s)) (Package.createInstance r ic)) →
  preserves (λ s, J (this s)) (delegate e args).
Proof.
  intros HJ. apply preserves_bind; [|intros r; apply HJ].
  apply (frames_this_preserves J), createRenderer_frames_this.
Qed.

#[export] Instance delegating_configured cfg :
  FacadeInvariant (facade := Adapter_facade delegating)
    (λ s, configured cfg (this s)).
Proof.
  split.
  - intros a. rewrite create_delegate. apply (delegate_preserves (configured cfg)).
    intros r ic. apply Package_createInstance_configured.
  - intros a s inst _. rewrite create_delegate.
    intros (r & c & ->)%delegate_Normal.
    apply (keeps_Package_instanceOf (configured cfg)), remove_configured.
  - intros i. apply (frames_this_preserves (configured cfg)),
      frames_this_handleComponentInteraction.
Qed.

(** The event of an entry point: the registration of the renderer its
    factory returned, in the world the factory left. *)
Definition delegate_registration
    (a : creation (Facade := Adapter_facade delegating)) (s : State) :
    SessionPool.event :=
  made_registration (createRenderer a.1 a.2) s.

#[export] Instance delegating_refines :
  Refines (facade := Adapter_facade delegating) Package_instance_over
    delegate_registration.
Proof.
  split.
  - intros a s. rewrite create_delegate.
    apply made_refines; [apply createRenderer_frames_this|].
    intros r s'. apply Package_createInstance_this.
  - intros a s inst. rewrite create_delegate.
    intros (r & c & ->)%delegate_Normal. by exists r, c.
  - apply Package_instance_refines.
  - apply frames_this_handleComponentInteraction.
Qed.

End delegating.

Section allocating.
Context `{HostContract} `{!Factories} `{!Encapsulated} `{!Allocating}.

Lemma keeps_pool_allocated_Package r c : keeps pool_allocated (Package.instanceOf r c).
Proof.
  split_and!.
  - intros content. apply grows_preserves; [apply frames_this_Package_render|].
    simpl. ascent.
  - apply deactivate_pool_allocated.
  - apply (destroy_pool_allocated r c).
Qed.

#[export] Instance delegating_allocated :
  FacadeInvariant (facade := Adapter_facade delegating) pool_allocated.
Proof.
  split.
  - intros a. rewrite create_delegate. apply made_pool_allocated;
      [apply createRenderer_frames_this|apply createRenderer_grows
      |apply createRenderer_fresh|].
    intros r s. apply Package_createInstance_pool_allocated.
  - intros a s inst _. rewrite create_delegate.
    intros (r & c & ->)%delegate_Normal. apply keeps_pool_allocated_Package.
  - intros i. apply handleComponentInteraction_pool_allocated.
Qed.

Lemma delegating_run_allocated cfg w acts cl :
  run (facade := Adapter_facade delegating) (start cfg w) acts cl →
  pool_allocated (state cl).
Proof. apply (run_start_invariant pool_allocated), start_pool_allocated. Qed.

Lemma delegating_traced_refines cfg w acts evs cl :
  traced (facade := Adapter_facade delegating) Package_instance_over
    delegate_registration (start cfg w) acts evs cl →
  SessionPool.steps (abstraction (Package.new cfg)) evs (abstraction (this (state cl))).
Proof.
  apply (traced_refines (facade := Adapter_facade delegating) Package_instance_over
           delegate_registration (λ _, True)); [done| |done].
  intros acts' cl' _ Hrun. by destruct (delegating_run_allocated cfg w acts' cl' Hrun).
Qed.

End allocating.

(** ** An adapter over the constructors of the host *)

(** [send(channel, content)] makes a channel message renderer, [reply] and
    [ephemeralReply] a command reply renderer; the content is the second
    argument. *)
Definition host_factories `{Host} (argument : Type)
    (asChannel : list argument → Channel)
    (asCommandInteraction : list argument → CommandInteraction)
    (asContent : list argument → option ReactNode) : Factories := {|
  argument := argument;
  createRenderer := λ e args,
    match e with
    | Send => new_ChannelMessageRenderer (asChannel args)
    | Reply | EphemeralReply => new_CommandReplyRenderer (asCommandInteraction args)
    end;
  initialContent := asContent;
|}.

Section host_factories.
Context `{Host} (argument : Type) (asChannel : list argument → Channel)
  (asCommandInteraction : list argument → CommandInteraction)
  (asContent : list argument → option ReactNode).

#[export] Instance host_factories_encapsulated :
  Encapsulated (factories := host_factories argument asChannel asCommandInteraction asContent).
Proof. intros [] args; simpl; auto with eff. Qed.

End host_factories.

#[export] Instance host_factories_allocating `{HostContract} (argument : Type)
    (asChannel : list argument → Channel)
    (asCommandInteraction : list argument → CommandInteraction)
    (asContent : list argument → option ReactNode) :
  Allocating (factories := host_factories argument asChannel asCommandInteraction asContent).
Proof.
  split; intros [] args; simpl;
    first [by ascent|auto using fresh_new_channel, fresh_new_command].
Qed.

(** ** The adapters of the older core are the older core *)

Section core_delegating.
Context `{HostContract} `{!Casts}.

Lemma core_delegating_run cfg w acts cl :
  run (facade := CoreAdapter_facade core_delegating) (start cfg w) acts cl ↔
  run (facade := Core_facade) (start cfg w)
    (map_action (CoreAdapter_facade core_delegating) Core_facade core_creation <$> acts) cl.
Proof. apply run_map; [by intros [[[] ?] ?]|done]. Qed.

End core_delegating.

(** ** Scenarios on the reference world *)

(** An adapter over the constructors of the reference world: the first
    argument names the destination, the second is the text to show. *)
Definition ref_factories : Factories (H := ref_host) :=
  host_factories (H := ref_host) nat
    (λ args, default 0 (head args)) (λ args, default 0 (head args))
    (λ args, Text <$> args !! 1).

Definition ref_adapter : Adapter.t (H := ref_host) :=
  delegating (H0 := ref_factories).

(** Three messages with a limit of two, an interaction, the first message
    deactivated by hand, a fourth message and a fifth, which evicts the
    second. *)
Definition conversation :
    list (action (H := ref_host) (facade := Adapter_facade ref_adapter)) :=
  [ActCreate (facade := Adapter_facade ref_adapter) (Send, [7; 1]);
   ActCreate (facade := Adapter_facade ref_adapter) (Reply, [8]);
   ActCreate (facade := Adapter_facade ref_adapter) (EphemeralReply, [8; 2]);
   ActInteraction (facade := Adapter_facade ref_adapter) 3;
   ActDeactivate (facade := Adapter_facade ref_adapter) 0;
   ActCreate (facade := Adapter_facade ref_adapter) (Send, [7]);
   ActCreate (facade := Adapter_facade ref_adapter) (Reply, [9])].

Definition after_conversation : client (H := ref_host) :=
  default (start two (fresh_world 100 [] []))
    (execs (facade := Adapter_facade ref_adapter) conversation
       (start two (fresh_world 100 [] []))).

Definition ref_casts : Casts (H := ref_host) :=
  {| destination := nat; asChannel := id; asCommandInteraction := id |}.

(** The older core: a message to a channel and two replies. *)
Definition core_conversation :
    list (action (H := ref_host)
            (facade := CoreAdapter_facade (core_delegating (H0 := ref_casts)))) :=
  [ActCreate (facade := CoreAdapter_facade (core_delegating (H0 := ref_casts)))
     (CoreSend, 7, Some (Text 1));
   ActCreate (facade := CoreAdapter_facade (core_delegating (H0 := ref_casts)))
     (CoreReply, 8, None);
   ActDestroy (facade := CoreAdapter_facade (core_delegating (H0 := ref_casts))) 0;
   ActCreate (facade := CoreAdapter_facade (core_delegating (H0 := ref_casts)))
     (CoreReply, 8, Some (Text 2))].

Definition after_core_conversation : client (H := ref_host) :=
  default (start two (fresh_world 100 [] []))
    (execs (facade := CoreAdapter_facade (core_delegating (H0 := ref_casts)))
       core_conversation (start two (fresh_world 100 [] []))).

(** ** What holds of every adapter *)

(** C21: the class is safe to extend.  Whatever an adapter of the package
    does to make its renderers, as long as its entry points hand the
    renderer to [createInstance] (it cannot assign the private fields),
    every program using the adapter ([send], [reply], [ephemeralReply],
    interactions, the methods of the instances, in any order and whichever
    calls throw) leaves the object with the configuration it was
    constructed with and a pool within capacity, and every instance the
    program holds is an instance object of [createInstance]. *)
Theorem adapter_within_capacity `{Host} (factories : Factories)
    (cfg : option ReacordConfig.t) (w : World)
    (acts : list (action (facade := Adapter_facade delegating))) (cl : client) :
  Encapsulated →
  run (facade := Adapter_facade delegating) (start cfg w) acts cl →
  configured (config_of cfg) (this (state cl)) ∧
  Forall Package_instance (instances cl).
Proof.
  intros Henc Hrun. split.
  - revert Hrun. apply (run_start_invariant (λ s, configured (config_of cfg) (this s))),
      new_configured.
  - revert Hrun.
    apply (held (facade := Adapter_facade delegating) Package_instance_over
             delegate_registration).
Qed.

Lemma adapter_within_capacity_witness :
  configured (config_of two) (this (state after_conversation)) ∧
  Forall Package_instance (instances after_conversation).
Proof.
  apply (adapter_within_capacity (H := ref_host) ref_factories two
           (fresh_world 100 [] []) conversation after_conversation).
  - apply host_factories_encapsulated.
  - apply execs_run. reflexivity.
Defined.

(** C5: adapters implement the session pool of the specification, call
    by call.  On a host that honours the allocation contract, for an
    adapter of the package whose factories construct their renderers:
    along every run from a new object no renderer is in the pool twice;
    the run has a sequence of events, one for each call in order (for an
    entry point, [register] of the renderer its factory returned, the
    eviction alone when the [deactivate()] of the evicted renderer threw,
    no change when the factory threw; for [deactivate()] and [destroy()]
    of an instance, [remove] of its renderer; for a dispatch and a
    render, no change); and the session pool of the specification taking
    these events in turn from the empty pool ends in the list [renderers]
    of the object with its limit.  For an adapter of the older core, a
    run is the run of the factory methods its entry points call, so that
    it has the events of that run and refines the session pool as the
    class does. *)
Theorem adapters_refine_SessionPool `{HostContract} (cfg : option ReacordConfig.t)
    (w : World) :
  (∀ (factories : Factories) acts cl,
     Encapsulated → Allocating →
     run (facade := Adapter_facade delegating) (start cfg w) acts cl →
     pool_allocated (state cl) ∧
     (∃ evs, traced (facade := Adapter_facade delegating) Package_instance_over
               delegate_registration (start cfg w) acts evs cl) ∧
     (∀ evs, traced (facade := Adapter_facade delegating) Package_instance_over
               delegate_registration (start cfg w) acts evs cl →
             SessionPool.steps (abstraction (Package.new cfg)) evs
               (abstraction (this (state cl))))) ∧
  (∀ (casts : Casts) acts cl,
     run (facade := CoreAdapter_facade core_delegating) (start cfg w) acts cl →
     let calls := map_action (CoreAdapter_facade core_delegating) Core_facade
                    core_creation <$> acts in
     (∃ evs, traced (facade := Core_facade) Core_instance_over Core_registration
               (start cfg w) calls evs cl) ∧
     (∀ evs, traced (facade := Core_facade) Core_instance_over Core_registration
               (start cfg w) calls evs cl →
             SessionPool.steps (abstraction (Package.new cfg)) evs
               (abstraction (this (state cl))))).
Proof.
  split.
  - intros factories acts cl ? ? Hrun. split_and!.
    + by apply (delegating_run_allocated cfg w acts).
    + by apply (run_traced (facade := Adapter_facade delegating) Package_instance_over
                  delegate_registration).
    + intros evs. apply delegating_traced_refines.
  - intros casts acts cl Hrun%core_delegating_run calls. split.
    + by apply (run_traced (facade := Core_facade) Core_instance_over Core_registration).
    + intros evs. apply Core_traced_refines.
Qed.

Lemma adapters_refine_SessionPool_witness :
  (pool_allocated (state after_conversation) ∧
   (∃ evs, traced (facade := Adapter_facade ref_adapter) Package_instance_over
             (delegate_registration (H0 := ref_factories))
             (start two (fresh_world 100 [] [])) conversation evs after_conversation) ∧
   (∀ evs, traced (facade := Adapter_facade ref_adapter) Package_instance_over
             (delegate_registration (H0 := ref_factories))
             (start two (fresh_world 100 [] [])) conversation evs after_conversation →
           SessionPool.steps (abstraction (H := ref_host) (Package.new two)) evs
             (abstraction (this (state after_conversation))))) ∧
  ((∃ evs, traced (facade := Core_facade) Core_instance_over Core_registration
             (start two (fresh_world 100 [] []))
             (map_action (CoreAdapter_facade (core_delegating (H0 := ref_casts)))
                Core_facade core_creation <$> core_conversation)
             evs after_core_conversation) ∧
   (∀ evs, traced (facade := Core_facade) Core_instance_over Core_registration
             (start two (fresh_world 100 [] []))
             (map_action (CoreAdapter_facade (core_delegating (H0 := ref_casts)))
                Core_facade core_creation <$> core_conversation)
             evs after_core_conversation →
           SessionPool.steps (abstraction (H := ref_host) (Package.new two)) evs
             (abstraction (this (state after_core_conversation))))).
Proof.
  destruct (adapters_refine_SessionPool (H := ref_host) two (fresh_world 100 [] []))
    as [Hpackage Hcore].
  split.
  - apply (Hpackage ref_factories conversation);
      [apply host_factories_encapsulated|apply host_factories_allocating|].
    apply execs_run. reflexivity.
  - apply (Hcore ref_casts core_conversation). apply execs_run. reflexivity.
Defined.
