(* ===== verification/Ownership.v ===== *)
(** * One instance per renderer

    The specification gives an instance exclusive ownership of its
    renderer: "exactly one Instance per Renderer" (§3).  The class does
    not enforce it: [createInstance] of the package takes whatever
    renderer the adapter passes.  It holds where the class makes the
    renderer itself: the factory methods of the older core, and the
    adapters of the package that construct a renderer and hand it over
    ([Adapter.delegating] under [Allocating]), on a host that honours the
    allocation contract.  There the instances a program holds are over
    renderers that differ pairwise, however the program got them and
    whatever it did meanwhile.

    The invariant is the one of [Holding], for the renderer an instance
    is over ([owns]) and the renderers that exist ([allocated]); what a
    variant owes to it is shown here of the older core and of the
    delegating adapters. *)

From stdpp Require Import base tactics option list.
From S2P Require Import Prelude Js Host Types ReacordPackage ReacordCore.
From S2P Require Import RefWorld Pool Dispatch Lifecycle Ascent Allocation.
From S2P Require Import Variants Machine Holding Refinement Adapter.

(** The renderer an instance is over: the one its closures capture. *)
Definition owns `{Host} (inst : ReacordInstance.t) (r : Renderer) : Prop :=
  ∃ c, inst = Package.instanceOf r c ∨ inst = Core.instanceOf r c.

Section made.
Context `{HostContract}.
Implicit Types (s : State) (r : Renderer) (c : Container) (inst : ReacordInstance.t).

Lemma owns_ascends inst r : owns inst r → ascends_instance (live_le allocated) inst.
Proof.
  intros [c [-> | ->]];
    [apply ascends_Package_instanceOf|apply ascends_Core_instanceOf]; apply _.
Qed.

(** A renderer that was made, then handed to [createInstance]. *)
Lemma made_owns (m : Eff State Renderer) (k : Renderer → Eff State ReacordInstance.t)
    s inst :
  fresh m → (∀ r, grows (k r)) →
  (∀ r s' inst', result (k r) s' = Normal inst' → owns inst' r) →
  result (let* r := m in k r) s = Normal inst →
  ∃ r, owns inst r ∧ ¬ allocated (world s) r ∧
       allocated (world (final (let* r := m in k r) s)) r.
Proof.
  intros Hfresh Hgrows Howns Hres. rewrite result_bind in Hres. rewrite final_bind.
  destruct (result m s) as [r|] eqn:Hm; [|done]. exists r.
  destruct (Hfresh s r Hm) as [Hnew Hr].
  split_and!; [by eapply Howns|done|by apply Hgrows].
Qed.

(** ** The variants that make their renderers *)

#[export] Instance Core_owning : Holding owns allocated (facade := Core_facade).
Proof.
  split.
  - intros [channel ic|ci ic]; simpl; ascent.
  - intros [channel ic|ci ic] s inst;
      (apply made_owns;
         [|intros; ascent
          |intros r s' inst' [c ->]%Core_createInstance_Normal; exists c; by right]);
      [apply fresh_new_channel|apply fresh_new_command].
  - intros i. simpl. ascent.
  - apply owns_ascends.
Qed.

#[export] Instance delegating_owning `{!Factories} `{!Allocating} :
  Holding owns allocated (facade := Adapter_facade delegating).
Proof.
  split.
  - intros a. rewrite create_delegate.
    apply (ascends_bind (live_le allocated)); [apply createRenderer_grows|intros r; ascent].
  - intros a s inst. rewrite create_delegate.
    apply made_owns; [apply createRenderer_fresh|intros; ascent|].
    intros r s' inst' [c ->]%Package_createInstance_Normal. exists c. by left.
  - intros i. simpl. ascent.
  - apply owns_ascends.
Qed.

End made.

(** C14: exactly one instance per renderer, where the class makes the
    renderers.  On a host that honours the allocation contract, along
    every run of the older core (whose creating calls are its two factory
    methods) and along every run of an adapter of the package that
    constructs a renderer and hands it to [createInstance], the instances
    the program holds are over renderers that differ pairwise: no two
    instances act on the same renderer, whatever the program did with
    them and whichever calls threw. *)
Theorem one_instance_per_renderer `{HostContract} (cfg : option ReacordConfig.t)
    (w : World) :
  (∀ acts cl, run (facade := Core_facade) (start cfg w) acts cl →
              ∃ rs, Forall2 owns (instances cl) rs ∧ NoDup rs) ∧
  (∀ (factories : Factories) acts cl,
     Allocating →
     run (facade := Adapter_facade delegating) (start cfg w) acts cl →
     ∃ rs, Forall2 owns (instances cl) rs ∧ NoDup rs).
Proof.
  split; [intros acts cl Hrun|intros factories acts cl Hall Hrun];
    destruct (run_holders owns allocated cfg w acts cl Hrun) as (rs & Hown & Hnd & _);
    by exists rs.
Qed.

Lemma one_instance_per_renderer_witness :
  (∃ rs, Forall2 owns (instances three_replies) rs ∧ NoDup rs) ∧
  (∃ rs, Forall2 owns (instances after_conversation) rs ∧ NoDup rs).
Proof.
  destruct (one_instance_per_renderer (H := ref_host) two (fresh_world 100 [] []))
    as [Hcore Hpackage].
  split.
  - apply (Hcore reply_three). apply run_three_replies.
  - apply (Hpackage ref_factories conversation); [apply host_factories_allocating|].
    apply execs_run. reflexivity.
Defined.
