(* ===== verification/Teardown.v ===== *)
(** * The pool holds the renderers that were not torn down

    The specification calls the pool the "ordered sequence of active
    Renderers" (§3) and says of a deactivated instance that its renderer
    "no longer participates in dispatch" (§4.3).  [Lifecycle] shows it of
    the dispatch that follows a deactivation.  This file shows it of
    everything that follows, in the older core, which makes its renderers
    itself: on a host that honours the allocation contract, a renderer
    that exists and is out of the pool (it was evicted, deactivated or
    destroyed) is never in the pool again and is never offered an
    interaction again, whatever the program calls afterwards; and a
    renderer on which [deactivate] or [destroy] was called is out of the
    pool.

    The order [stays_out] on states says so of two states; every call of
    the older core goes up in it, hence every run. *)

From stdpp Require Import base tactics option list.
From S2P Require Import Prelude Js Host Types ReacordPackage ReacordCore.
From S2P Require Import RefWorld Pool Dispatch Lifecycle Ascent Allocation.
From S2P Require Import Variants Machine Holding Refinement Adapter Ownership.

(** The renderers a log tears down: those [deactivate] or [destroy] was
    called on, in order. *)
Definition torn `{Host} (l : list Call) : list Renderer :=
  omap (λ c, match c with
             | Deactivate r | Destroy r => Some r
             | _ => None
             end) l.

Lemma torn_app `{Host} (l1 l2 : list Call) : torn (l1 ++ l2) = torn l1 ++ torn l2.
Proof. apply omap_app. Qed.

Lemma handled_app `{Host} (l1 l2 : list Call) :
  handled (l1 ++ l2) = handled l1 ++ handled l2.
Proof. apply omap_app. Qed.

Section stays_out.
Context `{HostContract}.
Implicit Types (s : State) (r x : Renderer) (c : Container) (ic : option ReactNode)
  (l : list Call).

(** [stays_out s s']: from [s] to [s'] the renderers that exist still
    exist, the log was only appended to, a renderer that existed at [s]
    is in the pool at [s'], or was offered an interaction meanwhile, only
    if it was in the pool at [s], and a renderer torn down meanwhile
    exists and is out of the pool at [s']. *)
Definition stays_out s s' : Prop :=
  (∀ x, allocated (world s) x → allocated (world s') x) ∧
  (∀ x, x ∈ pool s' → allocated (world s) x → x ∈ pool s) ∧
  ∃ l, calls s' = calls s ++ l ∧
       (∀ x, x ∈ handled l → allocated (world s) x → x ∈ pool s) ∧
       (∀ x, x ∈ torn l → allocated (world s') x ∧ x ∉ pool s').

#[export] Instance stays_out_preorder : PreOrder stays_out.
Proof.
  split.
  - intros s. split_and!; [done..|]. exists []. rewrite app_nil_r.
    split_and!; [done|by intros x ?%elem_of_nil..].
  - intros s1 s2 s3 (Hw1 & Hp1 & l1 & Hl1 & Hh1 & Ht1) (Hw2 & Hp2 & l2 & Hl2 & Hh2 & Ht2).
    split_and!; [by auto|by auto|]. exists (l1 ++ l2).
    split_and!; [by rewrite Hl2, Hl1, app_assoc|..]; intros x;
      rewrite ?handled_app, ?torn_app, elem_of_app; (intros [Hx|Hx]; [|by auto]).
    + by auto.
    + destruct (Ht1 x Hx) as [Hall Hout]. by auto.
Qed.

(** A computation goes up in that order when it keeps the renderers that
    exist and, of the state it starts from: adds to the pool no renderer
    that existed, offers an interaction to renderers of the pool only, and
    leaves the renderers it tears down out of the pool. *)
Lemma settles_intro {A} (m : Eff State A) s :
  grows m → logs m →
  (∀ x, x ∈ pool (final m s) → allocated (world s) x → x ∈ pool s) →
  (∀ x, x ∈ handled (issued m s) → x ∈ pool s) →
  (∀ x, x ∈ torn (issued m s) → allocated (world s) x ∧ x ∉ pool (final m s)) →
  stays_out s (final m s).
Proof.
  intros Hgrows Hlogs Hpool Hhandled Htorn. split_and!; [apply Hgrows|apply Hpool|].
  exists (issued m s). split_and!; [apply Hlogs|by auto|].
  intros x [Hx Hout]%Htorn. split; [by apply Hgrows|done].
Qed.

(** ** Dispatch and the methods of an instance *)

Lemma torn_offers i rs : torn (offers i rs) = [].
Proof. by induction rs. Qed.

Lemma dispatch_settles i s : stays_out s (final (Package.handleComponentInteraction i) s).
Proof.
  apply settles_intro; [ascent|apply logs_handleComponentInteraction|..]; intros x.
  - by rewrite (frames_this_pool _ s (frames_this_handleComponentInteraction i)).
  - rewrite handleComponentInteraction_issued, handled_offers.
    intros Hx. eapply elem_of_prefix; [done|apply offered_prefix].
  - rewrite handleComponentInteraction_issued, torn_offers. by intros ?%elem_of_nil.
Qed.

Lemma render_settles content c s :
  stays_out s (final (reconciler_updateContainer content c) s).
Proof.
  unfold reconciler_updateContainer.
  apply settles_intro; [apply (ascends_updateContainer _)|apply logs_external|..];
    intros x; [by rewrite external_pool|rewrite issued_external..];
    by intros ?%elem_of_nil.
Qed.

Lemma deactivate_settles r s :
  allocated (world s) r → stays_out s (final (Package.deactivate (Some r)) s).
Proof.
  intros Hr. apply settles_intro; [ascent|apply logs_deactivate|..]; intros x.
  - rewrite deactivate_pool. by intros [_ ?]%elem_of_without.
  - rewrite deactivate_issued. by intros ?%elem_of_nil.
  - rewrite deactivate_issued, deactivate_pool. intros ->%list_elem_of_singleton.
    split; [done|apply not_elem_of_without].
Qed.

Lemma destroy_settles r c s :
  allocated (world s) r →
  stays_out s (final (ReacordInstance.destroy (Package.instanceOf r c)) s).
Proof.
  intros Hr. apply settles_intro; [simpl; ascent|apply logs_destroy|..]; intros x.
  - rewrite destroy_pool. by intros [_ ?]%elem_of_without.
  - rewrite destroy_issued. by intros ?%elem_of_nil.
  - rewrite destroy_issued, destroy_pool. intros ->%list_elem_of_singleton.
    split; [done|apply not_elem_of_without].
Qed.

(** The methods of an instance over a renderer that exists, in either
    variant. *)
Definition settles_instance (inst : ReacordInstance.t) s : Prop :=
  (∀ content, stays_out s (final (ReacordInstance.render inst content) s)) ∧
  stays_out s (final (ReacordInstance.deactivate inst) s) ∧
  stays_out s (final (ReacordInstance.destroy inst) s).

Lemma owns_settles inst r s :
  owns inst r → allocated (world s) r → settles_instance inst s.
Proof.
  intros [c [-> | ->]] Hr; split_and!;
    [intros content; apply render_settles|by apply deactivate_settles
    |by apply destroy_settles
    |intros content; apply render_settles|by apply deactivate_settles
    |by apply (destroy_settles r c)].
Qed.

(** ** The factory methods *)

(** [createInstance] adds at most its renderer to the pool. *)
Lemma register_pool_within r s x :
  x ∈ pool (final (register r) s) → x = r ∨ x ∈ pool s.
Proof.
  rewrite register_final. pose proof (after_eviction_sublist s) as Hsub.
  destruct (eviction_outcome s); simpl.
  - intros [Hx| ->%list_elem_of_singleton]%elem_of_app; [right|by left].
    by eapply elem_of_sublist.
  - intros Hx. right. by eapply elem_of_sublist.
Qed.

Lemma handled_eviction_calls s : handled (eviction_calls s) = [].
Proof.
  unfold eviction_calls. destruct (over_capacity s); [|done]. by destruct (pool s !! 0).
Qed.

Lemma handled_Core_attach_calls r ic w : handled (Core_attach_calls r ic w) = [].
Proof.
  unfold Core_attach_calls. by destruct (result _ _) as [c|], ic.
Qed.

Lemma torn_Core_attach_calls r ic w : torn (Core_attach_calls r ic w) = [].
Proof.
  unfold Core_attach_calls. by destruct (result _ _) as [c|], ic.
Qed.

(** The renderer the eviction tears down was in the pool, and is out of
    it after the registration of another. *)
Lemma torn_eviction_calls r s x :
  x ∈ torn (eviction_calls s) → x ≠ r →
  (x ∈ pool s) ∧ (x ∉ pool (final (register r) s)).
Proof.
  unfold eviction_calls. rewrite register_pool. unfold registered, over_capacity.
  destruct (pool s) as [|old rest] eqn:Hp; [by destruct (gt _ _); intros ?%elem_of_nil|].
  destruct (gt _ _) eqn:Hover; [|by intros ?%elem_of_nil]. simpl.
  intros ->%list_elem_of_singleton Hne. split; [apply list_elem_of_here|].
  rewrite evicted_over by done.
  destruct (eviction_outcome s); rewrite ?elem_of_app, ?list_elem_of_singleton;
    pose proof (not_elem_of_without old rest); tauto.
Qed.

Lemma issued_Core_createInstance r ic s :
  handled (issued (Core.createInstance r ic) s) = [] ∧
  torn (issued (Core.createInstance r ic) s) = torn (eviction_calls s).
Proof.
  rewrite Core_createInstance_issued, handled_app, torn_app, handled_eviction_calls.
  destruct (eviction_outcome s); [|by rewrite (app_nil_r (torn _))].
  by rewrite handled_Core_attach_calls, torn_Core_attach_calls, !app_nil_r.
Qed.

(** A renderer that was made, then handed to [createInstance]: the only
    renderer that can enter the pool did not exist, and it is not the one
    the eviction tears down. *)
Lemma made_settles (call : Call) (op : Eff World Renderer) ic s :
  handled [call] = [] → torn [call] = [] →
  grows (external call op) → fresh (external call op) → pool_allocated s →
  stays_out s (final (let* r := external call op in Core.createInstance r ic) s).
Proof.
  intros Hcall Hcall' Hgrows Hfresh [_ Hall]. rewrite Forall_forall in Hall.
  assert (∀ r, logs (Core.createInstance r ic)) as Hlogs
    by (intros; apply logs_Core_createInstance).
  apply settles_intro;
    [by apply (ascends_bind (live_le allocated)); [|intros r; ascent]
    |by apply logs_bind; [apply logs_external|]|..]; intros x;
    [rewrite final_bind|rewrite issued_bind by auto using logs_external..];
    rewrite ?issued_external, ?handled_app, ?torn_app, ?Hcall, ?Hcall'; simpl;
    destruct (result (external call op) s) as [r|] eqn:Hr;
    rewrite ?external_pool; try (by intros ?%elem_of_nil); try done;
    destruct (Hfresh s r Hr) as [Hnew Hr'];
    destruct (issued_Core_createInstance r ic (final (external call op) s)) as [Hh Ht].
  - unfold pool at 1. rewrite Core_createInstance_this.
    fold (pool (final (register r) (final (external call op) s))).
    intros [->|Hx]%register_pool_within Hx'; [done|by rewrite external_pool in Hx].
  - rewrite Hh. by intros ?%elem_of_nil.
  - rewrite Ht, final_bind, Hr. intros Hx. unfold pool at 1.
    rewrite Core_createInstance_this.
    fold (pool (final (register r) (final (external call op) s))).
    destruct (decide (x = r)) as [->|Hne].
    + apply (torn_eviction_calls (S r)) in Hx as [Hx _]; [|lia].
      rewrite external_pool in Hx. by destruct Hnew; apply Hall.
    + apply (torn_eviction_calls r) in Hx as [Hx Hout]; [|done].
      rewrite external_pool in Hx. by auto.
Qed.

Lemma create_settles (a : creation (Facade := Core_facade)) s :
  pool_allocated s → stays_out s (final (create a) s).
Proof.
  destruct a as [channel ic|ci ic]; apply made_settles;
    [done|done|apply (ascends_new_channel _)|apply fresh_new_channel
    |done|done|apply (ascends_new_command _)|apply fresh_new_command].
Qed.

(** ** Along a run *)

Lemma step_stays_out rs (cl cl' : client) a :
  holders owns allocated rs cl → pool_allocated (state cl) →
  step (facade := Core_facade) cl a cl' →
  stays_out (state cl) (state cl').
Proof.
  intros (Hown & _ & Hall) Hpool Hstep.
  destruct Hstep as [cl a|cl i|cl n inst content Hn|cl n inst Hn|cl n inst Hn]; simpl;
    [by apply create_settles|apply dispatch_settles|..];
    destruct (Forall2_lookup_l _ _ _ _ _ Hown Hn) as (r & Hr & Hinst);
    apply (owns_settles inst r); [done|by eapply Forall_lookup_1|..];
    done || by eapply Forall_lookup_1.
Qed.

Lemma run_stays_out rs (cl cl' : client) acts :
  holders owns allocated rs cl → sound pool_allocated cl →
  run (facade := Core_facade) cl acts cl' →
  stays_out (state cl) (state cl').
Proof.
  intros Hrs Hsound. induction 1 as [|acts cl1 a cl2 Hrun IH Hstep]; [reflexivity|].
  destruct (run_holders_from owns allocated rs cl acts cl1 Hrs Hrun) as (rs1 & Hrs1 & _).
  destruct (run_sound pool_allocated cl acts cl1 Hsound Hrun) as [Hpool _].
  etrans; [done|by eapply step_stays_out].
Qed.

End stays_out.

(** The older core after three replies and the destruction of the first
    instance; then three more replies and an interaction. *)
Definition first_destroyed : client (H := ref_host) :=
  default three_replies
    (execs (facade := Core_facade) [ActDestroy (facade := Core_facade) 0] three_replies).

Definition and_then : list (action (H := ref_host) (facade := Core_facade)) :=
  [ActCreate (CommandReplyRenderer 0 None);
   ActCreate (ChannelRenderer 0 None);
   ActCreate (CommandReplyRenderer 0 None);
   ActInteraction 7].

Definition after_that : client (H := ref_host) :=
  default first_destroyed (execs (facade := Core_facade) and_then first_destroyed).

(** C15: the pool holds the renderers that were not torn down, and a
    renderer that left the pool does not come back.  On a host that
    honours the allocation contract, from any state the older core
    reaches, whatever the program calls afterwards (factory methods,
    dispatches, methods of the instances it holds) and whichever calls
    throw: a renderer on which [deactivate] or [destroy] is called
    meanwhile (by an eviction or through its instance) is out of the pool
    afterwards; and a renderer that exists and is not in the pool (it was
    evicted, deactivated or destroyed, or its registration failed) is not
    in the pool afterwards, and none of the calls made meanwhile offers it
    an interaction. *)
Theorem torn_down_for_good `{HostContract} (cfg : option ReacordConfig.t) (w : World)
    (acts acts' : list (action (facade := Core_facade))) (cl cl' : client) :
  run (facade := Core_facade) (start cfg w) acts cl →
  run (facade := Core_facade) cl acts' cl' →
  ∃ l, calls (state cl') = calls (state cl) ++ l ∧
       (∀ r, r ∈ torn l → r ∉ pool (state cl')) ∧
       (∀ r, allocated (world (state cl)) r → r ∉ pool (state cl) →
             (r ∉ pool (state cl')) ∧ r ∉ handled l).
Proof.
  intros Hrun Hrun'.
  destruct (run_holders owns allocated cfg w acts cl Hrun) as [rs Hrs].
  destruct (run_stays_out rs cl cl' acts' Hrs) as (_ & Hpool & l & Hl & Hh & Ht);
    [|done|].
  { apply (run_sound pool_allocated (start cfg w) acts cl); [|done].
    apply start_sound, start_pool_allocated. }
  exists l. split_and!; [done|intros r Hr; by destruct (Ht r Hr)|by auto].
Qed.

Lemma torn_down_for_good_witness :
  ∃ l, calls (state after_that) = calls (state first_destroyed) ++ l ∧
       (∀ r, r ∈ torn l → r ∉ pool (state after_that)) ∧
       (∀ r, allocated (world (state first_destroyed)) r →
             r ∉ pool (state first_destroyed) →
             (r ∉ pool (state after_that)) ∧ r ∉ handled l).
Proof.
  apply (torn_down_for_good (H := ref_host) two (fresh_world 100 [] [])
           (reply_three ++ [ActDestroy 0]) and_then first_destroyed after_that).
  - apply execs_run. reflexivity.
  - apply execs_run. reflexivity.
Defined.
