(* ===== verification/Progress.v ===== *)
(** * The oldest instances will be disabled

    The comment on [maxInstances] promises that, once the limit is
    exceeded, "the oldest instances will be disabled".  This file proves
    it as a progress property of the registration: a renderer in the pool
    moves toward the front with every eviction, the pool fills up with
    every registration that does not evict, and so a bounded number of
    registrations of new renderers removes it, and [deactivate] was called
    on it.  The bound is [2 * N + 1] for a limit [N], whatever the host
    does: a [deactivate] that throws costs the registration that called it,
    and nothing else.

    The argument is made once, over what a registration does to the pool
    and to the log ([registration]), with a potential that every
    registration decreases ([behind]); the creating call of the package is
    such a registration from any state. *)

From stdpp Require Import base tactics option list.
From S2P Require Import Prelude Js Host Types ReacordPackage ReacordCore.
From S2P Require Import RefWorld Pool Dispatch Lifecycle Allocation.
From S2P Require Import Variants Machine.

Section registration.
Context `{Host}.
Implicit Types (s : State) (r x : Renderer) (l pre post news : list Renderer).

(** What a registration of [r] does to the object and to the log: the
    configuration is kept; the pool is the registered pool, or the evicted
    pool when the pool was over the limit and the eviction threw; the
    calls of the eviction test are made. *)
Definition registration r s s1 : Prop :=
  config (this s1) = config (this s) ∧
  (pool s1 = registered (Package.maxInstances (this s)) r (pool s) ∨
   over_capacity s = true ∧
   pool s1 = evicted (Package.maxInstances (this s)) (pool s)) ∧
  ∃ before after, calls s1 = calls s ++ before ++ eviction_calls s ++ after.

(** A sequence of registrations. *)
Inductive registrations : list Renderer → State → State → Prop :=
| registrations_nil s : registrations [] s s
| registrations_cons r news s s1 s' :
    registration r s s1 → registrations news s1 s' →
    registrations (r :: news) s s'.

Lemma eviction_outcome_Throw_over s e :
  eviction_outcome s = Throw e → over_capacity s = true.
Proof. unfold eviction_outcome. by destruct (over_capacity s). Qed.

(** The creating calls are registrations. *)
Lemma register_registration {A} r (k : Eff State A) s :
  frames_this k → logs k → registration r s (final (register r ;; k) s).
Proof.
  intros Hf Hl. split_and!.
  - by rewrite register_then_this, register_config.
  - unfold pool at 1 3. rewrite register_then_this by done.
    fold (pool (final (register r) s)). rewrite register_pool.
    destruct (eviction_outcome s) eqn:Ho; [by left|right].
    split; [by eapply eviction_outcome_Throw_over|done].
  - exists [], (match eviction_outcome s with
                | Normal _ => issued k (final (register r) s)
                | Throw _ => []
                end).
    rewrite <-(register_then_issued r k s Hl). apply logs_bind; [|done].
    apply logs_register.
Qed.

Lemma Package_createInstance_registration r ic s :
  registration r s (final (Package.createInstance r ic) s).
Proof.
  rewrite Package_createInstance_register.
  apply register_registration; [apply frames_this_Package_attach|apply logs_Package_attach].
Qed.

Lemma Core_createInstance_registration r ic s :
  registration r s (final (Core.createInstance r ic) s).
Proof.
  rewrite Core_createInstance_register.
  apply register_registration; [apply frames_this_Core_attach|apply logs_Core_attach].
Qed.

Lemma registration_sublist r s s1 :
  registration r s s1 → pool s1 `sublist_of` pool s ++ [r].
Proof.
  intros (_ & [->|[_ ->]] & _).
  - apply sublist_app; [apply evicted_sublist|done].
  - apply sublist_inserts_r, evicted_sublist.
Qed.

Lemma registration_NoDup r s s1 :
  registration r s s1 → NoDup (pool s) → r ∉ pool s → NoDup (pool s1).
Proof.
  intros Hr Hnd Hnew. eapply sublist_NoDup; [|by apply registration_sublist].
  by apply NoDup_snoc.
Qed.

Lemma registration_elem_of r s s1 x :
  registration r s s1 → x ∈ pool s1 → x ∈ pool s ∨ x = r.
Proof.
  intros Hsub%registration_sublist Hx. apply (elem_of_sublist _ _ _ Hx) in Hsub.
  apply elem_of_app in Hsub as [?|?%list_elem_of_singleton]; [by left|by right].
Qed.

(** The renderers to come stay new. *)
Lemma registration_news r s s1 news :
  registration r s s1 → NoDup (pool s ++ r :: news) → NoDup (pool s1 ++ news).
Proof.
  intros Hr Hnd. eapply sublist_NoDup; [done|]. rewrite (cons_middle r), app_assoc.
  apply sublist_app; [by apply registration_sublist|done].
Qed.

Lemma new_registrant l x r news :
  NoDup (l ++ r :: news) → x ∈ l → (r ∉ l) ∧ r ≠ x ∧ x ∉ news.
Proof.
  intros (_ & Hdisj & _)%NoDup_app Hx. split_and!.
  - intros Hr. by apply (Hdisj r Hr), list_elem_of_here.
  - intros ->. by apply (Hdisj x Hx), list_elem_of_here.
  - intros Hn. by apply (Hdisj x Hx), list_elem_of_further.
Qed.

Lemma registration_calls r s s1 :
  registration r s s1 → calls s `prefix_of` calls s1.
Proof. intros (_ & _ & before & after & ->). by eexists. Qed.

(** A call made between two states: the log of the second is the log of
    the first followed by calls of which it is one. *)
Definition called_since s s' (c : Call) : Prop :=
  ∃ log, calls s' = calls s ++ log ∧ c ∈ log.

Lemma called_since_later s s1 s' c :
  called_since s s1 c → calls s1 `prefix_of` calls s' → called_since s s' c.
Proof.
  intros (log & Hl & Hc) [k Hk]. exists (log ++ k).
  rewrite Hk, Hl, <-app_assoc, elem_of_app. auto.
Qed.

Lemma called_since_earlier s s1 s' c :
  calls s `prefix_of` calls s1 → called_since s1 s' c → called_since s s' c.
Proof.
  intros [k Hk] (log & Hl & Hc). exists (k ++ log).
  rewrite Hl, Hk, <-app_assoc, elem_of_app. auto.
Qed.

(** A renderer that is out stays out, and the log only grows. *)
Lemma registrations_gone x news : ∀ s s',
  registrations news s s' → x ∉ pool s → x ∉ news →
  (x ∉ pool s') ∧ calls s `prefix_of` calls s'.
Proof.
  induction 1 as [s|r news s s1 s' Hr _ IH]; intros Hx Hnews; [done|].
  apply not_elem_of_cons in Hnews as [Hne Hnews].
  destruct IH as [Hout Hcalls]; [|done|].
  - intros Hin. by destruct (registration_elem_of r s s1 x Hr Hin).
  - split; [done|]. etrans; [by eapply registration_calls|done].
Qed.

Section limit.
Variables (N : Z) (r0 : Renderer).
Hypothesis N_nonneg : (0 ≤ N)%Z.

(** The pool has the limit [N], no duplicates, and at most [N + 1]
    renderers. *)
Definition ready s : Prop :=
  limit (Package.maxInstances (this s)) = Some N ∧
  NoDup (pool s) ∧ (Z.of_nat (length (pool s)) ≤ N + 1)%Z.

(** How far the renderer behind [pre] is from its eviction: two
    registrations for each renderer in front of it, of which one may be
    lost to a failing [deactivate], and one for each free place. *)
Definition behind pre s : Z :=
  2 * Z.of_nat (length pre) + (N + 1 - Z.of_nat (length (pool s))).

Lemma ready_over s :
  ready s → over_capacity s = bool_decide (N < Z.of_nat (length (pool s)))%Z.
Proof. intros (HN & _). unfold over_capacity. by rewrite gt_limit, HN. Qed.

Lemma registration_limit r s s1 :
  registration r s s1 →
  Package.maxInstances (this s1) = Package.maxInstances (this s).
Proof. intros (Hc & _). by apply maxInstances_config. Qed.

(** The pool after a registration, from a ready state: under the limit the
    push; over it the eviction of the head, and the push if the eviction
    returned. *)
Lemma registration_pool r s s1 :
  ready s → registration r s s1 →
  if over_capacity s
  then pool s1 = tail (pool s) ++ [r] ∨ pool s1 = tail (pool s)
  else pool s1 = pool s ++ [r].
Proof.
  intros (_ & Hnd & _) (_ & Hp & _). unfold registered, over_capacity in *.
  rewrite evicted_tail in Hp by done.
  destruct (gt _ _); [by destruct Hp as [?|[_ ?]]; [left|right]|].
  by destruct Hp as [?|[? _]].
Qed.

Lemma registration_ready r s s1 :
  ready s → registration r s s1 → r ∉ pool s → ready s1.
Proof.
  intros Hs Hr Hnew. pose proof (registration_pool r s s1 Hs Hr) as Hp.
  pose proof (ready_over s Hs) as Hover. destruct Hs as (HN & Hnd & Hlen).
  split_and!; [by rewrite (registration_limit r s s1)|..].
  - by eapply registration_NoDup.
  - destruct (over_capacity s); symmetry in Hover.
    + apply bool_decide_eq_true in Hover.
      destruct (pool s) as [|old rest]; [simpl in *; lia|].
      destruct Hp as [->| ->]; rewrite ?length_app; simpl in *; lia.
    + apply bool_decide_eq_false in Hover. rewrite Hp, length_app. simpl. lia.
Qed.

(** One registration: the renderer is evicted, or it is closer to its
    eviction. *)
Lemma registration_step r s s1 pre post :
  ready s → registration r s s1 → r ≠ r0 → pool s = pre ++ r0 :: post →
  ((r0 ∉ pool s1) ∧ called_since s s1 (Deactivate r0)) ∨
  ∃ pre' post', pool s1 = pre' ++ r0 :: post' ∧ (behind pre' s1 < behind pre s)%Z.
Proof.
  intros Hs Hr Hne Hpool. pose proof (registration_pool r s s1 Hs Hr) as Hp.
  pose proof (ready_over s Hs) as Hover. destruct Hr as (_ & _ & before & after & Hcalls).
  destruct Hs as (_ & Hnd & Hlen). unfold behind, eviction_calls in *.
  rewrite Hpool in *. destruct (over_capacity s); symmetry in Hover.
  - destruct pre as [|x pre]; simpl in *.
    + left. apply NoDup_cons in Hnd as [Hr0 _]. split.
      * destruct Hp as [->| ->]; [|done]. apply not_elem_of_app.
        split; [done|by intros ?%list_elem_of_singleton].
      * eexists. split; [done|]. rewrite elem_of_app. right.
        apply list_elem_of_here.
    + right. exists pre.
      destruct Hp as [->| ->]; [exists (post ++ [r])|exists post];
        (split; [by rewrite <-?app_assoc|]); rewrite ?length_app; simpl; lia.
  - right. exists pre, (post ++ [r]). apply bool_decide_eq_false in Hover.
    rewrite Hp, <-app_assoc. split; [done|]. rewrite !length_app. simpl. lia.
Qed.

(** Enough registrations of new renderers evict it. *)
Lemma registrations_evict news : ∀ s s' pre post,
  registrations news s s' → ready s → NoDup (pool s ++ news) →
  pool s = pre ++ r0 :: post → (behind pre s < Z.of_nat (length news))%Z →
  (r0 ∉ pool s') ∧ called_since s s' (Deactivate r0).
Proof.
  induction news as [|r news IH]; intros s s' pre post Hregs Hs Hnd Hpool Hlen.
  { destruct Hs as (_ & _ & ?). unfold behind in Hlen. rewrite Hpool in *.
    rewrite length_app in *. simpl in *. lia. }
  inversion Hregs as [|? ? ? s1 ? Hr Hrest]; subst.
  destruct (new_registrant (pool s) r0 r news) as (Hnew & Hne & Hr0);
    [done|by rewrite Hpool, elem_of_app, elem_of_cons; auto|].
  destruct (registration_step r s s1 pre post) as [[Hout Hcall]|(pre' & post' & Hp1 & Hlt)];
    [done..| |].
  - destruct (registrations_gone r0 news s1 s' Hrest Hout Hr0) as [? Hprefix].
    split; [done|]. by eapply called_since_later.
  - destruct (IH s1 s' pre' post') as [Hout Hcall];
      [done|by eapply registration_ready|by eapply registration_news|done| |].
    + simpl in Hlen. lia.
    + split; [done|]. eapply called_since_earlier; [|done].
      by eapply registration_calls.
Qed.

(** From any place in a ready pool, [2 * N + 1] registrations are
    enough. *)
Lemma behind_bound s pre post :
  ready s → pool s = pre ++ r0 :: post → (behind pre s ≤ 2 * N)%Z.
Proof.
  intros (_ & _ & Hlen) Hpool. unfold behind. rewrite Hpool in *.
  rewrite length_app in *. simpl in *. lia.
Qed.

Lemma registrations_disable news s s' :
  registrations news s s' → ready s → NoDup (pool s ++ news) →
  r0 ∈ pool s → (2 * N + 1 ≤ Z.of_nat (length news))%Z →
  (r0 ∉ pool s') ∧ called_since s s' (Deactivate r0).
Proof.
  intros Hregs Hs Hnd (pre & post & Hpool)%list_elem_of_split Hlen.
  apply (registrations_evict news s s' pre post); [done..|].
  pose proof (behind_bound s pre post Hs Hpool). lia.
Qed.

End limit.

(** ** Along the runs of the package *)

(** The creating calls of a run that only creates instances. *)
Lemma run_registrations (cl cl' : client)
    (news : list (creation (Facade := Package_facade))) :
  run (facade := Package_facade) cl (ActCreate (facade := Package_facade) <$> news) cl' →
  registrations news.*1 (state cl) (state cl').
Proof.
  rewrite <-execs_run. revert cl.
  induction news as [|[r ic] news IH]; intros cl; simpl.
  - intros [= <-]. constructor.
  - intros Hrest%IH. econstructor; [|done]. apply Package_createInstance_registration.
Qed.

End registration.

(** ** Scenarios on the reference world *)

(** A limit of one, two renderers, the [deactivate] of the older of which
    throws; three registrations. *)
Definition three_new : list (creation (H := ref_host) (Facade := Package_facade)) :=
  [(3, None); (4, Some (Text 1)); (5, None)].

Definition three_more : list (action (H := ref_host) (facade := Package_facade)) :=
  ActCreate (H := ref_host) (facade := Package_facade) <$> three_new.

Definition one_failing : client (H := ref_host) :=
  {| state := ref_state (Some (of_Z 1)) [1; 2] (fresh_world 100 [] [FailDeactivate 1]);
     instances := [] |}.

Definition after_three_more : client (H := ref_host) :=
  default one_failing (execs (facade := Package_facade) three_more one_failing).

(** C8: the oldest instances will be disabled.  With a non-negative
    integer limit [N], from a pool without duplicates and within capacity,
    every renderer in the pool is out of it after [2 * N + 1] calls of
    [createInstance] with renderers that are new and different, and
    those calls have called [deactivate] on it: whatever the host does,
    whichever of the calls throw, and wherever in the pool the renderer
    was. *)
Theorem oldest_eventually_disabled `{Host} (N : Z) (r0 : Renderer) (cl cl' : client)
    (news : list (Renderer * option ReactNode)) :
  (0 ≤ N)%Z →
  limit (Package.maxInstances (this (state cl))) = Some N →
  within_capacity (this (state cl)) →
  NoDup (pool (state cl) ++ news.*1) →
  (2 * N + 1 ≤ Z.of_nat (length news))%Z →
  run (facade := Package_facade) cl (ActCreate (facade := Package_facade) <$> news) cl' →
  r0 ∈ pool (state cl) →
  (r0 ∉ pool (state cl')) ∧
  ∃ log, calls (state cl') = calls (state cl) ++ log ∧ Deactivate r0 ∈ log.
Proof.
  intros HN Hlimit Hcap Hnd Hlen Hrun%run_registrations Hin.
  apply (registrations_disable N r0 HN news.*1 (state cl));
    [done| |done..|by rewrite length_fmap].
  split_and!; [done|by apply NoDup_app in Hnd as (? & _)|].
  unfold within_capacity in Hcap. rewrite Hlimit in Hcap. unfold pool. lia.
Qed.

Lemma oldest_eventually_disabled_witness :
  (2 ∉ pool (state after_three_more)) ∧
  ∃ log, calls (state after_three_more) = calls (state one_failing) ++ log ∧
         Deactivate 2 ∈ log.
Proof.
  apply (oldest_eventually_disabled (H := ref_host) 1 2 one_failing after_three_more
           three_new).
  - lia.
  - reflexivity.
  - vm_compute. intros [=].
  - compute_done.
  - vm_compute. intros [=].
  - apply execs_run. reflexivity.
  - compute_done.
Defined.

(** The bound is reached: after two of the three registrations the renderer
    is still in the pool, because the eviction in front of it threw. *)
Example two_registrations_are_not_enough :
  pool (final (Package.createInstance 4 (Some (Text 1)))
          (final (Package.createInstance 3 None) (state one_failing))) = [2; 4] ∧
  pool (state after_three_more) = [4; 5].
Proof. by vm_compute. Qed.
