(* ===== verification/Arrays.v ===== *)
(** * The pool as a shared array

    In the list model of the other files [this.renderers] is a value.  In
    the program it is a reference to an array object: [push] mutates that
    object in place, [filter] allocates a new array and the assignment
    rebinds the field, and a [for ... of] loop iterates the array object it
    started with.  This file models the arrays as objects of a heap
    ([harrays], a finite map from references to contents), restates the
    methods of the class over it (module [Shared], from the package's
    source), and proves that the list model is what a program observes of
    it: each method over the heap runs as its list counterpart on the
    [view] of the state ([simulates]).  The loop of the dispatcher, where
    the aliasing matters, is in [Reentrant], with the theorem for the
    methods and the dispatch together. *)

From stdpp Require Import base tactics option list gmap.
From S2P Require Import Prelude Js Host Types ReacordPackage ReacordCore.
From S2P Require Import RefWorld Pool Dispatch Lifecycle.

Section heap.
Context `{Host}.

(** The object [this] with its field [renderers] as a reference, the
    array objects, and the outside. *)
Record HState : Type := {
  hconfig : ReacordConfig.t;
  hrenderers : nat;
  harrays : gmap nat (list Renderer);
  hnext : nat;
  hworld : World;
  hcalls : list Call;
}.

(** The contents of the array at a reference. *)
Definition array (a : nat) (h : HState) : list Renderer :=
  default [] (harrays h !! a).

(** [this.renderers], dereferenced. *)
Definition current (h : HState) : list Renderer := array (hrenderers h) h.

(** What the list model sees of a heap state. *)
Definition view (h : HState) : State :=
  {| this := {| config := hconfig h; renderers := current h |};
     world := hworld h;
     calls := hcalls h |}.

(** [this.renderers.push(renderer)]: the array object is extended in
    place; every holder of the reference sees the new element. *)
Definition array_push (renderer : Renderer) (h : HState) : HState :=
  {| hconfig := hconfig h;
     hrenderers := hrenderers h;
     harrays := <[hrenderers h := current h ++ [renderer]]> (harrays h);
     hnext := hnext h;
     hworld := hworld h;
     hcalls := hcalls h |}.

(** [this.renderers = this.renderers.filter((it) => it !== renderer)]: a
    new array object, and the field rebound to it; the old array is left
    as it was. *)
Definition assign_filter (renderer : option Renderer) (h : HState) : HState :=
  {| hconfig := hconfig h;
     hrenderers := hnext h;
     harrays := <[hnext h := without_opt renderer (current h)]> (harrays h);
     hnext := S (hnext h);
     hworld := hworld h;
     hcalls := hcalls h |}.

Definition hset_world (w : World) (h : HState) : HState :=
  {| hconfig := hconfig h; hrenderers := hrenderers h; harrays := harrays h;
     hnext := hnext h; hworld := w; hcalls := hcalls h |}.

Definition hlog (c : Call) (h : HState) : HState :=
  {| hconfig := hconfig h; hrenderers := hrenderers h; harrays := harrays h;
     hnext := hnext h; hworld := hworld h; hcalls := hcalls h ++ [c] |}.

(** An external call that does not call back: logged, then run on the
    world. *)
Definition hexternal {A} (c : Call) (op : Eff World A) : Eff HState A :=
  modify (hlog c) ;; zoom hworld hset_world op.

(** A new object: one empty array, and the field bound to it. *)
Definition hinitial (o : Reacord) (w : World) : HState :=
  {| hconfig := config o; hrenderers := 0; harrays := {[ 0 := renderers o ]};
     hnext := 1; hworld := w; hcalls := [] |}.

(** The field [renderers] is bound to an array that exists, and every
    array that exists has a reference below [hnext], the next one to be
    allocated. *)
Definition heap_wf (h : HState) : Prop :=
  is_Some (harrays h !! hrenderers h) ∧ ∀ a, is_Some (harrays h !! a) → a < hnext h.

End heap.

(** ** The methods of the class over the heap *)

Module Shared.
Section Shared.
Context `{Host}.

(** [private deactivate(renderer)] *)
Definition deactivate (renderer : option Renderer) : Eff HState unit :=
  modify (assign_filter renderer) ;;
  match renderer with
  | Some renderer => hexternal (Deactivate renderer) (host_deactivate renderer)
  | None => throw TypeError
  end.

(** The closures of the instance over [renderer] and [container]. *)
Definition render (instance : InstanceHandle) (content : ReactNode) : Eff HState unit :=
  hexternal (UpdateContainer (InstanceProvider instance content) instance.2)
    (host_updateContainer (InstanceProvider instance content) instance.2).

Definition instance_deactivate (instance : InstanceHandle) : Eff HState unit :=
  deactivate (Some instance.1).

Definition destroy (instance : InstanceHandle) : Eff HState unit :=
  modify (assign_filter (Some instance.1)) ;;
  hexternal (Destroy instance.1) (host_destroy instance.1).

(** [protected createInstance(renderer, initialContent?)]; the instance is
    returned as the pair its closures capture. *)
Definition createInstance (renderer : Renderer)
    (initialContent : option ReactNode) : Eff HState InstanceHandle :=
  let* h := get in
  (if gt (of_nat (length (current h))) (Package.maxInstances (this (view h)))
   then deactivate (current h !! 0)
   else ret tt) ;;
  modify (array_push renderer) ;;
  let* container := hexternal (CreateContainer renderer) (host_createContainer renderer) in
  let instance := (renderer, container) in
  match initialContent with
  | Some content => render instance content
  | None => ret tt
  end ;;
  ret instance.

End Shared.
End Shared.

(** ** The list model is the view of the heap model *)

Section simulation.
Context `{Host}.
Implicit Types (h : HState) (r : Renderer) (x : option Renderer).

(** [simulates R hc c]: from every heap state, [hc] ends as [c] does from
    its view, in the view of the same state, with results related by [R]. *)
Definition simulates {A B} (R : A → B → Prop) (hc : Eff HState A)
    (c : Eff State B) : Prop :=
  ∀ h, view (final hc h) = final c (view h) ∧
       match result hc h, result c (view h) with
       | Normal a, Normal b => R a b
       | Throw e, Throw e' => e = e'
       | _, _ => False
       end.

Lemma simulates_ret {A B} (R : A → B → Prop) a b : R a b → simulates R (ret a) (ret b).
Proof. by intros HR h. Qed.

Lemma simulates_throw {A B} (R : A → B → Prop) e :
  simulates R (throw (A := A) e) (throw (A := B) e).
Proof. by intros h. Qed.

Lemma simulates_bind {A A' B B'} (R1 : A → A' → Prop) (R2 : B → B' → Prop)
    (hc : Eff HState A) (c : Eff State A') hk k :
  simulates R1 hc c → (∀ a a', R1 a a' → simulates R2 (hk a) (k a')) →
  simulates R2 (let* a := hc in hk a) (let* a := c in k a).
Proof.
  intros Hc Hk h. destruct (Hc h) as [Hfin Hres].
  rewrite !final_bind, !result_bind.
  destruct (result hc h) as [a|e], (result c (view h)) as [a'|e']; try done.
  rewrite <-Hfin. by apply Hk.
Qed.

Lemma simulates_get : simulates (λ h s, s = view h) get get.
Proof. by intros h. Qed.

Lemma simulates_proper {A B} (R : A → B → Prop) (hc hc' : Eff HState A)
    (c c' : Eff State B) :
  hc ≡ hc' → c ≡ c' → simulates R hc c → simulates R hc' c'.
Proof. intros Hhc Hc Hsim h. unfold final, result. rewrite <-Hhc, <-Hc. apply Hsim. Qed.

Lemma simulates_modify (hf : HState → HState) (f : State → State) :
  (∀ h, view (hf h) = f (view h)) → simulates eq (modify hf) (modify f).
Proof. intros Hf h. split; [apply Hf|done]. Qed.

Lemma current_array_push r h : current (array_push r h) = current h ++ [r].
Proof. unfold current, array, array_push. simpl. by rewrite lookup_insert_eq. Qed.

Lemma current_assign_filter x h :
  current (assign_filter x h) = without_opt x (current h).
Proof.
  unfold current at 1. unfold array, assign_filter. simpl.
  by rewrite lookup_insert_eq.
Qed.

Lemma view_array_push r h :
  view (array_push r h) = set_renderers (λ renderers, renderers ++ [r]) (view h).
Proof. unfold view. by rewrite current_array_push. Qed.

Lemma view_assign_filter x h :
  view (assign_filter x h) = set_renderers (without_opt x) (view h).
Proof. unfold view. by rewrite current_assign_filter. Qed.

Lemma simulates_external {A} (c : Call) (op : Eff World A) :
  simulates eq (hexternal c op) (external c op).
Proof.
  intros h. unfold hexternal, external, final, result. eff_run.
  by destruct (op (hworld h)) as [[a|e] w].
Qed.

Lemma simulates_deactivate x : simulates eq (Shared.deactivate x) (Package.deactivate x).
Proof.
  apply simulates_bind with eq; [apply simulates_modify, view_assign_filter|].
  intros _ _ _. destruct x; [apply simulates_external|apply simulates_throw].
Qed.

Lemma simulates_render (i : InstanceHandle) content :
  simulates eq (Shared.render i content)
    (ReacordInstance.render (Package.instanceOf i.1 i.2) content).
Proof. destruct i. apply simulates_external. Qed.

Lemma simulates_instance_deactivate (i : InstanceHandle) :
  simulates eq (Shared.instance_deactivate i)
    (ReacordInstance.deactivate (Package.instanceOf i.1 i.2)).
Proof. apply simulates_deactivate. Qed.

Lemma simulates_destroy (i : InstanceHandle) :
  simulates eq (Shared.destroy i)
    (ReacordInstance.destroy (Package.instanceOf i.1 i.2)).
Proof.
  apply simulates_bind with eq; [|intros; apply simulates_external].
  apply simulates_modify. intros h. rewrite view_assign_filter.
  apply set_renderers_ext, without_opt_Some.
Qed.

(** The instance a handle stands for. *)
Definition instance_of (i : InstanceHandle) (inst : ReacordInstance.t) : Prop :=
  inst = Package.instanceOf i.1 i.2.

Lemma simulates_createInstance r ic :
  simulates instance_of (Shared.createInstance r ic) (Package.createInstance r ic).
Proof.
  apply simulates_bind with (λ h s, s = view h); [apply simulates_get|].
  intros h _ ->. apply simulates_bind with eq.
  { change (pool (view h)) with (current h).
    destruct (gt _ _); [apply simulates_deactivate|by apply simulates_ret]. }
  intros _ _ _. apply simulates_bind with eq;
    [apply simulates_modify, view_array_push|intros _ _ _].
  apply simulates_bind with eq; [apply simulates_external|intros c _ <-].
  apply simulates_bind with eq; [|intros; by apply simulates_ret].
  destruct ic; [apply (simulates_render (r, c))|by apply simulates_ret].
Qed.

End simulation.
