(* ===== verification/Reentrant.v ===== *)
(** * Handlers that call back

    A renderer's [handleComponentInteraction] runs the handlers of the
    components it rendered, and those may use the instance they belong to,
    or the adapter: a button that closes its message calls
    [instance.destroy()], a button that answers calls [reply].  Such calls
    enter the class again while [handleComponentInteraction] of the class
    is iterating [this.renderers].  This file models them: a handler makes
    a list of calls back ([callback]) before it returns, and the dispatcher
    is the [for ... of] loop of the source over the array object it started
    with, in the heap model of [Arrays].  The loop can now run longer than
    the pool it started with, so it takes fuel; the theorems say when the
    fuel is enough, and when no fuel is.  What the methods of the class
    keep, the calls back, the handlers and the dispatcher keep too
    (section [traversal]); [Wellformed] and [Delivery] build on it. *)

From stdpp Require Import base tactics option list gmap.
From S2P Require Import Prelude Js Host Types ReacordPackage ReacordCore.
From S2P Require Import RefWorld Pool Dispatch Lifecycle Arrays.

(** A call a handler makes into the class before it returns. *)
Inductive callback `{Host} : Type :=
| CbCreateInstance (renderer : Renderer) (initialContent : option ReactNode)
| CbRender (instance : InstanceHandle) (content : ReactNode)
| CbDeactivate (instance : InstanceHandle)
| CbDestroy (instance : InstanceHandle).

(** The calls the handler of a renderer makes for an interaction, in the
    world it is called in. *)
Class Reentrant `{Host} : Type := {
  handler_calls : Renderer → ComponentInteraction → World → list callback;
}.

(** No handler calls back. *)
Definition no_callbacks `{Host} : Reentrant := {| handler_calls := λ _ _ _, [] |}.

Module Reentry.
Section Reentry.
Context `{Host} {reentrant : Reentrant}.

Definition run_callback (cb : callback) : Eff HState unit :=
  match cb with
  | CbCreateInstance renderer initialContent =>
      Shared.createInstance renderer initialContent ;; ret tt
  | CbRender instance content => Shared.render instance content
  | CbDeactivate instance => Shared.instance_deactivate instance
  | CbDestroy instance => Shared.destroy instance
  end.

Fixpoint run_callbacks (cbs : list callback) : Eff HState unit :=
  match cbs with
  | [] => ret tt
  | cb :: cbs => run_callback cb ;; run_callbacks cbs
  end.

(** [renderer.handleComponentInteraction(interaction)]: the renderer's own
    work, then the calls it makes back, then its answer.  An exception of
    a call back propagates out of the handler. *)
Definition handle (renderer : Renderer) (interaction : ComponentInteraction) :
    Eff HState bool :=
  let* h := get in
  let* claimed :=
    hexternal (HandleComponentInteraction renderer interaction)
      (host_handleComponentInteraction renderer interaction) in
  run_callbacks (handler_calls renderer interaction (hworld h)) ;;
  ret claimed.

(** The [for ... of] loop over the array object at [a], from index [i]:
    the iterator reads the length of the array at every step.  [None] is
    a loop that did not end within the fuel. *)
Fixpoint handleComponentInteraction_loop (fuel : nat) (a i : nat)
    (interaction : ComponentInteraction) : Eff HState (option unit) :=
  match fuel with
  | 0 => ret None
  | S fuel =>
      let* h := get in
      match array a h !! i with
      | None => ret (Some tt)
      | Some renderer =>
          let* claimed := handle renderer interaction in
          if claimed then ret (Some tt)
          else handleComponentInteraction_loop fuel a (S i) interaction
      end
  end.

(** [protected handleComponentInteraction(interaction)]: [this.renderers]
    is evaluated once, when the loop starts. *)
Definition handleComponentInteraction (fuel : nat)
    (interaction : ComponentInteraction) : Eff HState (option unit) :=
  let* h := get in
  handleComponentInteraction_loop fuel (hrenderers h) 0 interaction.

End Reentry.
End Reentry.

(** ** Without calls back, the dispatcher of the list model *)

Section plain.
Context `{Host}.
Implicit Types (h : HState) (r : Renderer) (i : ComponentInteraction).

Lemma hexternal_run {A} (c : Call) (op : Eff World A) h :
  hexternal c op h = (result op (hworld h), hset_world (final op (hworld h)) (hlog c h)).
Proof.
  unfold hexternal, result, final. eff_run. by destruct (op (hworld h)).
Qed.

Lemma handle_no_callbacks r i h :
  Reentry.handle (reentrant := no_callbacks) r i h =
    hexternal (HandleComponentInteraction r i) (host_handleComponentInteraction r i) h.
Proof.
  unfold Reentry.handle, bind, get. simpl.
  by destruct (hexternal _ _ h) as [[claimed|e] h'].
Qed.

Lemma hexternal_result {A} (c : Call) (op : Eff World A) h :
  result (hexternal c op) h = result op (hworld h).
Proof. unfold result at 1. by rewrite hexternal_run. Qed.

Lemma array_hexternal {A} (c : Call) (op : Eff World A) a h :
  array a (final (hexternal c op) h) = array a h.
Proof. unfold final. by rewrite hexternal_run. Qed.

Lemma drop_nil_lookup {A} (l : list A) n : drop n l = [] → l !! n = None.
Proof. intros Hd. by rewrite <-(Nat.add_0_r n), <-lookup_drop, Hd. Qed.

Lemma drop_cons_lookup {A} (l : list A) n x k : drop n l = x :: k → l !! n = Some x.
Proof. intros Hd. by rewrite <-(Nat.add_0_r n), <-lookup_drop, Hd. Qed.

Lemma drop_cons_drop {A} (l : list A) n x k : drop n l = x :: k → drop (S n) l = k.
Proof.
  intros Hd. replace (S n) with (n + 1) by lia. by rewrite <-(drop_drop l 1 n), Hd.
Qed.

(** Two computations that run the same from a state. *)
Lemma run_at {S A} (c c' : Eff S A) s :
  c s = c' s → final c s = final c' s ∧ result c s = result c' s.
Proof. unfold final, result. by intros ->. Qed.

(** One step of the loop. *)
Lemma loop_None {reentrant : Reentrant} fuel a n i h :
  array a h !! n = None →
  Reentry.handleComponentInteraction_loop (S fuel) a n i h = ret (Some tt) h.
Proof. intros Hn. simpl. unfold bind at 1, get. simpl. by rewrite Hn. Qed.

Lemma loop_Some {reentrant : Reentrant} fuel a n i h r :
  array a h !! n = Some r →
  Reentry.handleComponentInteraction_loop (S fuel) a n i h =
    (let* claimed := Reentry.handle r i in
     if claimed then ret (Some tt)
     else Reentry.handleComponentInteraction_loop fuel a (S n) i) h.
Proof. intros Hn. simpl. unfold bind at 1, get. simpl. by rewrite Hn. Qed.

(** The loop over the rest of an array that nothing extends. *)
Lemma loop_no_callbacks i rest : ∀ fuel a n h,
  drop n (array a h) = rest → length rest < fuel →
  view (final (Reentry.handleComponentInteraction_loop (reentrant := no_callbacks)
                 fuel a n i) h) =
    final (Package.handleComponentInteraction_loop i rest) (view h) ∧
  result (Reentry.handleComponentInteraction_loop (reentrant := no_callbacks)
            fuel a n i) h =
    match result (Package.handleComponentInteraction_loop i rest) (view h) with
    | Normal _ => Normal (Some tt)
    | Throw e => Throw e
    end.
Proof.
  induction rest as [|r rest IH]; intros [|fuel] a n h Hdrop Hlen;
    simpl in Hlen; try lia.
  - by destruct (run_at _ _ h (loop_None (reentrant := no_callbacks) fuel a n i h (drop_nil_lookup _ _ Hdrop)))
      as [-> ->].
  - destruct (run_at _ _ h (loop_Some (reentrant := no_callbacks) fuel a n i h r (drop_cons_lookup _ _ _ _ Hdrop)))
      as [-> ->].
    destruct (run_at _ _ h (handle_no_callbacks r i h)) as [Hf Hr].
    simpl. rewrite !final_bind, !result_bind, Hf, Hr.
    destruct (simulates_external (HandleComponentInteraction r i)
                (host_handleComponentInteraction r i) h) as [Hfin Hres].
    fold (renderer_handleComponentInteraction r i) in Hfin, Hres.
    destruct (result (hexternal _ _) h) as [claimed|e],
      (result (renderer_handleComponentInteraction r i) (view h)) as [claimed'|e'];
      try done; [subst claimed'|by subst].
    destruct claimed; [done|]. rewrite <-Hfin. apply IH; [|lia].
    rewrite array_hexternal. by apply drop_cons_drop in Hdrop.
Qed.

(** Without calls back, and with fuel for the pool, the dispatcher over
    the heap is the dispatcher of the list model. *)
Lemma handleComponentInteraction_no_callbacks i fuel h :
  length (current h) < fuel →
  view (final (Reentry.handleComponentInteraction (reentrant := no_callbacks) fuel i) h) =
    final (Package.handleComponentInteraction i) (view h) ∧
  result (Reentry.handleComponentInteraction (reentrant := no_callbacks) fuel i) h =
    match result (Package.handleComponentInteraction i) (view h) with
    | Normal _ => Normal (Some tt)
    | Throw e => Throw e
    end.
Proof.
  intros Hfuel. unfold Reentry.handleComponentInteraction, Package.handleComponentInteraction.
  rewrite !final_bind, !result_bind. simpl. by apply loop_no_callbacks.
Qed.

End plain.

(** ** What every call back keeps *)

(** A property of the heap that the external calls and the methods of the
    class keep is kept by the calls back, by a handler and by the
    dispatcher, for any fuel. *)
Section traversal.
Context `{Host} {reentrant : Reentrant} (P : HState → Prop).
Hypothesis P_createInstance : ∀ r ic, preserves P (Shared.createInstance r ic).
Hypothesis P_render : ∀ inst content, preserves P (Shared.render inst content).
Hypothesis P_deactivate : ∀ r, preserves P (Shared.deactivate (Some r)).
Hypothesis P_destroy : ∀ inst, preserves P (Shared.destroy inst).

Lemma run_callback_preserves cb : preserves P (Reentry.run_callback cb).
Proof.
  destruct cb as [r ic|inst content|inst|inst]; simpl.
  - apply preserves_bind; [apply P_createInstance|intros; apply preserves_ret].
  - apply P_render.
  - apply P_deactivate.
  - apply P_destroy.
Qed.

Lemma run_callbacks_preserves cbs : preserves P (Reentry.run_callbacks cbs).
Proof.
  induction cbs as [|cb cbs IH]; [apply preserves_ret|].
  apply preserves_bind; [apply run_callback_preserves|done].
Qed.

(** The renderer's own work. *)
Hypothesis P_handler : ∀ r i,
  preserves P (hexternal (HandleComponentInteraction r i)
                 (host_handleComponentInteraction r i)).

Lemma handle_preserves r i : preserves P (Reentry.handle r i).
Proof.
  apply preserves_bind; [apply preserves_get|intros h].
  apply preserves_bind; [apply P_handler|intros claimed].
  apply preserves_bind; [apply run_callbacks_preserves|intros; apply preserves_ret].
Qed.

Lemma loop_preserves i fuel : ∀ a n,
  preserves P (Reentry.handleComponentInteraction_loop fuel a n i).
Proof.
  induction fuel as [|fuel IH]; intros a n; simpl; [apply preserves_ret|].
  apply preserves_bind; [apply preserves_get|intros h].
  destruct (array a h !! n) as [r|]; [|apply preserves_ret].
  apply preserves_bind; [apply handle_preserves|].
  intros []; [apply preserves_ret|apply IH].
Qed.

Lemma handleComponentInteraction_preserves fuel i :
  preserves P (Reentry.handleComponentInteraction fuel i).
Proof. apply preserves_bind; [apply preserves_get|intros h; apply loop_preserves]. Qed.

End traversal.

(** ** With a limit, the loop ends *)

Section bounded.
Context `{Host} {reentrant : Reentrant}.
Variables (cfg : ReacordConfig.t) (a0 B : nat).
Implicit Types (h : HState) (r : Renderer) (x : option Renderer)
  (i : ComponentInteraction).

(** [B] leaves room for the push that follows a negative eviction test. *)
Hypothesis room :
  ∀ n, gt (of_nat n) (nullish (ReacordConfig.maxInstances cfg) (of_Z 50)) = false →
       S n ≤ B.

(** The array the loop iterates exists and holds at most [B] renderers. *)
Definition within (h : HState) : Prop :=
  hconfig h = cfg ∧ a0 < hnext h ∧ length (array a0 h) ≤ B.

(** A push keeps it so. *)
Definition pushable (h : HState) : Prop :=
  within h ∧ (hrenderers h = a0 → S (length (array a0 h)) ≤ B).

Lemma within_hexternal {A} (c : Call) (op : Eff World A) :
  preserves within (hexternal c op).
Proof. intros h Hh. unfold final. by rewrite hexternal_run. Qed.

Lemma array_assign_filter x a h : a < hnext h → array a (assign_filter x h) = array a h.
Proof. intros Ha. unfold array. simpl. rewrite lookup_insert_ne; [done|lia]. Qed.

Lemma array_push_ne r a h : hrenderers h ≠ a → array a (array_push r h) = array a h.
Proof. intros Ha. unfold array. simpl. by rewrite lookup_insert_ne. Qed.

Lemma hrenderers_hexternal {A} (c : Call) (op : Eff World A) h :
  hrenderers (final (hexternal c op) h) = hrenderers h.
Proof. unfold final. by rewrite hexternal_run. Qed.

(** After a removal the field is bound to a new array: the iterated one
    is out of reach of a push. *)
Lemma assign_filter_pushable x h : within h → pushable (assign_filter x h).
Proof.
  intros (Hc & Ha & Hl). split; [split_and!; [done|simpl; lia|]|simpl; lia].
  by rewrite array_assign_filter.
Qed.

Lemma pushable_hexternal {A} (c : Call) (op : Eff World A) :
  preserves pushable (hexternal c op).
Proof. intros h Hh. unfold final. by rewrite hexternal_run. Qed.

Lemma deactivate_pushable x h : within h → pushable (final (Shared.deactivate x) h).
Proof.
  intros Hh. unfold Shared.deactivate. rewrite final_bind. simpl.
  destruct x; [apply pushable_hexternal|]; by apply assign_filter_pushable.
Qed.

Lemma push_within r h : pushable h → within (array_push r h).
Proof.
  intros [(Hc & Ha & Hl) Hroom]. split_and!; [done..|].
  destruct (decide (hrenderers h = a0)) as [Heq|Hne]; [|by rewrite array_push_ne].
  specialize (Hroom Heq). rewrite <-Heq in *.
  change (array (hrenderers h) (array_push r h)) with (current (array_push r h)).
  rewrite current_array_push, length_app. simpl. unfold current. lia.
Qed.

Lemma within_deactivate x : preserves within (Shared.deactivate x).
Proof. intros h Hh. by apply deactivate_pushable. Qed.

Lemma within_destroy (inst : InstanceHandle) : preserves within (Shared.destroy inst).
Proof.
  intros h Hh. unfold Shared.destroy. rewrite final_bind. simpl.
  apply within_hexternal. by apply assign_filter_pushable.
Qed.

(** The eviction test of [createInstance] leaves room for its push. *)
Lemma test_pushable h :
  within h →
  pushable (final (if gt (of_nat (length (current h)))
                        (Package.maxInstances (this (view h)))
                   then Shared.deactivate (current h !! 0) else ret tt) h).
Proof.
  intros Hh. destruct (gt _ _) eqn:Hgt; [by apply deactivate_pushable|].
  rewrite final_ret. split; [done|]. intros Heq. apply room.
  destruct Hh as (<- & _ & _). unfold current in Hgt. by rewrite Heq in Hgt.
Qed.

Lemma within_attach r ic :
  preserves within
    (let* container := hexternal (CreateContainer r) (host_createContainer r) in
     match ic with
     | Some content => Shared.render (r, container) content
     | None => ret tt
     end ;;
     ret (r, container)).
Proof.
  apply preserves_bind; [apply within_hexternal|intros c].
  apply preserves_bind; [|intros; apply preserves_ret].
  destruct ic; [apply within_hexternal|apply preserves_ret].
Qed.

Lemma within_createInstance r ic : preserves within (Shared.createInstance r ic).
Proof.
  intros h Hh. unfold Shared.createInstance. rewrite final_bind_get, final_bind.
  pose proof (test_pushable h Hh) as Htest.
  destruct (result _ h); [|by destruct Htest].
  rewrite final_bind. apply within_attach. by apply push_within.
Qed.

Lemma within_handle r i : preserves within (Reentry.handle r i).
Proof.
  apply handle_preserves;
    [apply within_createInstance|intros; apply within_hexternal
    |intros r'; apply within_deactivate|apply within_destroy
    |intros; apply within_hexternal].
Qed.

(** The loop ends within [B] steps, whatever the handlers call. *)
Lemma loop_ends i : ∀ fuel n h,
  within h → B - n < fuel →
  result (Reentry.handleComponentInteraction_loop fuel a0 n i) h ≠ Normal None.
Proof.
  induction fuel as [|fuel IH]; intros n h Hh Hfuel; [lia|].
  destruct (array a0 h !! n) as [r|] eqn:Hn.
  - destruct (run_at _ _ h (loop_Some fuel a0 n i h r Hn)) as [_ ->].
    rewrite result_bind. pose proof (within_handle r i h Hh) as Hh'.
    destruct (result (Reentry.handle r i) h) as [[]|]; [done| |done].
    apply IH; [done|]. apply lookup_lt_Some in Hn. destruct Hh as (_ & _ & ?). lia.
  - by destruct (run_at _ _ h (loop_None fuel a0 n i h Hn)) as [_ ->].
Qed.

End bounded.

(** ** Handlers that call back only when they claim *)

Section quiet.
Context `{Host} {reentrant : Reentrant}.
Implicit Types (h : HState) (r : Renderer) (i : ComponentInteraction).

(** The contract of the specification on handlers (§4.1): a handler that
    does not claim the interaction has no observable effect, so it makes
    no call back. *)
Definition quiet : Prop :=
  ∀ r i w, result (host_handleComponentInteraction r i) w ≠ Normal true →
           handler_calls r i w = [].

(** The loop over a snapshot of the array: what [for ... of] would do if
    it copied the array first. *)
Fixpoint snapshot_loop (i : ComponentInteraction) (renderers : list Renderer) :
    Eff HState (option unit) :=
  match renderers with
  | [] => ret (Some tt)
  | renderer :: rest =>
      let* claimed := Reentry.handle renderer i in
      if claimed then ret (Some tt) else snapshot_loop i rest
  end.

Lemma handle_run r i h :
  Reentry.handle r i h =
    (let* claimed := hexternal (HandleComponentInteraction r i)
                       (host_handleComponentInteraction r i) in
     Reentry.run_callbacks (handler_calls r i (hworld h)) ;; ret claimed) h.
Proof. done. Qed.

(** A handler that does not claim leaves every array as it was. *)
Lemma handle_quiet r i h a :
  quiet → result (Reentry.handle r i) h = Normal false →
  array a (final (Reentry.handle r i) h) = array a h.
Proof.
  intros Hq. destruct (run_at _ _ h (handle_run r i h)) as [-> ->].
  rewrite result_bind, final_bind, hexternal_result.
  pose proof (Hq r i (hworld h)) as Hcalls.
  destruct (result (host_handleComponentInteraction r i) (hworld h)) as [[]|e];
    [|rewrite Hcalls by done|done].
  - rewrite result_bind. by destruct (result (Reentry.run_callbacks _) _).
  - intros _. simpl. rewrite final_bind. simpl. apply array_hexternal.
Qed.

(** Under that contract the loop over the live array is the loop over a
    snapshot of it: the aliasing cannot be observed. *)
Lemma loop_snapshot i rest : ∀ fuel a n h,
  quiet → drop n (array a h) = rest → length rest < fuel →
  Reentry.handleComponentInteraction_loop fuel a n i h = snapshot_loop i rest h.
Proof.
  induction rest as [|r rest IH]; intros [|fuel] a n h Hq Hdrop Hlen;
    simpl in Hlen; try lia.
  - by rewrite (loop_None fuel a n i h (drop_nil_lookup _ _ Hdrop)).
  - rewrite (loop_Some fuel a n i h r (drop_cons_lookup _ _ _ _ Hdrop)). simpl.
    unfold bind. pose proof (handle_quiet r i h a Hq) as Harr.
    unfold result, final in Harr.
    destruct (Reentry.handle r i h) as [[[]|e] h']; simpl in *; [done| |done].
    apply IH; [done| |lia]. rewrite Harr by done. by apply drop_cons_drop in Hdrop.
Qed.

End quiet.

(** ** Without a limit, the loop may not end *)

Section unlimited.
Context `{Host} {reentrant : Reentrant}.
Implicit Types (h : HState) (r : Renderer) (i : ComponentInteraction).

(** Handlers that decline and create an instance, on a host whose
    reconciler returns. *)
Hypothesis declines_all :
  ∀ r i w, result (host_handleComponentInteraction r i) w = Normal false.
Hypothesis spawns :
  ∀ r i w, ∃ r', handler_calls r i w = [CbCreateInstance r' None].
Hypothesis container_returns :
  ∀ r w, is_Normal (result (host_createContainer r) w) = true.

Definition unlimited (h : HState) : Prop :=
  limit (Package.maxInstances (this (view h))) = None.

(** Without a limit, [createInstance] pushes onto the array the field is
    bound to. *)
Lemma createInstance_unlimited_run r h c :
  unlimited h → result (host_createContainer r) (hworld h) = Normal c →
  Shared.createInstance r None h =
    (Normal (r, c),
     hset_world (final (host_createContainer r) (hworld h))
       (hlog (CreateContainer r) (array_push r h))).
Proof.
  intros Hlim Hc. unfold Shared.createInstance, bind, get, modify, ret.
  assert (gt (of_nat (length (current h))) (Package.maxInstances (this (view h))) = false)
    as -> by (by rewrite gt_limit, Hlim).
  rewrite hexternal_run. simpl. by rewrite Hc.
Qed.

Lemma createInstance_unlimited r h :
  unlimited h →
  let h' := final (Shared.createInstance r None) h in
  is_Normal (result (Shared.createInstance r None) h) = true ∧
  unlimited h' ∧ hrenderers h' = hrenderers h ∧ current h' = current h ++ [r].
Proof.
  intros Hlim. pose proof (container_returns r (hworld h)) as Hc.
  destruct (result (host_createContainer r) (hworld h)) as [c|] eqn:Hres; [|done].
  unfold result, final. rewrite (createInstance_unlimited_run r h c) by done.
  split_and!; [done| |done|apply current_array_push].
  unfold unlimited in *. by rewrite <-Hlim.
Qed.

Lemma run_spawn r h c :
  unlimited h → result (host_createContainer r) (hworld h) = Normal c →
  Reentry.run_callbacks [CbCreateInstance r None] h =
    (Normal tt,
     hset_world (final (host_createContainer r) (hworld h))
       (hlog (CreateContainer r) (array_push r h))).
Proof.
  intros Hlim Hc. simpl. unfold bind. by rewrite (createInstance_unlimited_run r h c).
Qed.

(** A handler leaves one more renderer in the array. *)
Lemma handle_spawns r i h :
  unlimited h →
  let h' := final (Reentry.handle r i) h in
  result (Reentry.handle r i) h = Normal false ∧
  unlimited h' ∧ hrenderers h' = hrenderers h ∧
  length (current h') = S (length (current h)).
Proof.
  intros Hlim. destruct (spawns r i (hworld h)) as [r' Hcalls].
  set (h1 := hset_world (final (host_handleComponentInteraction r i) (hworld h))
               (hlog (HandleComponentInteraction r i) h)).
  pose proof (container_returns r' (hworld h1)) as Hc.
  destruct (result (host_createContainer r') (hworld h1)) as [c|] eqn:Hres; [|done].
  assert (Reentry.handle r i h =
          (Normal false,
           hset_world (final (host_createContainer r') (hworld h1))
             (hlog (CreateContainer r') (array_push r' h1)))) as Hrun.
  { unfold Reentry.handle, bind, get.
    rewrite hexternal_run, declines_all, Hcalls. fold h1.
    by rewrite (run_spawn r' h1 c). }
  unfold result, final. rewrite Hrun. simpl. split_and!; [done|done|done|].
  change (length (current (array_push r' h1)) = S (length (current h1))).
  rewrite current_array_push, length_app. simpl. lia.
Qed.

(** However much fuel, the loop does not end. *)
Lemma loop_runs_on i : ∀ fuel n h,
  unlimited h → n < length (current h) →
  result (Reentry.handleComponentInteraction_loop fuel (hrenderers h) n i) h =
    Normal None.
Proof.
  induction fuel as [|fuel IH]; intros n h Hlim Hn; [done|].
  destruct (lookup_lt_is_Some_2 (current h) n Hn) as [r Hr].
  destruct (run_at _ _ h (loop_Some fuel (hrenderers h) n i h r Hr)) as [_ ->].
  destruct (handle_spawns r i h Hlim) as (Hres & Hlim' & Href & Hlen).
  rewrite result_bind, Hres, <-Href. apply IH; [done|lia].
Qed.

End unlimited.

(** ** Scripts for handlers, and two hosts *)

(** The calls of a renderer in a table of scripts. *)
Fixpoint script_of `{Host} (r : Renderer) (table : list (Renderer * list callback)) :
    list callback :=
  match table with
  | [] => []
  | (r', cbs) :: table => if decide (r' = r) then cbs else script_of r table
  end.

(** Handlers that run their script whatever they answer. *)
Definition always_calls `{Host} (table : list (Renderer * list callback)) : Reentrant :=
  {| handler_calls := λ r _ _, script_of r table |}.

(** Handlers that run their script when they claim the interaction. *)
Definition claimant_calls `{Host} (table : list (Renderer * list callback)) : Reentrant :=
  {| handler_calls := λ r i w,
       match result (host_handleComponentInteraction r i) w with
       | Normal true => script_of r table
       | _ => []
       end |}.

Lemma claimant_calls_quiet `{Host} table : quiet (reentrant := claimant_calls table).
Proof.
  intros r i w Hres. simpl.
  by destruct (result (host_handleComponentInteraction r i) w) as [[]|].
Qed.

(** A host where every handler declines and answers with a new message. *)
Definition spawning_host : Host := {|
  World := unit;
  ComponentInteraction := unit;
  ReactNode := unit;
  Channel := unit;
  CommandInteraction := unit;
  host_handleComponentInteraction := λ _ _, ret false;
  host_deactivate := λ _, ret tt;
  host_destroy := λ _, ret tt;
  host_createContainer := λ _, ret 0;
  host_updateContainer := λ _ _, ret tt;
  host_new_ChannelMessageRenderer := λ _, ret 0;
  host_new_CommandReplyRenderer := λ _, ret 0;
  InstanceProvider := λ _ content, content;
  allocated := λ _ _, True;
|}.

Definition spawning : Reentrant (H := spawning_host) :=
  {| handler_calls := λ r _ _, [CbCreateInstance (H := spawning_host) (S r) None] |}.

(** A heap state over the reference world. *)
Definition ref_heap (maxInstances : option number) (pool : list Renderer)
    (w : refworld) : HState :=
  hinitial {| config := {| ReacordConfig.maxInstances := maxInstances |};
              renderers := pool |} w.

(** ** The theorems *)

(** The loop did not end within its fuel. *)
Definition out_of_fuel {A} (o : Outcome (option A)) : bool :=
  match o with Normal None => true | _ => false end.

Lemma out_of_fuel_false {A} (o : Outcome (option A)) :
  o ≠ Normal None → out_of_fuel o = false.
Proof. by destruct o as [[]|]. Qed.

(** C35: the list model is what a program observes of the shared
    arrays when nothing calls back.  From every heap state,
    [createInstance] and the three methods of an instance, run over the
    heap of array objects ([push] in place, [filter] into a new array
    bound to the field), end with the outcome, in the world, with the log
    and with the contents of [this.renderers] that their list counterparts
    of the package give from the view of the state; and with fuel above
    the length of the pool the dispatcher over the array object ends, and
    ends as [handleComponentInteraction] of the list model does: same
    world, same log, same pool, same exception if any. *)
Theorem heap_refines_list `{Host} (r : Renderer) (ic : option ReactNode)
    (inst : InstanceHandle) (content : ReactNode) (i : ComponentInteraction)
    (fuel : nat) (h : HState) :
  length (current h) < fuel →
  (simulates instance_of (Shared.createInstance r ic) (Package.createInstance r ic) ∧
   simulates eq (Shared.render inst content)
     (ReacordInstance.render (Package.instanceOf inst.1 inst.2) content) ∧
   simulates eq (Shared.instance_deactivate inst)
     (ReacordInstance.deactivate (Package.instanceOf inst.1 inst.2)) ∧
   simulates eq (Shared.destroy inst)
     (ReacordInstance.destroy (Package.instanceOf inst.1 inst.2))) ∧
  view (final (Reentry.handleComponentInteraction (reentrant := no_callbacks) fuel i) h) =
    final (Package.handleComponentInteraction i) (view h) ∧
  result (Reentry.handleComponentInteraction (reentrant := no_callbacks) fuel i) h =
    match result (Package.handleComponentInteraction i) (view h) with
    | Normal _ => Normal (Some tt)
    | Throw e => Throw e
    end.
Proof.
  intros Hfuel. split; [|by apply handleComponentInteraction_no_callbacks].
  split_and!; [apply simulates_createInstance|apply simulates_render
              |apply simulates_instance_deactivate|apply simulates_destroy].
Qed.

Lemma heap_refines_list_witness :
  view (final (Reentry.handleComponentInteraction (reentrant := no_callbacks) 4 7)
          (ref_heap (Some (of_Z 2)) [1; 2; 3] (fresh_world 100 [(2, 7)] []))) =
    final (Package.handleComponentInteraction 7)
      (view (ref_heap (Some (of_Z 2)) [1; 2; 3] (fresh_world 100 [(2, 7)] []))) ∧
  result (Reentry.handleComponentInteraction (reentrant := no_callbacks) 4 7)
    (ref_heap (Some (of_Z 2)) [1; 2; 3] (fresh_world 100 [(2, 7)] [])) =
    match result (Package.handleComponentInteraction 7)
            (view (ref_heap (Some (of_Z 2)) [1; 2; 3] (fresh_world 100 [(2, 7)] [])))
    with
    | Normal _ => Normal (Some tt)
    | Throw e => Throw e
    end.
Proof.
  apply (heap_refines_list (H := ref_host) 4 None (1, 0) (Text 1) 7 4). vm_compute. lia.
Defined.

(** C36: with a limit, the dispatcher ends whatever the handlers call
    back: when [maxInstances] bounds the length by the integer [z] and the
    fuel exceeds both the length of the pool and [z + 1], the loop does not
    run out of fuel.  (A handler can extend the array the loop iterates
    only while the array is under the limit; an eviction binds the field to
    a new array.) *)
Theorem dispatch_ends_within_limit `{Host} {reentrant : Reentrant} (z : Z)
    (i : ComponentInteraction) (fuel : nat) (h : HState) :
  limit (Package.maxInstances (this (view h))) = Some z →
  hrenderers h < hnext h →
  Nat.max (length (current h)) (Z.to_nat (z + 1)) < fuel →
  out_of_fuel (result (Reentry.handleComponentInteraction fuel i) h) = false.
Proof.
  intros Hz Href Hfuel. apply out_of_fuel_false.
  unfold Reentry.handleComponentInteraction. rewrite result_bind_get.
  apply (loop_ends (hconfig h) (hrenderers h)
           (Nat.max (length (current h)) (Z.to_nat (z + 1)))); [|split_and!|lia].
  - intros n Hgt. apply (gt_false_limit n _ z Hz) in Hgt. lia.
  - done.
  - done.
  - unfold current. lia.
Qed.

Lemma dispatch_ends_within_limit_witness :
  out_of_fuel
    (result (Reentry.handleComponentInteraction
               (reentrant := always_calls (H := ref_host) [(1, [CbCreateInstance 5 None])])
               4 7)
       (ref_heap (Some (of_Z 2)) [1] (fresh_world 100 [] []))) = false.
Proof.
  apply (dispatch_ends_within_limit (H := ref_host) 2); [reflexivity|simpl; lia|].
  vm_compute. lia.
Defined.

(** C37: without a limit the dispatcher may never end: when
    [maxInstances] is NaN or [Infinity], every handler declines and creates
    an instance before it returns, and the pool is not empty, the loop runs
    out of any fuel: each new renderer is pushed onto the array the loop is
    iterating and is offered the interaction in turn. *)
Theorem dispatch_may_not_end `{Host} {reentrant : Reentrant}
    (i : ComponentInteraction) (h : HState) (fuel : nat) :
  (∀ r i w, result (host_handleComponentInteraction r i) w = Normal false) →
  (∀ r i w, ∃ r', handler_calls r i w = [CbCreateInstance r' None]) →
  (∀ r w, is_Normal (result (host_createContainer r) w) = true) →
  limit (Package.maxInstances (this (view h))) = None →
  current h ≠ [] →
  result (Reentry.handleComponentInteraction fuel i) h = Normal None.
Proof.
  intros Hdecl Hspawn Hcont Hlim Hpool. unfold Reentry.handleComponentInteraction.
  rewrite result_bind_get. apply loop_runs_on; [done..|].
  destruct (current h); [done|simpl; lia].
Qed.

Lemma dispatch_may_not_end_witness :
  result (Reentry.handleComponentInteraction (reentrant := spawning) 1000 tt)
    (hinitial (H := spawning_host)
       {| config := {| ReacordConfig.maxInstances := Some Infinity |};
          renderers := [1] |} tt) = Normal None.
Proof.
  apply (dispatch_may_not_end (H := spawning_host) (reentrant := spawning));
    [done|by eexists|done|done|done].
Defined.

(** C38: under the contract of the specification on handlers (a handler
    that does not claim the interaction makes no call back) the aliasing of
    the array cannot be observed: with fuel for the pool, the loop over the
    live array object runs exactly as a loop over a copy of the array taken
    when the dispatch starts, whatever the claiming handler calls. *)
Theorem live_loop_is_snapshot_loop `{Host} {reentrant : Reentrant}
    (i : ComponentInteraction) (fuel : nat) (h : HState) :
  quiet → length (current h) < fuel →
  Reentry.handleComponentInteraction fuel i h = snapshot_loop i (current h) h.
Proof.
  intros Hq Hfuel. unfold Reentry.handleComponentInteraction, bind, get.
  by apply loop_snapshot.
Qed.

Lemma live_loop_is_snapshot_loop_witness :
  Reentry.handleComponentInteraction
    (reentrant := claimant_calls (H := ref_host)
                    [(2, [CbDestroy (2, 0); CbCreateInstance 5 None])]) 4 7
    (ref_heap (Some (of_Z 2)) [1; 2; 3] (fresh_world 100 [(2, 7); (3, 7)] [])) =
  snapshot_loop
    (reentrant := claimant_calls (H := ref_host)
                    [(2, [CbDestroy (2, 0); CbCreateInstance 5 None])]) 7
    (current (ref_heap (Some (of_Z 2)) [1; 2; 3] (fresh_world 100 [(2, 7); (3, 7)] [])))
    (ref_heap (Some (of_Z 2)) [1; 2; 3] (fresh_world 100 [(2, 7); (3, 7)] [])).
Proof.
  apply (live_loop_is_snapshot_loop (H := ref_host));
    [apply claimant_calls_quiet|vm_compute; lia].
Defined.
