(* ===== verification/Wellformed.v ===== *)
(** * The heap of arrays stays well formed

    In the heap model of [Arrays] the field [renderers] is a reference,
    and dereferencing a reference that names no array would read an empty
    pool.  This file has the two notions that exclude it: the heap is well
    formed when the field is bound to an array that exists and a new array
    never takes the reference of an old one ([heap_wf]); and an array
    object is only ever extended at its end, by [push], while [filter]
    never touches it ([extends]), which is what the arrays are to the code
    that holds a reference to one, the [for ... of] loop above all.  The
    methods over the shared arrays, the calls back of [Reentrant] and its
    dispatch keep both ([safe]).  Last, [observed] carries an invariant of
    the object proved in the list model over to the heap.  [Nested] proves
    them of every heap a program reaches. *)

From stdpp Require Import base tactics option list gmap.
From S2P Require Import Prelude Js Host Types ReacordPackage ReacordCore.
From S2P Require Import RefWorld Pool Dispatch Lifecycle Arrays Reentrant.

Section extends.
Context `{Host}.
Implicit Types (h : HState) (r : Renderer) (x : option Renderer) (a : nat).

(** [extends h h']: from [h] to [h'] the configuration is kept, no
    reference is given back, and every array that existed is still there,
    with the renderers it had as a prefix of those it has. *)
Definition extends h h' : Prop :=
  hconfig h' = hconfig h ∧ hnext h ≤ hnext h' ∧
  ∀ a l, harrays h !! a = Some l → ∃ l', harrays h' !! a = Some (l ++ l').

#[export] Instance extends_preorder : PreOrder extends.
Proof.
  split.
  - intros h. split_and!; [done..|]. intros a l Ha. exists []. by rewrite app_nil_r.
  - intros h1 h2 h3 (Hc1 & Hn1 & Ha1) (Hc2 & Hn2 & Ha2).
    split_and!; [congruence|lia|]. intros a l Ha.
    destruct (Ha1 a l Ha) as [l1 Hl1]. destruct (Ha2 a _ Hl1) as [l2 Hl2].
    exists (l1 ++ l2). by rewrite app_assoc.
Qed.

(** What a holder of a reference sees: its array only grows at the end. *)
Lemma extends_array h h' a :
  extends h h' → is_Some (harrays h !! a) → array a h `prefix_of` array a h'.
Proof.
  intros (_ & _ & Ha) [l Hl]. destruct (Ha a l Hl) as [l' Hl'].
  unfold array. rewrite Hl, Hl'. by exists l'.
Qed.

(** [safe m]: [m] keeps the heap well formed and only extends it. *)
Definition safe {A} (m : Eff HState A) : Prop :=
  ∀ h, heap_wf h → heap_wf (final m h) ∧ extends h (final m h).

Lemma safe_ret {A} (v : A) : safe (ret v).
Proof. by intros h Hh. Qed.

Lemma safe_throw {A} e : safe (throw (A := A) e).
Proof. by intros h Hh. Qed.

Lemma safe_bind {A B} (m : Eff HState A) (k : A → Eff HState B) :
  safe m → (∀ v, safe (k v)) → safe (bind m k).
Proof.
  intros Hm Hk h Hh. rewrite final_bind. destruct (Hm h Hh) as [Hwf Hext].
  destruct (result m h) as [v|]; [|done].
  destruct (Hk v _ Hwf). split; [done|by etrans].
Qed.

Lemma safe_bind_get {A} (k : HState → Eff HState A) :
  (∀ h, safe (k h)) → safe (bind get k).
Proof. intros Hk h. rewrite final_bind_get. apply Hk. Qed.

Lemma safe_modify (f : HState → HState) :
  (∀ h, heap_wf h → heap_wf (f h) ∧ extends h (f h)) → safe (modify f).
Proof. intros Hf h. apply Hf. Qed.

(** A step that leaves the arrays and the field alone. *)
Lemma same_arrays_safe h h' :
  hconfig h' = hconfig h → hrenderers h' = hrenderers h →
  harrays h' = harrays h → hnext h' = hnext h →
  heap_wf h → heap_wf h' ∧ extends h h'.
Proof.
  unfold heap_wf, extends. intros -> -> -> -> Hh. split_and!; [apply Hh..|done|done|].
  intros a l Ha. exists []. by rewrite app_nil_r.
Qed.

Lemma safe_hexternal {A} (c : Call) (op : Eff World A) : safe (hexternal c op).
Proof.
  intros h. unfold final. rewrite hexternal_run. by apply same_arrays_safe.
Qed.

(** [push] extends the array the field is bound to, in place. *)
Lemma array_push_safe r : safe (modify (array_push r)).
Proof.
  apply safe_modify. intros h [[l Hl] Hnext]. unfold heap_wf, extends. simpl.
  split_and!; [| |done..|].
  - rewrite lookup_insert_eq. by eexists.
  - intros a [l' [[<- _]|[_ Ha]]%lookup_insert_Some]; apply Hnext; by eexists.
  - intros a l' Ha. destruct (decide (hrenderers h = a)) as [<-|Hne].
    + exists [r]. rewrite lookup_insert_eq. unfold current, array. rewrite Hl. simpl.
      congruence.
    + exists []. by rewrite lookup_insert_ne, app_nil_r.
Qed.

(** [filter] allocates: the arrays that exist are left as they are. *)
Lemma assign_filter_safe x : safe (modify (assign_filter x)).
Proof.
  apply safe_modify. intros h [_ Hnext]. unfold heap_wf, extends. simpl.
  split_and!; [| |done|lia|].
  - rewrite lookup_insert_eq. by eexists.
  - intros a [l' [[<- _]|[_ Ha]]%lookup_insert_Some]; [lia|].
    assert (a < hnext h) by (apply Hnext; by eexists). lia.
  - intros a l Ha. exists []. rewrite app_nil_r, lookup_insert_ne; [done|].
    assert (a < hnext h) by (apply Hnext; by eexists). lia.
Qed.

End extends.

#[export] Hint Resolve safe_ret safe_throw safe_bind safe_bind_get safe_hexternal
  array_push_safe assign_filter_safe : eff.

(** ** The methods of the class, the calls back, the dispatch *)

Section methods.
Context `{Host} {reentrant : Reentrant}.
Implicit Types (h : HState) (r : Renderer) (i : ComponentInteraction).

Lemma deactivate_safe x : safe (Shared.deactivate x).
Proof. unfold Shared.deactivate. destruct x; auto with eff. Qed.

Lemma destroy_safe (inst : InstanceHandle) : safe (Shared.destroy inst).
Proof. unfold Shared.destroy. auto with eff. Qed.

Lemma render_safe (inst : InstanceHandle) content : safe (Shared.render inst content).
Proof. apply safe_hexternal. Qed.

Lemma createInstance_safe r ic : safe (Shared.createInstance r ic).
Proof.
  unfold Shared.createInstance. apply safe_bind_get. intros h.
  apply safe_bind; [destruct (gt _ _); auto using deactivate_safe with eff|intros _].
  apply safe_bind; [apply array_push_safe|intros _].
  apply safe_bind; [apply safe_hexternal|intros c].
  apply safe_bind; [destruct ic; auto using render_safe with eff|auto with eff].
Qed.

(** [safe], as an invariant relative to a heap [h0]. *)
Lemma safe_preserves {A} (m : Eff HState A) h0 :
  safe m → preserves (λ h, heap_wf h ∧ extends h0 h) m.
Proof. intros Hm h [Hwf Hext]. destruct (Hm h Hwf). split; [done|by etrans]. Qed.

Lemma preserves_safe {A} (m : Eff HState A) :
  (∀ h0, preserves (λ h, heap_wf h ∧ extends h0 h) m) → safe m.
Proof. intros Hm h Hwf. by apply (Hm h h). Qed.

(** The methods of the class are safe: so is whatever runs them. *)
Ltac safe_methods :=
  intros; apply safe_preserves;
  auto using render_safe, safe_hexternal, createInstance_safe, deactivate_safe,
    destroy_safe.

Lemma run_callback_safe cb : safe (Reentry.run_callback cb).
Proof. apply preserves_safe. intros h0. apply run_callback_preserves; safe_methods. Qed.

Lemma handle_safe r i : safe (Reentry.handle r i).
Proof. apply preserves_safe. intros h0. apply handle_preserves; safe_methods. Qed.

Lemma loop_safe i fuel a n : safe (Reentry.handleComponentInteraction_loop fuel a n i).
Proof. apply preserves_safe. intros h0. apply loop_preserves; safe_methods. Qed.

Lemma handleComponentInteraction_safe fuel i :
  safe (Reentry.handleComponentInteraction fuel i).
Proof.
  apply preserves_safe. intros h0. apply handleComponentInteraction_preserves; safe_methods.
Qed.

(** A new object is well formed. *)
Lemma hinitial_wf (o : Reacord) (w : World) : heap_wf (hinitial o w).
Proof.
  unfold heap_wf. simpl. split; [by rewrite lookup_singleton_eq|].
  intros a [l [<- _]%lookup_singleton_Some]. lia.
Qed.

End methods.

(** ** The invariants of the object, over the heap *)

(** An invariant of the object [this], as a property of the heap: it
    holds of the view.  What simulates a computation of the list model
    that keeps it keeps it, and so do the external calls. *)
Section observed.
Context `{Host} (J : Reacord → Prop).
Implicit Types (h : HState).

Definition observed h : Prop := J (this (view h)).

Lemma simulates_observed {A B} (R : A → B → Prop) (hc : Eff HState A)
    (c : Eff State B) :
  simulates R hc c → preserves (λ s, J (this s)) c → preserves observed hc.
Proof.
  intros Hsim Hc h Hh. unfold observed. destruct (Hsim h) as [-> _]. by apply Hc.
Qed.

Lemma hexternal_observed {A} (c : Call) (op : Eff World A) :
  preserves observed (hexternal c op).
Proof.
  apply (simulates_observed eq _ (external c op));
    [apply simulates_external|apply preserves_external].
Qed.

End observed.

(** A pool of three renderers under a limit of two. *)
Definition three_in_heap : Reacord :=
  {| config := {| ReacordConfig.maxInstances := Some (of_Z 2) |};
     renderers := [1; 2; 3] |}.
