(* ===== verification/Nested.v ===== *)
(** * Calls back from any external call, to any depth

    [Reentrant] lets the handlers of a dispatch call back into the class,
    one level deep.  Here every external call may: [renderer.deactivate()]
    and [renderer.destroy()], the reconciler, a handler; and what they call
    may be a method of the class, a method of an instance, or a dispatch,
    whose own external calls may call back in turn.  The methods of the
    class are restated over the heap of [Arrays] with the external call as
    a parameter ([runner], module [Nested]): those of the package, and
    what the older core writes differently (its [createInstance], its two
    factory methods, whose [new] is an external call as well, and the
    [render] of its instances).  [Nested.calling] runs an
    external call and then the calls the environment makes back
    ([Environment]), and [Nested.enter_at] ties the knot by recursion on
    the depth of the nesting.  A run that exceeds its depth, or a loop its
    fuel, ends with [OutOfFuel] in the state it had reached.

    The file shows what survives that generality (the heap stays well
    formed, arrays only grow at their end) and what needs a hypothesis on
    the environment (the capacity of the pool, when
    [renderer.deactivate()] makes no call back).  What fails without that
    hypothesis is in [Overflow]; that a call returns within the bounds,
    and that more depth and more fuel never change a run that was not cut
    off, in [Fuel]; and that the older core over the list, and the runs
    of [Reentrant], are what this model does when no external call, or
    only a handler, calls back, in [Agreement]. *)

From stdpp Require Import base tactics option list gmap relations.
From S2P Require Import Prelude Js Host Types ReacordPackage ReacordCore.
From S2P Require Import RefWorld Pool Dispatch Lifecycle Allocation.
From S2P Require Import Variants Machine Arrays Reentrant Wellformed.

(** What runs an external call of the class: given the entry of the call
    in the log and its effect on the outside, the computation over the
    heap, calls back included. *)
Definition runner `{Host} : Type := ∀ A : Type, Call → Eff World A → Eff HState A.

(** The calls the older core has of its own: its two factory methods,
    which construct the renderer, and the [render] of its instances, which
    hands the content to the reconciler as it is. *)
Inductive older `{Host} : Type :=
| OlderChannel (channel : Channel) (initialContent : option ReactNode)
| OlderCommand (commandInteraction : CommandInteraction)
    (initialContent : option ReactNode)
| OlderRender (instance : InstanceHandle) (content : ReactNode).

(** A call into the class from external code: a method of the class or of
    an instance, or an interaction handed to the dispatcher.  [Back] holds
    the calls of the package's class, and those of an instance that the
    two classes write alike ([deactivate], [destroy]); [Older] the calls
    of the older core. *)
Inductive entrant `{Host} : Type :=
| Back (cb : callback)
| Dispatch (interaction : ComponentInteraction)
| Older (call : older).

(** The calls an external call makes into the class before it returns, in
    the world it is called in. *)
Class Environment `{Host} : Type := {
  calls_back : Call → World → list entrant;
}.

Module Nested.
Section methods.
Context `{Host}.
Variable ext : runner.

(** [private deactivate(renderer)] *)
Definition deactivate (renderer : option Renderer) : Eff HState unit :=
  modify (assign_filter renderer) ;;
  match renderer with
  | Some renderer => ext _ (Deactivate renderer) (host_deactivate renderer)
  | None => throw TypeError
  end.

(** The closures of the instance over [renderer] and [container]. *)
Definition render (instance : InstanceHandle) (content : ReactNode) : Eff HState unit :=
  ext _ (UpdateContainer (InstanceProvider instance content) instance.2)
    (host_updateContainer (InstanceProvider instance content) instance.2).

Definition instance_deactivate (instance : InstanceHandle) : Eff HState unit :=
  deactivate (Some instance.1).

Definition destroy (instance : InstanceHandle) : Eff HState unit :=
  modify (assign_filter (Some instance.1)) ;;
  ext _ (Destroy instance.1) (host_destroy instance.1).

(** [protected createInstance(renderer, initialContent?)] *)
Definition createInstance (renderer : Renderer)
    (initialContent : option ReactNode) : Eff HState InstanceHandle :=
  let* h := get in
  (if gt (of_nat (length (current h))) (Package.maxInstances (this (view h)))
   then deactivate (current h !! 0)
   else ret tt) ;;
  modify (array_push renderer) ;;
  let* container := ext _ (CreateContainer renderer) (host_createContainer renderer) in
  let instance := (renderer, container) in
  match initialContent with
  | Some content => render instance content
  | None => ret tt
  end ;;
  ret instance.

(** The older core: [render] of the instance over [container]. *)
Definition Core_render (instance : InstanceHandle) (content : ReactNode) : Eff HState unit :=
  ext _ (UpdateContainer content instance.2) (host_updateContainer content instance.2).

(** [private createInstance(renderer, initialContent?)] of the older core:
    the initial content goes to the reconciler by a call of its own. *)
Definition Core_createInstance (renderer : Renderer)
    (initialContent : option ReactNode) : Eff HState InstanceHandle :=
  let* h := get in
  (if gt (of_nat (length (current h))) (Core.maxInstances (this (view h)))
   then deactivate (current h !! 0)
   else ret tt) ;;
  modify (array_push renderer) ;;
  let* container := ext _ (CreateContainer renderer) (host_createContainer renderer) in
  match initialContent with
  | Some content =>
      ext _ (UpdateContainer content container) (host_updateContainer content container)
  | None => ret tt
  end ;;
  ret (renderer, container).

(** [protected createChannelRendererInstance(channel, initialContent?)] *)
Definition createChannelRendererInstance (channel : Channel)
    (initialContent : option ReactNode) : Eff HState InstanceHandle :=
  let* renderer :=
    ext _ (NewChannelMessageRenderer channel) (host_new_ChannelMessageRenderer channel) in
  Core_createInstance renderer initialContent.

(** [protected createCommandReplyRendererInstance(commandInteraction,
    initialContent?)] *)
Definition createCommandReplyRendererInstance (commandInteraction : CommandInteraction)
    (initialContent : option ReactNode) : Eff HState InstanceHandle :=
  let* renderer :=
    ext _ (NewCommandReplyRenderer commandInteraction)
      (host_new_CommandReplyRenderer commandInteraction) in
  Core_createInstance renderer initialContent.

(** The [for ... of] loop over the array object at [a], from index [i]:
    the iterator reads the length of the array at every step. *)
Fixpoint handleComponentInteraction_loop (fuel : nat) (a i : nat)
    (interaction : ComponentInteraction) : Eff HState unit :=
  match fuel with
  | 0 => throw OutOfFuel
  | S fuel =>
      let* h := get in
      match array a h !! i with
      | None => ret tt
      | Some renderer =>
          let* claimed :=
            ext _ (HandleComponentInteraction renderer interaction)
              (host_handleComponentInteraction renderer interaction) in
          if claimed then ret tt
          else handleComponentInteraction_loop fuel a (S i) interaction
      end
  end.

(** [protected handleComponentInteraction(interaction)]: [this.renderers]
    is evaluated once, when the loop starts. *)
Definition handleComponentInteraction (fuel : nat)
    (interaction : ComponentInteraction) : Eff HState unit :=
  let* h := get in
  handleComponentInteraction_loop fuel (hrenderers h) 0 interaction.

(** One call into the class. *)
Definition run_entrant (fuel : nat) (e : entrant) : Eff HState unit :=
  match e with
  | Back (CbCreateInstance renderer initialContent) =>
      createInstance renderer initialContent ;; ret tt
  | Back (CbRender instance content) => render instance content
  | Back (CbDeactivate instance) => instance_deactivate instance
  | Back (CbDestroy instance) => destroy instance
  | Dispatch interaction => handleComponentInteraction fuel interaction
  | Older (OlderChannel channel initialContent) =>
      createChannelRendererInstance channel initialContent ;; ret tt
  | Older (OlderCommand commandInteraction initialContent) =>
      createCommandReplyRendererInstance commandInteraction initialContent ;; ret tt
  | Older (OlderRender instance content) => Core_render instance content
  end.

End methods.

Section depth.
Context `{Host} {environment : Environment}.

(** The calls external code makes back, in order; an exception of one
    ends them. *)
Fixpoint run_entrants (enter : entrant → Eff HState unit) (es : list entrant) :
    Eff HState unit :=
  match es with
  | [] => ret tt
  | e :: es => enter e ;; run_entrants enter es
  end.

(** An external call whose calls back are run by [enter]: the call's own
    work on the outside, then the calls back, then its answer. *)
Definition calling (enter : entrant → Eff HState unit) : runner :=
  λ A c op,
    let* h := get in
    let* a := hexternal c op in
    run_entrants enter (calls_back c (hworld h)) ;;
    ret a.

(** A call into the class with [depth] levels of nesting left: its
    external calls run their calls back one level down.  Loops take
    [fuel]. *)
Fixpoint enter_at (fuel depth : nat) (e : entrant) {struct depth} : Eff HState unit :=
  match depth with
  | 0 => throw OutOfFuel
  | S depth => run_entrant (calling (enter_at fuel depth)) fuel e
  end.

End depth.
End Nested.

(** One call of a program, with whatever it leads to. *)
Inductive nested_step `{Host} {environment : Environment} : HState → HState → Prop :=
| nested_call h fuel depth e : nested_step h (final (Nested.enter_at fuel depth e) h).

(** ** [createInstance] in two parts *)

(** What [createInstance] does before it opens a container, in both
    classes: the eviction test and the [push]; [k] is the rest of it. *)
Definition registering `{Host} {A} (ext : runner) (renderer : Renderer)
    (k : Eff HState A) : Eff HState A :=
  let* h := get in
  (if gt (of_nat (length (current h))) (Package.maxInstances (this (view h)))
   then Nested.deactivate ext (current h !! 0)
   else ret tt) ;;
  modify (array_push renderer) ;;
  k.

(** What [createInstance] does once the renderer is registered. *)
Definition hattach `{Host} (ext : runner) (renderer : Renderer)
    (initialContent : option ReactNode) : Eff HState InstanceHandle :=
  let* container := ext _ (CreateContainer renderer) (host_createContainer renderer) in
  match initialContent with
  | Some content => Nested.render ext (renderer, container) content
  | None => ret tt
  end ;;
  ret (renderer, container).

(** The same, in the older core. *)
Definition Core_hattach `{Host} (ext : runner) (renderer : Renderer)
    (initialContent : option ReactNode) : Eff HState InstanceHandle :=
  let* container := ext _ (CreateContainer renderer) (host_createContainer renderer) in
  match initialContent with
  | Some content => Nested.Core_render ext (renderer, container) content
  | None => ret tt
  end ;;
  ret (renderer, container).

Lemma createInstance_registering `{Host} (ext : runner) r ic :
  Nested.createInstance ext r ic = registering ext r (hattach ext r ic).
Proof. done. Qed.

Lemma Core_createInstance_registering `{Host} (ext : runner) r ic :
  Nested.Core_createInstance ext r ic = registering ext r (Core_hattach ext r ic).
Proof. done. Qed.

(** ** What every call keeps *)

(** A property of the heap that the external calls and the removal keep,
    and the registration when what follows it does, is kept by every
    method of both classes and by the dispatch. *)
Section traversal.
Context `{Host} (ext : runner) (P : HState → Prop).
Hypothesis P_ext : ∀ A c op, preserves P (ext A c op).
Hypothesis P_filter : ∀ x, preserves P (modify (assign_filter x)).
Hypothesis P_registering : ∀ A r (k : Eff HState A),
  preserves P k → preserves P (registering ext r k).

Lemma deactivate_keeps x : preserves P (Nested.deactivate ext x).
Proof.
  apply preserves_bind; [apply P_filter|intros _].
  destruct x; [apply P_ext|apply preserves_throw].
Qed.

Lemma destroy_keeps inst : preserves P (Nested.destroy ext inst).
Proof. apply preserves_bind; [apply P_filter|intros _; apply P_ext]. Qed.

Lemma loop_keeps i fuel : ∀ a n,
  preserves P (Nested.handleComponentInteraction_loop ext fuel a n i).
Proof.
  induction fuel as [|fuel IH]; intros a n; simpl; [apply preserves_throw|].
  apply preserves_bind; [apply preserves_get|intros h].
  destruct (array a h !! n) as [r|]; [|apply preserves_ret].
  apply preserves_bind; [apply P_ext|].
  intros []; [apply preserves_ret|apply IH].
Qed.

Lemma hattach_keeps r ic :
  preserves P (hattach ext r ic) ∧ preserves P (Core_hattach ext r ic).
Proof.
  split; (apply preserves_bind; [apply P_ext|intros c]);
    (apply preserves_bind; [destruct ic; [apply P_ext|]|intros]; apply preserves_ret).
Qed.

Lemma createInstance_keeps r ic : preserves P (Nested.createInstance ext r ic).
Proof. apply P_registering, hattach_keeps. Qed.

Lemma Core_createInstance_keeps r ic : preserves P (Nested.Core_createInstance ext r ic).
Proof. apply P_registering, hattach_keeps. Qed.

Lemma run_entrant_keeps fuel e : preserves P (Nested.run_entrant ext fuel e).
Proof.
  destruct e as [[r ic|inst content|inst|inst]|i|[channel ic|ci ic|inst content]]; simpl;
    [| | | | |apply preserves_bind; [|intros; apply preserves_ret]..|].
  - apply preserves_bind; [apply createInstance_keeps|intros; apply preserves_ret].
  - apply P_ext.
  - apply deactivate_keeps.
  - apply destroy_keeps.
  - apply preserves_bind; [apply preserves_get|intros h; apply loop_keeps].
  - apply preserves_bind; [apply P_ext|intros r; apply Core_createInstance_keeps].
  - apply preserves_bind; [apply P_ext|intros r; apply Core_createInstance_keeps].
  - apply P_ext.
Qed.

End traversal.

(** The registration keeps what the push keeps too. *)
Lemma registering_keeps `{Host} (ext : runner) (P : HState → Prop) {A} r
    (k : Eff HState A) :
  (∀ A c op, preserves P (ext A c op)) →
  (∀ x, preserves P (modify (assign_filter x))) →
  preserves P (modify (array_push r)) →
  preserves P k → preserves P (registering ext r k).
Proof.
  intros P_ext P_filter P_push P_k.
  apply preserves_bind; [apply preserves_get|intros h].
  apply preserves_bind;
    [destruct (gt _ _); [by apply deactivate_keeps|apply preserves_ret]|intros _].
  by apply preserves_bind.
Qed.

(** The induction on the depth: what the external calls keep on their
    own, and the methods keep when their external calls do, every call
    keeps at every depth, with whatever it leads to. *)
Section depth.
Context `{Host} {environment : Environment} (P : HState → Prop).
Hypothesis P_hexternal : ∀ A c (op : Eff World A), preserves P (hexternal c op).
Hypothesis P_filter : ∀ x, preserves P (modify (assign_filter x)).
Hypothesis P_registering : ∀ enter,
  (∀ e, preserves P (enter e)) →
  ∀ A r (k : Eff HState A),
    preserves P k → preserves P (registering (Nested.calling enter) r k).

Lemma run_entrants_keeps enter es :
  (∀ e, preserves P (enter e)) → preserves P (Nested.run_entrants enter es).
Proof.
  intros Henter. induction es as [|e es IH]; [apply preserves_ret|].
  apply preserves_bind; [apply Henter|done].
Qed.

Lemma calling_keeps enter A c op :
  (∀ e, preserves P (enter e)) → preserves P (Nested.calling enter A c op).
Proof.
  intros Henter. apply preserves_bind; [apply preserves_get|intros h].
  apply preserves_bind; [apply P_hexternal|intros a].
  apply preserves_bind; [by apply run_entrants_keeps|intros; apply preserves_ret].
Qed.

Lemma enter_at_keeps fuel depth : ∀ e, preserves P (Nested.enter_at fuel depth e).
Proof.
  induction depth as [|depth IH]; intros e; simpl; [apply preserves_throw|].
  apply run_entrant_keeps; [intros; by apply calling_keeps|done|by apply P_registering].
Qed.

Lemma nested_steps_keep h h' : rtc nested_step h h' → P h → P h'.
Proof.
  induction 1 as [|h1 h2 h3 Hstep _ IH]; [done|]. intros Hh. apply IH.
  destruct Hstep. by apply enter_at_keeps.
Qed.

End depth.

(** ** The heap stays well formed *)

Section safe.
Context `{Host} {environment : Environment}.
Implicit Types (h : HState) (e : entrant).

(** [safe] is what the steps of a method keep, relative to any heap. *)
Lemma registering_safe_at h0 enter :
  (∀ e, preserves (λ h, heap_wf h ∧ extends h0 h) (enter e)) →
  ∀ A r (k : Eff HState A),
    preserves (λ h, heap_wf h ∧ extends h0 h) k →
    preserves (λ h, heap_wf h ∧ extends h0 h) (registering (Nested.calling enter) r k).
Proof.
  intros Henter A r k Hk. apply registering_keeps; [| | |done].
  - intros B c op. apply calling_keeps; [|done].
    intros; apply safe_preserves, safe_hexternal.
  - intros x. apply safe_preserves, assign_filter_safe.
  - apply safe_preserves, array_push_safe.
Qed.

Lemma enter_at_safe fuel depth e : safe (Nested.enter_at fuel depth e).
Proof.
  apply preserves_safe. intros h0. apply enter_at_keeps.
  - intros; apply safe_preserves, safe_hexternal.
  - intros x. apply safe_preserves, assign_filter_safe.
  - apply registering_safe_at.
Qed.

Lemma nested_steps_safe h h' :
  rtc nested_step h h' → heap_wf h → heap_wf h' ∧ extends h h'.
Proof.
  intros Hsteps Hwf.
  apply (nested_steps_keep (λ h', heap_wf h' ∧ extends h h')) with h; [..|done|done].
  - intros; apply safe_preserves, safe_hexternal.
  - intros x. apply safe_preserves, assign_filter_safe.
  - apply registering_safe_at.
Qed.

End safe.

(** ** External calls that make no call back *)

(** [plain ext c]: the external call [c] is run as it is in [Arrays], with
    no call back. *)
Definition plain `{Host} (ext : runner) (c : Call) : Prop :=
  ∀ A op, ext A c op ≡ hexternal c op.

(** The registration over the heap: the eviction test of [createInstance]
    and its [push], when the eviction makes no call back. *)
Definition hregister `{Host} (renderer : Renderer) : Eff HState unit :=
  let* h := get in
  (if gt (of_nat (length (current h))) (Package.maxInstances (this (view h)))
   then Shared.deactivate (current h !! 0)
   else ret tt) ;;
  modify (array_push renderer).

Section plain.
Context `{Host} {environment : Environment} (ext : runner).
Implicit Types (h : HState) (r : Renderer) (x : option Renderer) (c : Call).

Lemma bind_hexternal_ret {A} c (op : Eff World A) :
  (let* a := hexternal c op in ret a) ≡ hexternal c op.
Proof. apply bind_ret_r. Qed.

(** An external call the environment answers with no call back. *)
Lemma calling_plain enter c :
  (∀ w, calls_back c w = []) → plain (Nested.calling enter) c.
Proof.
  intros Hc A op h. unfold Nested.calling, bind at 1, get. rewrite Hc. simpl.
  unfold bind. by destruct (hexternal c op h) as [[a|e] h'].
Qed.

Lemma deactivate_plain x :
  (∀ r, plain ext (Deactivate r)) → Nested.deactivate ext x ≡ Shared.deactivate x.
Proof.
  intros Hp. apply bind_proper; [done|intros _]. destruct x; [apply Hp|done].
Qed.

Lemma destroy_plain inst :
  plain ext (Destroy inst.1) → Nested.destroy ext inst ≡ Shared.destroy inst.
Proof. intros Hp. apply bind_proper; [done|intros _; apply Hp]. Qed.

Lemma registering_hregister {A} r (k : Eff HState A) :
  (∀ r, plain ext (Deactivate r)) → registering ext r k ≡ (hregister r ;; k).
Proof.
  intros Hp h. unfold registering, hregister, bind, get.
  destruct (gt _ _); [|done]. rewrite (deactivate_plain _ Hp h).
  by destruct (Shared.deactivate _ h) as [[[]|e] h'].
Qed.

Lemma createInstance_hregister r ic :
  (∀ r, plain ext (Deactivate r)) →
  Nested.createInstance ext r ic ≡ (hregister r ;; hattach ext r ic).
Proof. apply registering_hregister. Qed.

Lemma simulates_hregister r : simulates eq (hregister r) (register r).
Proof.
  apply simulates_bind with (λ h s, s = view h); [apply simulates_get|].
  intros h _ ->. apply simulates_bind with eq.
  { unfold over_capacity. change (pool (view h)) with (current h).
    destruct (gt _ _); [apply simulates_deactivate|by apply simulates_ret]. }
  intros _ _ _. apply simulates_modify, view_array_push.
Qed.

End plain.

(** ** The capacity of the pool *)

(** An invariant of the object that the registration and the removal keep
    in the list model holds of the view of the heap across every call, to
    any depth, when [renderer.deactivate()] makes no call back. *)
Section capacity.
Context `{Host} {environment : Environment} (J : Reacord → Prop).
Hypothesis register_J : ∀ r, preserves (λ s, J (this s)) (register r).
Hypothesis remove_J : ∀ r, preserves (λ s, J (this s)) (remove r).
Hypothesis teardown_quiet : ∀ r w, calls_back (Deactivate r) w = [].
Implicit Types (h : HState) (r : Renderer) (e : entrant).

Lemma assign_filter_observed x : preserves (observed J) (modify (assign_filter x)).
Proof.
  intros h Hh. unfold observed. rewrite final_modify, view_assign_filter.
  destruct x as [r|]; [|by rewrite (set_renderers_ext _ id) by apply without_opt_None].
  rewrite (set_renderers_ext _ (without r)) by apply without_opt_Some.
  apply (remove_J r (view h) Hh).
Qed.

Lemma registering_observed_at enter :
  (∀ e, preserves (observed J) (enter e)) →
  ∀ A r (k : Eff HState A),
    preserves (observed J) k →
    preserves (observed J) (registering (Nested.calling enter) r k).
Proof.
  intros Henter A r k Hk.
  eapply preserves_proper;
    [symmetry; apply registering_hregister; intros; by apply calling_plain|].
  apply preserves_bind; [|done].
  apply (simulates_observed J eq _ _ (simulates_hregister r)), register_J.
Qed.

Lemma nested_steps_observed h h' : rtc nested_step h h' → observed J h → observed J h'.
Proof.
  apply nested_steps_keep;
    [apply hexternal_observed|apply assign_filter_observed|apply registering_observed_at].
Qed.

End capacity.

(** ** Environments over the reference world *)

(** Handlers and a reconciler that call back: offered the interaction 7,
    the handler of renderer 2 registers renderer 5, destroys the instance
    of renderer 3 and hands the interaction 8 to the dispatcher; the
    reconciler, opening the container of renderer 5, registers renderer 6.
    No [deactivate()] calls back. *)
Definition meddlesome : Environment (H := ref_host) :=
  {| calls_back := λ c _,
       match c with
       | HandleComponentInteraction 2 7 =>
           [Back (CbCreateInstance 5 None); Back (CbDestroy (3, 0)); Dispatch (H := ref_host) 8]
       | CreateContainer 5 => [Back (CbCreateInstance 6 None)]
       | _ => []
       end |}.

(** The older core, called back: offered the interaction 7, the handler
    of renderer 2 calls the factory for the channel 0 with a first
    content, and the constructor of that renderer renders into the
    container 0 before it returns. *)
Definition officious : Environment (H := ref_host) :=
  {| calls_back := λ c _,
       match c with
       | HandleComponentInteraction 2 7 => [Older (OlderChannel 0 (Some (Text 1)))]
       | NewChannelMessageRenderer 0 => [Older (OlderRender (3, 0) (Text 2))]
       | _ => []
       end |}.

(** The heap of a new object over a pool of three renderers, under a
    limit of two. *)
Definition three_heap : HState (H := ref_host) :=
  hinitial three_in_heap (fresh_world 100 [] []).

(** A dispatch in the first environment, after a registration. *)
Definition after_meddlesome_dispatch : HState (H := ref_host) :=
  final (Nested.enter_at (environment := meddlesome) 10 4 (Dispatch (H := ref_host) 7))
    (final (Nested.enter_at (environment := meddlesome) 10 4
              (Back (CbCreateInstance 4 None)))
       (hinitial three_in_heap (fresh_world 100 [] []))).

Lemma after_meddlesome_dispatch_reached :
  rtc (nested_step (environment := meddlesome))
    (hinitial three_in_heap (fresh_world 100 [] [])) after_meddlesome_dispatch.
Proof.
  eapply rtc_l; [apply (nested_call _ 10 4 (Back (CbCreateInstance 4 None)))|].
  apply rtc_once, (nested_call _ 10 4 (Dispatch (H := ref_host) 7)).
Qed.

(** The factory evicts renderer 1 and registers the renderer 100 it
    constructed, while the dispatch goes on over the array it started
    with: renderer 3 is offered the interaction, renderer 100 is not. *)
Example older_core_called_back :
  let h := final (Nested.enter_at (environment := officious) 10 4
                    (Dispatch (H := ref_host) 7)) three_heap in
  current h = [2; 3; 100] ∧
  rendered (hworld h) = [(0, Text 2); (101, Text 1)] ∧
  hcalls h =
    [HandleComponentInteraction 1 7; HandleComponentInteraction 2 7;
     NewChannelMessageRenderer 0; UpdateContainer (Text 2) 0; Deactivate 1;
     CreateContainer 100; UpdateContainer (Text 1) 101; HandleComponentInteraction 3 7].
Proof. by vm_compute. Qed.

(** ** The theorems *)

(** C9: the heap of arrays is well formed in every state a program
    reaches from a new object, by calls of [createInstance], of the
    factory methods of the older core, of the methods of instances and of
    [handleComponentInteraction], whatever the external code calls back,
    from whichever external call ([renderer.deactivate()],
    [renderer.destroy()], the reconciler, a handler, the constructor of a
    renderer), whatever those calls lead to in turn, to any depth, and
    whichever calls throw or are cut off: the field [renderers] is bound
    to an array that exists, no array has a reference that is still to be
    allocated, and every array is what it was with renderers added at its
    end, from the new object to the state reached and from that state to
    every state reached later.  So the array a [for ... of] loop iterates
    is never shortened or reordered under it, whenever the loop started. *)
Theorem nested_heap_well_formed `{Host} {environment : Environment} (o : Reacord)
    (w : World) (h : HState) :
  rtc nested_step (hinitial o w) h →
  heap_wf h ∧ extends (hinitial o w) h ∧
  renderers o `prefix_of` array 0 h ∧
  ∀ h', rtc nested_step h h' →
        heap_wf h' ∧ extends h h' ∧ ∀ a, array a h `prefix_of` array a h'.
Proof.
  intros Hsteps. destruct (nested_steps_safe _ _ Hsteps (hinitial_wf o w)) as [Hwf Hext].
  split_and!; [done..| |].
  - apply (extends_array (hinitial o w) h 0 Hext). simpl. by rewrite lookup_singleton_eq.
  - intros h' Hsteps'. destruct (nested_steps_safe _ _ Hsteps' Hwf) as [Hwf' Hext'].
    split_and!; [done..|]. intros a.
    destruct (harrays h !! a) as [l|] eqn:Ha; [by apply extends_array|].
    unfold array at 1. rewrite Ha. apply prefix_nil.
Qed.

Lemma nested_heap_well_formed_witness :
  heap_wf after_meddlesome_dispatch ∧
  extends (hinitial three_in_heap (fresh_world 100 [] [])) after_meddlesome_dispatch ∧
  renderers three_in_heap `prefix_of` array 0 after_meddlesome_dispatch ∧
  ∀ h', rtc (nested_step (environment := meddlesome)) after_meddlesome_dispatch h' →
        heap_wf h' ∧ extends after_meddlesome_dispatch h' ∧
        ∀ a, array a after_meddlesome_dispatch `prefix_of` array a h'.
Proof.
  apply (nested_heap_well_formed (H := ref_host) (environment := meddlesome)
           three_in_heap (fresh_world 100 [] []) after_meddlesome_dispatch).
  apply after_meddlesome_dispatch_reached.
Defined.

(** C10: the capacity of the pool, with external code that calls back.
    When [renderer.deactivate()] makes no call back, then from an object
    within capacity, in every state a program reaches by [createInstance],
    the factory methods of the older core, the methods of instances and
    [handleComponentInteraction], whatever the handlers,
    [renderer.destroy()], the reconciler and the constructors of
    renderers call back into the class, of either variant, to any depth,
    and whichever calls throw or are cut off, the
    configuration is the same and the array the field [renderers] is bound
    to holds at most [max 0 (floor maxInstances + 1)] renderers. *)
Theorem nested_within_capacity `{Host} {environment : Environment}
    (cfg : ReacordConfig.t) (o : Reacord) (w : World) (h : HState) :
  (∀ r w', calls_back (Deactivate r) w' = []) →
  configured cfg o →
  rtc nested_step (hinitial o w) h →
  configured cfg (this (view h)).
Proof.
  intros Hquiet Ho Hsteps.
  apply (nested_steps_observed (configured cfg)) in Hsteps; [done|..|done|].
  - intros r s. apply register_configured.
  - apply remove_configured.
  - unfold observed, view, current, array. simpl. rewrite lookup_singleton_eq. simpl.
    by destruct o.
Qed.

Lemma nested_within_capacity_witness :
  configured (config three_in_heap) (this (view after_meddlesome_dispatch)).
Proof.
  apply (nested_within_capacity (H := ref_host) (environment := meddlesome)
           (config three_in_heap) three_in_heap (fresh_world 100 [] [])
           after_meddlesome_dispatch).
  - done.
  - split; [reflexivity|]. vm_compute. intros [=].
  - apply after_meddlesome_dispatch_reached.
Defined.
