(* ===== verification/Overflow.v ===== *)
(** * An eviction that registers

    The capacity of the pool with calls back ([Nested]) needs a
    [renderer.deactivate()] that makes no call back.  This file shows what
    happens otherwise: [createInstance] tests the capacity before the
    eviction and pushes after it, so a renderer that registers another
    while it is deactivated leaves the pool one above its capacity, and
    nothing brings it back. *)

From stdpp Require Import base tactics option list gmap relations.
From S2P Require Import Prelude Js Host Types ReacordPackage ReacordCore.
From S2P Require Import RefWorld Pool Dispatch Lifecycle Allocation.
From S2P Require Import Variants Machine Arrays Reentrant Wellformed Nested.

(** [createInstance] tests the capacity before it calls [deactivate()] on
    the oldest renderer, and pushes after it. *)
Section overflow.
Context `{Host} {environment : Environment}.
Implicit Types (h : HState) (r x : Renderer) (c : Container) (e : entrant).

(** An external call that returns: its calls back follow. *)
Lemma calling_run enter {A} (call : Call) (op : Eff World A) h a :
  result op (hworld h) = Normal a →
  Nested.calling enter A call op h =
    (Nested.run_entrants enter (calls_back call (hworld h)) ;; ret a)
      (hset_world (final op (hworld h)) (hlog call h)).
Proof.
  intros Hop. unfold Nested.calling, bind, get. by rewrite hexternal_run, Hop.
Qed.

(** Under the limit, [createInstance] pushes and opens a container. *)
Lemma createInstance_under ext x h c :
  gt (of_nat (length (current h))) (Package.maxInstances (this (view h))) = false →
  plain ext (CreateContainer x) →
  result (host_createContainer x) (hworld h) = Normal c →
  Nested.createInstance ext x None h =
    (Normal (x, c),
     hset_world (final (host_createContainer x) (hworld h))
       (hlog (CreateContainer x) (array_push x h))).
Proof.
  intros Hgt Hplain Hc. unfold Nested.createInstance, bind, get, modify, ret.
  rewrite Hgt, (Hplain _ _ (array_push x h)), hexternal_run. simpl. by rewrite Hc.
Qed.

(** After the push, the container. *)
Lemma push_attach_run ext x h c :
  plain ext (CreateContainer x) →
  result (host_createContainer x) (hworld h) = Normal c →
  (modify (array_push x) ;; hattach ext x None) h =
    (Normal (x, c),
     hset_world (final (host_createContainer x) (hworld h))
       (hlog (CreateContainer x) (array_push x h))).
Proof.
  intros Hplain Hc. unfold hattach, bind, modify, ret.
  rewrite (Hplain _ _ (array_push x h)), hexternal_run. simpl. by rewrite Hc.
Qed.

(** The eviction of [r0] from a full pool, when its [deactivate()]
    registers [r']: the pool is full again when the eviction returns. *)
Lemma eviction_registers ext enter (N : Z) r0 r' rest h :
  limit (Package.maxInstances (this (view h))) = Some N →
  current h = r0 :: rest → Z.of_nat (length rest) = N → r0 ∉ rest →
  (∀ w, calls_back (Deactivate r0) w = [Back (CbCreateInstance r' None)]) →
  (∀ h', enter (Back (CbCreateInstance r' None)) h' =
         (Nested.createInstance ext r' None ;; ret tt) h') →
  plain ext (CreateContainer r') →
  is_Normal (result (host_deactivate r0) (hworld h)) = true →
  is_Normal (result (host_createContainer r')
               (final (host_deactivate r0) (hworld h))) = true →
  result (Nested.deactivate (Nested.calling enter) (Some r0)) h = Normal tt ∧
  current (final (Nested.deactivate (Nested.calling enter) (Some r0)) h) = rest ++ [r'] ∧
  hworld (final (Nested.deactivate (Nested.calling enter) (Some r0)) h) =
    final (host_createContainer r') (final (host_deactivate r0) (hworld h)).
Proof.
  intros HN Hcur Hlen Hr0 Hback Henter Hplain Hd Hc.
  destruct (result (host_deactivate r0) (hworld h)) as [[]|] eqn:Hres; [|done].
  set (h2 := hset_world (final (host_deactivate r0) (hworld h))
               (hlog (Deactivate r0) (assign_filter (Some r0) h))).
  assert (current h2 = rest) as Hcur2.
  { change (current h2) with (current (assign_filter (Some r0) h)).
    rewrite current_assign_filter, Hcur, without_opt_Some, without_cons_eq.
    by apply without_not_elem_of. }
  change (final (host_deactivate r0) (hworld h)) with (hworld h2) in Hc.
  destruct (result (host_createContainer r') (hworld h2)) as [c|] eqn:Hres'; [|done].
  assert (Nested.deactivate (Nested.calling enter) (Some r0) h =
          (Normal tt, hset_world (final (host_createContainer r') (hworld h2))
                        (hlog (CreateContainer r') (array_push r' h2)))) as Hrun.
  { unfold Nested.deactivate, bind at 1, modify.
    rewrite (calling_run enter (Deactivate r0) _ (assign_filter (Some r0) h) tt Hres), Hback.
    simpl. unfold bind. rewrite Henter. unfold bind. fold h2.
    rewrite (createInstance_under ext r' h2 c); [done| |done|done].
    rewrite Hcur2. apply (gt_false_limit _ _ N); [done|lia]. }
  unfold result, final. rewrite Hrun. simpl. split_and!; [done| |done].
  change (current (array_push r' h2) = rest ++ [r']).
  by rewrite current_array_push, Hcur2.
Qed.

(** [createInstance] on a full pool: the eviction, then the push. *)
Lemma createInstance_over ext N r0 r rest h :
  limit (Package.maxInstances (this (view h))) = Some N →
  current h = r0 :: rest → Z.of_nat (length rest) = N →
  result (Nested.deactivate ext (Some r0)) h = Normal tt →
  Nested.createInstance ext r None h =
    (modify (array_push r) ;; hattach ext r None)
      (final (Nested.deactivate ext (Some r0)) h).
Proof.
  intros HN Hcur Hlen Hres. unfold Nested.createInstance, bind at 1, get.
  assert (gt (of_nat (length (current h))) (Package.maxInstances (this (view h))) = true)
    as -> by (apply gt_true_limit; exists N; rewrite Hcur; simpl; split; [done|lia]).
  rewrite Hcur. simpl lookup. unfold bind at 1. unfold result, final in *.
  by destruct (Nested.deactivate _ _ h) as [[[]|] h'].
Qed.

End overflow.

(** ** A renderer that registers another *)

(** A renderer that says farewell: the [deactivate()] of renderer 1
    registers renderer 9. *)
Definition farewell : Environment (H := ref_host) :=
  {| calls_back := λ c _,
       match c with
       | Deactivate 1 => [Back (CbCreateInstance 9 None)]
       | _ => []
       end |}.

(** ** The theorem *)

(** C11: the hypothesis of C10 is needed.  [createInstance] tests the
    capacity before it calls [deactivate()] on the oldest renderer and
    pushes after it.  So from a pool that is full (an integer limit [N]
    and [N + 1] renderers, the oldest of them [r0], once in the pool),
    when the [deactivate()] of [r0] registers a renderer [r'] before it
    returns, nothing is called back while a container is opened, and those
    calls return, [createInstance] for [r] returns normally with a pool of
    [N + 2] renderers, one above the capacity: the pool without [r0],
    then [r'], then [r]. *)
Theorem eviction_that_registers `{Host} {environment : Environment} (N : Z)
    (r0 r' r : Renderer) (rest : list Renderer) (fuel depth : nat) (h : HState) :
  limit (Package.maxInstances (this (view h))) = Some N →
  current h = r0 :: rest → Z.of_nat (length rest) = N → r0 ∉ rest →
  (∀ w, calls_back (Deactivate r0) w = [Back (CbCreateInstance r' None)]) →
  (∀ x w, calls_back (CreateContainer x) w = []) →
  is_Normal (result (host_deactivate r0) (hworld h)) = true →
  is_Normal (result (host_createContainer r')
               (final (host_deactivate r0) (hworld h))) = true →
  is_Normal (result (host_createContainer r)
               (final (host_createContainer r')
                  (final (host_deactivate r0) (hworld h)))) = true →
  let create := Nested.enter_at fuel (S (S depth)) (Back (CbCreateInstance r None)) in
  result create h = Normal tt ∧
  current (final create h) = rest ++ [r'; r] ∧
  (Z.of_nat (length (current (final create h))) = N + 2)%Z.
Proof.
  intros HN Hcur Hlen Hr0 Hback Hquiet Hd Hc' Hc create.
  set (enter := Nested.enter_at fuel (S depth)).
  destruct (eviction_registers (Nested.calling (Nested.enter_at fuel depth)) enter
              N r0 r' rest h) as (Hres & Hcur3 & Hw3);
    [done..|by apply calling_plain|done|done|].
  set (h3 := final (Nested.deactivate (Nested.calling enter) (Some r0)) h) in *.
  rewrite <-Hw3 in Hc. change (hworld h3) with (hworld (array_push r h3)) in Hc.
  destruct (result (host_createContainer r) (hworld (array_push r h3))) as [c|] eqn:Hcr;
    [|done].
  assert (current (final create h) = rest ++ [r'; r] ∧ result create h = Normal tt)
    as [Hfinal ->].
  { unfold create.
    change (Nested.enter_at fuel (S (S depth)) (Back (CbCreateInstance r None)))
      with (Nested.createInstance (Nested.calling enter) r None ;; ret tt).
    unfold result, final, bind.
    rewrite (createInstance_over _ N r0 r rest h) by done. fold h3.
    rewrite (push_attach_run _ r h3 c); [|by apply calling_plain|done]. simpl.
    split; [|done]. change (current (array_push r h3) = rest ++ [r'; r]).
    by rewrite current_array_push, Hcur3, <-app_assoc. }
  split_and!; [done..|]. rewrite Hfinal, length_app. simpl. lia.
Qed.

Lemma eviction_that_registers_witness :
  result (Nested.enter_at (environment := farewell) 10 3 (Back (CbCreateInstance 4 None)))
    three_heap = Normal tt ∧
  current (final (Nested.enter_at (environment := farewell) 10 3
                    (Back (CbCreateInstance 4 None))) three_heap) = [2; 3] ++ [9; 4] ∧
  Z.of_nat (length (current (final (Nested.enter_at (environment := farewell) 10 3
                                      (Back (CbCreateInstance 4 None))) three_heap))) =
    (2 + 2)%Z.
Proof.
  apply (eviction_that_registers (H := ref_host) (environment := farewell) 2 1 9 4
           [2; 3] 10 1 three_heap);
    [done..|compute_done|done|done|done|done|done].
Defined.

(** Nothing brings the pool back: the next creation evicts one renderer
    and pushes one. *)
Example excess_stays :
  let create r := Nested.enter_at (environment := farewell) 10 3
                    (Back (CbCreateInstance r None)) in
  current (final (create 5) (final (create 4) three_heap)) = [3; 9; 4; 5].
Proof. by vm_compute. Qed.
