(* ===== verification/Fuel.v ===== *)
(** * Every call returns: depth and fuel are bounds of the model

    [Nested] bounds a run twice, by the depth of the nesting of its calls
    and by the fuel of its loops, and ends a run that exceeds either with
    [OutOfFuel].  This file shows that the bounds say nothing of the
    program.  A run that is not cut off is the same run with any greater
    depth and any greater fuel ([below], method by method, then
    [Nested.enter_at] by induction on the depth).  And a call is not cut
    off, so that it returns or throws as the program does, when the pool
    has a limit, [renderer.deactivate()] makes no call back, and the
    calls back of the environment do not nest without end: each call into
    the class has a rank, and whatever an external call it makes calls
    back has a smaller one ([issues], [finishes]).  The arrays then hold
    at most the capacity of the pool, which bounds every [for ... of]
    loop, and the rank bounds the nesting. *)

From stdpp Require Import base tactics option list gmap relations.
From S2P Require Import Prelude Js Host Types ReacordPackage ReacordCore.
From S2P Require Import RefWorld Pool Dispatch Lifecycle Allocation.
From S2P Require Import Variants Machine Arrays Reentrant Wellformed Nested.

(** [below m m']: [m'] runs as [m] does wherever [m] is not cut off. *)
Definition below `{Host} {A} (m m' : Eff HState A) : Prop :=
  ∀ h, result m h ≠ Throw OutOfFuel → m' h = m h.

Section fuel.
Context `{Host} {environment : Environment}.
Implicit Types (h : HState) (r : Renderer) (e : entrant).

Lemma below_refl {A} (m : Eff HState A) : below m m.
Proof. by intros h. Qed.

Lemma below_cut_off {A} (m : Eff HState A) : below (throw OutOfFuel) m.
Proof. by intros h. Qed.

Lemma below_bind {A B} (m m' : Eff HState A) (k k' : A → Eff HState B) :
  below m m' → (∀ a, below (k a) (k' a)) → below (bind m k) (bind m' k').
Proof.
  intros Hm Hk h. specialize (Hm h). unfold result, bind in *.
  destruct (m h) as [[a|e] h1]; simpl in *; intros Hres.
  - rewrite Hm by done. by apply Hk.
  - rewrite Hm; [done|]. intros [= ->]. by apply Hres.
Qed.

Section methods.
Variables ext ext' : runner.
Hypothesis ext_below : ∀ A c op, below (ext A c op) (ext' A c op).

Lemma deactivate_below x : below (Nested.deactivate ext x) (Nested.deactivate ext' x).
Proof.
  apply below_bind; [apply below_refl|intros _].
  destruct x; [apply ext_below|apply below_refl].
Qed.

Lemma registering_below {A} r (k k' : Eff HState A) :
  below k k' → below (registering ext r k) (registering ext' r k').
Proof.
  intros Hk. apply below_bind; [apply below_refl|intros h].
  apply below_bind; [destruct (gt _ _); [apply deactivate_below|apply below_refl]|intros _].
  by apply below_bind; [apply below_refl|].
Qed.

Lemma hattach_below r ic :
  below (hattach ext r ic) (hattach ext' r ic) ∧
  below (Core_hattach ext r ic) (Core_hattach ext' r ic).
Proof.
  split; (apply below_bind; [apply ext_below|intros c]);
    (apply below_bind; [destruct ic; [apply ext_below|]|intros]; apply below_refl).
Qed.

Lemma createInstance_below r ic :
  below (Nested.createInstance ext r ic) (Nested.createInstance ext' r ic).
Proof. apply (registering_below r (hattach ext r ic)), hattach_below. Qed.

Lemma Core_createInstance_below r ic :
  below (Nested.Core_createInstance ext r ic) (Nested.Core_createInstance ext' r ic).
Proof. apply (registering_below r (Core_hattach ext r ic)), hattach_below. Qed.

Lemma loop_below i : ∀ fuel fuel' a n,
  fuel ≤ fuel' →
  below (Nested.handleComponentInteraction_loop ext fuel a n i)
    (Nested.handleComponentInteraction_loop ext' fuel' a n i).
Proof.
  induction fuel as [|fuel IH]; intros [|fuel'] a n Hle; try lia;
    [apply below_cut_off..|]. simpl.
  apply below_bind; [apply below_refl|intros h].
  destruct (array a h !! n) as [r|]; [|apply below_refl].
  apply below_bind; [apply ext_below|].
  intros []; [apply below_refl|apply IH; lia].
Qed.

Lemma run_entrant_below fuel fuel' e :
  fuel ≤ fuel' → below (Nested.run_entrant ext fuel e) (Nested.run_entrant ext' fuel' e).
Proof.
  intros Hle.
  destruct e as [[r ic|inst content|inst|inst]|i|[channel ic|ci ic|inst content]]; simpl;
    [| | | | |apply below_bind; [|intros; apply below_refl]..|].
  - apply below_bind; [apply createInstance_below|intros; apply below_refl].
  - apply ext_below.
  - apply deactivate_below.
  - apply below_bind; [apply below_refl|intros _; apply ext_below].
  - apply below_bind; [apply below_refl|intros h; by apply loop_below].
  - apply below_bind; [apply ext_below|intros r; apply Core_createInstance_below].
  - apply below_bind; [apply ext_below|intros r; apply Core_createInstance_below].
  - apply ext_below.
Qed.

End methods.

Lemma calling_below enter enter' A c op :
  (∀ e, below (enter e) (enter' e)) →
  below (Nested.calling enter A c op) (Nested.calling enter' A c op).
Proof.
  intros Henter. apply below_bind; [apply below_refl|intros h].
  apply below_bind; [apply below_refl|intros a].
  apply below_bind; [|intros; apply below_refl].
  induction (calls_back c (hworld h)) as [|e es IH]; [apply below_refl|].
  apply below_bind; [apply Henter|done].
Qed.

Lemma enter_at_below fuel fuel' : ∀ depth depth' e,
  fuel ≤ fuel' → depth ≤ depth' →
  below (Nested.enter_at fuel depth e) (Nested.enter_at fuel' depth' e).
Proof.
  induction depth as [|depth IH]; intros [|depth'] e Hfuel Hdepth; try lia;
    [apply below_cut_off..|]. simpl.
  apply run_entrant_below; [|done]. intros A c op. apply calling_below.
  intros e'. apply IH; [done|lia].
Qed.

End fuel.

(** ** Enough depth, enough fuel *)

(** [OutOfFuel] marks a run of the model that was cut off; it is not an
    exception of the host. *)
Definition clean_op `{Host} {A} (op : Eff World A) : Prop :=
  ∀ w, result op w ≠ Throw OutOfFuel.

Class Clean `{Host} : Prop := {
  handle_clean r i : clean_op (host_handleComponentInteraction r i);
  deactivate_clean r : clean_op (host_deactivate r);
  destroy_clean r : clean_op (host_destroy r);
  createContainer_clean r : clean_op (host_createContainer r);
  updateContainer_clean content c : clean_op (host_updateContainer content c);
  new_channel_clean channel : clean_op (host_new_ChannelMessageRenderer channel);
  new_command_clean ci : clean_op (host_new_CommandReplyRenderer ci);
}.

(** The external calls a call into the class can make, [deactivate()]
    apart: a dispatch calls the handlers, for its interaction; the
    creating calls open a container for their renderer and may render
    into it, the factory methods after they constructed the renderer;
    [render] calls the reconciler for its container, [destroy] the
    [destroy()] of its renderer. *)
Definition issues `{Host} (e : entrant) (c : Call) : Prop :=
  match e with
  | Dispatch i =>
      match c with HandleComponentInteraction _ i' => i' = i | _ => False end
  | Back (CbCreateInstance r _) =>
      match c with
      | CreateContainer r' => r' = r
      | UpdateContainer _ _ => True
      | _ => False
      end
  | Back (CbRender inst content) =>
      c = UpdateContainer (InstanceProvider inst content) inst.2
  | Back (CbDeactivate _) => False
  | Back (CbDestroy inst) => c = Destroy inst.1
  | Older (OlderChannel channel _) =>
      match c with
      | NewChannelMessageRenderer channel' => channel' = channel
      | CreateContainer _ | UpdateContainer _ _ => True
      | _ => False
      end
  | Older (OlderCommand ci _) =>
      match c with
      | NewCommandReplyRenderer ci' => ci' = ci
      | CreateContainer _ | UpdateContainer _ _ => True
      | _ => False
      end
  | Older (OlderRender inst content) => c = UpdateContainer content inst.2
  end.

Section returns.
Context `{Host} `{!Clean} {environment : Environment}.
Variables (cfg : ReacordConfig.t) (B : nat) (rank : entrant → nat).
Implicit Types (h : HState) (r : Renderer) (x : option Renderer) (e : entrant)
  (i : ComponentInteraction).

(** [B] leaves room for the push that follows a negative eviction test. *)
Hypothesis room :
  ∀ n, gt (of_nat n) (nullish (ReacordConfig.maxInstances cfg) (of_Z 50)) = false →
       S n ≤ B.
Hypothesis teardown_quiet : ∀ r w, calls_back (Deactivate r) w = [].
Hypothesis ranked : ∀ e c w e', issues e c → e' ∈ calls_back c w → rank e' < rank e.

(** No array holds more than [B] renderers. *)
Definition bounded h : Prop := hconfig h = cfg ∧ ∀ a, length (array a h) ≤ B.

(** A push keeps it so. *)
Definition roomy h : Prop := bounded h ∧ S (length (current h)) ≤ B.

(** [finishes m]: from a bounded heap [m] is not cut off, and ends in a
    bounded heap. *)
Definition finishes {A} (m : Eff HState A) : Prop :=
  ∀ h, bounded h → result m h ≠ Throw OutOfFuel ∧ bounded (final m h).

Lemma finishes_ret {A} (a : A) : finishes (ret a).
Proof. by intros h Hh. Qed.

Lemma finishes_bind {A A'} (m : Eff HState A) (k : A → Eff HState A') :
  finishes m → (∀ a, finishes (k a)) → finishes (bind m k).
Proof.
  intros Hm Hk h Hh. destruct (Hm h Hh) as [Hres Hfin].
  rewrite result_bind, final_bind.
  destruct (result m h) as [a|ex]; [by apply Hk|].
  split; [intros [= ->]; by apply Hres|done].
Qed.

Lemma finishes_bind_get {A} (k : HState → Eff HState A) :
  (∀ h, bounded h → finishes (k h)) → finishes (bind get k).
Proof. intros Hk h Hh. rewrite result_bind_get, final_bind_get. by apply Hk. Qed.

Lemma finishes_modify (f : HState → HState) :
  (∀ h, bounded h → bounded (f h)) → finishes (modify f).
Proof. intros Hf h Hh. split; [done|by apply Hf]. Qed.

Lemma finishes_proper {A} (m m' : Eff HState A) : m ≡ m' → finishes m → finishes m'.
Proof. intros Hm Hfin h. unfold result, final. rewrite <-Hm. apply Hfin. Qed.

Lemma hexternal_finishes {A} (c : Call) (op : Eff World A) :
  clean_op op → finishes (hexternal c op).
Proof.
  intros Hop h Hh. unfold result at 1, final at 1. rewrite hexternal_run.
  split; [apply Hop|done].
Qed.

Lemma hexternal_roomy {A} (c : Call) (op : Eff World A) h :
  roomy h → roomy (final (hexternal c op) h).
Proof. intros Hh. unfold final. by rewrite hexternal_run. Qed.

(** *** The arrays under a removal and a push *)

Lemma array_assign_filter_le x a h :
  bounded h → length (array a (assign_filter x h)) ≤ B.
Proof.
  intros [_ Hh]. unfold array. simpl.
  destruct (decide (a = hnext h)) as [->|Hne];
    [rewrite lookup_insert_eq|rewrite lookup_insert_ne by done; apply Hh].
  simpl. etrans; [apply length_filter|apply Hh].
Qed.

Lemma assign_filter_bounded x h : bounded h → bounded (assign_filter x h).
Proof. intros Hh. split; [apply Hh|]. intros a. by apply array_assign_filter_le. Qed.

(** After the removal of an element the array the field is bound to has
    room for a push. *)
Lemma assign_filter_roomy old h :
  bounded h → old ∈ current h → roomy (assign_filter (Some old) h).
Proof.
  intros Hh Hold. split; [by apply assign_filter_bounded|].
  rewrite current_assign_filter, without_opt_Some.
  pose proof (length_without_lt old _ Hold). destruct Hh as [_ Hh].
  specialize (Hh (hrenderers h)). unfold current in *. lia.
Qed.

Lemma array_push_bounded r h : roomy h → bounded (array_push r h).
Proof.
  intros [[Hc Hh] Hroom]. split; [done|]. intros a. unfold array. simpl.
  destruct (decide (a = hrenderers h)) as [->|Hne];
    [rewrite lookup_insert_eq|rewrite lookup_insert_ne by done; apply Hh].
  simpl. rewrite length_app. simpl. lia.
Qed.

(** *** The methods *)

Lemma deactivate_finishes x : finishes (Shared.deactivate x).
Proof.
  apply finishes_bind; [apply finishes_modify, assign_filter_bounded|intros _].
  destruct x; [apply hexternal_finishes, deactivate_clean|by intros h Hh].
Qed.

(** The eviction test leaves room for the push. *)
Lemma test_roomy h :
  bounded h →
  let test := if gt (of_nat (length (current h))) (Package.maxInstances (this (view h)))
              then Shared.deactivate (current h !! 0) else ret tt in
  result test h ≠ Throw OutOfFuel ∧ bounded (final test h) ∧
  (result test h = Normal tt → roomy (final test h)).
Proof.
  intros Hh. destruct (gt _ _) eqn:Hgt; simpl.
  - destruct (deactivate_finishes (current h !! 0) h Hh) as [Hres Hfin].
    split_and!; [done..|]. destruct (current h !! 0) as [old|] eqn:Hold; [|done].
    intros _. unfold Shared.deactivate. rewrite final_bind. simpl.
    apply hexternal_roomy, assign_filter_roomy; [done|].
    by eapply list_elem_of_lookup_2.
  - split_and!; [done..|]. intros _. split; [done|]. apply room.
    destruct Hh as [<- _]. exact Hgt.
Qed.

Lemma hregister_finishes r : finishes (hregister r).
Proof.
  intros h Hh. unfold hregister. rewrite result_bind_get, final_bind_get.
  rewrite result_bind, final_bind.
  destruct (test_roomy h Hh) as (Hres & Hfin & Hroom).
  destruct (result _ h) as [[]|ex]; [|done].
  split; [done|]. by apply array_push_bounded, Hroom.
Qed.

Section methods.
Variables (ext : runner) (e : entrant).
Hypothesis ext_plain : ∀ r, plain ext (Deactivate r).
Hypothesis ext_finishes : ∀ A c (op : Eff World A),
  issues e c → clean_op op → finishes (ext A c op).

Lemma registering_finishes {A} r (k : Eff HState A) :
  finishes k → finishes (registering ext r k).
Proof.
  intros Hk. eapply finishes_proper; [symmetry; by apply registering_hregister|].
  apply finishes_bind; [apply hregister_finishes|done].
Qed.

(** What [createInstance] does once the renderer is registered, with
    the [render] of either class. *)
Lemma attach_finishes {A} r (render : Container → ReactNode → Eff HState unit)
    (a : Container → A) (ic : option ReactNode) :
  issues e (CreateContainer r) → (∀ c content, finishes (render c content)) →
  finishes (let* container := ext _ (CreateContainer r) (host_createContainer r) in
            match ic with
            | Some content => render container content
            | None => ret tt
            end ;;
            ret (a container)).
Proof.
  intros Hr Hrender.
  apply finishes_bind; [by apply ext_finishes, createContainer_clean|intros c].
  apply finishes_bind; [|intros; apply finishes_ret].
  destruct ic; [apply Hrender|apply finishes_ret].
Qed.

Lemma hattach_finishes r ic :
  issues e (CreateContainer r) → (∀ content c, issues e (UpdateContainer content c)) →
  finishes (hattach ext r ic) ∧ finishes (Core_hattach ext r ic).
Proof.
  intros Hr Hu.
  split;
    [apply (attach_finishes r (λ c content, Nested.render ext (r, c) content) (pair r))
    |apply (attach_finishes r (λ c content, Nested.Core_render ext (r, c) content)
              (pair r))];
    try done; intros c content; by apply ext_finishes, updateContainer_clean.
Qed.

Lemma loop_finishes i : ∀ fuel a n,
  (∀ r, issues e (HandleComponentInteraction r i)) → B - n < fuel →
  finishes (Nested.handleComponentInteraction_loop ext fuel a n i).
Proof.
  induction fuel as [|fuel IH]; intros a n Hi Hfuel; [lia|]. simpl.
  apply finishes_bind_get. intros h Hh.
  destruct (array a h !! n) as [r|] eqn:Hn; [|apply finishes_ret].
  apply finishes_bind; [by apply ext_finishes, handle_clean|].
  intros []; [apply finishes_ret|]. apply IH; [done|].
  apply lookup_lt_Some in Hn. destruct Hh as [_ Hh]. specialize (Hh a). lia.
Qed.

End methods.

(** One call, when the external calls it makes finish. *)
Lemma run_entrant_finishes (ext : runner) fuel e :
  (∀ r, plain ext (Deactivate r)) →
  (∀ A c (op : Eff World A), issues e c → clean_op op → finishes (ext A c op)) →
  B < fuel → finishes (Nested.run_entrant ext fuel e).
Proof.
  intros Hplain Hext Hfuel.
  destruct e as [[r ic|inst content|inst|inst]|i|[channel ic|ci ic|inst content]]; simpl;
    [| | | | |apply finishes_bind; [|intros; apply finishes_ret]..|].
  - apply finishes_bind; [|intros; apply finishes_ret].
    apply (registering_finishes ext Hplain r (hattach ext r ic)).
    by apply (hattach_finishes ext _ Hext).
  - by apply Hext, updateContainer_clean.
  - eapply finishes_proper; [symmetry; by apply deactivate_plain|].
    apply deactivate_finishes.
  - apply finishes_bind; [apply finishes_modify, assign_filter_bounded|intros _].
    by apply Hext, destroy_clean.
  - apply finishes_bind_get. intros h _. apply (loop_finishes ext _ Hext); [done|lia].
  - apply finishes_bind; [by apply Hext, new_channel_clean|intros r].
    apply (registering_finishes ext Hplain r (Core_hattach ext r ic)).
    by apply (hattach_finishes ext _ Hext).
  - apply finishes_bind; [by apply Hext, new_command_clean|intros r].
    apply (registering_finishes ext Hplain r (Core_hattach ext r ic)).
    by apply (hattach_finishes ext _ Hext).
  - by apply Hext, updateContainer_clean.
Qed.

(** *** The calls back *)

Lemma run_entrants_finishes enter (es : list entrant) :
  (∀ e, e ∈ es → finishes (enter e)) → finishes (Nested.run_entrants enter es).
Proof.
  induction es as [|e es IH]; intros Hes; [apply finishes_ret|].
  apply finishes_bind; [apply Hes, list_elem_of_here|intros _].
  apply IH. intros e' He'. by apply Hes, list_elem_of_further.
Qed.

Lemma calling_finishes enter {A} (c : Call) (op : Eff World A) :
  clean_op op → (∀ w e, e ∈ calls_back c w → finishes (enter e)) →
  finishes (Nested.calling enter A c op).
Proof.
  intros Hop Henter. apply finishes_bind_get. intros h _.
  apply finishes_bind; [by apply hexternal_finishes|intros a].
  apply finishes_bind; [|intros; apply finishes_ret].
  apply run_entrants_finishes, Henter.
Qed.

(** The induction on the depth: a call of rank below the depth finishes. *)
Lemma enter_at_finishes fuel :
  B < fuel → ∀ depth e, rank e < depth → finishes (Nested.enter_at fuel depth e).
Proof.
  intros Hfuel. induction depth as [|depth IH]; intros e Hrank; [lia|]. simpl.
  apply run_entrant_finishes; [|intros A c op Hc Hop|done].
  - intros r. by apply calling_plain.
  - apply calling_finishes; [done|]. intros w e' He'. apply IH.
    pose proof (ranked e c w e' Hc He'). lia.
Qed.

End returns.

(** ** The reference world *)

#[export] Instance ref_clean : Clean (H := ref_host).
Proof.
  split; intros; intros w; unfold result; simpl;
    unfold ref_handle, ref_deactivate, ref_destroy, ref_createContainer,
      ref_updateContainer, ref_new, unless_fault;
    by repeat case_bool_decide.
Qed.

(** The calls back of [meddlesome]. *)
Lemma meddlesome_calls (c : Call (H := ref_host)) w e :
  e ∈ calls_back (Environment := meddlesome) c w →
  (c = HandleComponentInteraction 2 7 ∧
   e ∈ [Back (CbCreateInstance 5 None); Back (CbDestroy (3, 0)); Dispatch (H := ref_host) 8]) ∨
  (c = CreateContainer 5 ∧ e = Back (CbCreateInstance 6 None)).
Proof.
  destruct c as [r i|r|r|r|content c|channel|ci]; simpl;
    try (by intros ?%elem_of_nil).
  - destruct r as [|[|[|r]]]; try (by intros ?%elem_of_nil).
    destruct i as [|[|[|[|[|[|[|[|i]]]]]]]]; try (by intros ?%elem_of_nil).
    intros He. by left.
  - destruct r as [|[|[|[|[|[|r]]]]]]; try (by intros ?%elem_of_nil).
    intros ->%list_elem_of_singleton. by right.
Qed.

(** Its nesting is bounded: the dispatch of the interaction 7 above the
    calls its handler makes, the creating calls above what the reconciler
    calls back for renderer 5. *)
Definition meddlesome_rank (e : entrant (H := ref_host)) : nat :=
  match e with
  | Dispatch 7 => 2
  | Back (CbCreateInstance 5 _) => 1
  | Older (OlderChannel _ _ | OlderCommand _ _) => 1
  | _ => 0
  end.

Lemma meddlesome_ranked (e : entrant (H := ref_host)) c w e' :
  issues e c → e' ∈ calls_back (Environment := meddlesome) c w →
  meddlesome_rank e' < meddlesome_rank e.
Proof.
  intros Hc [[-> He']|[-> ->]]%meddlesome_calls.
  - destruct e as [[]|i|[]]; simpl in Hc; try done. subst i.
    rewrite !elem_of_cons, elem_of_nil in He'.
    destruct He' as [->|[->|[->|[]]]]; simpl; lia.
  - destruct e as [[r ic| | |]|i|[]]; simpl in Hc; try done; subst; simpl; lia.
Qed.

(** ** The theorem *)

(** C23: every call returns.  With an integer limit [maxInstances] and a
    bound [B] of at least its floor plus one on the length of every
    array, when [renderer.deactivate()] makes no call back and the calls
    back of the other external calls do not nest without end (each call
    into the class has a rank, and whatever an external call it makes
    calls back has a smaller one), on a host that does not throw the mark
    of a cut-off run: a call into the class (a creating call of either
    class, a method of an instance, a dispatch) with more depth than its
    rank and more fuel than [B] is not cut off, whatever it leads to; it
    ends as it does with any greater depth and fuel, so that depth and
    fuel are bounds of the model and not of the program; and it leaves
    the configuration and the bound on the arrays as they were, so that
    the next call returns as well. *)
Theorem nested_call_returns `{Host} {environment : Environment} (z : Z)
    (B fuel depth fuel' depth' : nat) (rank : entrant → nat) (e : entrant) (h : HState) :
  Clean →
  (∀ r w, calls_back (Deactivate r) w = []) →
  (∀ e c w e', issues e c → e' ∈ calls_back c w → rank e' < rank e) →
  limit (Package.maxInstances (this (view h))) = Some z → (z + 1 ≤ Z.of_nat B)%Z →
  (∀ a, length (array a h) ≤ B) →
  rank e < depth → B < fuel → depth ≤ depth' → fuel ≤ fuel' →
  result (Nested.enter_at fuel depth e) h ≠ Throw OutOfFuel ∧
  Nested.enter_at fuel' depth' e h = Nested.enter_at fuel depth e h ∧
  hconfig (final (Nested.enter_at fuel depth e) h) = hconfig h ∧
  ∀ a, length (array a (final (Nested.enter_at fuel depth e) h)) ≤ B.
Proof.
  intros Hclean Hquiet Hranked Hz HB Hh Hrank Hfuel Hdepth Hfuel'.
  destruct (enter_at_finishes (hconfig h) B rank) with fuel depth e h
    as (Hres & Hc & Hfin); [|done..|by split|].
  { intros n Hgt. apply (gt_false_limit n _ z Hz) in Hgt. lia. }
  split_and!; [done| |done..]. by apply enter_at_below.
Qed.

Lemma nested_call_returns_witness :
  result (Nested.enter_at (environment := meddlesome) 4 3 (Dispatch (H := ref_host) 7))
    three_heap ≠ Throw OutOfFuel ∧
  Nested.enter_at (environment := meddlesome) 50 9 (Dispatch (H := ref_host) 7) three_heap =
    Nested.enter_at (environment := meddlesome) 4 3 (Dispatch (H := ref_host) 7) three_heap ∧
  hconfig (final (Nested.enter_at (environment := meddlesome) 4 3
                    (Dispatch (H := ref_host) 7)) three_heap) = hconfig three_heap ∧
  ∀ a, length (array a (final (Nested.enter_at (environment := meddlesome) 4 3
                                 (Dispatch (H := ref_host) 7)) three_heap)) ≤ 3.
Proof.
  apply (nested_call_returns (H := ref_host) (environment := meddlesome) 2 3 4 3 50 9
           meddlesome_rank);
    [apply ref_clean|done|apply meddlesome_ranked|reflexivity|lia| |simpl; lia|lia..].
  intros a. unfold array, three_heap. simpl.
  destruct (decide (a = 0)) as [->|Hne];
    [by rewrite lookup_singleton_eq|rewrite lookup_singleton_ne by done; simpl; lia].
Defined.
