(* ===== verification/Agreement.v ===== *)
(** * The heap models against the earlier models

    The models of the shared array agree where they overlap.  When no
    external call calls back, the methods of the older core over the heap
    ([Nested], run with [direct] external calls) end as the methods of
    [Core] do over the list ([simulates]): the aliasing of the array is
    not observable there, and what is proved of the older core over the
    list is proved of its heap.  And in the environment of [Reentrant],
    where a handler calls back and no other external call does
    ([handlers_only]), a call of [Nested] is the call of [Reentrant] and
    a dispatch is its dispatch. *)

From stdpp Require Import base tactics option list gmap relations.
From S2P Require Import Prelude Js Host Types ReacordPackage ReacordCore.
From S2P Require Import RefWorld Pool Dispatch Lifecycle Allocation.
From S2P Require Import Variants Machine Arrays Reentrant Wellformed Nested.

(** The environment of [Reentrant]: a handler makes its calls back, every
    other external call makes none. *)
Definition handlers_only `{Host} (reentrant : Reentrant) : Environment :=
  {| calls_back := λ c w,
       match c with
       | HandleComponentInteraction r i => Back <$> handler_calls r i w
       | _ => []
       end |}.

(** External calls that make no call back. *)
Definition direct `{Host} : runner := λ A c op, hexternal c op.

(** The instance of the older core a handle stands for. *)
Definition Core_instance_of `{Host} (i : InstanceHandle) (inst : ReacordInstance.t) : Prop :=
  inst = Core.instanceOf i.1 i.2.

(** A loop that reports the end of its fuel in its result, as a run that
    is cut off. *)
Definition cut_off `{Host} (m : Eff HState (option unit)) : Eff HState unit :=
  let* ended := m in
  match ended with
  | Some _ => ret tt
  | None => throw OutOfFuel
  end.

(** ** The methods of the older core, when they make no call back *)

Section older.
Context `{Host} (ext : runner).
Hypothesis ext_plain : ∀ c, (∀ r i, c ≠ HandleComponentInteraction r i) → plain ext c.
Implicit Types (h : HState) (r : Renderer) (i : ComponentInteraction).

Lemma simulates_outside {A} c (op : Eff World A) :
  (∀ r i, c ≠ HandleComponentInteraction r i) →
  simulates eq (ext A c op) (external c op).
Proof.
  intros Hc. apply (simulates_proper eq (hexternal c op) _ (external c op));
    [symmetry; by apply ext_plain|done|apply simulates_external].
Qed.

Lemma simulates_Core_createInstance r ic :
  simulates Core_instance_of (Nested.Core_createInstance ext r ic)
    (Core.createInstance r ic).
Proof.
  apply (simulates_proper _ (hregister r ;; Core_hattach ext r ic) _
           (register r ;; Core_attach r ic)); [symmetry..|].
  { rewrite Core_createInstance_registering. apply registering_hregister.
    intros; by apply ext_plain. }
  { apply Core_createInstance_register. }
  apply simulates_bind with eq; [apply simulates_hregister|intros _ _ _].
  apply simulates_bind with eq; [by apply simulates_outside|intros c _ <-].
  apply simulates_bind with eq; [|intros; by apply simulates_ret].
  destruct ic; [by apply simulates_outside|by apply simulates_ret].
Qed.

Lemma simulates_factories ic :
  (∀ channel,
     simulates Core_instance_of (Nested.createChannelRendererInstance ext channel ic)
       (Core.createChannelRendererInstance channel ic)) ∧
  (∀ ci,
     simulates Core_instance_of (Nested.createCommandReplyRendererInstance ext ci ic)
       (Core.createCommandReplyRendererInstance ci ic)).
Proof.
  split; intros;
    (apply simulates_bind with eq;
       [by apply simulates_outside|intros r _ <-; apply simulates_Core_createInstance]).
Qed.

(** The methods of an instance of the older core. *)
Lemma simulates_Core_instance (inst : InstanceHandle) :
  (∀ content,
     simulates eq (Nested.Core_render ext inst content)
       (ReacordInstance.render (Core.instanceOf inst.1 inst.2) content)) ∧
  simulates eq (Nested.instance_deactivate ext inst)
    (ReacordInstance.deactivate (Core.instanceOf inst.1 inst.2)) ∧
  simulates eq (Nested.destroy ext inst)
    (ReacordInstance.destroy (Core.instanceOf inst.1 inst.2)).
Proof.
  split_and!.
  - intros content. by apply simulates_outside.
  - apply (simulates_proper eq (Shared.instance_deactivate inst) _
             (ReacordInstance.deactivate (Package.instanceOf inst.1 inst.2)));
      [symmetry; apply deactivate_plain; intros; by apply ext_plain|done
      |apply simulates_instance_deactivate].
  - apply (simulates_proper eq (Shared.destroy inst) _
             (ReacordInstance.destroy (Package.instanceOf inst.1 inst.2)));
      [symmetry; apply destroy_plain; by apply ext_plain|done|apply simulates_destroy].
Qed.

End older.

(** ** The loop over the array object *)

Section loop.
Context `{Host} {reentrant : Reentrant} (ext : runner) (i : ComponentInteraction).
Hypothesis ext_handle : ∀ r,
  ext bool (HandleComponentInteraction r i) (host_handleComponentInteraction r i) ≡
    Reentry.handle r i.

Lemma loop_cut_off : ∀ fuel a n,
  Nested.handleComponentInteraction_loop ext fuel a n i ≡
    cut_off (Reentry.handleComponentInteraction_loop fuel a n i).
Proof.
  induction fuel as [|fuel IH]; intros a n; [done|]. simpl.
  unfold cut_off. etrans; [|symmetry; apply bind_assoc].
  apply bind_proper; [done|intros h].
  destruct (array a h !! n) as [r|]; [|done].
  etrans; [|symmetry; apply bind_assoc].
  apply bind_proper; [apply ext_handle|].
  intros []; [done|apply IH].
Qed.

Lemma handleComponentInteraction_cut_off fuel :
  Nested.handleComponentInteraction ext fuel i ≡
    cut_off (Reentry.handleComponentInteraction fuel i).
Proof.
  unfold Nested.handleComponentInteraction, Reentry.handleComponentInteraction, cut_off.
  etrans; [|symmetry; apply bind_assoc].
  apply bind_proper; [done|intros h]. apply loop_cut_off.
Qed.

End loop.

(** A loop that ended is not cut off. *)
Lemma cut_off_ended `{Host} (m : Eff HState (option unit)) h :
  result m h ≠ Normal None →
  final (cut_off m) h = final m h ∧
  result (cut_off m) h =
    match result m h with
    | Normal _ => Normal tt
    | Throw e => Throw e
    end.
Proof.
  intros Hm. unfold cut_off. rewrite final_bind, result_bind.
  by destruct (result m h) as [[[]|]|e].
Qed.

(** ** When only handlers call back *)

Section reentry.
Context `{Host} {reentrant : Reentrant}.
Implicit Types (h : HState) (r : Renderer) (cb : callback) (i : ComponentInteraction).

#[local] Existing Instance handlers_only.

(** Every call but a handler's is run as in [Arrays]. *)
Lemma outside_plain enter c :
  (∀ r i, c ≠ HandleComponentInteraction r i) → plain (Nested.calling enter) c.
Proof. intros Hc. apply calling_plain. intros w. by destruct c; [destruct (Hc r i)|..]. Qed.

(** The methods make no call to a handler. *)
Lemma run_callback_plain enter fuel cb :
  Nested.run_entrant (Nested.calling enter) fuel (Back cb) ≡ Reentry.run_callback cb.
Proof.
  assert (∀ r, plain (Nested.calling enter) (Deactivate r)) as Hd
    by (intros; by apply outside_plain).
  destruct cb as [r ic|inst content|inst|inst]; simpl.
  - apply bind_proper; [|done].
    etrans; [by apply createInstance_hregister|].
    intros h. unfold hregister, hattach, Shared.createInstance, Nested.render, bind, get.
    destruct (if gt _ _ then _ else _) as [[[]|e] h1]; [|done]. simpl.
    rewrite (outside_plain enter (CreateContainer r)) by done.
    destruct (hexternal _ _ _) as [[c|e] h2]; [|done].
    destruct ic as [content|]; [|done]. unfold Shared.render.
    by rewrite (outside_plain enter (UpdateContainer _ _)) by done.
  - by apply outside_plain.
  - by apply deactivate_plain.
  - apply destroy_plain. by apply outside_plain.
Qed.

Lemma run_callbacks_plain enter cbs :
  (∀ cb, enter (Back cb) ≡ Reentry.run_callback cb) →
  Nested.run_entrants enter (Back <$> cbs) ≡ Reentry.run_callbacks cbs.
Proof.
  intros Henter. induction cbs as [|cb cbs IH]; [done|].
  simpl. apply bind_proper; [apply Henter|by intros _].
Qed.

Lemma handle_plain enter r i :
  (∀ cb, enter (Back cb) ≡ Reentry.run_callback cb) →
  Nested.calling enter bool (HandleComponentInteraction r i)
    (host_handleComponentInteraction r i) ≡ Reentry.handle r i.
Proof.
  intros Henter. apply bind_proper; [done|intros h].
  apply bind_proper; [done|intros claimed].
  apply bind_proper; [by apply run_callbacks_plain|done].
Qed.

(** The runs of [Reentrant] are the runs of [Nested] when only handlers
    call back: with a level of nesting for the call and one for the calls
    of its handlers, a call of a method of the package is the call over
    the shared arrays, and a dispatch is the dispatch of [Reentrant] with
    the same fuel, a loop that ran out of fuel there being a run that is
    cut off here. *)
Lemma nested_runs_of_reentrant (fuel depth : nat) cb i :
  Nested.enter_at (environment := handlers_only reentrant) fuel (S depth) (Back cb) ≡
    Reentry.run_callback cb ∧
  Nested.enter_at (environment := handlers_only reentrant) fuel (S (S depth)) (Dispatch i) ≡
    cut_off (Reentry.handleComponentInteraction fuel i).
Proof.
  split; [apply run_callback_plain|]. simpl.
  apply handleComponentInteraction_cut_off. intros r. apply handle_plain.
  intros cb'. apply run_callback_plain.
Qed.

End reentry.

(** ** The theorem *)

(** C22: the older core over the shared arrays is the older core over
    the list when nothing calls back.  From every heap state, the two
    factory methods and the three methods of an instance of
    [src/library/core/reacord.ts], run over the heap of array objects
    ([push] in place, [filter] into a new array bound to the field), end
    with the outcome, in the world, with the log and with the contents of
    [this.renderers] that the methods of the list model give from the
    view of the state, and the factory methods return the instance over
    the renderer they constructed and the container the reconciler
    returned; and with fuel above the length of the pool the dispatcher
    over the array object is not cut off, and ends as
    [handleComponentInteraction] of the list model does: same world, same
    log, same pool, same exception if any. *)
Theorem older_core_heap_refines_list `{Host} (channel : Channel)
    (ci : CommandInteraction) (ic : option ReactNode) (inst : InstanceHandle)
    (content : ReactNode) (i : ComponentInteraction) (fuel : nat) (h : HState) :
  length (current h) < fuel →
  (simulates Core_instance_of (Nested.createChannelRendererInstance direct channel ic)
     (Core.createChannelRendererInstance channel ic) ∧
   simulates Core_instance_of (Nested.createCommandReplyRendererInstance direct ci ic)
     (Core.createCommandReplyRendererInstance ci ic) ∧
   simulates eq (Nested.Core_render direct inst content)
     (ReacordInstance.render (Core.instanceOf inst.1 inst.2) content) ∧
   simulates eq (Nested.instance_deactivate direct inst)
     (ReacordInstance.deactivate (Core.instanceOf inst.1 inst.2)) ∧
   simulates eq (Nested.destroy direct inst)
     (ReacordInstance.destroy (Core.instanceOf inst.1 inst.2))) ∧
  view (final (Nested.handleComponentInteraction direct fuel i) h) =
    final (Core.handleComponentInteraction i) (view h) ∧
  result (Nested.handleComponentInteraction direct fuel i) h =
    result (Core.handleComponentInteraction i) (view h).
Proof.
  intros Hfuel.
  assert (∀ c, (∀ r i, c ≠ HandleComponentInteraction r i) → plain direct c) as Hplain
    by done.
  split.
  { split_and!; first [by apply simulates_factories|by apply simulates_Core_instance]. }
  rewrite Core_handleComponentInteraction.
  destruct (handleComponentInteraction_no_callbacks i fuel h Hfuel) as [Hview Hres].
  pose proof (handleComponentInteraction_cut_off (reentrant := no_callbacks) direct i
                (λ r h, eq_sym (handle_no_callbacks r i h)) fuel h) as Hrun.
  unfold final, result in *. rewrite Hrun.
  destruct (cut_off_ended (Reentry.handleComponentInteraction (reentrant := no_callbacks)
                             fuel i) h) as [Hfin Hout].
  { unfold result. rewrite Hres. by destruct (Package.handleComponentInteraction i _).1. }
  unfold final, result in *. rewrite Hfin, Hout, Hview, Hres.
  split; [done|]. by destruct (Package.handleComponentInteraction i (view h)).1 as [[]|].
Qed.

Lemma older_core_heap_refines_list_witness :
  view (final (Nested.handleComponentInteraction (H := ref_host) direct 4 7)
          (ref_heap (Some (of_Z 2)) [1; 2; 3] (fresh_world 100 [(2, 7)] []))) =
    final (Core.handleComponentInteraction 7)
      (view (ref_heap (Some (of_Z 2)) [1; 2; 3] (fresh_world 100 [(2, 7)] []))) ∧
  result (Nested.handleComponentInteraction (H := ref_host) direct 4 7)
    (ref_heap (Some (of_Z 2)) [1; 2; 3] (fresh_world 100 [(2, 7)] [])) =
    result (Core.handleComponentInteraction 7)
      (view (ref_heap (Some (of_Z 2)) [1; 2; 3] (fresh_world 100 [(2, 7)] []))).
Proof.
  apply (older_core_heap_refines_list (H := ref_host) 0 0 None (1, 0) (Text 1) 7 4).
  vm_compute. lia.
Defined.
