(* ===== verification/Delivery.v ===== *)
(** * What a dispatch offers, when handlers call back

    In the list model a dispatch offers the interaction to a prefix of the
    pool ([Dispatch]).  When handlers call back into the class the loop
    still iterates the array object it started with, and that array may
    have grown under it.  This file gives the general statement, for any
    handlers and any fuel: the renderers a dispatch offers the interaction
    to are, in order and position by position, a prefix of that array as
    it is when the dispatch ends, which is the pool the dispatch started
    with followed by the renderers pushed onto it meanwhile.  Nothing a
    handler calls makes the loop skip a position or visit one twice. *)

From stdpp Require Import base tactics option list gmap relations.
From S2P Require Import Prelude Js Host Types ReacordPackage ReacordCore.
From S2P Require Import RefWorld Pool Dispatch Lifecycle Allocation.
From S2P Require Import Variants Machine Arrays Reentrant Wellformed.

Section heard.
Context `{Host} {reentrant : Reentrant}.
Implicit Types (h : HState) (r : Renderer) (i : ComponentInteraction)
  (L : list Renderer).

(** [heard L h]: the renderers the log of [h] offers an interaction to. *)
Definition heard L h : Prop := handled (hcalls h) = L.

Lemma handled_snoc (cs : list Call) (c : Call) :
  handled (cs ++ [c]) =
    handled cs ++ match c with HandleComponentInteraction r _ => [r] | _ => [] end.
Proof. unfold handled. rewrite omap_app. by destruct c. Qed.

(** A call that is not to a handler is not heard. *)
Lemma hexternal_heard {A} (c : Call) (op : Eff World A) L :
  is_Handle c = false → preserves (heard L) (hexternal c op).
Proof.
  intros Hc h Hh. unfold heard, final. rewrite hexternal_run. simpl.
  rewrite handled_snoc, Hh. destruct c; [done|by rewrite app_nil_r..].
Qed.

Lemma handler_heard r i L h :
  heard L h →
  heard (L ++ [r])
    (final (hexternal (HandleComponentInteraction r i)
              (host_handleComponentInteraction r i)) h).
Proof.
  intros Hh. unfold heard, final. rewrite hexternal_run. simpl.
  by rewrite handled_snoc, Hh.
Qed.

Lemma deactivate_heard x L : preserves (heard L) (Shared.deactivate x).
Proof.
  apply preserves_bind; [by apply preserves_modify|intros _].
  destruct x; [by apply hexternal_heard|apply preserves_throw].
Qed.

Lemma destroy_heard (inst : InstanceHandle) L : preserves (heard L) (Shared.destroy inst).
Proof.
  apply preserves_bind; [by apply preserves_modify|intros _]. by apply hexternal_heard.
Qed.

Lemma render_heard (inst : InstanceHandle) content L :
  preserves (heard L) (Shared.render inst content).
Proof. by apply hexternal_heard. Qed.

Lemma createInstance_heard r ic L : preserves (heard L) (Shared.createInstance r ic).
Proof.
  apply preserves_bind; [apply preserves_get|intros h].
  apply preserves_bind; [destruct (gt _ _); [apply deactivate_heard|apply preserves_ret]|].
  intros _. apply preserves_bind; [by apply preserves_modify|intros _].
  apply preserves_bind; [by apply hexternal_heard|intros c].
  apply preserves_bind; [|intros; apply preserves_ret].
  destruct ic; [apply render_heard|apply preserves_ret].
Qed.

(** A handler is heard once, whatever it calls back. *)
Lemma handle_heard r i L h :
  heard L h → heard (L ++ [r]) (final (Reentry.handle r i) h).
Proof.
  intros Hh. unfold Reentry.handle. rewrite final_bind_get, final_bind.
  pose proof (handler_heard r i L h Hh) as Hh1.
  destruct (result _ h); [|done]. rewrite final_bind.
  assert (heard (L ++ [r])
            (final (Reentry.run_callbacks (handler_calls r i (hworld h)))
               (final (hexternal (HandleComponentInteraction r i)
                         (host_handleComponentInteraction r i)) h))) as Hh2.
  { revert Hh1. apply run_callbacks_preserves;
      auto using createInstance_heard, render_heard, deactivate_heard, destroy_heard. }
  by destruct (result (Reentry.run_callbacks _) _).
Qed.

(** The array at [a], from a heap to a heap that extends it. *)
Lemma extends_lookup h h' a n r :
  extends h h' → is_Some (harrays h !! a) → array a h !! n = Some r →
  array a h' !! n = Some r ∧ is_Some (harrays h' !! a).
Proof.
  intros Hext Ha Hn. split.
  - eapply prefix_lookup_Some; [done|by apply extends_array].
  - destruct Hext as (_ & _ & Harr), Ha as [l Hl].
    destruct (Harr a l Hl) as [l' ->]. by eexists.
Qed.

(** The loop from position [n] of the array at [a]: what it offers is what
    the array holds from [n] on, when the loop ends. *)
Lemma loop_offers i fuel : ∀ a n h L,
  heap_wf h → is_Some (harrays h !! a) → heard L h →
  ∃ k, heard (L ++ take k (drop n (array a (final
              (Reentry.handleComponentInteraction_loop fuel a n i) h))))
         (final (Reentry.handleComponentInteraction_loop fuel a n i) h).
Proof.
  induction fuel as [|fuel IH]; intros a n h L Hwf Ha Hh.
  { exists 0. simpl. by rewrite final_ret, take_0, app_nil_r. }
  destruct (array a h !! n) as [r|] eqn:Hn.
  - destruct (run_at _ _ h (loop_Some fuel a n i h r Hn)) as [-> _].
    rewrite final_bind.
    destruct (handle_safe r i h Hwf) as [Hwf1 Hext1].
    destruct (extends_lookup h _ a n r Hext1 Ha Hn) as [Hn1 Ha1].
    pose proof (handle_heard r i L h Hh) as Hh1.
    destruct (result (Reentry.handle r i) h) as [[]|];
      [exists 1; rewrite final_ret; by rewrite (drop_S _ r n Hn1)| |
       exists 1; by rewrite (drop_S _ r n Hn1)].
    destruct (IH a (S n) _ (L ++ [r]) Hwf1 Ha1 Hh1) as [k Hk]. exists (S k).
    destruct (loop_safe i fuel a (S n) _ Hwf1) as [_ Hext2].
    destruct (extends_lookup _ _ a n r Hext2 Ha1 Hn1) as [Hn2 _].
    rewrite (drop_S _ r n Hn2). simpl. by rewrite (cons_middle r), app_assoc.
  - exists 0. destruct (run_at _ _ h (loop_None fuel a n i h Hn)) as [-> _].
    by rewrite final_ret, take_0, app_nil_r.
Qed.

End heard.

(** A dispatch of interaction 7 over the pool [[1; 2]] under a limit of
    five: the handler of the first renderer registers a third renderer and
    deactivates the second, which is offered the interaction all the same,
    as is the third. *)
Definition meddling : Reentrant (H := ref_host) :=
  always_calls (H := ref_host) [(1, [CbCreateInstance 3 None; CbDeactivate (2, 0)])].

Definition two_in_heap : HState (H := ref_host) :=
  ref_heap (Some (of_Z 5)) [1; 2] (fresh_world 100 [] []).

(** C39: what a dispatch offers when handlers call back.  From a well
    formed heap, for any handlers, whatever they call back into the class,
    and any fuel, the renderers that [handleComponentInteraction] offers
    the interaction to are, in order, a prefix of the array object the
    loop started with as it is when the dispatch ends; and that array is
    the pool the dispatch started with, followed by what was pushed onto
    it meanwhile.  The loop neither skips a position nor visits one twice,
    and a renderer removed from the pool during the dispatch is still in
    the array. *)
Theorem dispatch_offers_live_array `{Host} {reentrant : Reentrant}
    (i : ComponentInteraction) (fuel : nat) (h : HState) :
  heap_wf h →
  ∃ k, handled (hcalls (final (Reentry.handleComponentInteraction fuel i) h)) =
         handled (hcalls h) ++
           take k (array (hrenderers h)
                     (final (Reentry.handleComponentInteraction fuel i) h)) ∧
       current h `prefix_of`
         array (hrenderers h) (final (Reentry.handleComponentInteraction fuel i) h).
Proof.
  intros Hwf. pose proof Hwf as [Ha _].
  destruct (loop_offers i fuel (hrenderers h) 0 h (handled (hcalls h)) Hwf Ha eq_refl)
    as [k Hk].
  exists k. split; [done|].
  apply extends_array; [|done]. by apply (handleComponentInteraction_safe fuel i h).
Qed.

Lemma dispatch_offers_live_array_witness :
  ∃ k, handled (hcalls (final (Reentry.handleComponentInteraction
                                 (reentrant := meddling) 10 7) two_in_heap)) =
         handled (hcalls two_in_heap) ++
           take k (array (hrenderers two_in_heap)
                     (final (Reentry.handleComponentInteraction
                               (reentrant := meddling) 10 7) two_in_heap)) ∧
       current two_in_heap `prefix_of`
         array (hrenderers two_in_heap)
           (final (Reentry.handleComponentInteraction (reentrant := meddling) 10 7)
              two_in_heap).
Proof.
  apply (dispatch_offers_live_array (H := ref_host) (reentrant := meddling) 7 10
           two_in_heap).
  apply hinitial_wf.
Defined.

(** In that dispatch: all three renderers are offered the interaction, and
    the pool is left with the first and the third. *)
Example meddling_dispatch :
  handled (hcalls (final (Reentry.handleComponentInteraction (reentrant := meddling) 10 7)
                     two_in_heap)) = [1; 2; 3] ∧
  current (final (Reentry.handleComponentInteraction (reentrant := meddling) 10 7)
             two_in_heap) = [1; 3].
Proof. by vm_compute. Qed.
